(** * Eagle schematic import (SCH_EAGLE_PLUGIN): a shallow embedding

    The definitions below follow the C++ of the Eagle schematic importer
    (the [SCH_EAGLE_PLUGIN] member functions and the static helpers that
    precede them).  Coordinates are C++ [int]s; they are modelled as [Z] and
    all statements are about coordinates that stay inside the [int] range
    (signed overflow is undefined behaviour in the source).

    Functions of the code base that the importer calls but that are defined
    in other translation units ([SEG::Contains], [VECTOR2::Resize],
    [TestSegmentHit], [escapeName], [ECOORD::ToSchUnits], ...) are taken as
    section variables; every theorem says which of their properties it
    needs. *)

From Stdlib Require Import ZArith List String Ascii Bool Lia.
From Stdlib Require Import Floats.SpecFloat.
Import ListNotations.
Local Open Scope Z_scope.
Set Warnings "-register-all".

(** ** Geometric primitives *)

(** [wxPoint] and [VECTOR2I] are both pairs of [int]s; the source converts
    freely between them, so one record stands for both. *)
Record VECTOR2I : Type := mkPoint { px : Z; py : Z }.

Definition wxPoint : Type := VECTOR2I.

Definition vadd (a b : VECTOR2I) : VECTOR2I := mkPoint (px a + px b) (py a + py b).
Definition vsub (a b : VECTOR2I) : VECTOR2I := mkPoint (px a - px b) (py a - py b).

(** [VECTOR2<int>::operator*( int )] and [operator/( int )]: componentwise,
    the division being C++ integer division (truncation towards zero). *)
Definition vmul (a : VECTOR2I) (k : Z) : VECTOR2I := mkPoint (px a * k) (py a * k).
Definition vdiv (a : VECTOR2I) (k : Z) : VECTOR2I := mkPoint (Z.quot (px a) k) (Z.quot (py a) k).

Definition point_eqb (a b : VECTOR2I) : bool := (px a =? px b) && (py a =? py b).

Lemma point_eqb_spec (a b : VECTOR2I) : reflect (a = b) (point_eqb a b).
Proof.
  destruct a as [ax ay], b as [bx by_]; unfold point_eqb; simpl.
  destruct (Z.eqb_spec ax bx) as [->|Hx]; simpl.
  - destruct (Z.eqb_spec ay by_) as [->|Hy]; constructor; congruence.
  - constructor; congruence.
Qed.

Lemma point_eqb_refl (a : VECTOR2I) : point_eqb a a = true.
Proof. destruct (point_eqb_spec a a); congruence. Qed.

(** A line segment, [SEG]: its two end points. *)
Record SEG : Type := mkSeg { segA : VECTOR2I; segB : VECTOR2I }.

(** ** Floating point *)

(** C++ [double] and [float] are the IEEE 754 formats binary64 and binary32;
    their values and operations are those of the Standard Library's
    [spec_float], with 53 and 24 bits of precision. *)
Module Floating.

Definition double : Type := spec_float.
Definition float : Type := spec_float.

(** The conversion of an [int] to [double]; it is exact. *)
Definition double_of_int (n : Z) : double := binary_normalize 53 1024 n 0 false.

(** [sqrt], [*], [/] and the comparisons on [double]. *)
Definition dsqrt (x : double) : double := SFsqrt 53 1024 x.
Definition dmul (x y : double) : double := SFmul 53 1024 x y.
Definition ddiv (x y : double) : double := SFdiv 53 1024 x y.
Definition dlt (x y : double) : bool := SFltb x y.

(** A [double] stored in a [float]: rounded to 24 bits, to nearest even. *)
Definition float_of_double (x : double) : float :=
  match x with
  | S754_finite s m e => binary_normalize 24 128 (if s then Zneg m else Zpos m) e s
  | _ => x
  end.

(** [<] on [float]. *)
Definition flt (x y : float) : bool := SFltb x y.

(** A [double] stored in an [int]: the fraction is dropped.  The conversion
    is undefined when the value does not fit; the value taken here is the one
    the x86 conversion instruction gives, the smallest [int]. *)
Definition int_of_double (x : double) : Z :=
  match x with
  | S754_zero _ => 0
  | S754_finite s m e =>
      let v := if 0 <=? e then Zpos m * 2 ^ e else Z.quot (Zpos m) (2 ^ (- e)) in
      let v := if s then - v else v in
      if (- 2 ^ 31 <=? v) && (v <? 2 ^ 31) then v else - 2 ^ 31
  | _ => - 2 ^ 31
  end.

End Floating.

(** ** Text alignment: [eagleToKicadAlignment] *)

Module Alignment.

(** The nine enumerators of [ETEXT]'s alignment enumeration.  Their numeric
    values are declared with [ETEXT] in the Eagle parser header; the importer
    only compares against them and negates ([align = -align]). *)
Record ETEXT_ALIGN : Type := mkAlign {
  CENTER : Z;
  CENTER_LEFT : Z;
  TOP_CENTER : Z;
  TOP_LEFT : Z;
  TOP_RIGHT : Z;
  CENTER_RIGHT : Z;
  BOTTOM_CENTER : Z;
  BOTTOM_LEFT : Z;
  BOTTOM_RIGHT : Z
}.

Definition members (E : ETEXT_ALIGN) : list Z :=
  [CENTER E; CENTER_LEFT E; TOP_CENTER E; TOP_LEFT E; TOP_RIGHT E;
   CENTER_RIGHT E; BOTTOM_CENTER E; BOTTOM_LEFT E; BOTTOM_RIGHT E].

(** The values the parser header gives the enumerators: the bottom/right
    members are the negated top/left ones. *)
Definition eagle_align : ETEXT_ALIGN :=
  {| CENTER := 0; CENTER_LEFT := 1; TOP_CENTER := 2; TOP_LEFT := 3; TOP_RIGHT := 4;
     CENTER_RIGHT := -1; BOTTOM_CENTER := -2; BOTTOM_LEFT := -4; BOTTOM_RIGHT := -3 |}.

Inductive EDA_TEXT_HJUSTIFY_T : Type :=
  | GR_TEXT_HJUSTIFY_LEFT | GR_TEXT_HJUSTIFY_CENTER | GR_TEXT_HJUSTIFY_RIGHT.

Inductive EDA_TEXT_VJUSTIFY_T : Type :=
  | GR_TEXT_VJUSTIFY_TOP | GR_TEXT_VJUSTIFY_CENTER | GR_TEXT_VJUSTIFY_BOTTOM.

(** The attributes of an [EDA_TEXT] that the importer sets. *)
Record EDA_TEXT : Type := mkText {
  textAngle : Z;
  horizJustify : EDA_TEXT_HJUSTIFY_T;
  vertJustify : EDA_TEXT_VJUSTIFY_T
}.

Definition SetTextAngle (t : EDA_TEXT) (a : Z) : EDA_TEXT :=
  mkText a (horizJustify t) (vertJustify t).

Definition SetJustify (t : EDA_TEXT) (h : EDA_TEXT_HJUSTIFY_T) (v : EDA_TEXT_VJUSTIFY_T)
  : EDA_TEXT := mkText (textAngle t) h v.

Section Align.

Variable E : ETEXT_ALIGN.

(** First block: the relative rotation.  90 and 270 degrees rotate the text,
    180 and 270 degrees take the opposite alignment. *)
Definition rotateText (aText : EDA_TEXT) (aRelDegress : Z) : EDA_TEXT :=
  if aRelDegress =? 90 then SetTextAngle aText 900
  else if aRelDegress =? 180 then aText
  else if aRelDegress =? 270 then SetTextAngle aText 900
  else aText.

Definition rotateAlign (align aRelDegress : Z) : Z :=
  if aRelDegress =? 90 then align
  else if aRelDegress =? 180 then - align
  else if aRelDegress =? 270 then - align
  else align.

(** Second block: the mirror permutation, one [if]/[else if] chain per pair
    of absolute rotations. *)
Definition mirrorAlign (aMirror : bool) (aAbsDegress align : Z) : Z :=
  if aMirror then
    if (aAbsDegress =? 90) || (aAbsDegress =? 270) then
      if align =? BOTTOM_RIGHT E then TOP_RIGHT E
      else if align =? BOTTOM_LEFT E then TOP_LEFT E
      else if align =? TOP_LEFT E then BOTTOM_LEFT E
      else if align =? TOP_RIGHT E then BOTTOM_RIGHT E
      else align
    else if (aAbsDegress =? 0) || (aAbsDegress =? 180) then
      if align =? BOTTOM_RIGHT E then BOTTOM_LEFT E
      else if align =? BOTTOM_LEFT E then BOTTOM_RIGHT E
      else if align =? TOP_LEFT E then TOP_RIGHT E
      else if align =? TOP_RIGHT E then TOP_LEFT E
      else if align =? CENTER_LEFT E then CENTER_RIGHT E
      else if align =? CENTER_RIGHT E then CENTER_LEFT E
      else align
    else align
  else align.

(** Third block: the [switch] over the resulting alignment. *)
Definition applyAlign (aText : EDA_TEXT) (align : Z) : EDA_TEXT :=
  if align =? CENTER E then SetJustify aText GR_TEXT_HJUSTIFY_CENTER GR_TEXT_VJUSTIFY_CENTER
  else if align =? CENTER_LEFT E then SetJustify aText GR_TEXT_HJUSTIFY_LEFT GR_TEXT_VJUSTIFY_CENTER
  else if align =? CENTER_RIGHT E then SetJustify aText GR_TEXT_HJUSTIFY_RIGHT GR_TEXT_VJUSTIFY_CENTER
  else if align =? TOP_CENTER E then SetJustify aText GR_TEXT_HJUSTIFY_CENTER GR_TEXT_VJUSTIFY_TOP
  else if align =? TOP_LEFT E then SetJustify aText GR_TEXT_HJUSTIFY_LEFT GR_TEXT_VJUSTIFY_TOP
  else if align =? TOP_RIGHT E then SetJustify aText GR_TEXT_HJUSTIFY_RIGHT GR_TEXT_VJUSTIFY_TOP
  else if align =? BOTTOM_CENTER E then SetJustify aText GR_TEXT_HJUSTIFY_CENTER GR_TEXT_VJUSTIFY_BOTTOM
  else if align =? BOTTOM_LEFT E then SetJustify aText GR_TEXT_HJUSTIFY_LEFT GR_TEXT_VJUSTIFY_BOTTOM
  else if align =? BOTTOM_RIGHT E then SetJustify aText GR_TEXT_HJUSTIFY_RIGHT GR_TEXT_VJUSTIFY_BOTTOM
  else SetJustify aText GR_TEXT_HJUSTIFY_RIGHT GR_TEXT_VJUSTIFY_BOTTOM.

(** [aSpin] is accepted and never read by the source. *)
Definition eagleToKicadAlignment (aText : EDA_TEXT) (aEagleAlignment aRelDegress : Z)
    (aMirror aSpin : bool) (aAbsDegress : Z) : EDA_TEXT :=
  let align := rotateAlign aEagleAlignment aRelDegress in
  let aText := rotateText aText aRelDegress in
  let align := mirrorAlign aMirror aAbsDegress align in
  applyAlign aText align.

End Align.

End Alignment.

(** ** The source document: XML nodes with their parsed views *)

(** Eagle rotation attribute ([EROT]). *)
Record EROT : Type := mkRot { rot_mirror : bool; rot_spin : bool; rot_degrees : Z }.

(** The parser's typed views of a node.  Coordinates are [ECOORD]s, kept as
    integers and converted by [ToSchUnits] where the importer does. *)
Record EWIRE : Type := mkEWire {
  ew_x1 : Z; ew_y1 : Z; ew_x2 : Z; ew_y2 : Z;
  ew_width : Z; ew_layer : Z; ew_curve : option Floating.double
}.

Record EJUNCTION : Type := mkEJunction { ej_x : Z; ej_y : Z }.

Record ELABEL : Type := mkELabel { el_x : Z; el_y : Z; el_size : Z; el_rot : option EROT }.

Record ETEXT : Type := mkEText {
  et_x : Z; et_y : Z; et_ratio : option Z; et_align : option Z; et_rot : option EROT
}.

Record EFRAME : Type := mkEFrame {
  ef_x1 : Z; ef_y1 : Z; ef_x2 : Z; ef_y2 : Z; ef_columns : Z; ef_rows : Z
}.

Record ECIRCLE : Type := mkECircle { ec_x : Z; ec_y : Z; ec_radius : Z; ec_width : Z }.

Record ERECT : Type := mkERect { er_x1 : Z; er_y1 : Z; er_x2 : Z; er_y2 : Z }.

Record EVERTEX : Type := mkEVertex { ev_x : Z; ev_y : Z }.

Record EPIN : Type := mkEPin {
  ep_name : string; ep_x : Z; ep_y : Z;
  ep_visible : option string; ep_length : option string;
  ep_direction : option string; ep_function : option string;
  ep_rot : option EROT
}.

Record EINSTANCE : Type := mkEInstance {
  ei_part : string; ei_gate : string; ei_x : Z; ei_y : Z;
  ei_smashed : option bool; ei_rot : option EROT
}.

Record EATTR : Type := mkEAttr {
  ea_name : string; ea_x : Z; ea_y : Z;
  ea_align : option Z; ea_rot : option EROT; ea_displayHidden : bool
}.

Record EGATE : Type := mkEGate { eg_name : string; eg_symbol : string }.

Record ECONNECT : Type := mkEConnect { ecn_gate : string; ecn_pin : string; ecn_pad : string }.

Record EDEVICE : Type := mkEDevice {
  ed_name : string; ed_package : option string; ed_connects : list ECONNECT
}.

Record EDEVICE_SET : Type := mkEDeviceSet { eds_name : string; eds_prefix : option string }.

Record EPART : Type := mkEPart {
  epart_name : string; epart_library : string; epart_deviceset : string;
  epart_device : string; epart_value : option string;
  epart_attribute : list (string * string); epart_variant : list (string * string)
}.

Inductive EAGLE_VIEW : Type :=
  | VNone
  | VWire (w : EWIRE)
  | VJunction (j : EJUNCTION)
  | VLabel (l : ELABEL)
  | VText (t : ETEXT)
  | VFrame (f : EFRAME)
  | VCircle (c : ECIRCLE)
  | VRect (r : ERECT)
  | VVertex (v : EVERTEX)
  | VPin (p : EPIN)
  | VInstance (i : EINSTANCE)
  | VAttr (a : EATTR)
  | VGate (g : EGATE)
  | VDevice (d : EDEVICE)
  | VDeviceSet (d : EDEVICE_SET)
  | VPart (p : EPART).

(** A [wxXmlNode]: its name, attributes, text content and children, together
    with the view the parser's constructor ([EWIRE( node )], ...) builds from
    it.  The importer dispatches on the name and reads the view. *)
Inductive wxXmlNode : Type :=
  XmlNode (name : string) (attrs : list (string * string)) (content : string)
          (view : EAGLE_VIEW) (children : list wxXmlNode).

Definition GetName (n : wxXmlNode) : string := let 'XmlNode s _ _ _ _ := n in s.
Definition GetChildren (n : wxXmlNode) : list wxXmlNode := let 'XmlNode _ _ _ _ c := n in c.
Definition GetNodeContent (n : wxXmlNode) : string := let 'XmlNode _ _ c _ _ := n in c.
Definition GetView (n : wxXmlNode) : EAGLE_VIEW := let 'XmlNode _ _ _ v _ := n in v.

Fixpoint assoc {B : Type} (k : string) (l : list (string * B)) : option B :=
  match l with
  | [] => None
  | (k', v) :: r => if String.eqb k k' then Some v else assoc k r
  end.

(** [m[k] = v] on a map with string keys. *)
Fixpoint assocSet {B : Type} (k : string) (v : B) (l : list (string * B)) : list (string * B) :=
  match l with
  | [] => [(k, v)]
  | (k', v') :: r => if String.eqb k k' then (k', v) :: r else (k', v') :: assocSet k v r
  end.

(** [wxXmlNode::GetAttribute( name )]: the value, or the empty string. *)
Definition GetAttribute (n : wxXmlNode) (a : string) : string :=
  let 'XmlNode _ attrs _ _ _ := n in
  match assoc a attrs with Some v => v | None => EmptyString end.

(** [countChildren]: the number of children with the given name. *)
Fixpoint countNamed (l : list wxXmlNode) (aName : string) : Z :=
  match l with
  | [] => 0
  | c :: r => (if String.eqb (GetName c) aName then 1 else 0) + countNamed r aName
  end.

Definition countChildren (aCurrentNode : wxXmlNode) (aName : string) : Z :=
  countNamed (GetChildren aCurrentNode) aName.

(** [MapChildren] followed by [getChildrenNodes( map, name )]: the children
    of the child called [name] (the map keeps the last child of each name),
    or nothing when there is no such child.  The caller walks them with
    [GetNext]. *)
Fixpoint lastNamed (l : list wxXmlNode) (aName : string) (found : option wxXmlNode)
  : option wxXmlNode :=
  match l with
  | [] => found
  | c :: r => lastNamed r aName (if String.eqb (GetName c) aName then Some c else found)
  end.

Definition getChildrenNodes (parent : wxXmlNode) (aName : string) : list wxXmlNode :=
  match lastNamed (GetChildren parent) aName None with
  | Some c => GetChildren c
  | None => []
  end.

Definition default_wire : EWIRE := mkEWire 0 0 0 0 0 0 None.

Definition EWIRE_of (n : wxXmlNode) : EWIRE :=
  match GetView n with VWire w => w | _ => default_wire end.
Definition EJUNCTION_of (n : wxXmlNode) : EJUNCTION :=
  match GetView n with VJunction j => j | _ => mkEJunction 0 0 end.
Definition ELABEL_of (n : wxXmlNode) : ELABEL :=
  match GetView n with VLabel l => l | _ => mkELabel 0 0 0 None end.
Definition ETEXT_of (n : wxXmlNode) : ETEXT :=
  match GetView n with VText t => t | _ => mkEText 0 0 None None None end.
Definition EFRAME_of (n : wxXmlNode) : EFRAME :=
  match GetView n with VFrame f => f | _ => mkEFrame 0 0 0 0 0 0 end.
Definition ECIRCLE_of (n : wxXmlNode) : ECIRCLE :=
  match GetView n with VCircle c => c | _ => mkECircle 0 0 0 0 end.
Definition ERECT_of (n : wxXmlNode) : ERECT :=
  match GetView n with VRect r => r | _ => mkERect 0 0 0 0 end.
Definition EVERTEX_of (n : wxXmlNode) : EVERTEX :=
  match GetView n with VVertex v => v | _ => mkEVertex 0 0 end.
Definition EPIN_of (n : wxXmlNode) : EPIN :=
  match GetView n with
  | VPin p => p
  | _ => mkEPin EmptyString 0 0 None None None None None
  end.
Definition EINSTANCE_of (n : wxXmlNode) : EINSTANCE :=
  match GetView n with
  | VInstance i => i
  | _ => mkEInstance EmptyString EmptyString 0 0 None None
  end.
Definition EATTR_of (n : wxXmlNode) : EATTR :=
  match GetView n with
  | VAttr a => a
  | _ => mkEAttr EmptyString 0 0 None None false
  end.
Definition EGATE_of (n : wxXmlNode) : EGATE :=
  match GetView n with VGate g => g | _ => mkEGate EmptyString EmptyString end.
Definition EDEVICE_of (n : wxXmlNode) : EDEVICE :=
  match GetView n with VDevice d => d | _ => mkEDevice EmptyString None [] end.
Definition EDEVICE_SET_of (n : wxXmlNode) : EDEVICE_SET :=
  match GetView n with VDeviceSet d => d | _ => mkEDeviceSet EmptyString None end.

(** ** The target document: items of a sheet's screen *)

Inductive SCH_LAYER_ID : Type := LAYER_WIRE | LAYER_BUS | LAYER_NOTES.

Definition layer_eqb (a b : SCH_LAYER_ID) : bool :=
  match a, b with
  | LAYER_WIRE, LAYER_WIRE | LAYER_BUS, LAYER_BUS | LAYER_NOTES, LAYER_NOTES => true
  | _, _ => false
  end.

(** [SCH_LINE]: [solid] records [SetLineStyle( PLOT_DASH_TYPE::SOLID )]. *)
Record SCH_LINE : Type := mkLine {
  lineLayer : SCH_LAYER_ID;
  lineStart : wxPoint;
  lineEnd : wxPoint;
  lineSolid : bool
}.

Definition SetStartPoint (l : SCH_LINE) (p : wxPoint) : SCH_LINE :=
  mkLine (lineLayer l) p (lineEnd l) (lineSolid l).
Definition SetEndPoint (l : SCH_LINE) (p : wxPoint) : SCH_LINE :=
  mkLine (lineLayer l) (lineStart l) p (lineSolid l).

Inductive KICAD_T : Type := SCH_TEXT_T | SCH_LABEL_T | SCH_GLOBAL_LABEL_T.

Inductive LABEL_SPIN_STYLE : Type := SPIN_LEFT | SPIN_UP | SPIN_RIGHT | SPIN_BOTTOM.

(** [SCH_TEXT] and its subclasses [SCH_LABEL] and [SCH_GLOBALLABEL]. *)
Record SCH_TEXT : Type := mkSchText {
  textType : KICAD_T;
  textPos : wxPoint;
  textText : string;
  textSize : Z * Z;
  textSpin : LABEL_SPIN_STYLE;
  textBold : bool;
  textAttrs : Alignment.EDA_TEXT
}.

Definition default_EDA_TEXT : Alignment.EDA_TEXT :=
  Alignment.mkText 0 Alignment.GR_TEXT_HJUSTIFY_CENTER Alignment.GR_TEXT_VJUSTIFY_CENTER.

Definition SetTextPosition (t : SCH_TEXT) (p : wxPoint) : SCH_TEXT :=
  mkSchText (textType t) p (textText t) (textSize t) (textSpin t) (textBold t) (textAttrs t).

(** A field of a component: the attributes the importer writes. *)
Record SCH_FIELD : Type := mkField {
  fieldName : string;
  fieldText : string;
  fieldPos : wxPoint;
  fieldVisible : bool;
  fieldAttrs : Alignment.EDA_TEXT
}.

Inductive ELECTRICAL_PINTYPE : Type :=
  | PT_INPUT | PT_OUTPUT | PT_BIDI | PT_TRISTATE | PT_PASSIVE
  | PT_POWER_IN | PT_OPENCOLLECTOR | PT_NC | PT_UNSPECIFIED.

Inductive GRAPHIC_PINSHAPE : Type := PINSHAPE_LINE | INVERTED | CLOCK | INVERTED_CLOCK.

Record LIB_PIN : Type := mkPin {
  pinPos : wxPoint;
  pinName : string;
  pinNumber : string;
  pinUnit : Z;
  pinOrientation : ascii;
  pinLength : Z;
  pinNameTextSize : option Z;
  pinNumberTextSize : option Z;
  pinShape : GRAPHIC_PINSHAPE;
  pinType : ELECTRICAL_PINTYPE
}.

Record LIB_TEXT : Type := mkLibText {
  libTextUnit : Z;
  libTextPos : wxPoint;
  libTextText : string;
  libTextSize : Z * Z;
  libTextBold : bool;
  libTextAttrs : Alignment.EDA_TEXT
}.

(** [LIB_ARC]: position (the centre), the two ends, radius, the two angles,
    pen width, fill mode and unit. *)
Record LIB_ARC : Type := mkArc {
  arcCenter : wxPoint; arcStart : wxPoint; arcEnd : wxPoint;
  arcRadius : Z; arcT1 : Z; arcT2 : Z; arcWidth : Z; arcFilled : bool; arcUnit : Z
}.

Definition SetArcUnit (a : LIB_ARC) (unit : Z) : LIB_ARC :=
  mkArc (arcCenter a) (arcStart a) (arcEnd a) (arcRadius a) (arcT1 a) (arcT2 a)
        (arcWidth a) (arcFilled a) unit.

Inductive LIB_ITEM : Type :=
  | LibCircle (pos : wxPoint) (radius width unit : Z)
  | LibRectangle (pos corner : wxPoint) (unit : Z)
  | LibPolyline (pts : list wxPoint) (unit width : Z) (filled : bool)
  | LibArc (a : LIB_ARC)
  | LibPin (p : LIB_PIN)
  | LibText (t : LIB_TEXT).

Record LIB_FIELD : Type := mkLibField {
  lfText : string;
  lfPos : wxPoint;
  lfSize : Z * Z;
  lfBold : bool;
  lfVisible : bool;
  lfAttrs : Alignment.EDA_TEXT
}.

(** [LIB_PART]: a library symbol. *)
Record LIB_PART : Type := mkPart {
  partName : string;
  partUnitCount : Z;
  partUnitsLocked : bool;
  partPower : bool;
  partReference : LIB_FIELD;
  partValue : LIB_FIELD;
  partItems : list LIB_ITEM
}.

Inductive COMPONENT_ORIENTATION_T : Type :=
  CMP_ORIENT_0 | CMP_ORIENT_90 | CMP_ORIENT_180 | CMP_ORIENT_270.

(** [SCH_COMPONENT]: a placed symbol unit. *)
Record SCH_COMPONENT : Type := mkComponent {
  cmpLibName : string;
  cmpSymbolName : string;
  cmpUnit : Z;
  cmpPos : wxPoint;
  cmpOrientation : COMPONENT_ORIENTATION_T;
  cmpMirrored : bool;
  cmpFootprint : string;
  cmpReference : SCH_FIELD;
  cmpValue : SCH_FIELD;
  cmpFields : list SCH_FIELD;
  cmpHierRefs : list (string * string * Z);
  cmpPartRef : option LIB_PART
}.

Inductive SCH_ITEM : Type :=
  | ItemLine (l : SCH_LINE)
  | ItemJunction (pos : wxPoint)
  | ItemText (t : SCH_TEXT)
  | ItemBusEntry (pos : wxPoint) (flipY : bool)
  | ItemMarker (message : string) (pos : wxPoint)
  | ItemComponent (c : SCH_COMPONENT).

(** Objects are shared by pointer: a label is reached from its segment
    group and from the screen, a wire from the screen and from the
    connection-point map.  An [addr] stands for the pointer; a screen lists
    its items with their addresses, in the order the container yields them. *)
Definition addr : Type := nat.

Definition SCH_SCREEN : Type := list (addr * SCH_ITEM).

Definition Append (scr : SCH_SCREEN) (a : addr) (i : SCH_ITEM) : SCH_SCREEN := scr ++ [(a, i)].

Fixpoint findItem (scr : SCH_SCREEN) (a : addr) : option SCH_ITEM :=
  match scr with
  | [] => None
  | (a', i) :: r => if Nat.eqb a a' then Some i else findItem r a
  end.

Fixpoint setItem (scr : SCH_SCREEN) (a : addr) (i : SCH_ITEM) : SCH_SCREEN :=
  match scr with
  | [] => []
  | (a', i') :: r => if Nat.eqb a a' then (a', i) :: r else (a', i') :: setItem r a i
  end.

Fixpoint DeleteItem (scr : SCH_SCREEN) (a : addr) : SCH_SCREEN :=
  match scr with
  | [] => []
  | (a', i') :: r => if Nat.eqb a a' then r else (a', i') :: DeleteItem r a
  end.

(** An element of a connection point: a wire, or a pin of a placed
    component ([const EDA_ITEM*] in the source). *)
Inductive EDA_ITEM_REF : Type :=
  | WireRef (a : addr)
  | PinRef (cmp : addr) (pin : nat).

Definition ref_eqb (r s : EDA_ITEM_REF) : bool :=
  match r, s with
  | WireRef a, WireRef b => Nat.eqb a b
  | PinRef a i, PinRef b j => Nat.eqb a b && Nat.eqb i j
  | _, _ => false
  end.

(** [std::map<wxPoint, std::set<const EDA_ITEM*>>]. *)
Definition CONN_POINTS : Type := list (wxPoint * list EDA_ITEM_REF).

Fixpoint connFind (m : CONN_POINTS) (p : wxPoint) : option (list EDA_ITEM_REF) :=
  match m with
  | [] => None
  | (q, s) :: r => if point_eqb p q then Some s else connFind r p
  end.

Definition setInsert (s : list EDA_ITEM_REF) (r : EDA_ITEM_REF) : list EDA_ITEM_REF :=
  if existsb (ref_eqb r) s then s else s ++ [r].

(** [m_connPoints[p].emplace( r )]. *)
Fixpoint connEmplace (m : CONN_POINTS) (p : wxPoint) (r : EDA_ITEM_REF) : CONN_POINTS :=
  match m with
  | [] => [(p, [r])]
  | (q, s) :: rest =>
      if point_eqb p q then (q, setInsert s r) :: rest else (q, s) :: connEmplace rest p r
  end.

(** ** Net-name counter: [countNets] *)

Module NetCounts.

(** [std::map<wxString, int>]; a missing key reads as 0 through
    [operator[]]. *)
Definition NET_COUNTS : Type := list (string * Z).

Definition netCount (m : NET_COUNTS) (netName : string) : Z :=
  match assoc netName m with Some n => n | None => 0 end.

Fixpoint setCount (m : NET_COUNTS) (netName : string) (n : Z) : NET_COUNTS :=
  match m with
  | [] => [(netName, n)]
  | (k, v) :: r => if String.eqb netName k then (k, n) :: r else (k, v) :: setCount r netName n
  end.

(** The body of the inner loop: one net node. *)
Definition countNet (m : NET_COUNTS) (netNode : wxXmlNode) : NET_COUNTS :=
  let netName := GetAttribute netNode "name" in
  match assoc netName m with
  | Some n => setCount m netName (n + 1)
  | None => setCount m netName 1
  end.

Definition countSheet (m : NET_COUNTS) (sheetNode : wxXmlNode) : NET_COUNTS :=
  fold_left countNet (getChildrenNodes sheetNode "nets") m.

Definition countNets (m : NET_COUNTS) (aSchematicNode : wxXmlNode) : NET_COUNTS :=
  fold_left countSheet (getChildrenNodes aSchematicNode "sheets") m.

End NetCounts.

(** ** Sheet assembler: wires, junctions, labels, text, frames, segments *)

Module Sheet.

(** A segment group: its labels (shared with the screen) and its wires. *)
Record SEG_DESC : Type := mkSegDesc { labels : list addr; segs : list SEG }.

Inductive SEVERITY : Type := RPT_SEVERITY_INFO | RPT_SEVERITY_ERROR.

(** The members of the plugin that change while a sheet is loaded.
    [heapNext] is the address the next created object gets. *)
Record SheetState : Type := mkSheet {
  screen : SCH_SCREEN;
  heapNext : addr;
  m_segments : list SEG_DESC;
  m_wireIntersections : list VECTOR2I;
  m_connPoints : CONN_POINTS;
  m_reports : list (string * SEVERITY)
}.

Definition withScreen (st : SheetState) (scr : SCH_SCREEN) : SheetState :=
  mkSheet scr (heapNext st) (m_segments st) (m_wireIntersections st) (m_connPoints st)
          (m_reports st).

(** [new]: take the next address. *)
Definition alloc (st : SheetState) : addr * SheetState :=
  (heapNext st,
   mkSheet (screen st) (S (heapNext st)) (m_segments st) (m_wireIntersections st)
           (m_connPoints st) (m_reports st)).

Definition appendItem (st : SheetState) (a : addr) (i : SCH_ITEM) : SheetState :=
  withScreen st (Append (screen st) a i).

(** Create an object and append it to the screen. *)
Definition appendNew (st : SheetState) (i : SCH_ITEM) : SheetState :=
  let '(a, st1) := alloc st in appendItem st1 a i.

Definition withConnPoints (st : SheetState) (m : CONN_POINTS) : SheetState :=
  mkSheet (screen st) (heapNext st) (m_segments st) (m_wireIntersections st) m (m_reports st).

Definition withSegments (st : SheetState) (s : list SEG_DESC) (w : list VECTOR2I)
  : SheetState :=
  mkSheet (screen st) (heapNext st) s w (m_connPoints st) (m_reports st).

Definition Report (st : SheetState) (msg : string) (sev : SEVERITY) : SheetState :=
  mkSheet (screen st) (heapNext st) (m_segments st) (m_wireIntersections st)
          (m_connPoints st) (m_reports st ++ [(msg, sev)]).


Section Loaders.

(** Defined outside the importer's translation unit. *)
Variable ToSchUnits : Z -> Z.                       (* ECOORD::ToSchUnits *)
Variable Mils2iu : Z -> Z.
Variable escapeName : string -> string.
Variable labelTextSize : bool -> Z -> Z.            (* KiROUND( size * 0.75 ) / ( size * 0.85 ) *)
Variable labelSpinStyle : EROT -> LABEL_SPIN_STYLE. (* the SPIN cast and MirrorY *)
Variable ConvertSize : ETEXT -> Z * Z.              (* ETEXT::ConvertSize *)
Variable stripLines : string -> string.             (* the tokenizer loop of loadPlainText *)
Variable Intersect : SEG -> SEG -> bool -> option VECTOR2I. (* SEG::Intersect *)
Variable E : Alignment.ETEXT_ALIGN.

(** Members that are set before the sheets are loaded. *)
Variable m_layerMap : list (Z * SCH_LAYER_ID).
Variable m_netCounts : NetCounts.NET_COUNTS.

Fixpoint layerFind (m : list (Z * SCH_LAYER_ID)) (k : Z) : option SCH_LAYER_ID :=
  match m with
  | [] => None
  | (k', v) :: r => if k =? k' then Some v else layerFind r k
  end.

Definition kiCadLayer (aEagleLayer : Z) : SCH_LAYER_ID :=
  match layerFind m_layerMap aEagleLayer with Some l => l | None => LAYER_NOTES end.

(** [loadWire]: creates the line and records both ends as connection
    points of the new object.  Returns the object's address with it. *)
Definition loadWire (st : SheetState) (aWireNode : wxXmlNode) : addr * SCH_LINE * SheetState :=
  let ewire := EWIRE_of aWireNode in
  let '(a, st1) := alloc st in
  let begin := mkPoint (ToSchUnits (ew_x1 ewire)) (- ToSchUnits (ew_y1 ewire)) in
  let end_ := mkPoint (ToSchUnits (ew_x2 ewire)) (- ToSchUnits (ew_y2 ewire)) in
  let wire := mkLine (kiCadLayer (ew_layer ewire)) begin end_ false in
  let cp := connEmplace (m_connPoints st1) begin (WireRef a) in
  let cp := connEmplace cp end_ (WireRef a) in
  (a, wire, withConnPoints st1 cp).

Definition loadJunction (aJunction : wxXmlNode) : SCH_ITEM :=
  let ejunction := EJUNCTION_of aJunction in
  ItemJunction (mkPoint (ToSchUnits (ej_x ejunction)) (- ToSchUnits (ej_y ejunction))).

Definition loadLabel (aLabelNode : wxXmlNode) (aNetName : string) : SCH_TEXT :=
  let elabel := ELABEL_of aLabelNode in
  let elabelpos := mkPoint (ToSchUnits (el_x elabel)) (- ToSchUnits (el_y elabel)) in
  let global := 1 <? NetCounts.netCount m_netCounts aNetName in
  let size := labelTextSize global (ToSchUnits (el_size elabel)) in
  mkSchText (if global then SCH_GLOBAL_LABEL_T else SCH_LABEL_T)
            elabelpos (escapeName aNetName) (size, size)
            (match el_rot elabel with
             | Some r => labelSpinStyle r
             | None => SPIN_RIGHT
             end)
            false default_EDA_TEXT.

(** [loadTextAttributes]: size, boldness and alignment of a text. *)
Definition loadTextAttributes (aAttribs : ETEXT) : (Z * Z) * bool * Alignment.EDA_TEXT :=
  let bold := match et_ratio aAttribs with Some r => 12 <? r | None => false end in
  let align := match et_align aAttribs with
               | Some a => a | None => Alignment.BOTTOM_LEFT E end in
  let degrees := match et_rot aAttribs with Some r => rot_degrees r | None => 0 end in
  let mirror := match et_rot aAttribs with Some r => rot_mirror r | None => false end in
  let spin := match et_rot aAttribs with Some r => rot_spin r | None => false end in
  (ConvertSize aAttribs, bold,
   Alignment.eagleToKicadAlignment E default_EDA_TEXT align degrees mirror spin 0).



(** *** [loadSegments] *)

(** Apply [f] to [m_segments.back()]. *)
Fixpoint updBack (f : SEG_DESC -> SEG_DESC) (l : list SEG_DESC) : list SEG_DESC :=
  match l with
  | [] => []
  | [d] => [f d]
  | d :: r => d :: updBack f r
  end.

Definition pushSeg (s : SEG) (d : SEG_DESC) : SEG_DESC := mkSegDesc (labels d) (segs d ++ [s]).
Definition pushLabel (a : addr) (d : SEG_DESC) : SEG_DESC := mkSegDesc (labels d ++ [a]) (segs d).

(** [desc.labels.front()->GetText()], read through the screen. *)
Definition frontLabelText (scr : SCH_SCREEN) (desc : SEG_DESC) : option string :=
  match labels desc with
  | [] => None
  | a :: _ => match findItem scr a with
              | Some (ItemText t) => Some (textText t)
              | _ => None
              end
  end.

(** The test [!desc.labels.empty() && desc.labels.front()->GetText() == netName]. *)
Definition sameNet (scr : SCH_SCREEN) (netName : string) (desc : SEG_DESC) : bool :=
  match frontLabelText scr desc with
  | Some t => String.eqb t netName
  | None => false
  end.

(** The intersections of a new wire with the segments recorded so far. *)
Definition wireIntersections (scr : SCH_SCREEN) (descs : list SEG_DESC) (netName : string)
    (thisWire : SEG) : list VECTOR2I :=
  flat_map
    (fun desc =>
       if sameNet scr netName desc then []
       else flat_map (fun seg => match Intersect thisWire seg true with
                                 | Some p => [p]
                                 | None => []
                                 end) (segs desc))
    descs.

(** First loop over a segment's children: the wires.  [firstWire] keeps the
    first wire as it was created (nothing moves it before it is read). *)
Definition wireStep (netName : string) (acc : SheetState * option SCH_LINE)
    (segmentAttribute : wxXmlNode) : SheetState * option SCH_LINE :=
  let '(st, firstWire) := acc in
  if String.eqb (GetName segmentAttribute) "wire" then
    let '(a, wire, st1) := loadWire st segmentAttribute in
    let firstWire := match firstWire with Some w => Some w | None => Some wire end in
    let thisWire := mkSeg (lineStart wire) (lineEnd wire) in
    let found := wireIntersections (screen st1) (m_segments st1) netName thisWire in
    let st2 := withSegments st1 (updBack (pushSeg thisWire) (m_segments st1))
                            (m_wireIntersections st1 ++ found) in
    (appendItem st2 a (ItemLine wire), firstWire)
  else acc.

(** Second loop: junctions and labels. *)
Definition attributeStep (netName : string) (acc : SheetState * bool)
    (segmentAttribute : wxXmlNode) : SheetState * bool :=
  let '(st, labelled) := acc in
  let nodeName := GetName segmentAttribute in
  if String.eqb nodeName "junction" then
    (appendNew st (loadJunction segmentAttribute), labelled)
  else if String.eqb nodeName "label" then
    let label := loadLabel segmentAttribute netName in
    let '(a, st1) := alloc st in
    let st2 := appendItem st1 a (ItemText label) in
    (withSegments st2 (updBack (pushLabel a) (m_segments st2)) (m_wireIntersections st2),
     true)
  else acc.

(** The label added to a segment that has a wire and no label. *)
Definition synthesizedLabel (netName : string) (segmentCount : Z) (labelled : bool)
    (firstWire : option SCH_LINE) : option SCH_TEXT :=
  match firstWire with
  | Some w =>
      if negb labelled then
        let kind :=
          if 1 <? NetCounts.netCount m_netCounts netName then Some SCH_GLOBAL_LABEL_T
          else if 1 <? segmentCount then Some SCH_LABEL_T
          else None in
        match kind with
        | Some k =>
            Some (mkSchText k (lineStart w) (escapeName netName)
                            (Mils2iu 40, Mils2iu 40) SPIN_LEFT false default_EDA_TEXT)
        | None => None
        end
      else None
  | None => None
  end.

(** The state and the flags after the two loops over one segment. *)
Definition segmentLoops (st : SheetState) (netName : string) (currentSegment : wxXmlNode)
  : SheetState * bool * option SCH_LINE :=
  let st0 := withSegments st (m_segments st ++ [mkSegDesc [] []]) (m_wireIntersections st) in
  let '(st1, firstWire) :=
    fold_left (wireStep netName) (GetChildren currentSegment) (st0, None) in
  let '(st2, labelled) :=
    fold_left (attributeStep netName) (GetChildren currentSegment) (st1, false) in
  (st2, labelled, firstWire).

(** The label [loadSegments] synthesizes for one segment, if any. *)
Definition segmentLabel (st : SheetState) (netName : string) (segmentCount : Z)
    (currentSegment : wxXmlNode) : option SCH_TEXT :=
  let '(_, labelled, firstWire) := segmentLoops st netName currentSegment in
  synthesizedLabel netName segmentCount labelled firstWire.

(** The body of the outer loop of [loadSegments]. *)
Definition loadSegment (netName : string) (segmentCount : Z) (st : SheetState)
    (currentSegment : wxXmlNode) : SheetState :=
  let '(st2, labelled, firstWire) := segmentLoops st netName currentSegment in
  match synthesizedLabel netName segmentCount labelled firstWire with
  | Some label => appendNew st2 (ItemText label)
  | None => st2
  end.

(** [aNetClass] is accepted and never read by the source. *)
Definition loadSegments (st : SheetState) (aSegmentsNode : wxXmlNode)
    (netName aNetClass : string) : SheetState :=
  let segmentCount := countChildren aSegmentsNode "segment" in
  fold_left (loadSegment netName segmentCount) (GetChildren aSegmentsNode) st.

(** *** [findNearestLinePoint] *)

(** Modelled from the spec: [SEG::Center], which the geometry library
    defines outside the importer; the spec calls the value the segment
    midpoint.  Integer halving truncates as C++ division does. *)
Definition Center (s : SEG) : VECTOR2I := vadd (segA s) (vdiv (vsub (segB s) (segA s)) 2).

(** The argument of [sqrt] in
    [sqrt( abs( ( ( aPoint.x - testpoint.x ) ^ 2 ) + ( ( aPoint.y - testpoint.y ) ^ 2 ) ) )],
    an [int].  In C++ [^] is the bitwise exclusive or. *)
Definition radicand (aPoint testpoint : VECTOR2I) : Z :=
  Z.abs (Z.lxor (px aPoint - px testpoint) 2 + Z.lxor (py aPoint - py testpoint) 2).

(** [float d = sqrt( ... )]: the [int] is converted to [double], the square
    root is taken in [double] and the result is stored in a [float]. *)
Definition distance (aPoint testpoint : VECTOR2I) : Floating.float :=
  Floating.float_of_double (Floating.dsqrt (Floating.double_of_int (radicand aPoint testpoint))).

(** The three locals of the search; [mindistance = None] stands for
    [std::numeric_limits<float>::max()], which the square root of an [int]
    is always below. *)
Record NEAREST : Type := mkNearest {
  nearestPoint : VECTOR2I;
  nearestLine : option SEG;
  mindistance : option Floating.float
}.

(** [if( d < mindistance )] with its three assignments. *)
Definition tryPoint (aPoint : wxPoint) (line : SEG) (n : NEAREST) (testpoint : VECTOR2I)
  : NEAREST :=
  let d := distance aPoint testpoint in
  if match mindistance n with Some m => Floating.flt d m | None => true end
  then mkNearest testpoint (Some line) (Some d)
  else n.

Definition nearestStep (aPoint : wxPoint) (n : NEAREST) (line : SEG) : NEAREST :=
  let n := tryPoint aPoint line n (segA line) in
  let n := tryPoint aPoint line n (Center line) in
  tryPoint aPoint line n (segB line).

Definition findNearestLinePoint (aPoint : wxPoint) (aLines : list SEG)
  : VECTOR2I * option SEG :=
  let n := fold_left (nearestStep aPoint) aLines (mkNearest (mkPoint 0 0) None None) in
  (nearestPoint n, nearestLine n).

(** *** [adjustNetLabels] *)

Variable Contains : SEG -> VECTOR2I -> bool.        (* SEG::Contains *)
Variable Resize : VECTOR2I -> Z -> VECTOR2I.        (* VECTOR2I::Resize *)
Variable vlt : VECTOR2I -> VECTOR2I -> bool.        (* VECTOR2I::operator< *)

(** [SEG_DESC::LabelAttached]. *)
Fixpoint LabelAttached (l : list SEG) (labelPos : VECTOR2I) : option SEG :=
  match l with
  | [] => None
  | seg :: r => if Contains seg labelPos then Some seg else LabelAttached r labelPos
  end.

(** [std::sort] of the intersections followed by [std::binary_search]: the
    search answers whether some element is equivalent to [aPos], that is,
    neither below nor above it in the order used for sorting. *)
Definition onIntersection (ws : list VECTOR2I) (aPos : VECTOR2I) : bool :=
  existsb (fun q => negb (vlt q aPos) && negb (vlt aPos q)) ws.

(** The displacement loop.  The source loop has no bound of its own; the
    model stops with [None] when [fuel] iterations did not leave it. *)
Fixpoint displace (fuel : nat) (ws : list VECTOR2I) (segAttached : SEG)
    (origPos wireDirection labelPos : VECTOR2I)
    (checkPositive checkNegative move : bool) (trial : Z) : option (VECTOR2I * bool) :=
  if (negb move || onIntersection ws labelPos) && (checkPositive || checkNegative) then
    match fuel with
    | O => None
    | S fuel' =>
        if Z.rem trial 2 =? 1 then
          let labelPos := vadd origPos (vdiv (vmul wireDirection trial) 2) in
          let c := Contains segAttached labelPos in
          displace fuel' ws segAttached origPos wireDirection labelPos
                   c checkNegative c (trial + 1)
        else
          let labelPos := vsub origPos (vdiv (vmul wireDirection trial) 2) in
          let c := Contains segAttached labelPos in
          displace fuel' ws segAttached origPos wireDirection labelPos
                   checkPositive c c (trial + 1)
    end
  else Some (labelPos, move).

(** The rest of the loop body once [segAttached] and the start position
    are known: the search, then [label->SetPosition] when it moved. *)
Definition moveAlong (fuel : nat) (ws : list VECTOR2I) (scr : SCH_SCREEN) (label : addr)
    (t : SCH_TEXT) (labelPos : VECTOR2I) (segAttached : SEG) : option SCH_SCREEN :=
  let wireDirection := Resize (vsub (segB segAttached) (segA segAttached)) (Mils2iu 50) in
  match displace fuel ws segAttached labelPos wireDirection labelPos true true false 0 with
  | Some (pos, true) => Some (setItem scr label (ItemText (SetTextPosition t pos)))
  | Some (_, false) => Some scr
  | None => None
  end.

(** The body of the inner loop: one label of one segment group. *)
Definition adjustLabel (fuel : nat) (ws : list VECTOR2I) (segDesc : SEG_DESC)
    (scr : SCH_SCREEN) (label : addr) : option SCH_SCREEN :=
  match findItem scr label with
  | Some (ItemText t) =>
      let labelPos := textPos t in
      match LabelAttached (segs segDesc) labelPos with
      | Some segAttached =>
          if negb (onIntersection ws labelPos) then Some scr
          else moveAlong fuel ws scr label t labelPos segAttached
      | None =>
          match findNearestLinePoint labelPos (segs segDesc) with
          | (nearest, Some segAttached) => moveAlong fuel ws scr label t nearest segAttached
          | (_, None) => Some scr
          end
      end
  | _ => Some scr
  end.

Fixpoint adjustLabels (fuel : nat) (ws : list VECTOR2I) (segDesc : SEG_DESC)
    (scr : SCH_SCREEN) (l : list addr) : option SCH_SCREEN :=
  match l with
  | [] => Some scr
  | label :: r =>
      match adjustLabel fuel ws segDesc scr label with
      | Some scr' => adjustLabels fuel ws segDesc scr' r
      | None => None
      end
  end.

Fixpoint adjustGroups (fuel : nat) (ws : list VECTOR2I) (scr : SCH_SCREEN)
    (descs : list SEG_DESC) : option SCH_SCREEN :=
  match descs with
  | [] => Some scr
  | segDesc :: r =>
      match adjustLabels fuel ws segDesc scr (labels segDesc) with
      | Some scr' => adjustGroups fuel ws scr' r
      | None => None
      end
  end.

(** [adjustNetLabels]: [None] when some displacement loop did not end
    within [fuel] iterations. *)
Definition adjustNetLabels (fuel : nat) (st : SheetState) : option SheetState :=
  match adjustGroups fuel (m_wireIntersections st) (screen st) (m_segments st) with
  | Some scr => Some (withSegments (withScreen st scr) [] [])
  | None => None
  end.

End Loaders.

End Sheet.

(** ** Bus-entry synthesizer: [moveLabels] and [addBusEntries] *)

Module BusEntries.

Import Sheet.

Definition isLabel (t : SCH_TEXT) : bool :=
  match textType t with
  | SCH_LABEL_T | SCH_GLOBAL_LABEL_T => true
  | SCH_TEXT_T => false
  end.

Definition bus_entry_needed : string := "Bus Entry needed"%string.

Definition off (p : wxPoint) (dx dy : Z) : wxPoint := vadd p (mkPoint dx dy).

Section Synthesizer.

(** Defined outside the importer's translation unit. *)
Variable TestSegmentHit : wxPoint -> wxPoint -> wxPoint -> Z -> bool.
Variable Overlapping : SCH_ITEM -> SCH_LINE -> bool.  (* bounding boxes overlap *)

(** [moveLabels]: every label lying on the wire goes to the new end point. *)
Definition moveLabel (aWire : SCH_LINE) (aNewEndPoint : wxPoint) (e : addr * SCH_ITEM)
  : addr * SCH_ITEM :=
  match snd e with
  | ItemText t =>
      if Overlapping (snd e) aWire && isLabel t
         && TestSegmentHit (textPos t) (lineStart aWire) (lineEnd aWire) 0
      then (fst e, ItemText (SetTextPosition t aNewEndPoint))
      else e
  | _ => e
  end.

Definition moveLabels (scr : SCH_SCREEN) (aWire : SCH_LINE) (aNewEndPoint : wxPoint)
  : SCH_SCREEN := map (moveLabel aWire aNewEndPoint) scr.

(** The wire under test: its address and, while it exists, its value. *)
Definition WIRE : Type := addr * option SCH_LINE.

(** [new SCH_BUS_WIRE_ENTRY( pos, flip )], [Append], [moveLabels] and
    [SetStartPoint] (or [SetEndPoint]) to the same point. *)
Definition entryAtStart (st : SheetState) (w : WIRE) (entryPos : wxPoint) (flip : bool)
    (newStart : wxPoint) : SheetState * WIRE :=
  match snd w with
  | Some line =>
      let st1 := appendNew st (ItemBusEntry entryPos flip) in
      let st2 := withScreen st1 (moveLabels (screen st1) line newStart) in
      let line' := SetStartPoint line newStart in
      (withScreen st2 (setItem (screen st2) (fst w) (ItemLine line')), (fst w, Some line'))
  | None => (st, w)
  end.

Definition entryAtEnd (st : SheetState) (w : WIRE) (entryPos : wxPoint) (flip : bool)
    (newEnd : wxPoint) : SheetState * WIRE :=
  match snd w with
  | Some line =>
      let st1 := appendNew st (ItemBusEntry entryPos flip) in
      let st2 := withScreen st1 (moveLabels (screen st1) line newEnd) in
      let line' := SetEndPoint line newEnd in
      (withScreen st2 (setItem (screen st2) (fst w) (ItemLine line')), (fst w, Some line'))
  | None => (st, w)
  end.

(** The [else] branches: an ERC marker with the message "Bus Entry needed". *)
Definition needMarker (st : SheetState) (w : WIRE) (pos : wxPoint) : SheetState * WIRE :=
  (appendNew st (ItemMarker bus_entry_needed pos), w).

(** The free-angle branches: as above, but a wire that the entry covers
    completely ([target == other]) is deleted. *)
Definition diagonalAtStart (st : SheetState) (w : WIRE) (entryPos : wxPoint) (flip : bool)
    (target other : wxPoint) : SheetState * WIRE :=
  match snd w with
  | Some line =>
      let st1 := appendNew st (ItemBusEntry entryPos flip) in
      let st2 := withScreen st1 (moveLabels (screen st1) line target) in
      if point_eqb target other then
        (withScreen st2 (DeleteItem (screen st2) (fst w)), (fst w, None))
      else
        let line' := SetStartPoint line target in
        (withScreen st2 (setItem (screen st2) (fst w) (ItemLine line')), (fst w, Some line'))
  | None => (st, w)
  end.

(** In the last block the source deletes the wire without clearing its
    pointer; nothing reads it afterwards. *)
Definition diagonalAtEnd (st : SheetState) (w : WIRE) (entryPos : wxPoint) (flip : bool)
    (target other : wxPoint) : SheetState * WIRE :=
  match snd w with
  | Some line =>
      let st1 := appendNew st (ItemBusEntry entryPos flip) in
      let st2 := withScreen st1 (moveLabels (screen st1) line target) in
      if point_eqb target other then
        (withScreen st2 (DeleteItem (screen st2) (fst w)), (fst w, None))
      else
        let line' := SetEndPoint line target in
        (withScreen st2 (setItem (screen st2) (fst w) (ItemLine line')), (fst w, Some line'))
  | None => (st, w)
  end.

Section Pair.

Variables busstart busend : wxPoint.

Definition hit (p : wxPoint) : bool := TestSegmentHit p busstart busend 0.

(** Horizontal wire, vertical bus: the wire start is on the bus. *)
Definition horizontalStart (acc : SheetState * WIRE) (linestart lineend : wxPoint)
  : SheetState * WIRE :=
  let '(st, w) := acc in
  if hit linestart then
    if px lineend <? px busstart then
      if hit (off linestart 0 (-100)) then
        entryAtStart st w (off linestart (-100) 0) true (off linestart (-100) 0)
      else if hit (off linestart 0 100) then
        entryAtStart st w (off linestart (-100) 0) false (off linestart (-100) 0)
      else needMarker st w linestart
    else
      if hit (off linestart 0 (-100)) then
        entryAtStart st w (off linestart 0 (-100)) false (off linestart 100 0)
      else if hit (off linestart 0 100) then
        entryAtStart st w (off linestart 0 100) true (off linestart 100 0)
      else needMarker st w linestart
  else acc.

(** Horizontal wire, vertical bus: the wire end is on the bus. *)
Definition horizontalEnd (acc : SheetState * WIRE) (linestart lineend : wxPoint)
  : SheetState * WIRE :=
  let '(st, w) := acc in
  if hit lineend then
    if px linestart <? px busstart then
      if hit (off lineend 0 100) then
        entryAtEnd st w (off lineend (-100) 0) false (off lineend (-100) 0)
      else if hit (off lineend 0 (-100)) then
        entryAtEnd st w (off lineend (-100) 0) true (off lineend (-100) 0)
      else needMarker st w lineend
    else
      if hit (off lineend 0 (-100)) then
        entryAtEnd st w (off lineend 0 (-100)) false (off lineend 100 0)
      else if hit (off lineend 0 100) then
        entryAtEnd st w (off lineend 0 100) true (off lineend 100 0)
      else needMarker st w lineend
  else acc.

(** Vertical wire, horizontal bus: the wire start is on the bus. *)
Definition verticalStart (acc : SheetState * WIRE) (linestart lineend : wxPoint)
  : SheetState * WIRE :=
  let '(st, w) := acc in
  if hit linestart then
    if py lineend <? py busstart then
      if hit (off linestart (-100) 0) then
        entryAtStart st w (off linestart (-100) 0) true (off linestart 0 (-100))
      else if hit (off linestart 100 0) then
        entryAtStart st w (off linestart 0 100) false (off linestart 0 (-100))
      else needMarker st w linestart
    else
      if hit (off linestart (-100) 0) then
        entryAtStart st w (off linestart (-100) 0) false (off linestart 0 100)
      else if hit (off linestart 100 0) then
        entryAtStart st w (off linestart 100 0) true (off linestart 0 100)
      else needMarker st w linestart
  else acc.

(** Vertical wire, horizontal bus: the wire end is on the bus. *)
Definition verticalEnd (acc : SheetState * WIRE) (linestart lineend : wxPoint)
  : SheetState * WIRE :=
  let '(st, w) := acc in
  if hit lineend then
    if py linestart <? py busstart then
      if hit (off lineend (-100) 0) then
        entryAtEnd st w (off lineend (-100) 0) true (off lineend 0 (-100))
      else if hit (off lineend 100 0) then
        entryAtEnd st w (off lineend 0 (-100)) false (off lineend 0 (-100))
      else needMarker st w lineend
    else
      if hit (off lineend (-100) 0) then
        entryAtEnd st w (off lineend (-100) 0) false (off lineend 0 100)
      else if hit (off lineend 100 0) then
        entryAtEnd st w (off lineend 0 100) true (off lineend 0 100)
      else needMarker st w lineend
  else acc.

(** The block commented "bus entry wire isn't horizontal or vertical": it is
    entered whenever the wire start (re-read from the wire) is on the bus. *)
Definition freeStart (acc : SheetState * WIRE) (linestart lineend : wxPoint)
  : SheetState * WIRE :=
  let '(st, w) := acc in
  if hit linestart then
    let wirevector := vsub linestart lineend in
    if 0 <? px wirevector then
      if 0 <? py wirevector then
        let p := off linestart (-100) (-100) in diagonalAtStart st w p false p lineend
      else
        let p := off linestart (-100) 100 in diagonalAtStart st w p true p lineend
    else
      if 0 <? py wirevector then
        diagonalAtStart st w linestart true (off linestart 100 (-100)) lineend
      else
        diagonalAtStart st w linestart false (off linestart 100 100) lineend
  else acc.

(** The same for the wire end; skipped when the wire has been deleted. *)
Definition freeEnd (acc : SheetState * WIRE) (linestart lineend : wxPoint)
  : SheetState * WIRE :=
  let '(st, w) := acc in
  match snd w with
  | Some _ =>
      if hit lineend then
        let wirevector := vsub linestart lineend in
        if 0 <? px wirevector then
          if 0 <? py wirevector then
            diagonalAtEnd st w lineend false (off lineend 100 100) linestart
          else
            diagonalAtEnd st w lineend true (off lineend 100 (-100)) linestart
        else
          if 0 <? py wirevector then
            let p := off lineend (-100) 100 in diagonalAtEnd st w p true p linestart
          else
            let p := off lineend (-100) (-100) in diagonalAtEnd st w p false p linestart
      else acc
  | None => acc
  end.

(** The body of the inner loop for one wire ([LAYER_WIRE]) against the bus. *)
Definition busWirePair (st : SheetState) (la : addr) (line : SCH_LINE) : SheetState * WIRE :=
  let linestart := lineStart line in
  let lineend := lineEnd line in
  let acc := (st, (la, Some line)) in
  let acc :=
    if (py linestart =? py lineend) && (px busstart =? px busend) then
      horizontalEnd (horizontalStart acc linestart lineend) linestart lineend
    else acc in
  let acc :=
    if (px linestart =? px lineend) && (py busstart =? py busend) then
      verticalEnd (verticalStart acc linestart lineend) linestart lineend
    else acc in
  match snd (snd acc) with
  | Some line' =>
      let linestart := lineStart line' in
      let lineend := lineEnd line' in
      freeEnd (freeStart acc linestart lineend) linestart lineend
  | None => acc
  end.

End Pair.

(** The inner loop: the lines that follow the bus in the container. *)
Fixpoint wiresAfter (bus : SCH_LINE) (rest : list addr) (st : SheetState) : SheetState :=
  match rest with
  | [] => st
  | la :: rest' =>
      let st' :=
        match findItem (screen st) la with
        | Some (ItemLine line) =>
            if layer_eqb (lineLayer line) LAYER_WIRE
            then fst (busWirePair (lineStart bus) (lineEnd bus) st la line)
            else st
        | _ => st
        end in
      wiresAfter bus rest' st'
  end.

(** The outer loop over the lines of the screen. *)
Fixpoint busLoop (lines : list addr) (st : SheetState) : SheetState :=
  match lines with
  | [] => st
  | ba :: rest =>
      let st' :=
        match findItem (screen st) ba with
        | Some (ItemLine bus) =>
            if layer_eqb (lineLayer bus) LAYER_BUS then wiresAfter bus rest st else st
        | _ => st
        end in
      busLoop rest st'
  end.

Definition lineAddrs (scr : SCH_SCREEN) : list addr :=
  flat_map (fun e => match snd e with ItemLine _ => [fst e] | _ => [] end) scr.

(** [addBusEntries]: the lines are visited in the container's order, taken
    here to be the order of the screen list. *)
Definition addBusEntries (st : SheetState) : SheetState :=
  busLoop (lineAddrs (screen st)) st.

End Synthesizer.

(** Modelled from the spec: [TestSegmentHit] with distance 0, defined in the
    trigonometry helpers outside the importer; the spec reads it as "the
    wire's endpoint lies exactly on the bus line": the point is inside the
    segment's bounding box and collinear with its ends. *)
Definition TestSegmentHit_exact (aRefPoint aStart aEnd : wxPoint) (aDist : Z) : bool :=
  (Z.min (px aStart) (px aEnd) <=? px aRefPoint)
  && (px aRefPoint <=? Z.max (px aStart) (px aEnd))
  && (Z.min (py aStart) (py aEnd) <=? py aRefPoint)
  && (py aRefPoint <=? Z.max (py aStart) (py aEnd))
  && ((px aEnd - px aStart) * (py aRefPoint - py aStart)
      =? (py aEnd - py aStart) * (px aRefPoint - px aStart)).

Definition isBusEntry (e : addr * SCH_ITEM) : bool :=
  match snd e with ItemBusEntry _ _ => true | _ => false end.

Definition isMarker (e : addr * SCH_ITEM) : bool :=
  match snd e with ItemMarker _ _ => true | _ => false end.

(** The numbers of bus entries and of markers on a screen. *)
Definition countBusEntries (scr : SCH_SCREEN) : nat := List.length (filter isBusEntry scr).

Definition countMarkers (scr : SCH_SCREEN) : nat := List.length (filter isMarker scr).

End BusEntries.

(** ** Library translator: [loadSymbol] and the device loop of [loadLibrary] *)

Module Library.

Definition lowerAscii (c : ascii) : ascii :=
  let n := nat_of_ascii c in
  if (Nat.leb 65 n && Nat.leb n 90)%bool then ascii_of_nat (n + 32) else c.

Definition upperAscii (c : ascii) : ascii :=
  let n := nat_of_ascii c in
  if (Nat.leb 97 n && Nat.leb n 122)%bool then ascii_of_nat (n - 32) else c.

Fixpoint mapString (f : ascii -> ascii) (s : string) : string :=
  match s with
  | EmptyString => EmptyString
  | String c r => String (f c) (mapString f r)
  end.

(** [wxString::Lower] and [wxString::Upper]. *)
Definition Lower (s : string) : string := mapString lowerAscii s.
Definition Upper (s : string) : string := mapString upperAscii s.

(** [s.Replace( "*", "" )]. *)
Fixpoint removeStars (s : string) : string :=
  match s with
  | EmptyString => EmptyString
  | String c r => if Ascii.eqb c "*" then removeStars r else String c (removeStars r)
  end.

(** [pinDirectionsMap], in the order a [std::map] yields its keys. *)
Definition pinDirectionsMap : list (string * ELECTRICAL_PINTYPE) :=
  [ ("hiz", PT_TRISTATE); ("in", PT_INPUT); ("io", PT_BIDI); ("nc", PT_NC);
    ("oc", PT_OPENCOLLECTOR); ("out", PT_OUTPUT); ("pas", PT_PASSIVE);
    ("pwr", PT_POWER_IN); ("sup", PT_POWER_IN) ]%string.

(** The [for] loop over [pinDirectionsMap] with its [break]: the type to
    set, and whether the matching key is "sup". *)
Fixpoint findDirection (direction : string) (m : list (string * ELECTRICAL_PINTYPE))
  : option (ELECTRICAL_PINTYPE * bool) :=
  match m with
  | [] => None
  | (k, t) :: r =>
      if String.eqb (Lower direction) k then Some (t, String.eqb k "sup")
      else findDirection direction r
  end.

(** [EAGLE_LIBRARY]. *)
Record EAGLE_LIBRARY : Type := mkLibrary {
  libName : string;
  SymbolNodes : list (string * wxXmlNode);
  GateUnit : list (string * Z);
  package : list (string * string);
  KiCadSymbols : list (string * LIB_PART)
}.

Definition default_LIB_FIELD : LIB_FIELD :=
  mkLibField EmptyString (mkPoint 0 0) (0, 0) false true default_EDA_TEXT.

(** [new LIB_PART( name )]: a normal (not power) symbol without items. *)
Definition new_LIB_PART (name : string) : LIB_PART :=
  mkPart name 1 false false default_LIB_FIELD default_LIB_FIELD [].

Definition AddDrawItem (p : LIB_PART) (i : LIB_ITEM) : LIB_PART :=
  mkPart (partName p) (partUnitCount p) (partUnitsLocked p) (partPower p)
         (partReference p) (partValue p) (partItems p ++ [i]).

Definition AddDrawItems (p : LIB_PART) (l : list LIB_ITEM) : LIB_PART :=
  fold_left AddDrawItem l p.

Definition SetReferenceField (p : LIB_PART) (f : LIB_FIELD) : LIB_PART :=
  mkPart (partName p) (partUnitCount p) (partUnitsLocked p) (partPower p)
         f (partValue p) (partItems p).

Definition SetValueField (p : LIB_PART) (f : LIB_FIELD) : LIB_PART :=
  mkPart (partName p) (partUnitCount p) (partUnitsLocked p) (partPower p)
         (partReference p) f (partItems p).

Definition SetUnitCount (p : LIB_PART) (n : Z) : LIB_PART :=
  mkPart (partName p) n true (partPower p) (partReference p) (partValue p) (partItems p).

Definition SetPower (p : LIB_PART) : LIB_PART :=
  mkPart (partName p) (partUnitCount p) (partUnitsLocked p) true
         (partReference p) (partValue p) (partItems p).

Definition SetName (p : LIB_PART) (n : string) : LIB_PART :=
  mkPart n (partUnitCount p) (partUnitsLocked p) (partPower p)
         (partReference p) (partValue p) (partItems p).

Definition SetVisible (f : LIB_FIELD) (v : bool) : LIB_FIELD :=
  mkLibField (lfText f) (lfPos f) (lfSize f) (lfBold f) v (lfAttrs f).

Definition SetFieldText (f : LIB_FIELD) (t : string) : LIB_FIELD :=
  mkLibField t (lfPos f) (lfSize f) (lfBold f) (lfVisible f) (lfAttrs f).

(** [loadFieldAttributes]. *)
Definition loadFieldAttributes (aField : LIB_FIELD) (aText : LIB_TEXT) : LIB_FIELD :=
  mkLibField (lfText aField) (libTextPos aText) (libTextSize aText) (libTextBold aText)
             true (libTextAttrs aText).

Section Translator.

Variable ToSchUnits : Z -> Z.
Variable Mils2iu : Z -> Z.
Variable escapeName : string -> string.
Variable fixSymbolName : string -> string.      (* LIB_ID::FixIllegalChars *)
Variable wxSplit : string -> list string.       (* wxSplit( pad, ' ' ) *)
Variable formatInt : Z -> string.               (* wxString::Format( "%i", n ) *)
Variable ConvertSize : ETEXT -> Z * Z.
Variable E : Alignment.ETEXT_ALIGN.
(** [ConvertArcCenter], defined with the Eagle parser: the centre of the arc
    from its two ends and its angle. *)
Variable ConvertArcCenter : wxPoint -> wxPoint -> Floating.double -> wxPoint.
(** [LIB_ARC::CalcRadiusAngles], defined with the arc. *)
Variable CalcRadiusAngles : LIB_ARC -> LIB_ARC.
(** The border lines and legends of a symbol frame (floating point). *)
Variable frameBorders : EFRAME -> Z -> Z -> Z -> Z -> list LIB_ITEM.

Definition loadSymbolCircle (aCircleNode : wxXmlNode) (aGateNumber : Z) : LIB_ITEM :=
  let c := ECIRCLE_of aCircleNode in
  LibCircle (mkPoint (ToSchUnits (ec_x c)) (ToSchUnits (ec_y c)))
            (ToSchUnits (ec_radius c)) (ToSchUnits (ec_width c)) aGateNumber.

Definition loadSymbolRectangle (aRectNode : wxXmlNode) (aGateNumber : Z) : LIB_ITEM :=
  let rect := ERECT_of aRectNode in
  LibRectangle (mkPoint (ToSchUnits (er_x1 rect)) (ToSchUnits (er_y1 rect)))
               (mkPoint (ToSchUnits (er_x2 rect)) (ToSchUnits (er_y2 rect))) aGateNumber.

(** [sqrt( abs( dx * dx + dy * dy ) ) * 2] for the vector from [center] to
    [p]; the source calls the value [radius]. *)
Definition arcRadius2 (center p : wxPoint) : Floating.double :=
  Floating.dmul
    (Floating.dsqrt
       (Floating.double_of_int
          (Z.abs ((px center - px p) * (px center - px p)
                  + (py center - py p) * (py center - py p)))))
    (Floating.double_of_int 2).

(** [v * ewire.width.ToSchUnits() * 2 / radius], stored in an [int]. *)
Definition stretch (v width : Z) (radius : Floating.double) : Z :=
  Floating.int_of_double (Floating.ddiv (Floating.double_of_int (v * width * 2)) radius).

(** The test [ewire.width.ToSchUnits() * 2 > radius]. *)
Definition thickArc (center begin : wxPoint) (width : Z) : bool :=
  Floating.dlt (arcRadius2 center begin) (Floating.double_of_int (width * 2)).

(** The arc branch of [loadSymbolWire]; [width] is
    [ewire.width.ToSchUnits()].  A new arc has radius, angles, width and
    unit 0 and is not filled. *)
Definition symbolArc (begin end_ : wxPoint) (curve : Floating.double) (width : Z)
    (aGateNumber : Z) : LIB_ARC :=
  let center :=
    ConvertArcCenter begin end_ (Floating.dmul curve (Floating.double_of_int (-1))) in
  let radius := arcRadius2 center begin in
  let '(begin, end_, radius, penWidth, filled) :=
    if thickArc center begin width then
      let centerStartVector := vsub begin center in
      let centerEndVector := vsub end_ center in
      let centerStartVector :=
        mkPoint (stretch (px centerStartVector) width radius)
                (stretch (py centerStartVector) width radius) in
      let centerEndVector :=
        mkPoint (stretch (px centerEndVector) width radius)
                (stretch (py centerEndVector) width radius) in
      let begin := vadd center centerStartVector in
      let end_ := vadd center centerEndVector in
      (begin, end_, arcRadius2 center begin, 1, true)
    else (begin, end_, radius, width, false) in
  let '(arcstart, arcend) :=
    if Floating.dlt (Floating.double_of_int 0) curve then (begin, end_) else (end_, begin) in
  SetArcUnit
    (CalcRadiusAngles
       (mkArc center arcstart arcend (Floating.int_of_double radius) 0 0 penWidth filled 0))
    aGateNumber.

(** [loadSymbolWire]: nothing for a wire of length zero, an arc for a
    curved wire, a two-point polyline otherwise. *)
Definition loadSymbolWire (aWireNode : wxXmlNode) (aGateNumber : Z) : option LIB_ITEM :=
  let ewire := EWIRE_of aWireNode in
  let begin := mkPoint (ToSchUnits (ew_x1 ewire)) (ToSchUnits (ew_y1 ewire)) in
  let end_ := mkPoint (ToSchUnits (ew_x2 ewire)) (ToSchUnits (ew_y2 ewire)) in
  if point_eqb begin end_ then None
  else
    match ew_curve ewire with
    | Some curve =>
        Some (LibArc (symbolArc begin end_ curve (ToSchUnits (ew_width ewire)) aGateNumber))
    | None =>
        Some (LibPolyline [begin; end_] aGateNumber (ToSchUnits (ew_width ewire)) false)
    end.

Definition loadSymbolPolyLine (aPolygonNode : wxXmlNode) (aGateNumber : Z) : LIB_ITEM :=
  let pts :=
    flat_map (fun vertex =>
                if String.eqb (GetName vertex) "vertex" then
                  let evertex := EVERTEX_of vertex in
                  [mkPoint (ToSchUnits (ev_x evertex)) (ToSchUnits (ev_y evertex))]
                else [])
             (GetChildren aPolygonNode) in
  LibPolyline pts aGateNumber 0 true.

Definition pinOrientationOf (roti : Z) : ascii :=
  if roti =? 0 then "R"%char
  else if roti =? 90 then "U"%char
  else if roti =? 180 then "L"%char
  else if roti =? 270 then "D"%char
  else "R"%char.

Definition loadPin (aEPin : EPIN) (aGateNumber : Z) : LIB_PIN :=
  let roti := match ep_rot aEPin with Some r => rot_degrees r | None => 0 end in
  let length :=
    match ep_length aEPin with
    | Some l =>
        if String.eqb l "short" then Mils2iu 100
        else if String.eqb l "middle" then Mils2iu 200
        else if String.eqb l "long" then Mils2iu 300
        else if String.eqb l "point" then Mils2iu 0
        else Mils2iu 300
    | None => Mils2iu 300
    end in
  let '(nameSize, numberSize) :=
    match ep_visible aEPin with
    | Some v =>
        if String.eqb v "off" then (Some 0, Some 0)
        else if String.eqb v "pad" then (Some 0, None)
        else if String.eqb v "pin" then (None, Some 0)
        else (None, None)
    | None => (None, None)
    end in
  let shape :=
    match ep_function aEPin with
    | Some f =>
        if String.eqb f "dot" then INVERTED
        else if String.eqb f "clk" then CLOCK
        else if String.eqb f "dotclk" then INVERTED_CLOCK
        else PINSHAPE_LINE
    | None => PINSHAPE_LINE
    end in
  mkPin (mkPoint (ToSchUnits (ep_x aEPin)) (ToSchUnits (ep_y aEPin)))
        (ep_name aEPin) EmptyString aGateNumber (pinOrientationOf roti) length
        nameSize numberSize shape PT_UNSPECIFIED.

Definition replaceNewlines (s : string) : string :=
  mapString (fun c => if (Ascii.eqb c (ascii_of_nat 10) || Ascii.eqb c (ascii_of_nat 13))%bool
                      then "_"%char else c) s.

Definition loadSymbolText (aLibText : wxXmlNode) (aGateNumber : Z) : LIB_TEXT :=
  let etext := ETEXT_of aLibText in
  let text := replaceNewlines (GetNodeContent aLibText) in
  let '(size, bold, attrs) := Sheet.loadTextAttributes ConvertSize E etext in
  mkLibText aGateNumber (mkPoint (ToSchUnits (et_x etext)) (ToSchUnits (et_y etext)))
            (if String.eqb text EmptyString then "~~"%string else text) size bold attrs.

(** [loadFrame] for a symbol: the outline, then the borders. *)
Definition loadSymbolFrame (aFrameNode : wxXmlNode) : list LIB_ITEM :=
  let eframe := EFRAME_of aFrameNode in
  let x1 := ToSchUnits (ef_x1 eframe) in
  let x2 := ToSchUnits (ef_x2 eframe) in
  let y1 := ToSchUnits (ef_y1 eframe) in
  let y2 := ToSchUnits (ef_y2 eframe) in
  let xMin := if x2 <? x1 then x2 else x1 in
  let xMax := if x2 <? x1 then x1 else x2 in
  let yMin := if y2 <? y1 then y2 else y1 in
  let yMax := if y2 <? y1 then y1 else y2 in
  LibPolyline [mkPoint xMin yMin; mkPoint xMax yMin; mkPoint xMax yMax;
               mkPoint xMin yMax; mkPoint xMin yMin] 0 0 false
  :: frameBorders eframe xMin xMax yMin yMax.

(** *** [loadSymbol] *)

Definition SetPinType (p : LIB_PIN) (t : ELECTRICAL_PINTYPE) : LIB_PIN :=
  mkPin (pinPos p) (pinName p) (pinNumber p) (pinUnit p) (pinOrientation p) (pinLength p)
        (pinNameTextSize p) (pinNumberTextSize p) (pinShape p) t.

Definition SetPinName (p : LIB_PIN) (n : string) : LIB_PIN :=
  mkPin (pinPos p) n (pinNumber p) (pinUnit p) (pinOrientation p) (pinLength p)
        (pinNameTextSize p) (pinNumberTextSize p) (pinShape p) (pinType p).

Definition SetPinNumber (p : LIB_PIN) (n : string) : LIB_PIN :=
  mkPin (pinPos p) (pinName p) n (pinUnit p) (pinOrientation p) (pinLength p)
        (pinNameTextSize p) (pinNumberTextSize p) (pinShape p) (pinType p).

Definition SetPinUnit (p : LIB_PIN) (u : Z) : LIB_PIN :=
  mkPin (pinPos p) (pinName p) (pinNumber p) u (pinOrientation p) (pinLength p)
        (pinNameTextSize p) (pinNumberTextSize p) (pinShape p) (pinType p).

Definition SetNumberTextSize (p : LIB_PIN) (n : Z) : LIB_PIN :=
  mkPin (pinPos p) (pinName p) (pinNumber p) (pinUnit p) (pinOrientation p) (pinLength p)
        (pinNameTextSize p) (Some n) (pinShape p) (pinType p).

(** The locals of [loadSymbol] together with the part under construction. *)
Record SYMBOL_LOOP : Type := mkLoop {
  aPart : LIB_PART;
  foundName : bool;
  foundValue : bool;
  ispower : bool;
  pincount : Z
}.

(** The loop over [aDevice->connects] with its [break]: the pins to add
    for the first connect of this gate and pin, one per pad. *)
Fixpoint connectPins (connects : list ECONNECT) (aGateName : string) (aGateNumber : Z)
    (pin : LIB_PIN) : list LIB_ITEM :=
  match connects with
  | [] => []
  | connect :: r =>
      if (String.eqb (ecn_gate connect) aGateName
          && String.eqb (pinName pin) (ecn_pin connect))%bool then
        let pads := wxSplit (ecn_pad connect) in
        let pin := SetPinName (SetPinUnit pin aGateNumber) (escapeName (pinName pin)) in
        let pin := if (1 <? Z.of_nat (List.length pads)) then SetNumberTextSize pin 0
                   else pin in
        map (fun padname => LibPin (SetPinNumber pin padname)) pads
      else connectPins r aGateName aGateNumber pin
  end.

(** The ["pin"] branch of the loop. *)
Definition symbolPin (aDevice : EDEVICE) (aGateNumber : Z) (aGateName : string)
    (l : SYMBOL_LOOP) (currentNode : wxXmlNode) : SYMBOL_LOOP :=
  let ePin := EPIN_of currentNode in
  let pin := loadPin ePin aGateNumber in
  let pincount := pincount l + 1 in
  let pin := SetPinType pin PT_BIDI in
  let '(pin, ispower) :=
    match ep_direction ePin with
    | Some d =>
        match findDirection d pinDirectionsMap with
        | Some (t, sup) => (SetPinType pin t, if sup then true else ispower l)
        | None => (pin, ispower l)
        end
    | None => (pin, ispower l)
    end in
  let items :=
    match ed_connects aDevice with
    | [] => [LibPin (SetPinNumber (SetPinUnit pin aGateNumber) (formatInt pincount))]
    | connects => connectPins connects aGateName aGateNumber pin
    end in
  mkLoop (AddDrawItems (aPart l) items) (foundName l) (foundValue l) ispower pincount.

Definition withPart (l : SYMBOL_LOOP) (p : LIB_PART) : SYMBOL_LOOP :=
  mkLoop p (foundName l) (foundValue l) (ispower l) (pincount l).

(** One iteration of the loop over the children of the symbol node. *)
Definition symbolStep (aDevice : EDEVICE) (aGateNumber : Z) (aGateName : string)
    (l : SYMBOL_LOOP) (currentNode : wxXmlNode) : SYMBOL_LOOP :=
  let nodeName := GetName currentNode in
  if String.eqb nodeName "circle" then
    withPart l (AddDrawItem (aPart l) (loadSymbolCircle currentNode aGateNumber))
  else if String.eqb nodeName "pin" then
    symbolPin aDevice aGateNumber aGateName l currentNode
  else if String.eqb nodeName "polygon" then
    withPart l (AddDrawItem (aPart l) (loadSymbolPolyLine currentNode aGateNumber))
  else if String.eqb nodeName "rectangle" then
    withPart l (AddDrawItem (aPart l) (loadSymbolRectangle currentNode aGateNumber))
  else if String.eqb nodeName "text" then
    let libtext := loadSymbolText currentNode aGateNumber in
    if String.eqb (Upper (libTextText libtext)) ">NAME" then
      mkLoop (SetReferenceField (aPart l)
                (loadFieldAttributes (partReference (aPart l)) libtext))
             true (foundValue l) (ispower l) (pincount l)
    else if String.eqb (Upper (libTextText libtext)) ">VALUE" then
      mkLoop (SetValueField (aPart l) (loadFieldAttributes (partValue (aPart l)) libtext))
             (foundName l) true (ispower l) (pincount l)
    else withPart l (AddDrawItem (aPart l) (LibText libtext))
  else if String.eqb nodeName "wire" then
    match loadSymbolWire currentNode aGateNumber with
    | Some item => withPart l (AddDrawItem (aPart l) item)
    | None => l
    end
  else if String.eqb nodeName "frame" then
    withPart l (AddDrawItems (aPart l) (loadSymbolFrame currentNode))
  else l.

(** [loadSymbol]: the part with the unit's items, and whether the unit is a
    power unit. *)
Definition loadSymbol (aSymbolNode : wxXmlNode) (part : LIB_PART) (aDevice : EDEVICE)
    (aGateNumber : Z) (aGateName : string) : bool * LIB_PART :=
  let l := fold_left (symbolStep aDevice aGateNumber aGateName) (GetChildren aSymbolNode)
                     (mkLoop part false false false 0) in
  let p := aPart l in
  let p := if foundName l then p
           else SetReferenceField p (SetVisible (partReference p) false) in
  let p := if foundValue l then p
           else SetValueField p (SetVisible (partValue p) false) in
  (if pincount l =? 1 then ispower l else false, p).

(** *** The device loop of [loadLibrary] *)

(** The locals of the gate loop.  [None] stands for the failure of the
    source when a gate names a symbol the library does not have (a null
    symbol node is dereferenced). *)
Record GATE_LOOP : Type := mkGates {
  kpart : LIB_PART;
  gateUnits : list (string * Z);
  gateindex : Z;
  gatePower : bool
}.

Definition gateStep (lib : EAGLE_LIBRARY) (edeviceset : EDEVICE_SET) (edevice : EDEVICE)
    (acc : option GATE_LOOP) (gateNode : wxXmlNode) : option GATE_LOOP :=
  match acc with
  | None => None
  | Some g =>
      let egate := EGATE_of gateNode in
      let key := (eds_name edeviceset ++ ed_name edevice ++ eg_name egate)%string in
      match assoc (eg_symbol egate) (SymbolNodes lib) with
      | Some symbolNode =>
          let '(power, part) :=
            loadSymbol symbolNode (kpart g) edevice (gateindex g) (eg_name egate) in
          Some (mkGates part (assocSet key (gateindex g) (gateUnits g)) (gateindex g + 1)
                        power)
      | None => None
      end
  end.

(** The body of the loop over the devices of a device set: the symbol that
    is saved, and the gate units and the package it records. *)
Definition loadDevice (lib : EAGLE_LIBRARY) (devicesetNode deviceNode : wxXmlNode)
  : option (LIB_PART * list (string * Z) * option (string * string)) :=
  let edeviceset := EDEVICE_SET_of devicesetNode in
  let prefix := match eds_prefix edeviceset with Some p => p | None => EmptyString end in
  let edevice := EDEVICE_of deviceNode in
  let symbolName :=
    fixSymbolName (removeStars (eds_name edeviceset ++ ed_name edevice)%string) in
  let pkg := match ed_package edevice with
             | Some p => Some (symbolName, p)
             | None => None
             end in
  let part := new_LIB_PART symbolName in
  let gates := getChildrenNodes devicesetNode "gates" in
  let gates_count := countNamed gates "gate" in
  let part := SetUnitCount part gates_count in
  let reference := partReference part in
  let reference :=
    if String.eqb prefix EmptyString then SetVisible reference false
    else SetFieldText reference
           (match ed_package edevice with
            | Some _ => prefix
            | None => String "#" prefix
            end) in
  let part := SetReferenceField part reference in
  match fold_left (gateStep lib edeviceset edevice) gates
                  (Some (mkGates part [] 1 false)) with
  | Some g =>
      let part := SetUnitCount (kpart g) gates_count in
      let part := if (gates_count =? 1) && gatePower g then SetPower part else part in
      let part := SetName part (fixSymbolName (partName part)) in
      Some (part, gateUnits g, pkg)
  | None => None
  end.

End Translator.

End Library.

(** ** Part instances: [loadInstance] *)

Module Instances.

Import Sheet.

(** [kiCadComponentRotation]. *)
Definition kiCadComponentRotation (roti : Z) : COMPONENT_ORIENTATION_T :=
  if roti =? 0 then CMP_ORIENT_0
  else if roti =? 90 then CMP_ORIENT_90
  else if roti =? 180 then CMP_ORIENT_180
  else if roti =? 270 then CMP_ORIENT_270
  else CMP_ORIENT_0.

Fixpoint allDigits (s : string) : bool :=
  match s with
  | EmptyString => true
  | String c r =>
      let n := nat_of_ascii c in (Nat.leb 48 n && Nat.leb n 57 && allDigits r)%bool
  end.

Definition new_SCH_FIELD (name : string) : SCH_FIELD :=
  mkField name EmptyString (mkPoint 0 0) true default_EDA_TEXT.

Definition new_SCH_COMPONENT : SCH_COMPONENT :=
  mkComponent EmptyString EmptyString 1 (mkPoint 0 0) CMP_ORIENT_0 false EmptyString
              (new_SCH_FIELD "Reference") (new_SCH_FIELD "Value") [] [] None.

Definition fieldSetText (f : SCH_FIELD) (t : string) : SCH_FIELD :=
  mkField (fieldName f) t (fieldPos f) (fieldVisible f) (fieldAttrs f).
Definition fieldSetVisible (f : SCH_FIELD) (v : bool) : SCH_FIELD :=
  mkField (fieldName f) (fieldText f) (fieldPos f) v (fieldAttrs f).
Definition fieldSetName (f : SCH_FIELD) (n : string) : SCH_FIELD :=
  mkField n (fieldText f) (fieldPos f) (fieldVisible f) (fieldAttrs f).
Definition fieldPlace (f : SCH_FIELD) (p : wxPoint) (a : Alignment.EDA_TEXT) : SCH_FIELD :=
  mkField (fieldName f) (fieldText f) p (fieldVisible f) a.

(** [ImportValues( libField )] and [SetTextPos( position + libField position )]. *)
Definition importField (f : SCH_FIELD) (pos : wxPoint) (lf : LIB_FIELD) : SCH_FIELD :=
  mkField (fieldName f) (fieldText f) (vadd pos (lfPos lf)) (lfVisible lf) (lfAttrs lf).

Definition withReference (c : SCH_COMPONENT) (f : SCH_FIELD) : SCH_COMPONENT :=
  mkComponent (cmpLibName c) (cmpSymbolName c) (cmpUnit c) (cmpPos c) (cmpOrientation c)
              (cmpMirrored c) (cmpFootprint c) f (cmpValue c) (cmpFields c)
              (cmpHierRefs c) (cmpPartRef c).
Definition withValue (c : SCH_COMPONENT) (f : SCH_FIELD) : SCH_COMPONENT :=
  mkComponent (cmpLibName c) (cmpSymbolName c) (cmpUnit c) (cmpPos c) (cmpOrientation c)
              (cmpMirrored c) (cmpFootprint c) (cmpReference c) f (cmpFields c)
              (cmpHierRefs c) (cmpPartRef c).
Definition withFields (c : SCH_COMPONENT) (l : list SCH_FIELD) : SCH_COMPONENT :=
  mkComponent (cmpLibName c) (cmpSymbolName c) (cmpUnit c) (cmpPos c) (cmpOrientation c)
              (cmpMirrored c) (cmpFootprint c) (cmpReference c) (cmpValue c) l
              (cmpHierRefs c) (cmpPartRef c).
Definition withPartRef (c : SCH_COMPONENT) (p : option LIB_PART) : SCH_COMPONENT :=
  mkComponent (cmpLibName c) (cmpSymbolName c) (cmpUnit c) (cmpPos c) (cmpOrientation c)
              (cmpMirrored c) (cmpFootprint c) (cmpReference c) (cmpValue c) (cmpFields c)
              (cmpHierRefs c) p.
Definition AddHierarchicalReference (c : SCH_COMPONENT) (path ref : string) (unit : Z)
  : SCH_COMPONENT :=
  mkComponent (cmpLibName c) (cmpSymbolName c) (cmpUnit c) (cmpPos c) (cmpOrientation c)
              (cmpMirrored c) (cmpFootprint c) (cmpReference c) (cmpValue c) (cmpFields c)
              (cmpHierRefs c ++ [(path, ref, unit)]) (cmpPartRef c).

(** [AddField( *GetField( VALUE_FIELD ) )] with a new name and text, hidden. *)
Definition addHiddenField (c : SCH_COMPONENT) (name text : string) : SCH_COMPONENT :=
  withFields c (cmpFields c ++
                [fieldSetVisible (fieldSetText (fieldSetName (cmpValue c) name) text) false]).

(** [MirrorHorizontally( aCenter )]: the position is mirrored about the
    vertical axis through [aCenter]. *)
Definition MirrorHorizontally (c : SCH_COMPONENT) (aCenter : Z) : SCH_COMPONENT :=
  mkComponent (cmpLibName c) (cmpSymbolName c) (cmpUnit c)
              (mkPoint (2 * aCenter - px (cmpPos c)) (py (cmpPos c)))
              (cmpOrientation c) true (cmpFootprint c) (cmpReference c) (cmpValue c)
              (cmpFields c) (cmpHierRefs c) (cmpPartRef c).

(** The pins of a symbol that belong to a unit ([GetPins( pins, unit )]);
    unit 0 selects every pin, and a pin of unit 0 belongs to every unit. *)
Definition pinsOf (part : LIB_PART) (unit : Z) : list LIB_PIN :=
  flat_map (fun i => match i with
                     | LibPin p =>
                         if (unit =? 0) || (pinUnit p =? 0) || (pinUnit p =? unit)
                         then [p] else []
                     | _ => []
                     end) (partItems part).

Fixpoint updFirst {A : Type} (test : A -> bool) (f : A -> A) (l : list A) : list A :=
  match l with
  | [] => []
  | x :: r => if test x then f x :: r else x :: updFirst test f r
  end.

Definition msgNoPart (part : string) : string :=
  ("Error parsing Eagle file. Could not find '" ++ part
   ++ "' instance but it is referenced in the schematic.")%string.

Definition msgNoSymbol (kisymbolname : string) : string :=
  ("Could not find '" ++ kisymbolname ++ "' in the imported library.")%string.

Section Instance.

Variable ToSchUnits : Z -> Z.
Variable fixSymbolName : string -> string.
Variable E : Alignment.ETEXT_ALIGN.
Variable getLibName : string.
(** [m_pi->LoadSymbol( library file, name )]: the symbol saved under the
    name, if any. *)
Variable LoadSymbol : string -> option LIB_PART.
(** [SchSymbolLibTable()->LoadSymbol( libId )]. *)
Variable TableLoadSymbol : string -> string -> option LIB_PART.
Variable GetPinPhysicalPosition : SCH_COMPONENT -> LIB_PIN -> wxPoint.
Variable sheetPath : string.   (* sheetpath.PathAsString() + the component's uuid *)

(** Members that are set before the sheets are loaded. *)
Variable m_partlist : list (string * EPART).
Variable m_eagleLibs : list (string * Library.EAGLE_LIBRARY).

(** One ["attribute"] child of the instance node. *)
Definition instanceAttribute (einstance : EINSTANCE)
    (acc : SCH_COMPONENT * bool * bool) (attributeNode : wxXmlNode)
  : SCH_COMPONENT * bool * bool :=
  let '(component, valueAttributeFound, nameAttributeFound) := acc in
  let attr := EATTR_of attributeNode in
  let place (f : SCH_FIELD) : SCH_FIELD :=
    let align := match ea_align attr with
                 | Some a => a | None => Alignment.BOTTOM_LEFT E end in
    let absdegrees := match ea_rot attr with Some r => rot_degrees r | None => 0 end in
    let mirror := match ea_rot attr with Some r => rot_mirror r | None => false end in
    let mirror := match ei_rot einstance with
                  | Some r => if rot_mirror r then negb mirror else mirror
                  | None => mirror
                  end in
    let spin := match ea_rot attr with Some r => rot_spin r | None => false end in
    let f := if ea_displayHidden attr then fieldSetVisible f false else f in
    let rotation := match ei_rot einstance with Some r => rot_degrees r | None => 0 end in
    let reldegrees := Z.rem (absdegrees - rotation + 360) 360 in
    fieldPlace f (mkPoint (ToSchUnits (ea_x attr)) (- ToSchUnits (ea_y attr)))
               (Alignment.eagleToKicadAlignment E (fieldAttrs f) align reldegrees mirror spin
                                                absdegrees) in
  if String.eqb (Library.Lower (ea_name attr)) "name" then
    (withReference component (place (cmpReference component)), valueAttributeFound, true)
  else if String.eqb (Library.Lower (ea_name attr)) "value" then
    (withValue component (place (cmpValue component)), true, nameAttributeFound)
  else
    (* FindField: the first field with that name, the reference and value
       fields first. *)
    if String.eqb (fieldName (cmpReference component)) (ea_name attr) then
      (withReference component (place (fieldSetVisible (cmpReference component) false)),
       valueAttributeFound, nameAttributeFound)
    else if String.eqb (fieldName (cmpValue component)) (ea_name attr) then
      (withValue component (place (fieldSetVisible (cmpValue component) false)),
       valueAttributeFound, nameAttributeFound)
    else
      (withFields component
         (updFirst (fun f => String.eqb (fieldName f) (ea_name attr))
                   (fun f => place (fieldSetVisible f false)) (cmpFields component)),
       valueAttributeFound, nameAttributeFound).

Definition instanceChild (einstance : EINSTANCE)
    (acc : SCH_COMPONENT * bool * bool) (attributeNode : wxXmlNode)
  : SCH_COMPONENT * bool * bool :=
  if String.eqb (GetName attributeNode) "attribute" then
    instanceAttribute einstance acc attributeNode
  else if String.eqb (GetName attributeNode) "variant" then
    let '(component, v, n) := acc in
    let 'XmlNode _ attrs _ _ _ := attributeNode in
    match assoc "name"%string attrs, assoc "value"%string attrs with
    | Some variant, Some value =>
        (addHiddenField component ("VARIANT_" ++ variant)%string value, v, n)
    | _, _ => acc
    end
  else acc.

(** The component [loadInstance] builds once the part and its symbol are
    found, before the pins are looked up. *)
Definition buildComponent (aInstanceNode : wxXmlNode) (einstance : EINSTANCE)
    (epart : EPART) (part : LIB_PART) (kisymbolname package_ : string) (unit : Z)
  : SCH_COMPONENT :=
  let position := mkPoint (ToSchUnits (ei_x einstance)) (- ToSchUnits (ei_y einstance)) in
  let c := mkComponent getLibName kisymbolname unit position CMP_ORIENT_0 false package_
                       (new_SCH_FIELD "Reference") (new_SCH_FIELD "Value") [] [] None in
  let c :=
    match ei_rot einstance with
    | Some r =>
        let c := mkComponent (cmpLibName c) (cmpSymbolName c) (cmpUnit c) (cmpPos c)
                             (kiCadComponentRotation (rot_degrees r)) (cmpMirrored c)
                             (cmpFootprint c) (cmpReference c) (cmpValue c) (cmpFields c)
                             (cmpHierRefs c) (cmpPartRef c) in
        if rot_mirror r then MirrorHorizontally c (ToSchUnits (ei_x einstance)) else c
    | None => c
    end in
  let c := withReference c (importField (cmpReference c) (cmpPos c) (partReference part)) in
  let c := withValue c (importField (cmpValue c) (cmpPos c) (partValue part)) in
  let reference :=
    if String.eqb package_ EmptyString then String "#" (ei_part einstance)
    else ei_part einstance in
  let reference := if allDigits reference then ("UNK" ++ reference)%string else reference in
  let c := withReference c (fieldSetText (cmpReference c) reference) in
  let c := AddHierarchicalReference c sheetPath reference unit in
  let c := withValue c (fieldSetText (cmpValue c)
                          (match epart_value epart with
                           | Some v => v
                           | None => kisymbolname
                           end)) in
  let c := withReference c (fieldSetVisible (cmpReference c)
                              (lfVisible (partReference part))) in
  let c := withValue c (fieldSetVisible (cmpValue c) (lfVisible (partValue part))) in
  let c := fold_left (fun c a => addHiddenField c (fst a) (snd a)) (epart_attribute epart) c in
  let c := fold_left (fun c a => addHiddenField c ("VARIANT_" ++ fst a)%string (snd a))
                     (epart_variant epart) c in
  let '(c, valueAttributeFound, nameAttributeFound) :=
    fold_left (instanceChild einstance) (GetChildren aInstanceNode) (c, false, false) in
  match ei_smashed einstance with
  | Some true =>
      let c := if valueAttributeFound then c
               else withValue c (fieldSetVisible (cmpValue c) false) in
      if nameAttributeFound then c
      else withReference c (fieldSetVisible (cmpReference c) false)
  | _ => c
  end.

(** The loop that saves the pin positions. *)
Fixpoint savePins (cp : CONN_POINTS) (component : SCH_COMPONENT) (a : addr)
    (pins : list LIB_PIN) (i : nat) : CONN_POINTS :=
  match pins with
  | [] => cp
  | pin :: r =>
      savePins (connEmplace cp (GetPinPhysicalPosition component pin) (PinRef a i))
               component a r (S i)
  end.

Definition gateUnitOf (libraryname gatename : string) : Z :=
  match assoc libraryname m_eagleLibs with
  | Some lib => match assoc gatename (Library.GateUnit lib) with Some u => u | None => 0 end
  | None => 0
  end.

Definition packageOf (libraryname kisymbolname : string) : string :=
  match assoc libraryname m_eagleLibs with
  | Some lib => match assoc kisymbolname (Library.package lib) with
                | Some p => p
                | None => EmptyString
                end
  | None => EmptyString
  end.

(** [loadInstance].  The two early returns report an error; the third (the
    [wxCHECK] on the library table) returns silently. *)
Definition loadInstance (st : SheetState) (aInstanceNode : wxXmlNode) : SheetState :=
  let einstance := EINSTANCE_of aInstanceNode in
  match assoc (Library.Upper (ei_part einstance)) m_partlist with
  | None => Report st (msgNoPart (ei_part einstance)) RPT_SEVERITY_ERROR
  | Some epart =>
      let libraryname := epart_library epart in
      let gatename :=
        (epart_deviceset epart ++ epart_device epart ++ ei_gate einstance)%string in
      let symbolname := Library.removeStars (epart_deviceset epart ++ epart_device epart) in
      let kisymbolname := fixSymbolName symbolname in
      let unit := gateUnitOf libraryname gatename in
      let package_ := packageOf libraryname kisymbolname in
      match LoadSymbol kisymbolname with
      | None => Report st (msgNoSymbol kisymbolname) RPT_SEVERITY_ERROR
      | Some part =>
          let component :=
            buildComponent aInstanceNode einstance epart part kisymbolname package_ unit in
          match TableLoadSymbol (cmpLibName component) (cmpSymbolName component) with
          | None => st
          | Some libSymbol =>
              let component := withPartRef component (Some libSymbol) in
              let '(a, st1) := alloc st in
              let pins := pinsOf libSymbol (cmpUnit component) in
              let st2 := withConnPoints st1
                           (savePins (m_connPoints st1) component a pins 0) in
              appendItem st2 a (ItemComponent component)
          end
      end
  end.

End Instance.

End Instances.

(** ** Implicit connections and missing units *)

Module MissingUnits.

Import Sheet.

(** [std::map<int, bool>], keys ascending. *)
Definition UNITS : Type := list (Z * bool).

Fixpoint unitsFind (u : UNITS) (k : Z) : option bool :=
  match u with
  | [] => None
  | (k', v) :: r => if k =? k' then Some v else unitsFind r k
  end.

(** The place of a new key in the ascending order. *)
Fixpoint unitsInsert (u : UNITS) (k : Z) (v : bool) : UNITS :=
  match u with
  | [] => [(k, v)]
  | (k', v') :: r =>
      if k <? k' then (k, v) :: (k', v') :: r
      else (k', v') :: unitsInsert r k v
  end.

(** [units.emplace( k, v )]: inserts only when the key is absent. *)
Definition unitsEmplace (u : UNITS) (k : Z) (v : bool) : UNITS :=
  match unitsFind u k with
  | Some _ => u
  | None => unitsInsert u k v
  end.

(** [units[k] = v]. *)
Fixpoint unitsAssign (u : UNITS) (k : Z) (v : bool) : UNITS :=
  match u with
  | [] => [(k, v)]
  | (k', v') :: r =>
      if k =? k' then (k', v) :: r
      else if k <? k' then (k, v) :: (k', v') :: r
      else (k', v') :: unitsAssign r k v
  end.

(** [std::set<int>::insert]. *)
Fixpoint intSetInsert (s : list Z) (k : Z) : list Z :=
  match s with
  | [] => [k]
  | k' :: r =>
      if k =? k' then s else if k <? k' then k :: s else k' :: intSetInsert r k
  end.

(** [EAGLE_MISSING_CMP]: the component whose units are tracked and, per
    unit, whether it still has to be instantiated. *)
Record EAGLE_MISSING_CMP : Type := mkMissing { cmp : SCH_COMPONENT; units : UNITS }.

(** [std::map<wxString, EAGLE_MISSING_CMP>], keys ascending. *)
Definition MISSING_CMPS : Type := list (string * EAGLE_MISSING_CMP).

Fixpoint missingFind (m : MISSING_CMPS) (k : string) : option EAGLE_MISSING_CMP :=
  match m with
  | [] => None
  | (k', v) :: r => if String.eqb k k' then Some v else missingFind r k
  end.

Fixpoint missingSet (m : MISSING_CMPS) (k : string) (v : EAGLE_MISSING_CMP) : MISSING_CMPS :=
  match m with
  | [] => [(k, v)]
  | (k', v') :: r =>
      if String.eqb k k' then (k', v) :: r
      else if String.ltb k k' then (k, v) :: (k', v') :: r
      else (k', v') :: missingSet r k v
  end.

(** [extractNetName]: the pin name before the first '@'. *)
Fixpoint extractNetName (aPinName : string) : string :=
  match aPinName with
  | EmptyString => EmptyString
  | String c r => if Ascii.eqb c "@" then EmptyString else String c (extractNetName r)
  end.

Definition allPins (part : LIB_PART) : list LIB_PIN := Instances.pinsOf part 0.

Definition SetUnit (c : SCH_COMPONENT) (unit : Z) : SCH_COMPONENT :=
  mkComponent (cmpLibName c) (cmpSymbolName c) unit (cmpPos c) (cmpOrientation c)
              (cmpMirrored c) (cmpFootprint c) (cmpReference c) (cmpValue c) (cmpFields c)
              (cmpHierRefs c) (cmpPartRef c).

(** [SetOrientation( 0 )]: the default transform. *)
Definition ResetOrientation (c : SCH_COMPONENT) : SCH_COMPONENT :=
  mkComponent (cmpLibName c) (cmpSymbolName c) (cmpUnit c) (cmpPos c) CMP_ORIENT_0
              false (cmpFootprint c) (cmpReference c) (cmpValue c) (cmpFields c)
              (cmpHierRefs c) (cmpPartRef c).

Definition SetPosition (c : SCH_COMPONENT) (p : wxPoint) : SCH_COMPONENT :=
  mkComponent (cmpLibName c) (cmpSymbolName c) (cmpUnit c) p (cmpOrientation c)
              (cmpMirrored c) (cmpFootprint c) (cmpReference c) (cmpValue c) (cmpFields c)
              (cmpHierRefs c) (cmpPartRef c).

Section Implicit.

Variable Mils2iu : Z -> Z.
Variable GetPinPhysicalPosition : SCH_COMPONENT -> LIB_PIN -> wxPoint.
Variable GetBoundingBox : SCH_COMPONENT -> Z * Z.   (* width and height *)
Variable rootPath : string.                         (* sheetpath.Path() of the root *)

(** [checkConnections]: something else is attached at the pin position. *)
Definition checkConnections (cp : CONN_POINTS) (aComponent : SCH_COMPONENT) (aPin : LIB_PIN)
  : bool :=
  match connFind cp (GetPinPhysicalPosition aComponent aPin) with
  | None => false
  | Some items => Nat.ltb 1 (List.length items)
  end.

(** The loop over the pins: the global labels to add and the units, other
    than the component's, that have a power input pin. *)
Definition implicitPin (aComponent : SCH_COMPONENT) (aUpdateSet : bool)
    (acc : SheetState * list Z) (pin : LIB_PIN) : SheetState * list Z :=
  let '(st, missingUnits) := acc in
  match pinType pin with
  | PT_POWER_IN =>
      let unit := cmpUnit aComponent in
      let pinInUnit := (unit =? 0) || (pinUnit pin =? unit) in
      if pinInUnit then
        if negb (checkConnections (m_connPoints st) aComponent pin) then
          (appendNew st
             (ItemText (mkSchText SCH_GLOBAL_LABEL_T
                                  (GetPinPhysicalPosition aComponent pin)
                                  (extractNetName (pinName pin))
                                  (Mils2iu 40, Mils2iu 40) SPIN_LEFT false
                                  default_EDA_TEXT)),
           missingUnits)
        else acc
      else if aUpdateSet then (st, intSetInsert missingUnits (pinUnit pin))
      else acc
  | _ => acc
  end.

(** The loop "Add units that haven't already been processed": the source
    tests [entry.units.find( i ) != entry.units.end()] before
    [entry.units.emplace( i, true )]. *)
Definition addMissing (u : UNITS) (missingUnits : list Z) : UNITS :=
  fold_left (fun u i => match unitsFind u i with
                        | Some _ => unitsEmplace u i true
                        | None => u
                        end) missingUnits u.

(** The last block of [addImplicitConnections]: the record of the units. *)
Definition recordUnits (m : MISSING_CMPS) (aComponent : SCH_COMPONENT)
    (missingUnits : list Z) : MISSING_CMPS :=
  let unit := cmpUnit aComponent in
  let reference := fieldText (cmpReference aComponent) in
  let m1 :=
    match missingFind m reference with
    | None => missingSet m reference (mkMissing aComponent (unitsEmplace [] unit false))
    | Some e => missingSet m reference (mkMissing (cmp e) (unitsAssign (units e) unit false))
    end in
  match missingUnits with
  | [] => m1
  | _ =>
      match missingFind m1 reference with
      | Some e => missingSet m1 reference (mkMissing aComponent (addMissing (units e) missingUnits))
      | None => missingSet m1 reference (mkMissing aComponent (addMissing [] missingUnits))
      end
  end.

(** [addImplicitConnections]; [st] holds the screen the labels go to. *)
Definition addImplicitConnections (st : SheetState) (m : MISSING_CMPS)
    (aComponent : SCH_COMPONENT) (aUpdateSet : bool) : SheetState * MISSING_CMPS :=
  match cmpPartRef aComponent with
  | None => (st, m)
  | Some part =>
      if partPower part then (st, m)
      else
        let '(st1, missingUnits) :=
          fold_left (implicitPin aComponent aUpdateSet) (allPins part) (st, []) in
        if aUpdateSet && (1 <? partUnitCount part)
        then (st1, recordUnits m aComponent missingUnits)
        else (st1, m)
  end.

(** The call made for every component of a sheet at the end of [loadSheet]. *)
Definition sheetComponents (scr : SCH_SCREEN) : list SCH_COMPONENT :=
  flat_map (fun e => match snd e with ItemComponent c => [c] | _ => [] end) scr.

Definition sheetImplicitConnections (st : SheetState) (m : MISSING_CMPS)
  : SheetState * MISSING_CMPS :=
  fold_left (fun acc c => addImplicitConnections (fst acc) (snd acc) c true)
            (sheetComponents (screen st)) (st, m).

(** The locals of the missing-unit loop of [loadSchematic]. *)
Record PLACEMENT : Type := mkPlacement {
  root : SheetState;
  newCmpPosition : wxPoint;
  maxY : Z
}.

(** One unit entry of one component. *)
Definition instantiateUnit (pageWidth sheetLeft : Z) (origCmp : SCH_COMPONENT)
    (pl : PLACEMENT) (unitEntry : Z * bool) : PLACEMENT :=
  if negb (snd unitEntry) then pl
  else
    let unit := fst unitEntry in
    let reference := fieldText (cmpReference origCmp) in
    let component := ResetOrientation (SetUnit origCmp unit) in
    let component := Instances.AddHierarchicalReference component rootPath reference unit in
    let '(width, height) := GetBoundingBox component in
    let posY := py (newCmpPosition pl) + height in
    let component := SetPosition component (mkPoint (px (newCmpPosition pl)) posY) in
    let newX := px (newCmpPosition pl) + width in
    let maxY' := Z.max (maxY pl) posY in
    let newPos := if pageWidth <=? newX then mkPoint sheetLeft maxY'
                  else mkPoint newX (py (newCmpPosition pl)) in
    let '(st1, _) := addImplicitConnections (root pl) [] component false in
    mkPlacement (appendNew st1 (ItemComponent component)) newPos maxY'.

(** The missing-unit loop: [sheetLeft], [sheetTop] and [sheetBottom] are
    the bounding box of the root sheet's items. *)
Definition instantiateMissingUnits (rootSheet : SheetState) (m : MISSING_CMPS)
    (pageWidth sheetLeft sheetTop sheetBottom : Z) : SheetState :=
  root (fold_left
          (fun pl e => fold_left (instantiateUnit pageWidth sheetLeft (cmp (snd e)))
                                 (units (snd e)) pl)
          m (mkPlacement rootSheet (mkPoint sheetLeft sheetBottom) sheetTop)).

End Implicit.

End MissingUnits.

(** * String helpers ([string.cpp])

    A [wxString], a [std::string] and a C string are modelled as the list of
    their characters, a character being a byte; for a C string the list
    stops before the terminating zero. *)

Module KicadString.

Definition lit (s : string) : list ascii := list_ascii_of_string s.

Definition NUL : ascii := "000"%char.
Definition TAB : ascii := "009"%char.
Definition LF : ascii := "010"%char.
Definition CR : ascii := "013"%char.
Definition DBLQUOTE : ascii := "034"%char.
Definition BACKSLASH : ascii := "092"%char.

Fixpoint text_eqb (a b : list ascii) : bool :=
  match a, b with
  | [], [] => true
  | x :: a', y :: b' => Ascii.eqb x y && text_eqb a' b'
  | _, _ => false
  end.

(** ** [EscapeString] and [UnescapeString] *)

(** The contexts [EscapeString] tests for. *)
Inductive ESCAPE_CONTEXT : Type :=
  CTX_NETNAME | CTX_LIBID | CTX_QUOTED_STR | CTX_LINE | CTX_FILENAME.

(** The body of the loop of [EscapeString]: what one character adds. *)
Definition escapeChar (aContext : ESCAPE_CONTEXT) (c : ascii) : list ascii :=
  match aContext with
  | CTX_NETNAME =>
      if Ascii.eqb c "/" then lit "{slash}"
      else if Ascii.eqb c LF || Ascii.eqb c CR then []
      else [c]
  | CTX_LIBID =>
      if Ascii.eqb c "{" then lit "{brace}"
      else if Ascii.eqb c ":" then lit "{colon}"
      else if Ascii.eqb c LF || Ascii.eqb c CR then []
      else [c]
  | CTX_QUOTED_STR =>
      if Ascii.eqb c DBLQUOTE then lit "{dblquote}"
      else [c]
  | CTX_LINE =>
      if Ascii.eqb c LF || Ascii.eqb c CR then lit "{return}"
      else [c]
  | CTX_FILENAME =>
      if Ascii.eqb c "{" then lit "{brace}"
      else if Ascii.eqb c "/" then lit "{slash}"
      else if Ascii.eqb c BACKSLASH then lit "{backslash}"
      else if Ascii.eqb c DBLQUOTE then lit "{dblquote}"
      else if Ascii.eqb c "<" then lit "{lt}"
      else if Ascii.eqb c ">" then lit "{gt}"
      else if Ascii.eqb c "|" then lit "{bar}"
      else if Ascii.eqb c ":" then lit "{colon}"
      else if Ascii.eqb c TAB then lit "{tab}"
      else if Ascii.eqb c LF || Ascii.eqb c CR then lit "{return}"
      else [c]
  end.

Definition EscapeString (aSource : list ascii) (aContext : ESCAPE_CONTEXT) : list ascii :=
  flat_map (escapeChar aContext) aSource.

(** [aSource[i] == '$' || aSource[i] == '^' || aSource[i] == '_']. *)
Definition isReferenceMark (c : ascii) : bool :=
  Ascii.eqb c "$" || Ascii.eqb c "^" || Ascii.eqb c "_".

(** [i + 1 < sourceLen && aSource[i+1] == '{'], on the text after [i]. *)
Definition opensBrace (r : list ascii) : bool :=
  match r with
  | c :: _ => Ascii.eqb c "{"
  | [] => false
  end.

(** The inner loop of the first branch: the characters are copied up to and
    including the first '}'; the outer loop goes on after it. *)
Fixpoint copyReference (s : list ascii) : list ascii * list ascii :=
  match s with
  | [] => ([], [])
  | c :: r =>
      if Ascii.eqb c "}" then ([c], r)
      else let '(copied, rest) := copyReference r in (c :: copied, rest)
  end.

(** The inner loop of the second branch, entered after the opening brace:
    the token up to the matching '}', and the text after that brace. *)
Fixpoint scanToken (depth : Z) (s : list ascii) : list ascii * list ascii :=
  match s with
  | [] => ([], [])
  | c :: r =>
      let depth := if Ascii.eqb c "{" then depth + 1
                   else if Ascii.eqb c "}" then depth - 1
                   else depth in
      if depth <=? 0 then ([], r)
      else let '(token, rest) := scanToken depth r in (c :: token, rest)
  end.

(** The chain of comparisons on the token; [None] for the last branch,
    where the token is unescaped in its turn. *)
Definition knownToken (token : list ascii) : option (list ascii) :=
  if text_eqb token (lit "dblquote") then Some [DBLQUOTE]
  else if text_eqb token (lit "quote") then Some (lit "'")
  else if text_eqb token (lit "lt") then Some (lit "<")
  else if text_eqb token (lit "gt") then Some (lit ">")
  else if text_eqb token (lit "backslash") then Some [BACKSLASH]
  else if text_eqb token (lit "slash") then Some (lit "/")
  else if text_eqb token (lit "bar") then Some (lit "|")
  else if text_eqb token (lit "colon") then Some (lit ":")
  else if text_eqb token (lit "space") then Some (lit " ")
  else if text_eqb token (lit "dollar") then Some (lit "$")
  else if text_eqb token (lit "tab") then Some [TAB]
  else if text_eqb token (lit "return") then Some [LF]
  else if text_eqb token (lit "brace") then Some (lit "{")
  else if text_eqb token [] then Some (lit "{")
  else None.

(** [UnescapeString] calls itself on a token, which is shorter than the
    text it was cut from; [fuel] bounds the depth of these calls and of the
    walk along the text, [None] meaning that it did not suffice. *)
Fixpoint unescape (fuel : nat) (s : list ascii) : option (list ascii) :=
  match fuel with
  | O => match s with [] => Some [] | _ => None end
  | S fuel' =>
      match s with
      | [] => Some []
      | c :: r =>
          if isReferenceMark c && opensBrace r then
            let '(copied, rest) := copyReference s in
            match unescape fuel' rest with
            | Some tail => Some (copied ++ tail)
            | None => None
            end
          else if Ascii.eqb c "{" then
            let '(token, rest) := scanToken 1 r in
            let expansion :=
              match knownToken token with
              | Some e => Some e
              | None =>
                  match unescape fuel' token with
                  | Some inner => Some (lit "{" ++ inner ++ lit "}")
                  | None => None
                  end
              end in
            match expansion, unescape fuel' rest with
            | Some e, Some tail => Some (e ++ tail)
            | _, _ => None
            end
          else
            match unescape fuel' r with
            | Some tail => Some (c :: tail)
            | None => None
            end
      end
  end.

Definition UnescapeString (aSource : list ascii) : option (list ascii) :=
  unescape (List.length aSource) aSource.

(** ** [ReadDelimitedText] and [EscapedUTF8] *)

(** [ReadDelimitedText( wxString* aDest, const char* aSource )]: the text
    read and the number of characters consumed ([aSource - start]).  The
    source ends at its first zero byte, or where the list ends; reading the
    terminator advances [aSource] as well. *)
Fixpoint readDelimited (inside : bool) (aSource : list ascii) : list ascii * Z :=
  match aSource with
  | [] => ([], 1)
  | cc :: r =>
      if Ascii.eqb cc NUL then ([], 1)
      else if Ascii.eqb cc DBLQUOTE then
        if inside then ([], 1)
        else let '(utf8, n) := readDelimited true r in (utf8, n + 1)
      else if inside then
        if Ascii.eqb cc BACKSLASH then
          match r with
          | [] => ([], 2)
          | cc2 :: r2 =>
              if Ascii.eqb cc2 NUL then ([], 2)
              else
                let '(utf8, n) := readDelimited true r2 in
                if negb (Ascii.eqb cc2 DBLQUOTE) && negb (Ascii.eqb cc2 BACKSLASH)
                then (BACKSLASH :: cc2 :: utf8, n + 2)
                else (cc2 :: utf8, n + 2)
          end
        else let '(utf8, n) := readDelimited true r in (cc :: utf8, n + 1)
      else let '(utf8, n) := readDelimited false r in (utf8, n + 1)
  end.

Definition ReadDelimitedText (aSource : list ascii) : list ascii * Z :=
  readDelimited false aSource.

(** The loop of [ReadDelimitedText( char* aDest, const char* aSource, int
    aDestSize )]; [room] is [limit - aDest], the number of characters that
    may still be written before the terminator. *)
Fixpoint readBounded (room : nat) (inside : bool) (aSource : list ascii)
  : list ascii * Z :=
  match aSource with
  | [] => ([], 1)
  | cc :: r =>
      if Ascii.eqb cc NUL then ([], 1)
      else
        match room with
        | O => ([], 1)
        | S room' =>
            if Ascii.eqb cc DBLQUOTE then
              if inside then ([], 1)
              else let '(dest, n) := readBounded room true r in (dest, n + 1)
            else if inside then
              if Ascii.eqb cc BACKSLASH then
                match r with
                | [] => ([], 2)
                | cc2 :: r2 =>
                    if Ascii.eqb cc2 NUL then ([], 2)
                    else if negb (Ascii.eqb cc2 DBLQUOTE) && negb (Ascii.eqb cc2 BACKSLASH)
                    then
                      match room' with
                      | O =>
                          let '(dest, n) := readBounded O true r2 in
                          (BACKSLASH :: dest, n + 2)
                      | S room'' =>
                          let '(dest, n) := readBounded room'' true r2 in
                          (BACKSLASH :: cc2 :: dest, n + 2)
                      end
                    else
                      let '(dest, n) := readBounded room' true r2 in (cc2 :: dest, n + 2)
                end
              else let '(dest, n) := readBounded room' true r in (cc :: dest, n + 1)
            else let '(dest, n) := readBounded room false r in (dest, n + 1)
        end
  end.

(** The bounded [ReadDelimitedText]: [None] for the destination when it is
    left untouched ([aDestSize <= 0]). *)
Definition ReadDelimitedTextInto (aSource : list ascii) (aDestSize : Z)
  : option (list ascii) * Z :=
  if aDestSize <=? 0 then (None, 0)
  else let '(dest, n) := readBounded (Z.to_nat (aDestSize - 1)) false aSource in
       (Some dest, n).

(** [aString.Replace( "\r\n", "\r" )]. *)
Fixpoint replaceCRLF (s : list ascii) : list ascii :=
  match s with
  | [] => []
  | c :: r =>
      match r with
      | c2 :: r2 =>
          if Ascii.eqb c CR && Ascii.eqb c2 LF then CR :: replaceCRLF r2
          else c :: replaceCRLF r
      | [] => [c]
      end
  end.

(** [aString.Replace( "\n", "\r" )]. *)
Definition replaceLF (s : list ascii) : list ascii :=
  map (fun c => if Ascii.eqb c LF then CR else c) s.

(** The loop of [EscapedUTF8] over the bytes. *)
Definition escapeQuoted (utf8 : list ascii) : list ascii :=
  flat_map (fun c => if Ascii.eqb c DBLQUOTE then [BACKSLASH; DBLQUOTE]
                     else if Ascii.eqb c BACKSLASH then [BACKSLASH; BACKSLASH]
                     else [c]) utf8.

Definition EscapedUTF8 (aString : list ascii) : list ascii :=
  DBLQUOTE :: escapeQuoted (replaceLF (replaceCRLF aString)) ++ [DBLQUOTE].

(** ** [ReplaceIllegalFileNameChars] *)

(** [illegalFileNameChars]. *)
Definition illegalFileNameChars : list ascii :=
  [BACKSLASH; "/"%char; ":"%char; DBLQUOTE; "<"%char; ">"%char; "|"%char].

Definition isIllegal (c : ascii) : bool := existsb (Ascii.eqb c) illegalFileNameChars.

(** [strchr( illegalFileNameChars, c )] is not null: [strchr] also finds the
    terminator of the string it searches. *)
Definition strchrIllegal (c : ascii) : bool := isIllegal c || Ascii.eqb c NUL.

Definition hexDigit (n : N) : ascii :=
  nth (N.to_nat n) (lit "0123456789abcdef") "0"%char.

(** ["%%%02x"] of a byte below 128 (every byte it is called on is). *)
Definition percentHex (c : ascii) : list ascii :=
  [ "%"%char; hexDigit (N.div (N_of_ascii c) 16); hexDigit (N.modulo (N_of_ascii c) 16) ].

(** ["%c"] of an [int]: its low byte. *)
Definition charOfInt (aReplaceChar : Z) : ascii :=
  ascii_of_N (Z.to_N (aReplaceChar mod 256)).

(** The loop of [ReplaceIllegalFileNameChars( std::string*, int )] over one
    byte: the flag and the result so far. *)
Definition replaceStep (aReplaceChar : Z) (acc : bool * list ascii) (c : ascii)
  : bool * list ascii :=
  let '(changed, result) := acc in
  if strchrIllegal c then
    (true, result ++ (if negb (aReplaceChar =? 0) then [charOfInt aReplaceChar]
                      else percentHex c))
  else (changed, result ++ [c]).

(** The flag returned and the name afterwards. *)
Definition ReplaceIllegalFileNameChars (aName : list ascii) (aReplaceChar : Z)
  : bool * list ascii :=
  let '(changed, result) := fold_left (replaceStep aReplaceChar) aName (false, []) in
  (changed, if changed then result else aName).

(** ** [wxStringSplit] *)

(** The loop, with [tmp] the piece being read; [aStrings] receives the
    pieces, the last one only when it is not empty. *)
Fixpoint splitLoop (aSplitter : ascii) (tmp : list ascii) (aText : list ascii)
  : list (list ascii) :=
  match aText with
  | [] => match tmp with [] => [] | _ => [tmp] end
  | c :: r =>
      if Ascii.eqb c aSplitter then tmp :: splitLoop aSplitter [] r
      else splitLoop aSplitter (tmp ++ [c]) r
  end.

Definition wxStringSplit (aText : list ascii) (aStrings : list (list ascii))
    (aSplitter : ascii) : list (list ascii) :=
  aStrings ++ splitLoop aSplitter [] aText.

(** ** [SplitString] *)

Definition isdigit (c : ascii) : bool :=
  (N.leb 48 (N_of_ascii c)) && (N.leb (N_of_ascii c) 57).

Definition charAt (s : list ascii) (i : nat) : ascii := nth i s NUL.

(** [for( ; ii >= 0; ii-- ) if( stop( s[ii] ) ) break;] started at
    [ii = count - 1]: the value of [ii] afterwards, -1 when nothing stops
    the loop. *)
Fixpoint scanDown (stop : ascii -> bool) (s : list ascii) (count : nat) : Z :=
  match count with
  | O => -1
  | S k => if stop (charAt s k) then Z.of_nat k else scanDown stop s k
  end.

(** [substr( pos, n )] and [substr( pos )]. *)
Definition substr (s : list ascii) (pos n : nat) : list ascii := firstn n (skipn pos s).
Definition substrFrom (s : list ascii) (pos : nat) : list ascii := skipn pos s.

Definition isSeparator (c : ascii) : bool := Ascii.eqb c "." || Ascii.eqb c ",".

(** [SplitString]: the beginning, the digits and the end. *)
Definition SplitString (strToSplit : list ascii)
  : list ascii * list ascii * list ascii :=
  match strToSplit with
  | [] => ([], [], [])
  | _ =>
      let ii := scanDown isdigit strToSplit (List.length strToSplit) in
      if ii <? 0 then (strToSplit, [], [])
      else
        let strEnd := substrFrom strToSplit (Z.to_nat (ii + 1)) in
        let position := ii + 1 in
        let ii := scanDown (fun c => negb (isdigit c) && negb (isSeparator c))
                           strToSplit (Z.to_nat (ii + 1)) in
        if ii <? 0 then ([], substr strToSplit 0 (Z.to_nat position), strEnd)
        else (substr strToSplit 0 (Z.to_nat (ii + 1)),
              substr strToSplit (Z.to_nat (ii + 1)) (Z.to_nat (position - ii - 1)),
              strEnd)
  end.

(** ** [GetTrailingInt] *)

(** Arithmetic on [int]: the result reduced to 32 bits, two's complement. *)
Definition wrap32 (z : Z) : Z := (z + 2 ^ 31) mod 2 ^ 32 - 2 ^ 31.

(** [chr - '0']. *)
Definition digitValue (c : ascii) : Z := Z.of_N (N_of_ascii c) - 48.

(** The loop of [GetTrailingInt], [count] being [index + 1]. *)
Fixpoint trailingLoop (aStr : list ascii) (count : nat) (number base : Z) : Z :=
  match count with
  | O => number
  | S index =>
      let chr := charAt aStr index in
      if negb (isdigit chr) then number
      else trailingLoop aStr index
                        (wrap32 (number + wrap32 (digitValue chr * base)))
                        (wrap32 (base * 10))
  end.

Definition GetTrailingInt (aStr : list ascii) : Z :=
  trailingLoop aStr (List.length aStr) 0 1.

(** ** [StripTrailingZeros] *)

(** Arithmetic on [unsigned]. *)
Definition wrapU32 (z : Z) : Z := z mod 2 ^ 32.

(** [aStringValue.Find( sep )]: the first position of the character, or
    [wxNOT_FOUND], which is -1. *)
Fixpoint findFrom (sep : ascii) (s : list ascii) (i : Z) : Z :=
  match s with
  | [] => -1
  | c :: r => if Ascii.eqb c sep then i else findFrom sep r (i + 1)
  end.

Definition Find (s : list ascii) (sep : ascii) : Z := findFrom sep s 0.

(** The loop, on the text read from its last character:
    [while( Len() > min_len ) if( Last() == '0' ) RemoveLast(); else break;]. *)
Fixpoint stripZeros (min_len : Z) (reversed : list ascii) : list ascii :=
  match reversed with
  | [] => []
  | last :: r =>
      if Z.of_nat (List.length reversed) >? min_len then
        if Ascii.eqb last "0" then stripZeros min_len r else reversed
      else reversed
  end.

(** [StripTrailingZeros]; [sep] is the decimal point of the locale, and
    [sep_pos] and [min_len] are [unsigned]. *)
Definition StripTrailingZeros (sep : ascii) (aStringValue : list ascii)
    (aTrailingZeroAllowed : Z) : list ascii :=
  let sep_pos := wrapU32 (Find aStringValue sep) in
  if sep_pos >? 0 then
    let min_len := wrapU32 (sep_pos + aTrailingZeroAllowed + 1) in
    rev (stripZeros min_len (rev aStringValue))
  else aStringValue.

(** ** [EscapeHTML] *)

Definition EscapeHTML (aString : list ascii) : list ascii :=
  flat_map (fun c => if Ascii.eqb c DBLQUOTE then lit "&quot;"
                     else if Ascii.eqb c "'" then lit "&apos;"
                     else if Ascii.eqb c "&" then lit "&amp;"
                     else if Ascii.eqb c "<" then lit "&lt;"
                     else if Ascii.eqb c ">" then lit "&gt;"
                     else [c]) aString.

(** ** [StrPurge] *)

(** [strchr( whitespace, c )] for a character that is not zero. *)
Definition isWhitespace (c : ascii) : bool :=
  existsb (Ascii.eqb c) [ " "%char; TAB; LF; CR; "012"%char; "011"%char ].

(** [while( *text && strchr( whitespace, *text ) ) ++text;]. *)
Fixpoint skipWhitespace (text : list ascii) : list ascii :=
  match text with
  | [] => []
  | c :: r => if isWhitespace c then skipWhitespace r else text
  end.

(** [StrPurge]: [None] is the null pointer.  The second loop walks from the
    last character towards the first and ends the string before each
    whitespace character it meets. *)
Definition StrPurge (text : option (list ascii)) : option (list ascii) :=
  match text with
  | None => None
  | Some t => Some (rev (skipWhitespace (rev (skipWhitespace t))))
  end.

(** ** [StrNumCmp] *)

Definition code (c : ascii) : Z := Z.of_N (N_of_ascii c).

(** [nb = nb * 10 + (int) c - '0'] on [int]s. *)
Definition addDigit (nb : Z) (c : ascii) : Z :=
  wrap32 (wrap32 (wrap32 (nb * 10) + code c) - 48).

(** The rest of a [do ... while( str != end && wxIsdigit( *str ) )] loop
    after its first turn: the number and where [str] stops. *)
Fixpoint digitsLoop (nb : Z) (s : list ascii) : Z * list ascii :=
  match s with
  | [] => (nb, [])
  | c :: r => if isdigit c then digitsLoop (addDigit nb c) r else (nb, s)
  end.

Definition readNumber (s : list ascii) : Z * list ascii :=
  match s with
  | [] => (0, [])
  | c :: r => digitsLoop (addDigit 0 c) r
  end.

(** [( str != end ) ? *str : wxUniChar( 0 )]. *)
Definition current (s : list ascii) : ascii :=
  match s with
  | c :: _ => c
  | [] => NUL
  end.

(** The two comparisons of the characters, with [wxToupper] when the case
    is ignored. *)
Definition compareChars (aIgnoreCase : bool) (c1 c2 : ascii) : comparison :=
  if aIgnoreCase then code (Library.upperAscii c1) ?= code (Library.upperAscii c2)
  else code c1 ?= code c2.

(** The [while] loop and the tests after it.  Each turn moves both
    iterators forward; [fuel] bounds the number of turns. *)
Fixpoint cmpLoop (fuel : nat) (aIgnoreCase : bool) (str1 str2 : list ascii) : option Z :=
  match str1, str2 with
  | c1 :: r1, c2 :: r2 =>
      match fuel with
      | O => None
      | S fuel' =>
          if isdigit c1 && isdigit c2 then
            let '(nb1, t1) := readNumber str1 in
            let '(nb2, t2) := readNumber str2 in
            if nb1 <? nb2 then Some (-1)
            else if nb1 >? nb2 then Some 1
            else
              match compareChars aIgnoreCase (current t1) (current t2) with
              | Lt => Some (-1)
              | Gt => Some 1
              | Eq => cmpLoop fuel' aIgnoreCase (tl t1) (tl t2)
              end
          else
            match compareChars aIgnoreCase c1 c2 with
            | Lt => Some (-1)
            | Gt => Some 1
            | Eq => cmpLoop fuel' aIgnoreCase r1 r2
            end
      end
  | [], _ :: _ => Some (-1)
  | _ :: _, [] => Some 1
  | [], [] => Some 0
  end.

Definition StrNumCmp (aString1 aString2 : list ascii) (aIgnoreCase : bool) : option Z :=
  cmpLoop (List.length aString1 + List.length aString2) aIgnoreCase aString1 aString2.

(** ** [WildCompareString] *)

(** What [GetData()] gives to code that reads it as a C string: the
    characters before the first NUL. *)
Fixpoint cstr (s : list ascii) : list ascii :=
  match s with
  | [] => []
  | c :: r => if Ascii.eqb c NUL then [] else c :: cstr r
  end.

(** The first loop: [inr] is the value returned from inside the loop,
    [inl] the two pointers after it. *)
Fixpoint wildPrefix (wild str : list ascii)
  : (list ascii * list ascii) + bool :=
  match str with
  | [] => inl (wild, [])
  | s :: str' =>
      match wild with
      | [] => inr false
      | w :: wild' =>
          if Ascii.eqb w "*" then inl (wild, str)
          else if negb (Ascii.eqb w s) && negb (Ascii.eqb w "?") then inr false
          else wildPrefix wild' str'
      end
  end.

(** The third loop and the value returned after it. *)
Fixpoint wildTail (wild : list ascii) : bool :=
  match wild with
  | [] => true
  | w :: wild' => if Ascii.eqb w "*" then wildTail wild' else false
  end.

(** The second loop; [mp] and [cp] are null until a star has been met.
    [fuel] bounds the number of turns; [None] also stands for the use of a
    null [mp]. *)
Fixpoint wildSearch (fuel : nat) (wild str : list ascii)
    (mp cp : option (list ascii)) : option bool :=
  match str with
  | [] => Some (wildTail wild)
  | s :: str' =>
      match fuel with
      | O => None
      | S fuel' =>
          match wild with
          | w :: wild' =>
              if Ascii.eqb w "*" then
                match wild' with
                | [] => Some true
                | _ => wildSearch fuel' wild' str (Some wild') (Some str')
                end
              else if Ascii.eqb w s || Ascii.eqb w "?" then
                wildSearch fuel' wild' str' mp cp
              else
                match mp, cp with
                | Some m, Some c => wildSearch fuel' m c mp (Some (tl c))
                | _, _ => None
                end
          | [] =>
              match mp, cp with
              | Some m, Some c => wildSearch fuel' m c mp (Some (tl c))
              | _, _ => None
              end
          end
      end
  end.

Definition upper (s : list ascii) : list ascii := map Library.upperAscii s.

Definition WildCompareString (pattern string_to_tst : list ascii) (case_sensitive : bool)
  : option bool :=
  let wild := cstr (if case_sensitive then pattern else upper pattern) in
  let str := cstr (if case_sensitive then string_to_tst else upper string_to_tst) in
  match wildPrefix wild str with
  | inr b => Some b
  | inl (wild, str) =>
      wildSearch (S (List.length pattern) * S (List.length string_to_tst)) wild str None None
  end.

(** ** [ApplyModifier] *)

(** [wxString::Trim()]: the whitespace at the right end is removed. *)
Definition Trim (s : list ascii) : list ascii := rev (skipWhitespace (rev s)).

(** [wxString::CmpNoCase]: negative, zero or positive; zero exactly for
    texts that are equal when the case of the letters is ignored. *)
Fixpoint CmpNoCase (a b : list ascii) : Z :=
  match a, b with
  | [], [] => 0
  | [], _ :: _ => -1
  | _ :: _, [] => 1
  | x :: a', y :: b' =>
      match code (Library.lowerAscii x) ?= code (Library.lowerAscii y) with
      | Lt => -1
      | Gt => 1
      | Eq => CmpNoCase a' b'
      end
  end.

Section Modifier.

(** [double], and [value *= 1.0eN] on it. *)
Variable double : Type.
Variable scale : double -> Z -> double.

(** [ApplyModifier]: the value returned and [value] afterwards. *)
Definition ApplyModifier (value : double) (aString : list ascii) : bool * double :=
  match aString with
  | [] => (false, value)
  | first :: after =>
      let known := existsb (Ascii.eqb first) (lit "pnumkKM") in
      let modifier := if known then first else " "%char in
      let units := if known then Trim after else Trim aString in
      if negb (Nat.eqb (List.length units) 0)
         && (CmpNoCase units (lit "F") =? 0)
         && (CmpNoCase units (lit "hz") =? 0)
         && (CmpNoCase units (lit "W") =? 0)
         && (CmpNoCase units (lit "V") =? 0)
         && (CmpNoCase units (lit "H") =? 0)
      then (false, value)
      else
        let value := if Ascii.eqb modifier "p" then scale value (-12) else value in
        let value :=
          if Ascii.eqb modifier "n" then scale value (-9)
          else if Ascii.eqb modifier "u" then scale value (-6)
          else if Ascii.eqb modifier "m" then scale value (-3)
          else if Ascii.eqb modifier "k" || Ascii.eqb modifier "K" then scale value 3
          else if Ascii.eqb modifier "M" then scale value 6
          else if Ascii.eqb modifier "G" then scale value 9
          else value in
        (true, value)
  end.

End Modifier.

End KicadString.

(** ** Layer definitions: [loadLayerDefs] *)

Module Layers.

Import Sheet.

(** [ELAYER]: the fields of a layer definition that are read here. *)
Record ELAYER : Type := mkELayer { el_number : Z; el_name : string }.

(** [m_layerMap[k] = v] on a [std::map<int, SCH_LAYER_ID>], keys ascending. *)
Fixpoint layerAssign (m : list (Z * SCH_LAYER_ID)) (k : Z) (v : SCH_LAYER_ID)
  : list (Z * SCH_LAYER_ID) :=
  match m with
  | [] => [(k, v)]
  | (k', v') :: r =>
      if k =? k' then (k', v) :: r
      else if k <? k' then (k, v) :: (k', v') :: r
      else (k', v') :: layerAssign r k v
  end.

Section Load.

(** The [ELAYER] constructor, defined with the Eagle parser. *)
Variable ELAYER_of : wxXmlNode -> ELAYER.

(** The first loop: one [ELAYER] per child, in order. *)
Definition eagleLayersOf (aLayers : wxXmlNode) : list ELAYER :=
  map ELAYER_of (GetChildren aLayers).

(** The body of the second loop. *)
Definition layerStep (m : list (Z * SCH_LAYER_ID)) (elayer : ELAYER)
  : list (Z * SCH_LAYER_ID) :=
  if String.eqb (el_name elayer) "Nets" then layerAssign m (el_number elayer) LAYER_WIRE
  else if String.eqb (el_name elayer) "Info" || String.eqb (el_name elayer) "Guide"
  then layerAssign m (el_number elayer) LAYER_NOTES
  else if String.eqb (el_name elayer) "Busses"
  then layerAssign m (el_number elayer) LAYER_BUS
  else m.

(** [loadLayerDefs]: [m] is [m_layerMap] before the call, the result after. *)
Definition loadLayerDefs (m : list (Z * SCH_LAYER_ID)) (aLayers : wxXmlNode)
  : list (Z * SCH_LAYER_ID) :=
  fold_left layerStep (eagleLayersOf aLayers) m.

End Load.

End Layers.

(** * Properties *)

(** ** The order of floating-point values *)

Module FloatFacts.

Import Floating.

(** No value is below itself. *)
Lemma flt_irrefl (x : float) : flt x x = false.
Proof.
  unfold flt, SFltb, SFcompare; destruct x as [ s | s | | s m e ]; try reflexivity.
  - destruct s; reflexivity.
  - rewrite Z.compare_refl.
    change (PosDef.Pos.compare_cont Eq m m) with (Pos.compare m m).
    rewrite Pos.compare_refl; destruct s; reflexivity.
Qed.

Lemma flt_trans (x y z : float) :
  flt x y = true -> flt y z = true -> flt x z = true.
Proof.
  unfold flt, SFltb, SFcompare.
  destruct x as [ [|] | [|] | | [|] m1 e1 ], y as [ [|] | [|] | | [|] m2 e2 ],
           z as [ [|] | [|] | | [|] m3 e3 ];
    try reflexivity; try discriminate; intros H1 H2; try discriminate;
    change PosDef.Pos.compare_cont with Pos.compare_cont in *;
    change (Pos.compare_cont Eq) with Pos.compare in *.
  - destruct (Z.compare_spec e1 e2), (Z.compare_spec e2 e3), (Z.compare_spec e1 e3);
      try discriminate; try reflexivity; try lia; subst.
    destruct (Pos.compare_spec m1 m2), (Pos.compare_spec m2 m3), (Pos.compare_spec m1 m3);
      try discriminate; try reflexivity; subst; try lia.
  - destruct (Z.compare_spec e1 e2), (Z.compare_spec e2 e3), (Z.compare_spec e1 e3);
      try discriminate; try reflexivity; try lia; subst.
    destruct (Pos.compare_spec m1 m2), (Pos.compare_spec m2 m3), (Pos.compare_spec m1 m3);
      try discriminate; try reflexivity; subst; try lia.
Qed.

End FloatFacts.

(** ** Text alignment *)

Module AlignmentFacts.

Import Alignment.

(** The enumerators are pairwise distinct (the [switch] over them would not
    compile otherwise); unfolded into the inequalities the mirror block
    needs. *)
Lemma members_distinct (E : ETEXT_ALIGN) :
  NoDup (members E) ->
  BOTTOM_RIGHT E <> BOTTOM_LEFT E /\ BOTTOM_RIGHT E <> TOP_LEFT E
  /\ BOTTOM_RIGHT E <> TOP_RIGHT E /\ BOTTOM_LEFT E <> TOP_LEFT E
  /\ BOTTOM_LEFT E <> TOP_RIGHT E /\ TOP_LEFT E <> TOP_RIGHT E
  /\ CENTER_LEFT E <> CENTER_RIGHT E
  /\ CENTER_LEFT E <> BOTTOM_RIGHT E /\ CENTER_LEFT E <> BOTTOM_LEFT E
  /\ CENTER_LEFT E <> TOP_LEFT E /\ CENTER_LEFT E <> TOP_RIGHT E
  /\ CENTER_RIGHT E <> BOTTOM_RIGHT E /\ CENTER_RIGHT E <> BOTTOM_LEFT E
  /\ CENTER_RIGHT E <> TOP_LEFT E /\ CENTER_RIGHT E <> TOP_RIGHT E.
Proof.
  unfold members; intros H.
  repeat match goal with
         | H : NoDup (_ :: _) |- _ => apply NoDup_cons_iff in H; destruct H
         end.
  simpl in *.
  repeat split; intro Heq; intuition congruence.
Qed.

Ltac split_eqb_on x :=
  repeat match goal with
         | |- context [Z.eqb x ?b] => destruct (Z.eqb_spec x b); cbv beta iota
         end.

Ltac split_eqb :=
  repeat match goal with
         | |- context [Z.eqb ?a ?b] => destruct (Z.eqb_spec a b); cbv beta iota
         end.

(** The mirror block undoes itself for every alignment value, whatever the
    flag and the rotation. *)
Lemma mirrorAlign_twice (E : ETEXT_ALIGN) (aMirror : bool) (aAbsDegress align : Z) :
  NoDup (members E) ->
  mirrorAlign E aMirror aAbsDegress (mirrorAlign E aMirror aAbsDegress align) = align.
Proof.
  intros Hd; apply members_distinct in Hd.
  destruct Hd as (H1 & H2 & H3 & H4 & H5 & H6 & H7 & H8 & H9 & H10 & H11 & H12 & H13
                  & H14 & H15).
  unfold mirrorAlign.
  destruct aMirror; [ | reflexivity ].
  destruct ((aAbsDegress =? 90) || (aAbsDegress =? 270)).
  - split_eqb_on align; subst; split_eqb; congruence.
  - destruct ((aAbsDegress =? 0) || (aAbsDegress =? 180)); [ | reflexivity ].
    split_eqb_on align; subst; split_eqb; congruence.
Qed.

(** C5: for each of the nine alignment values and each absolute rotation
    among 0, 90, 180 and 270 degrees, the mirror permutation of
    [eagleToKicadAlignment] applied twice gives the value back. *)
Theorem mirror_step_involution (E : ETEXT_ALIGN) (align aAbsDegress : Z) :
  NoDup (members E) ->
  In align (members E) ->
  In aAbsDegress [0; 90; 180; 270] ->
  mirrorAlign E true aAbsDegress (mirrorAlign E true aAbsDegress align) = align.
Proof.
  intros Hd _ _; apply mirrorAlign_twice; exact Hd.
Qed.

Lemma eagle_align_distinct : NoDup (members eagle_align).
Proof.
  unfold members, eagle_align; simpl.
  repeat (apply NoDup_cons; [ simpl; intuition discriminate | ]).
  apply NoDup_nil.
Qed.

Lemma mirror_step_involution_witness :
  NoDup (members eagle_align)
  /\ mirrorAlign eagle_align true 90
       (mirrorAlign eagle_align true 90 (BOTTOM_RIGHT eagle_align))
     = BOTTOM_RIGHT eagle_align.
Proof.
  split.
  - exact eagle_align_distinct.
  - apply (mirror_step_involution eagle_align (BOTTOM_RIGHT eagle_align) 90).
    + exact eagle_align_distinct.
    + simpl; tauto.
    + simpl; tauto.
Defined.

(** On the concrete enumeration the permutation is not the identity: it
    swaps bottom and top on the right at 90 degrees. *)
Example mirror_swaps_at_90 :
  mirrorAlign eagle_align true 90 (BOTTOM_RIGHT eagle_align) = TOP_RIGHT eagle_align.
Proof. reflexivity. Qed.

End AlignmentFacts.

(** ** Net label synthesis *)

Module SegmentFacts.

Import Sheet.

(** The segment has a child node of the given name. *)
Definition hasChild (name : string) (n : wxXmlNode) : bool :=
  existsb (fun c => String.eqb (GetName c) name) (GetChildren n).

(** The first wire node of a segment. *)
Definition firstWireNode (n : wxXmlNode) : option wxXmlNode :=
  find (fun c => String.eqb (GetName c) "wire") (GetChildren n).

(** The kind of label a segment group gets, in the words of the claim as
    amended: none unless the group has a wire and no explicit label; then a
    global label when the net name is counted more than once in the
    document, else a local label when the net node has more than one
    segment, else none. *)
Definition labelPolicy (hasWire hasLabel : bool) (netCount segmentCount : Z)
  : option KICAD_T :=
  if hasWire && negb hasLabel then
    if 1 <? netCount then Some SCH_GLOBAL_LABEL_T
    else if 1 <? segmentCount then Some SCH_LABEL_T
    else None
  else None.

Section Facts.

Variable ToSchUnits : Z -> Z.
Variable Mils2iu : Z -> Z.
Variable escapeName : string -> string.
Variable labelTextSize : bool -> Z -> Z.
Variable labelSpinStyle : EROT -> LABEL_SPIN_STYLE.
Variable Intersect : SEG -> SEG -> bool -> option VECTOR2I.
Variable m_layerMap : list (Z * SCH_LAYER_ID).
Variable m_netCounts : NetCounts.NET_COUNTS.

Local Abbreviation wireStep' := (wireStep ToSchUnits Intersect m_layerMap).
Local Abbreviation attributeStep' :=
  (attributeStep ToSchUnits escapeName labelTextSize labelSpinStyle m_netCounts).
Local Abbreviation segmentLoops' :=
  (segmentLoops ToSchUnits escapeName labelTextSize labelSpinStyle Intersect m_layerMap
                m_netCounts).
Local Abbreviation segmentLabel' :=
  (segmentLabel ToSchUnits Mils2iu escapeName labelTextSize labelSpinStyle Intersect
                m_layerMap m_netCounts).
Local Abbreviation loadSegment' :=
  (loadSegment ToSchUnits Mils2iu escapeName labelTextSize labelSpinStyle Intersect
               m_layerMap m_netCounts).

(** The line [loadWire] makes of a wire node. *)
Definition wireOf (n : wxXmlNode) : SCH_LINE :=
  let ewire := EWIRE_of n in
  mkLine (kiCadLayer m_layerMap (ew_layer ewire))
         (mkPoint (ToSchUnits (ew_x1 ewire)) (- ToSchUnits (ew_y1 ewire)))
         (mkPoint (ToSchUnits (ew_x2 ewire)) (- ToSchUnits (ew_y2 ewire))) false.

Lemma loadWire_line (st : SheetState) (n : wxXmlNode) :
  snd (fst (loadWire ToSchUnits m_layerMap st n)) = wireOf n.
Proof. reflexivity. Qed.

(** The first loop leaves in [firstWire] the first wire node's line. *)
Lemma wire_loop_first (netName : string) (l : list wxXmlNode) :
  forall (st : SheetState) (fw : option SCH_LINE),
    snd (fold_left (wireStep' netName) l (st, fw))
    = match fw with
      | Some w => Some w
      | None => option_map wireOf (find (fun c => String.eqb (GetName c) "wire") l)
      end.
Proof.
  induction l as [ | n l IH ]; intros st fw; cbn [fold_left find].
  - destruct fw; reflexivity.
  - destruct (wireStep' netName (st, fw) n) as [st' fw'] eqn:Hs.
    rewrite IH.
    unfold wireStep in Hs.
    destruct (String.eqb (GetName n) "wire") eqn:Hn.
    + destruct (loadWire ToSchUnits m_layerMap st n) as [[a wire] st1] eqn:Hw.
      assert (Hline : wire = wireOf n).
      { rewrite <- (loadWire_line st n), Hw; reflexivity. }
      inversion Hs; subst; destruct fw; reflexivity.
    + inversion Hs; subst; reflexivity.
Qed.

(** The second loop sets [labelled] exactly when there is a label node. *)
Lemma attribute_loop_labelled (netName : string) (l : list wxXmlNode) :
  forall (st : SheetState) (b : bool),
    snd (fold_left (attributeStep' netName) l (st, b))
    = b || existsb (fun c => String.eqb (GetName c) "label") l.
Proof.
  induction l as [ | n l IH ]; intros st b; cbn [fold_left existsb].
  - now rewrite orb_false_r.
  - destruct (attributeStep' netName (st, b) n) as [st' b'] eqn:Hs.
    rewrite IH.
    unfold attributeStep in Hs.
    destruct (String.eqb (GetName n) "junction") eqn:Hj.
    + apply String.eqb_eq in Hj.
      assert (Hl : String.eqb (GetName n) "label" = false)
        by (rewrite Hj; reflexivity).
      inversion Hs; subst; rewrite Hl; reflexivity.
    + destruct (String.eqb (GetName n) "label") eqn:Hl.
      * destruct (alloc st) as [a st1]; inversion Hs; subst.
        now rewrite orb_true_r.
      * inversion Hs; subst; reflexivity.
Qed.

Lemma find_existsb {A : Type} (f : A -> bool) (l : list A) :
  existsb f l = match find f l with Some _ => true | None => false end.
Proof.
  induction l as [ | x l IH ]; simpl; [ reflexivity | ].
  destruct (f x); simpl; auto.
Qed.

(** The flags after the two loops, read off the segment node. *)
Lemma segmentLoops_flags (st : SheetState) (netName : string) (seg : wxXmlNode) :
  snd (fst (segmentLoops' st netName seg)) = hasChild "label" seg
  /\ snd (segmentLoops' st netName seg) = option_map wireOf (firstWireNode seg).
Proof.
  unfold segmentLoops, hasChild, firstWireNode.
  set (st0 := withSegments st _ _).
  pose proof (wire_loop_first netName (GetChildren seg) st0 None) as Hw.
  destruct (fold_left (wireStep' netName) (GetChildren seg) (st0, None)) as [st1 fw].
  pose proof (attribute_loop_labelled netName (GetChildren seg) st1 false) as Hl.
  destruct (fold_left (attributeStep' netName) (GetChildren seg) (st1, false))
    as [st2 labelled].
  simpl in *; split; assumption.
Qed.

(** C2 (as amended): the label [loadSegments] synthesizes for a segment
    group follows [labelPolicy]; it sits at the start point of the group's
    first wire (source X, negated source Y) and carries the escaped net
    name. *)
Theorem synthesized_label_policy (st : SheetState) (netName : string) (segmentCount : Z)
    (seg : wxXmlNode) :
  segmentLabel' st netName segmentCount seg
  = match labelPolicy (hasChild "wire" seg) (hasChild "label" seg)
                      (NetCounts.netCount m_netCounts netName) segmentCount,
          firstWireNode seg with
    | Some kind, Some w =>
        Some (mkSchText kind
                        (mkPoint (ToSchUnits (ew_x1 (EWIRE_of w)))
                                 (- ToSchUnits (ew_y1 (EWIRE_of w))))
                        (escapeName netName) (Mils2iu 40, Mils2iu 40) SPIN_LEFT false
                        default_EDA_TEXT)
    | _, _ => None
    end.
Proof.
  unfold segmentLabel.
  destruct (segmentLoops_flags st netName seg) as [Hl Hw].
  destruct (segmentLoops' st netName seg) as [[st2 labelled] fw]; simpl in Hl, Hw.
  subst labelled fw.
  assert (Hh : hasChild "wire" seg
               = match firstWireNode seg with Some _ => true | None => false end)
    by apply find_existsb.
  rewrite Hh; unfold synthesizedLabel, labelPolicy.
  destruct (firstWireNode seg) as [ w | ]; simpl; [ | reflexivity ].
  destruct (hasChild "label" seg); simpl; [ reflexivity | ].
  destruct (1 <? NetCounts.netCount m_netCounts netName); [ reflexivity | ].
  destruct (1 <? segmentCount); reflexivity.
Qed.

(** [loadSegment] appends that label, and nothing else, after the items of
    the two loops. *)
Lemma loadSegment_appends_label (st : SheetState) (netName : string) (segmentCount : Z)
    (seg : wxXmlNode) :
  loadSegment' netName segmentCount st seg
  = let st2 := fst (fst (segmentLoops' st netName seg)) in
    match segmentLabel' st netName segmentCount seg with
    | Some label => appendNew st2 (ItemText label)
    | None => st2
    end.
Proof.
  unfold loadSegment, segmentLabel.
  destruct (segmentLoops' st netName seg) as [[st2 labelled] fw]; reflexivity.
Qed.

End Facts.

(** A group with one wire and no label, on a net that occurs once in the
    document and has a single segment. *)
Definition lone_segment : wxXmlNode :=
  XmlNode "segment" [] EmptyString VNone
          [XmlNode "wire" [] EmptyString (VWire (mkEWire 0 0 100 0 0 91 None)) []].

Definition one_sheet_counts : NetCounts.NET_COUNTS := [("N$1"%string, 1)].

Definition empty_sheet : SheetState := mkSheet [] 0%nat [] [] [] [].

(** C2, counterexample: the group has a wire and no explicit label, and no
    label is synthesized for it. *)
Lemma lone_segment_gets_no_label :
  hasChild "wire" lone_segment = true
  /\ hasChild "label" lone_segment = false
  /\ segmentLabel (fun c => c) (fun m => m) (fun s => s) (fun _ s => s)
                  (fun _ => SPIN_RIGHT) (fun _ _ _ => None) [(91, LAYER_WIRE)]
                  one_sheet_counts empty_sheet "N$1" 1 lone_segment = None.
Proof. repeat split. Qed.

End SegmentFacts.

(** ** Nearest line point *)

Module NearestFacts.

Import Sheet.

(** The squared Euclidean distance of two points. *)
Definition sqDistance (a b : VECTOR2I) : Z := (px a - px b) ^ 2 + (py a - py b) ^ 2.

(** The candidates of the search: start, midpoint and end of every line. *)
Definition candidates (aLines : list SEG) : list VECTOR2I :=
  flat_map (fun line => [segA line; Center line; segB line]) aLines.

Definition near_wire : SEG := mkSeg (mkPoint 100 0) (mkPoint 300 0).
Definition far_wire : SEG := mkSeg (mkPoint 1000 (-1000)) (mkPoint 1000 (-2000)).

(** C8, at the failing input: for the point (0,0) the search returns the
    start of the far wire, although the start of the near wire is a
    candidate and is strictly closer. *)
Theorem nearest_point_not_nearest :
  findNearestLinePoint (mkPoint 0 0) [near_wire; far_wire]
  = (mkPoint 1000 (-1000), Some far_wire)
  /\ In (mkPoint 100 0) (candidates [near_wire; far_wire])
  /\ sqDistance (mkPoint 0 0) (mkPoint 100 0)
     < sqDistance (mkPoint 0 0) (mkPoint 1000 (-1000)).
Proof.
  split; [ reflexivity | split ].
  - simpl; auto.
  - reflexivity.
Qed.

(** The measure the search does minimise: the exclusive-or expression. *)
Example radicand_values :
  radicand (mkPoint 0 0) (mkPoint 100 0) = 96
  /\ radicand (mkPoint 0 0) (mkPoint 1000 (-1000)) = 4.
Proof. split; reflexivity. Qed.

End NearestFacts.

(** ** Label-placement corrector *)

Module CorrectorFacts.

Import Sheet.

Lemma Center_degenerate (P : VECTOR2I) : Center (mkSeg P P) = P.
Proof.
  destruct P as [x y]; unfold Center, vadd, vsub, vdiv; simpl.
  rewrite !Z.sub_diag; simpl; rewrite !Z.add_0_r; reflexivity.
Qed.

(** A label off a group whose only wire has length zero is attached to
    that wire, at its single point. *)
Lemma nearest_of_degenerate (P Q : VECTOR2I) :
  findNearestLinePoint Q [mkSeg P P] = (P, Some (mkSeg P P)).
Proof.
  unfold findNearestLinePoint; cbn [fold_left].
  unfold nearestStep; cbn [segA segB].
  rewrite Center_degenerate.
  unfold tryPoint; cbn [mindistance nearestPoint nearestLine].
  rewrite FloatFacts.flt_irrefl; cbn [mindistance nearestPoint nearestLine].
  rewrite FloatFacts.flt_irrefl; reflexivity.
Qed.

Section Search.

Variable Contains : SEG -> VECTOR2I -> bool.
Variable Resize : VECTOR2I -> Z -> VECTOR2I.
Variable vlt : VECTOR2I -> VECTOR2I -> bool.
Variable Mils2iu : Z -> Z.

Local Abbreviation displace' := (displace Contains vlt).
Local Abbreviation onIntersection' := (onIntersection vlt).

Lemma zero_step_forward (P : VECTOR2I) (trial : Z) :
  vadd P (vdiv (vmul (mkPoint 0 0) trial) 2) = P.
Proof.
  destruct P as [x y]; unfold vadd, vdiv, vmul; simpl.
  rewrite !Z.add_0_r; reflexivity.
Qed.

Lemma zero_step_backward (P : VECTOR2I) (trial : Z) :
  vsub P (vdiv (vmul (mkPoint 0 0) trial) 2) = P.
Proof.
  destruct P as [x y]; unfold vsub, vdiv, vmul; simpl.
  rewrite !Z.sub_0_r; reflexivity.
Qed.

(** With a zero direction the loop stays at the start position; when that
    position is on the segment and on an intersection, no iteration leaves
    the loop. *)
Lemma displace_stuck (ws : list VECTOR2I) (seg : SEG) (P : VECTOR2I) :
  Contains seg P = true ->
  onIntersection' ws P = true ->
  forall (fuel : nat) (checkPositive checkNegative move : bool) (trial : Z),
    checkPositive || checkNegative = true ->
    displace' fuel ws seg P (mkPoint 0 0) P checkPositive checkNegative move trial = None.
Proof.
  intros Hc Hi fuel.
  induction fuel as [ | fuel IH ]; intros cp cn move trial Hflags; simpl.
  - rewrite Hi, Hflags, orb_true_r; reflexivity.
  - rewrite Hi, Hflags, orb_true_r; simpl.
    rewrite zero_step_forward, zero_step_backward, Hc.
    destruct (Z.rem trial 2 =? 1); apply IH.
    + reflexivity.
    + apply orb_true_r.
Qed.

(** A member of the intersections is found by the search as soon as the
    order is irreflexive at it. *)
Lemma member_onIntersection (ws : list VECTOR2I) (P : VECTOR2I) :
  vlt P P = false -> In P ws -> onIntersection' ws P = true.
Proof.
  intros Hirr Hin; unfold onIntersection.
  apply existsb_exists; exists P; split; [ exact Hin | ].
  rewrite Hirr; reflexivity.
Qed.

(** A position the search rejects is no member of the intersections. *)
Lemma not_onIntersection_not_member (ws : list VECTOR2I) (P : VECTOR2I) :
  vlt P P = false -> onIntersection' ws P = false -> ~ In P ws.
Proof.
  intros Hirr Hoff Hin.
  rewrite (member_onIntersection ws P Hirr Hin) in Hoff; discriminate.
Qed.

(** C1, at the failing input: one group whose only wire runs from [P] to
    [P], with one label at [Q] off that wire, and [P] among the recorded
    intersections.  Whatever the number of iterations allowed, the
    corrector has not returned. *)
Theorem adjustNetLabels_does_not_return (P Q : VECTOR2I) (label : SCH_TEXT) :
  Contains (mkSeg P P) P = true ->
  Contains (mkSeg P P) Q = false ->
  vlt P P = false ->
  Resize (mkPoint 0 0) (Mils2iu 50) = mkPoint 0 0 ->
  textPos label = Q ->
  forall fuel : nat,
    adjustNetLabels Mils2iu Contains Resize vlt fuel
      (mkSheet [(0%nat, ItemText label)] 1%nat [mkSegDesc [0%nat] [mkSeg P P]] [P] [] [])
    = None.
Proof.
  intros HP HQ Hirr Hres Hpos fuel.
  unfold adjustNetLabels, adjustGroups, adjustLabels, adjustLabel.
  cbn -[findNearestLinePoint moveAlong].
  rewrite Hpos, HQ, nearest_of_degenerate.
  unfold moveAlong; cbn [segA segB].
  replace (vsub P P) with (mkPoint 0 0)
    by (destruct P; unfold vsub; simpl; now rewrite !Z.sub_diag).
  rewrite Hres.
  rewrite (displace_stuck [P] (mkSeg P P) P HP); [ reflexivity | | reflexivity ].
  apply member_onIntersection; [ exact Hirr | simpl; auto ].
Qed.

End Search.

(** Modelled from the spec: [SEG::Contains], defined in the geometry
    library outside the importer; the spec reads it as "lies within the
    segment's span": the point is inside the bounding box of the segment
    and collinear with its ends. *)
Definition Contains_exact (s : SEG) (p : VECTOR2I) : bool :=
  BusEntries.TestSegmentHit_exact p (segA s) (segB s) 0.

(** Modelled from the spec: [VECTOR2I::Resize], defined in the geometry
    library outside the importer; the spec reads it as the segment's
    direction vector at a fixed length.  The zero vector has no direction
    and stays zero; any other vector is scaled to the new length. *)
Definition Resize_scaled (v : VECTOR2I) (aNewLength : Z) : VECTOR2I :=
  if point_eqb v (mkPoint 0 0) then mkPoint 0 0
  else
    let len := Z.sqrt (px v * px v + py v * py v) in
    mkPoint (Z.quot (px v * aNewLength) len) (Z.quot (py v * aNewLength) len).

(** Modelled from the spec: the order of [VECTOR2I] used to sort the
    intersections ("sorted set of positions"), here by X, then by Y. *)
Definition vlt_lex (a b : VECTOR2I) : bool :=
  (px a <? px b) || ((px a =? px b) && (py a <? py b)).

Definition stray_label : SCH_TEXT :=
  mkSchText SCH_LABEL_T (mkPoint 500 500) "N$1" (40, 40) SPIN_RIGHT false default_EDA_TEXT.

Lemma adjustNetLabels_does_not_return_witness :
  (Contains_exact (mkSeg (mkPoint 0 0) (mkPoint 0 0)) (mkPoint 0 0) = true
   /\ Contains_exact (mkSeg (mkPoint 0 0) (mkPoint 0 0)) (mkPoint 500 500) = false
   /\ vlt_lex (mkPoint 0 0) (mkPoint 0 0) = false
   /\ Resize_scaled (mkPoint 0 0) 50 = mkPoint 0 0)
  /\ (forall fuel : nat,
        adjustNetLabels (fun mils => mils) Contains_exact Resize_scaled vlt_lex fuel
          (mkSheet [(0%nat, ItemText stray_label)] 1%nat
                   [mkSegDesc [0%nat] [mkSeg (mkPoint 0 0) (mkPoint 0 0)]]
                   [mkPoint 0 0] [] [])
        = None).
Proof.
  split.
  - repeat split.
  - apply (adjustNetLabels_does_not_return Contains_exact Resize_scaled vlt_lex
             (fun mils => mils) (mkPoint 0 0) (mkPoint 500 500) stray_label);
      reflexivity.
Defined.

End CorrectorFacts.

(** ** Bus-entry synthesizer *)

Module BusEntryFacts.

Import Sheet BusEntries.

(** *** The screen as a store *)

Lemma findItem_Append (scr : SCH_SCREEN) (a b : addr) (i x : SCH_ITEM) :
  findItem scr a = Some x -> findItem (Append scr b i) a = Some x.
Proof.
  unfold Append; induction scr as [ | [a' i'] scr IH ]; simpl; [ discriminate | ].
  destruct (Nat.eqb a a'); auto.
Qed.

Lemma findItem_setItem (scr : SCH_SCREEN) (a : addr) (i x : SCH_ITEM) :
  findItem scr a = Some x -> findItem (setItem scr a i) a = Some i.
Proof.
  induction scr as [ | [a' i'] scr IH ]; simpl; [ discriminate | ].
  destruct (Nat.eqb a a') eqn:Ha; simpl; rewrite Ha; auto.
Qed.

Lemma countBusEntries_Append (scr : SCH_SCREEN) (a : addr) (i : SCH_ITEM) :
  countBusEntries (Append scr a i)
  = (countBusEntries scr + if isBusEntry (a, i) then 1 else 0)%nat.
Proof.
  unfold countBusEntries, Append.
  rewrite filter_app, length_app; simpl.
  destruct (isBusEntry (a, i)); reflexivity.
Qed.

Lemma countMarkers_Append (scr : SCH_SCREEN) (a : addr) (i : SCH_ITEM) :
  countMarkers (Append scr a i) = (countMarkers scr + if isMarker (a, i) then 1 else 0)%nat.
Proof.
  unfold countMarkers, Append.
  rewrite filter_app, length_app; simpl.
  destruct (isMarker (a, i)); reflexivity.
Qed.

Lemma countBusEntries_setItem (scr : SCH_SCREEN) (a : addr) (l l' : SCH_LINE) :
  findItem scr a = Some (ItemLine l) ->
  countBusEntries (setItem scr a (ItemLine l')) = countBusEntries scr.
Proof.
  unfold countBusEntries.
  induction scr as [ | [a' i'] scr IH ]; simpl; [ reflexivity | ].
  destruct (Nat.eqb a a'); simpl.
  - intros H; inversion H; subst; reflexivity.
  - intros H; destruct i'; simpl; rewrite (IH H); reflexivity.
Qed.

Lemma countMarkers_setItem (scr : SCH_SCREEN) (a : addr) (l l' : SCH_LINE) :
  findItem scr a = Some (ItemLine l) ->
  countMarkers (setItem scr a (ItemLine l')) = countMarkers scr.
Proof.
  unfold countMarkers.
  induction scr as [ | [a' i'] scr IH ]; simpl; [ reflexivity | ].
  destruct (Nat.eqb a a'); simpl.
  - intros H; inversion H; subst; reflexivity.
  - intros H; destruct i'; simpl; rewrite (IH H); reflexivity.
Qed.

Section Facts.

Variable TestSegmentHit : wxPoint -> wxPoint -> wxPoint -> Z -> bool.
Variable Overlapping : SCH_ITEM -> SCH_LINE -> bool.

Local Abbreviation moveLabels' := (moveLabels TestSegmentHit Overlapping).
Local Abbreviation moveLabel' := (moveLabel TestSegmentHit Overlapping).
Local Abbreviation entryAtStart' := (entryAtStart TestSegmentHit Overlapping).
Local Abbreviation entryAtEnd' := (entryAtEnd TestSegmentHit Overlapping).
Local Abbreviation diagonalAtStart' := (diagonalAtStart TestSegmentHit Overlapping).
Local Abbreviation diagonalAtEnd' := (diagonalAtEnd TestSegmentHit Overlapping).
Local Abbreviation busWirePair' := (busWirePair TestSegmentHit Overlapping).

Lemma moveLabel_fst (w : SCH_LINE) (p : wxPoint) (e : addr * SCH_ITEM) :
  fst (moveLabel' w p e) = fst e.
Proof.
  unfold moveLabel; destruct e as [a i]; destruct i; simpl; try reflexivity.
  destruct (_ && _); reflexivity.
Qed.

Lemma moveLabel_line (w : SCH_LINE) (p : wxPoint) (a : addr) (l : SCH_LINE) :
  moveLabel' w p (a, ItemLine l) = (a, ItemLine l).
Proof. reflexivity. Qed.

Lemma findItem_moveLabels (scr : SCH_SCREEN) (w : SCH_LINE) (p : wxPoint) (a : addr)
    (l : SCH_LINE) :
  findItem scr a = Some (ItemLine l) ->
  findItem (moveLabels' scr w p) a = Some (ItemLine l).
Proof.
  unfold moveLabels.
  induction scr as [ | [a' i'] scr IH ]; simpl; [ discriminate | ].
  pose proof (moveLabel_fst w p (a', i')) as Hf.
  destruct (moveLabel' w p (a', i')) as [a'' i''] eqn:Hm; simpl in Hf; subst a''.
  destruct (Nat.eqb a a'); [ | exact IH ].
  intros H; inversion H; subst.
  rewrite moveLabel_line in Hm; inversion Hm; reflexivity.
Qed.

Lemma moveLabel_kind (w : SCH_LINE) (p : wxPoint) (e : addr * SCH_ITEM) :
  isBusEntry (moveLabel' w p e) = isBusEntry e
  /\ isMarker (moveLabel' w p e) = isMarker e.
Proof.
  unfold moveLabel; destruct e as [a i]; destruct i; simpl; auto.
  destruct (_ && _); auto.
Qed.

Lemma countBusEntries_moveLabels (scr : SCH_SCREEN) (w : SCH_LINE) (p : wxPoint) :
  countBusEntries (moveLabels' scr w p) = countBusEntries scr.
Proof.
  unfold countBusEntries, moveLabels.
  induction scr as [ | e scr IH ]; simpl; [ reflexivity | ].
  fold (isBusEntry (moveLabel' w p e)); fold (isBusEntry e).
  destruct (moveLabel_kind w p e) as [-> _].
  destruct (isBusEntry e); simpl; rewrite IH; reflexivity.
Qed.

Lemma countMarkers_moveLabels (scr : SCH_SCREEN) (w : SCH_LINE) (p : wxPoint) :
  countMarkers (moveLabels' scr w p) = countMarkers scr.
Proof.
  unfold countMarkers, moveLabels.
  induction scr as [ | e scr IH ]; simpl; [ reflexivity | ].
  fold (isMarker (moveLabel' w p e)); fold (isMarker e).
  destruct (moveLabel_kind w p e) as [_ ->].
  destruct (isMarker e); simpl; rewrite IH; reflexivity.
Qed.

(** *** What each action does to the wire and to the counts *)

(** The wire under test is [line], and the screen holds it at its address. *)
Definition tracks (acc : SheetState * WIRE) (la : addr) (line : SCH_LINE) : Prop :=
  snd acc = (la, Some line) /\ findItem (screen (fst acc)) la = Some (ItemLine line).

(** The numbers of bus entries and markers grow by [de] and [dm]. *)
Definition grows (st st' : SheetState) (de dm : nat) : Prop :=
  countBusEntries (screen st') = (countBusEntries (screen st) + de)%nat
  /\ countMarkers (screen st') = (countMarkers (screen st) + dm)%nat.

Lemma entryAtStart_spec (st : SheetState) (la : addr) (line : SCH_LINE)
    (entryPos newStart : wxPoint) (flip : bool) :
  findItem (screen st) la = Some (ItemLine line) ->
  let r := entryAtStart' st (la, Some line) entryPos flip newStart in
  tracks r la (SetStartPoint line newStart) /\ grows st (fst r) 1 0.
Proof.
  intros Hf; unfold entryAtStart; cbn [snd fst].
  unfold appendNew, alloc, appendItem, withScreen; cbn [screen heapNext fst snd].
  assert (H1 : findItem (moveLabels' (Append (screen st) (heapNext st)
                                          (ItemBusEntry entryPos flip)) line newStart) la
               = Some (ItemLine line))
    by (apply findItem_moveLabels, findItem_Append, Hf).
  repeat split; cbn [screen fst snd].
  - eapply findItem_setItem; exact H1.
  - rewrite (countBusEntries_setItem _ _ _ _ H1), countBusEntries_moveLabels,
      countBusEntries_Append; reflexivity.
  - rewrite (countMarkers_setItem _ _ _ _ H1), countMarkers_moveLabels,
      countMarkers_Append; reflexivity.
Qed.

Lemma entryAtEnd_spec (st : SheetState) (la : addr) (line : SCH_LINE)
    (entryPos newEnd : wxPoint) (flip : bool) :
  findItem (screen st) la = Some (ItemLine line) ->
  let r := entryAtEnd' st (la, Some line) entryPos flip newEnd in
  tracks r la (SetEndPoint line newEnd) /\ grows st (fst r) 1 0.
Proof.
  intros Hf; unfold entryAtEnd; cbn [snd fst].
  unfold appendNew, alloc, appendItem, withScreen; cbn [screen heapNext fst snd].
  assert (H1 : findItem (moveLabels' (Append (screen st) (heapNext st)
                                          (ItemBusEntry entryPos flip)) line newEnd) la
               = Some (ItemLine line))
    by (apply findItem_moveLabels, findItem_Append, Hf).
  repeat split; cbn [screen fst snd].
  - eapply findItem_setItem; exact H1.
  - rewrite (countBusEntries_setItem _ _ _ _ H1), countBusEntries_moveLabels,
      countBusEntries_Append; reflexivity.
  - rewrite (countMarkers_setItem _ _ _ _ H1), countMarkers_moveLabels,
      countMarkers_Append; reflexivity.
Qed.

Lemma needMarker_spec (st : SheetState) (la : addr) (line : SCH_LINE) (pos : wxPoint) :
  findItem (screen st) la = Some (ItemLine line) ->
  let r := needMarker st (la, Some line) pos in
  tracks r la line /\ grows st (fst r) 0 1
  /\ In (ItemMarker bus_entry_needed pos) (map snd (screen (fst r))).
Proof.
  intros Hf; unfold needMarker, tracks, grows.
  unfold appendNew, alloc, appendItem, withScreen; cbn [screen heapNext fst snd].
  repeat split.
  - apply findItem_Append, Hf.
  - rewrite countBusEntries_Append; reflexivity.
  - rewrite countMarkers_Append; reflexivity.
  - unfold Append; rewrite map_app; apply in_or_app; right; simpl; auto.
Qed.

Lemma diagonalAtStart_spec (st : SheetState) (la : addr) (line : SCH_LINE)
    (entryPos target other : wxPoint) (flip : bool) :
  findItem (screen st) la = Some (ItemLine line) ->
  target <> other ->
  let r := diagonalAtStart' st (la, Some line) entryPos flip target other in
  tracks r la (SetStartPoint line target) /\ grows st (fst r) 1 0.
Proof.
  intros Hf Hne; unfold diagonalAtStart; cbn [snd fst].
  destruct (point_eqb_spec target other) as [ Heq | _ ]; [ contradiction | ].
  apply (entryAtStart_spec st la line entryPos target flip Hf).
Qed.

Lemma diagonalAtEnd_spec (st : SheetState) (la : addr) (line : SCH_LINE)
    (entryPos target other : wxPoint) (flip : bool) :
  findItem (screen st) la = Some (ItemLine line) ->
  target <> other ->
  let r := diagonalAtEnd' st (la, Some line) entryPos flip target other in
  tracks r la (SetEndPoint line target) /\ grows st (fst r) 1 0.
Proof.
  intros Hf Hne; unfold diagonalAtEnd; cbn [snd fst].
  destruct (point_eqb_spec target other) as [ Heq | _ ]; [ contradiction | ].
  apply (entryAtEnd_spec st la line entryPos target flip Hf).
Qed.

(** *** The four orthogonal blocks and the two free-angle blocks *)

Section Blocks.

Variables busstart busend : wxPoint.

Local Abbreviation hit' := (hit TestSegmentHit busstart busend).
Local Abbreviation horizontalStart' :=
  (horizontalStart TestSegmentHit Overlapping busstart busend).
Local Abbreviation horizontalEnd' :=
  (horizontalEnd TestSegmentHit Overlapping busstart busend).
Local Abbreviation verticalStart' :=
  (verticalStart TestSegmentHit Overlapping busstart busend).
Local Abbreviation verticalEnd' :=
  (verticalEnd TestSegmentHit Overlapping busstart busend).
Local Abbreviation freeStart' := (freeStart TestSegmentHit Overlapping busstart busend).
Local Abbreviation freeEnd' := (freeEnd TestSegmentHit Overlapping busstart busend).

(** What an orthogonal block leaves behind: a bus entry with the end point
    moved by [d] along the wire, or a marker with the wire untouched. *)
Definition entered (st : SheetState) (r : SheetState * WIRE) (la : addr)
    (line' : SCH_LINE) : Prop :=
  tracks r la line' /\ grows st (fst r) 1 0.

Definition marked (st : SheetState) (r : SheetState * WIRE) (la : addr)
    (line : SCH_LINE) (pos : wxPoint) : Prop :=
  tracks r la line /\ grows st (fst r) 0 1
  /\ In (ItemMarker bus_entry_needed pos) (map snd (screen (fst r))).

Ltac block_cases Hf :=
  match goal with
  | |- context [entryAtStart _ _ ?st (?la, Some ?line) ?e ?f ?n] =>
      left; eexists; split; [ | split; [ | apply (entryAtStart_spec st la line e n f Hf) ] ]
  | |- context [entryAtEnd _ _ ?st (?la, Some ?line) ?e ?f ?n] =>
      left; eexists; split; [ | split; [ | apply (entryAtEnd_spec st la line e n f Hf) ] ]
  | |- context [needMarker ?st (?la, Some ?line) ?p] =>
      right; split; [ | split; [ | apply (needMarker_spec st la line p Hf) ] ]
  end.

Lemma horizontalStart_outcome (st : SheetState) (la : addr) (line : SCH_LINE)
    (linestart lineend : wxPoint) :
  findItem (screen st) la = Some (ItemLine line) ->
  hit' linestart = true ->
  let r := horizontalStart' (st, (la, Some line)) linestart lineend in
  (exists d, (d = 100 \/ d = -100)
             /\ (hit' (off linestart 0 (-100)) = true \/ hit' (off linestart 0 100) = true)
             /\ entered st r la (SetStartPoint line (off linestart d 0)))
  \/ (hit' (off linestart 0 (-100)) = false /\ hit' (off linestart 0 100) = false
      /\ marked st r la line linestart).
Proof.
  intros Hf Hh; unfold horizontalStart; rewrite Hh.
  destruct (px lineend <? px busstart);
    destruct (hit' (off linestart 0 (-100)));
    try destruct (hit' (off linestart 0 100));
    block_cases Hf; auto.
Qed.

Lemma horizontalEnd_outcome (st : SheetState) (la : addr) (line : SCH_LINE)
    (linestart lineend : wxPoint) :
  findItem (screen st) la = Some (ItemLine line) ->
  hit' lineend = true ->
  let r := horizontalEnd' (st, (la, Some line)) linestart lineend in
  (exists d, (d = 100 \/ d = -100)
             /\ (hit' (off lineend 0 (-100)) = true \/ hit' (off lineend 0 100) = true)
             /\ entered st r la (SetEndPoint line (off lineend d 0)))
  \/ (hit' (off lineend 0 (-100)) = false /\ hit' (off lineend 0 100) = false
      /\ marked st r la line lineend).
Proof.
  intros Hf Hh; unfold horizontalEnd; rewrite Hh.
  destruct (px linestart <? px busstart);
    destruct (hit' (off lineend 0 (-100)));
    destruct (hit' (off lineend 0 100));
    block_cases Hf; auto.
Qed.

Lemma verticalStart_outcome (st : SheetState) (la : addr) (line : SCH_LINE)
    (linestart lineend : wxPoint) :
  findItem (screen st) la = Some (ItemLine line) ->
  hit' linestart = true ->
  let r := verticalStart' (st, (la, Some line)) linestart lineend in
  (exists d, (d = 100 \/ d = -100)
             /\ (hit' (off linestart (-100) 0) = true \/ hit' (off linestart 100 0) = true)
             /\ entered st r la (SetStartPoint line (off linestart 0 d)))
  \/ (hit' (off linestart (-100) 0) = false /\ hit' (off linestart 100 0) = false
      /\ marked st r la line linestart).
Proof.
  intros Hf Hh; unfold verticalStart; rewrite Hh.
  destruct (py lineend <? py busstart);
    destruct (hit' (off linestart (-100) 0));
    try destruct (hit' (off linestart 100 0));
    block_cases Hf; auto.
Qed.

Lemma verticalEnd_outcome (st : SheetState) (la : addr) (line : SCH_LINE)
    (linestart lineend : wxPoint) :
  findItem (screen st) la = Some (ItemLine line) ->
  hit' lineend = true ->
  let r := verticalEnd' (st, (la, Some line)) linestart lineend in
  (exists d, (d = 100 \/ d = -100)
             /\ (hit' (off lineend (-100) 0) = true \/ hit' (off lineend 100 0) = true)
             /\ entered st r la (SetEndPoint line (off lineend 0 d)))
  \/ (hit' (off lineend (-100) 0) = false /\ hit' (off lineend 100 0) = false
      /\ marked st r la line lineend).
Proof.
  intros Hf Hh; unfold verticalEnd; rewrite Hh.
  destruct (py linestart <? py busstart);
    destruct (hit' (off lineend (-100) 0));
    try destruct (hit' (off lineend 100 0));
    block_cases Hf; auto.
Qed.

(** A block whose end point is off the bus changes nothing. *)
Lemma horizontalStart_skip acc ls le : hit' ls = false -> horizontalStart' acc ls le = acc.
Proof. intros H; unfold horizontalStart; destruct acc; rewrite H; reflexivity. Qed.

Lemma horizontalEnd_skip acc ls le : hit' le = false -> horizontalEnd' acc ls le = acc.
Proof. intros H; unfold horizontalEnd; destruct acc; rewrite H; reflexivity. Qed.

Lemma verticalStart_skip acc ls le : hit' ls = false -> verticalStart' acc ls le = acc.
Proof. intros H; unfold verticalStart; destruct acc; rewrite H; reflexivity. Qed.

Lemma verticalEnd_skip acc ls le : hit' le = false -> verticalEnd' acc ls le = acc.
Proof. intros H; unfold verticalEnd; destruct acc; rewrite H; reflexivity. Qed.

Lemma freeStart_skip acc ls le : hit' ls = false -> freeStart' acc ls le = acc.
Proof. intros H; unfold freeStart; destruct acc; rewrite H; reflexivity. Qed.

Lemma freeEnd_skip acc ls le : hit' le = false -> freeEnd' acc ls le = acc.
Proof.
  intros H; unfold freeEnd; destruct acc as [st [la [ l | ]]]; cbn [snd];
    [ rewrite H | ]; reflexivity.
Qed.

Lemma off_neq_x (p q : wxPoint) (dx dy : Z) : px p = px q -> dx <> 0 -> off p dx dy <> q.
Proof. intros Hx Hd Heq; subst q; unfold off, vadd in Hx; simpl in Hx; lia. Qed.

Lemma off_neq_y (p q : wxPoint) (dx dy : Z) : py p = py q -> dy <> 0 -> off p dx dy <> q.
Proof. intros Hy Hd Heq; subst q; unfold off, vadd in Hy; simpl in Hy; lia. Qed.

(** The free-angle block on an orthogonal wire whose start is still on the
    bus: it adds a bus entry and moves the start by 100 in both axes. *)
Lemma freeStart_fires (st : SheetState) (la : addr) (line : SCH_LINE) :
  findItem (screen st) la = Some (ItemLine line) ->
  hit' (lineStart line) = true ->
  px (lineStart line) = px (lineEnd line) \/ py (lineStart line) = py (lineEnd line) ->
  let r := freeStart' (st, (la, Some line)) (lineStart line) (lineEnd line) in
  exists dx dy, (dx = 100 \/ dx = -100) /\ (dy = 100 \/ dy = -100)
                /\ entered st r la (SetStartPoint line (off (lineStart line) dx dy)).
Proof.
  intros Hf Hh Horth; unfold freeStart; rewrite Hh.
  destruct (0 <? px (vsub (lineStart line) (lineEnd line)));
    destruct (0 <? py (vsub (lineStart line) (lineEnd line)));
    match goal with
    | |- context [diagonalAtStart _ _ _ _ _ _ (off _ ?dx ?dy) _] =>
        exists dx, dy; split; [ auto | split; [ auto | ] ];
        apply diagonalAtStart_spec; [ exact Hf | ];
        destruct Horth; [ apply off_neq_x | apply off_neq_y ]; auto; lia
    end.
Qed.

Lemma freeEnd_fires (st : SheetState) (la : addr) (line : SCH_LINE) (ls le : wxPoint) :
  findItem (screen st) la = Some (ItemLine line) ->
  hit' le = true ->
  px le = px ls \/ py le = py ls ->
  let r := freeEnd' (st, (la, Some line)) ls le in
  exists dx dy, (dx = 100 \/ dx = -100) /\ (dy = 100 \/ dy = -100)
                /\ entered st r la (SetEndPoint line (off le dx dy)).
Proof.
  intros Hf Hh Horth; unfold freeEnd; cbn [snd]; rewrite Hh.
  destruct (0 <? px (vsub ls le)); destruct (0 <? py (vsub ls le));
    match goal with
    | |- context [diagonalAtEnd _ _ _ _ _ _ (off _ ?dx ?dy) _] =>
        exists dx, dy; split; [ auto | split; [ auto | ] ];
        apply diagonalAtEnd_spec; [ exact Hf | ];
        destruct Horth; [ apply off_neq_x | apply off_neq_y ]; auto; lia
    end.
Qed.

Lemma grows_trans (a b c : SheetState) (e1 m1 e2 m2 : nat) :
  grows a b e1 m1 -> grows b c e2 m2 -> grows a c (e1 + e2) (m1 + m2).
Proof. unfold grows; intros [H1 H2] [H3 H4]; split; lia. Qed.

(** A marker stays on the screen through the actions of the synthesizer. *)
Lemma In_setItem_other (scr : SCH_SCREEN) (a : addr) (l l' : SCH_LINE) (y : SCH_ITEM) :
  findItem scr a = Some (ItemLine l) ->
  isMarker (a, y) = true ->
  In y (map snd scr) -> In y (map snd (setItem scr a (ItemLine l'))).
Proof.
  intros Hf Hm.
  induction scr as [ | [a' i'] scr IH ]; simpl in *; [ auto | ].
  destruct (Nat.eqb a a'); simpl.
  - inversion Hf; subst; intros [ Heq | Hin ]; [ subst y; discriminate | auto ].
  - intros [ Heq | Hin ]; [ auto | right; apply IH; auto ].
Qed.

Lemma In_moveLabels_marker (scr : SCH_SCREEN) (w : SCH_LINE) (p q : wxPoint) (m : string) :
  In (ItemMarker m q) (map snd scr) ->
  In (ItemMarker m q) (map snd (moveLabels' scr w p)).
Proof.
  unfold moveLabels; rewrite !in_map_iff.
  intros [[a i] [Hi Hin]]; simpl in Hi; subst i.
  exists (a, ItemMarker m q); split; [ reflexivity | ].
  apply in_map_iff; exists (a, ItemMarker m q); split; [ reflexivity | exact Hin ].
Qed.

Lemma marker_survives_entry (st : SheetState) (la : addr) (line line' : SCH_LINE)
    (entryPos p q : wxPoint) (flip : bool) (m : string) :
  findItem (screen st) la = Some (ItemLine line) ->
  In (ItemMarker m q) (map snd (screen st)) ->
  In (ItemMarker m q)
     (map snd (setItem (moveLabels' (Append (screen st) (heapNext st)
                                            (ItemBusEntry entryPos flip)) line p)
                       la (ItemLine line'))).
Proof.
  intros Hf Hin.
  apply (In_setItem_other _ la line line').
  - apply findItem_moveLabels, findItem_Append, Hf.
  - reflexivity.
  - apply In_moveLabels_marker; unfold Append; rewrite map_app; apply in_or_app; auto.
Qed.

Lemma marker_survives_diagonalAtStart (st : SheetState) (la : addr) (line : SCH_LINE)
    (entryPos target other q : wxPoint) (flip : bool) (m : string) :
  findItem (screen st) la = Some (ItemLine line) ->
  target <> other ->
  In (ItemMarker m q) (map snd (screen st)) ->
  In (ItemMarker m q)
     (map snd (screen (fst (diagonalAtStart' st (la, Some line) entryPos flip target
                                             other)))).
Proof.
  intros Hf Hne Hin; unfold diagonalAtStart; cbn [snd fst].
  destruct (point_eqb_spec target other) as [ Heq | _ ]; [ contradiction | ].
  unfold appendNew, alloc, appendItem, withScreen; cbn [screen heapNext fst snd].
  apply marker_survives_entry; assumption.
Qed.

Lemma marker_survives_diagonalAtEnd (st : SheetState) (la : addr) (line : SCH_LINE)
    (entryPos target other q : wxPoint) (flip : bool) (m : string) :
  findItem (screen st) la = Some (ItemLine line) ->
  target <> other ->
  In (ItemMarker m q) (map snd (screen st)) ->
  In (ItemMarker m q)
     (map snd (screen (fst (diagonalAtEnd' st (la, Some line) entryPos flip target
                                           other)))).
Proof.
  intros Hf Hne Hin; unfold diagonalAtEnd; cbn [snd fst].
  destruct (point_eqb_spec target other) as [ Heq | _ ]; [ contradiction | ].
  unfold appendNew, alloc, appendItem, withScreen; cbn [screen heapNext fst snd].
  apply marker_survives_entry; assumption.
Qed.

Lemma marker_survives_freeStart (st : SheetState) (la : addr) (line : SCH_LINE)
    (q : wxPoint) (m : string) :
  findItem (screen st) la = Some (ItemLine line) ->
  px (lineStart line) = px (lineEnd line) \/ py (lineStart line) = py (lineEnd line) ->
  In (ItemMarker m q) (map snd (screen st)) ->
  In (ItemMarker m q)
     (map snd (screen (fst (freeStart' (st, (la, Some line)) (lineStart line)
                                       (lineEnd line))))).
Proof.
  intros Hf Horth Hin; unfold freeStart.
  destruct (hit' (lineStart line)); [ | exact Hin ].
  destruct (0 <? px (vsub (lineStart line) (lineEnd line)));
    destruct (0 <? py (vsub (lineStart line) (lineEnd line)));
    (apply marker_survives_diagonalAtStart; [ exact Hf | | exact Hin ];
     destruct Horth; [ apply off_neq_x | apply off_neq_y ]; auto; lia).
Qed.

Lemma marker_survives_freeEnd (st : SheetState) (la : addr) (line : SCH_LINE)
    (ls le q : wxPoint) (m : string) :
  findItem (screen st) la = Some (ItemLine line) ->
  px le = px ls \/ py le = py ls ->
  In (ItemMarker m q) (map snd (screen st)) ->
  In (ItemMarker m q) (map snd (screen (fst (freeEnd' (st, (la, Some line)) ls le)))).
Proof.
  intros Hf Horth Hin; unfold freeEnd; cbn [snd].
  destruct (hit' le); [ | exact Hin ].
  destruct (0 <? px (vsub ls le)); destruct (0 <? py (vsub ls le));
    (apply marker_survives_diagonalAtEnd; [ exact Hf | | exact Hin ];
     destruct Horth; [ apply off_neq_x | apply off_neq_y ]; auto; lia).
Qed.

(** *** A wire end on a perpendicular bus *)

Local Abbreviation busWirePair'' := (busWirePair TestSegmentHit Overlapping busstart busend).

(** With distance 0 a hit on a vertical (horizontal) segment has the
    segment's X (Y) coordinate. *)
Hypothesis hit_vertical :
  forall p s e : wxPoint, px s = px e -> TestSegmentHit p s e 0 = true -> px p = px s.
Hypothesis hit_horizontal :
  forall p s e : wxPoint, py s = py e -> TestSegmentHit p s e 0 = true -> py p = py s.

(** What the pair body does to a wire with one end on a perpendicular bus:
    [moved] is the new position of that end, [markers] the number of
    markers added. *)
Definition startOutcome (st : SheetState) (la : addr) (line : SCH_LINE)
    (moved : wxPoint) (markers : nat) : Prop :=
  let r := busWirePair'' st la line in
  tracks r la (SetStartPoint line moved) /\ grows st (fst r) 1 markers
  /\ (markers = 1%nat ->
       In (ItemMarker bus_entry_needed (lineStart line)) (map snd (screen (fst r)))).

Definition endOutcome (st : SheetState) (la : addr) (line : SCH_LINE)
    (moved : wxPoint) (markers : nat) : Prop :=
  let r := busWirePair'' st la line in
  tracks r la (SetEndPoint line moved) /\ grows st (fst r) 1 markers
  /\ (markers = 1%nat ->
       In (ItemMarker bus_entry_needed (lineEnd line)) (map snd (screen (fst r)))).

Ltac open_acc r st1 w1 H :=
  destruct r as [st1 w1]; destruct H as [[Hw1 Hf1] Hg1]; cbn [fst snd] in Hw1, Hf1, Hg1;
  subst w1.

Lemma horizontal_start (st : SheetState) (la : addr) (line : SCH_LINE) :
  findItem (screen st) la = Some (ItemLine line) ->
  py (lineStart line) = py (lineEnd line) ->
  px (lineStart line) <> px (lineEnd line) ->
  px busstart = px busend ->
  hit' (lineStart line) = true ->
  (exists d, (d = 100 \/ d = -100)
             /\ (hit' (off (lineStart line) 0 (-100)) = true \/ hit' (off (lineStart line) 0 100) = true)
             /\ startOutcome st la line (off (lineStart line) d 0) 0)
  \/ (hit' (off (lineStart line) 0 (-100)) = false
      /\ hit' (off (lineStart line) 0 100) = false
      /\ exists dx dy, (dx = 100 \/ dx = -100) /\ (dy = 100 \/ dy = -100)
                       /\ startOutcome st la line (off (lineStart line) dx dy) 1).
Proof.
  intros Hf Hy Hx Hb Hs.
  assert (Hsx : px (lineStart line) = px busstart) by (apply (hit_vertical _ _ _ Hb Hs)).
  assert (He : hit' (lineEnd line) = false).
  { destruct (hit' (lineEnd line)) eqn:E; [ | reflexivity ].
    apply (hit_vertical _ _ _ Hb) in E; lia. }
  unfold startOutcome, busWirePair.
  replace (py (lineStart line) =? py (lineEnd line)) with true
    by (symmetry; apply Z.eqb_eq; exact Hy).
  replace (px busstart =? px busend) with true by (symmetry; apply Z.eqb_eq; exact Hb).
  replace (px (lineStart line) =? px (lineEnd line)) with false
    by (symmetry; apply Z.eqb_neq; exact Hx).
  cbn [andb].
  rewrite horizontalEnd_skip by exact He.
  destruct (horizontalStart_outcome st la line (lineStart line) (lineEnd line) Hf Hs)
    as [ (d & Hd & Hpr & Hent) | (Hp1 & Hp2 & Htr & Hg & Hin) ].
  - left; exists d; split; [ exact Hd | split; [ exact Hpr | ] ].
    open_acc (horizontalStart' (st, (la, Some line)) (lineStart line) (lineEnd line))
             st1 w1 Hent.
    cbn [snd fst].
    rewrite freeStart_skip; [ rewrite freeEnd_skip; [ | exact He ] | ].
    + split; [ split; [ reflexivity | exact Hf1 ] | ].
      split; [ exact Hg1 | intros H0; discriminate H0 ].
    + cbn [lineStart SetStartPoint].
      destruct (hit' (off (lineStart line) d 0)) eqn:E; [ | reflexivity ].
      apply (hit_vertical _ _ _ Hb) in E; unfold off, vadd in E; simpl in E.
      destruct Hd; lia.
  - right; split; [ exact Hp1 | split; [ exact Hp2 | ] ].
    destruct (horizontalStart' (st, (la, Some line)) (lineStart line) (lineEnd line))
      as [st1 w1].
    destruct Htr as [Hw1 Hf1]; cbn [fst snd] in Hw1, Hf1, Hg, Hin; subst w1.
    cbn [snd fst].
    rewrite freeEnd_skip by exact He.
    destruct (freeStart_fires st1 la line Hf1 Hs (or_intror Hy))
      as (dx & dy & Hdx & Hdy & Htr2 & Hg2).
    exists dx, dy; split; [ exact Hdx | split; [ exact Hdy | ] ].
    split; [ exact Htr2 | split ].
    + apply (grows_trans st st1 _ 0 1 1 0 Hg Hg2).
    + intros _; apply marker_survives_freeStart; auto.
Qed.

Lemma horizontal_end (st : SheetState) (la : addr) (line : SCH_LINE) :
  findItem (screen st) la = Some (ItemLine line) ->
  py (lineStart line) = py (lineEnd line) ->
  px (lineStart line) <> px (lineEnd line) ->
  px busstart = px busend ->
  hit' (lineEnd line) = true ->
  (exists d, (d = 100 \/ d = -100)
             /\ (hit' (off (lineEnd line) 0 (-100)) = true \/ hit' (off (lineEnd line) 0 100) = true)
             /\ endOutcome st la line (off (lineEnd line) d 0) 0)
  \/ (hit' (off (lineEnd line) 0 (-100)) = false
      /\ hit' (off (lineEnd line) 0 100) = false
      /\ exists dx dy, (dx = 100 \/ dx = -100) /\ (dy = 100 \/ dy = -100)
                       /\ endOutcome st la line (off (lineEnd line) dx dy) 1).
Proof.
  intros Hf Hy Hx Hb He.
  assert (Hex : px (lineEnd line) = px busstart) by (apply (hit_vertical _ _ _ Hb He)).
  assert (Hs : hit' (lineStart line) = false).
  { destruct (hit' (lineStart line)) eqn:E; [ | reflexivity ].
    apply (hit_vertical _ _ _ Hb) in E; lia. }
  unfold endOutcome, busWirePair.
  replace (py (lineStart line) =? py (lineEnd line)) with true
    by (symmetry; apply Z.eqb_eq; exact Hy).
  replace (px busstart =? px busend) with true by (symmetry; apply Z.eqb_eq; exact Hb).
  replace (px (lineStart line) =? px (lineEnd line)) with false
    by (symmetry; apply Z.eqb_neq; exact Hx).
  cbn [andb].
  rewrite (horizontalStart_skip _ _ _ Hs).
  destruct (horizontalEnd_outcome st la line (lineStart line) (lineEnd line) Hf He)
    as [ (d & Hd & Hpr & Hent) | (Hp1 & Hp2 & Htr & Hg & Hin) ].
  - left; exists d; split; [ exact Hd | split; [ exact Hpr | ] ].
    open_acc (horizontalEnd' (st, (la, Some line)) (lineStart line) (lineEnd line))
             st1 w1 Hent.
    cbn [snd fst].
    rewrite freeStart_skip; [ rewrite freeEnd_skip | exact Hs ].
    + split; [ split; [ reflexivity | exact Hf1 ] | ].
      split; [ exact Hg1 | intros H0; discriminate H0 ].
    + cbn [lineEnd SetEndPoint].
      destruct (hit' (off (lineEnd line) d 0)) eqn:E; [ | reflexivity ].
      apply (hit_vertical _ _ _ Hb) in E; unfold off, vadd in E; simpl in E.
      destruct Hd; lia.
  - right; split; [ exact Hp1 | split; [ exact Hp2 | ] ].
    destruct (horizontalEnd' (st, (la, Some line)) (lineStart line) (lineEnd line))
      as [st1 w1].
    destruct Htr as [Hw1 Hf1]; cbn [fst snd] in Hw1, Hf1, Hg, Hin; subst w1.
    cbn [snd fst].
    rewrite (freeStart_skip _ _ _ Hs).
    destruct (freeEnd_fires st1 la line (lineStart line) (lineEnd line) Hf1 He
                            (or_intror (eq_sym Hy)))
      as (dx & dy & Hdx & Hdy & Htr2 & Hg2).
    exists dx, dy; split; [ exact Hdx | split; [ exact Hdy | ] ].
    split; [ exact Htr2 | split ].
    + apply (grows_trans st st1 _ 0 1 1 0 Hg Hg2).
    + intros _; apply marker_survives_freeEnd; auto.
Qed.

Lemma vertical_start (st : SheetState) (la : addr) (line : SCH_LINE) :
  findItem (screen st) la = Some (ItemLine line) ->
  px (lineStart line) = px (lineEnd line) ->
  py (lineStart line) <> py (lineEnd line) ->
  py busstart = py busend ->
  hit' (lineStart line) = true ->
  (exists d, (d = 100 \/ d = -100)
             /\ (hit' (off (lineStart line) (-100) 0) = true \/ hit' (off (lineStart line) 100 0) = true)
             /\ startOutcome st la line (off (lineStart line) 0 d) 0)
  \/ (hit' (off (lineStart line) (-100) 0) = false
      /\ hit' (off (lineStart line) 100 0) = false
      /\ exists dx dy, (dx = 100 \/ dx = -100) /\ (dy = 100 \/ dy = -100)
                       /\ startOutcome st la line (off (lineStart line) dx dy) 1).
Proof.
  intros Hf Hx Hy Hb Hs.
  assert (Hsy : py (lineStart line) = py busstart)
    by (apply (hit_horizontal _ _ _ Hb Hs)).
  assert (He : hit' (lineEnd line) = false).
  { destruct (hit' (lineEnd line)) eqn:E; [ | reflexivity ].
    apply (hit_horizontal _ _ _ Hb) in E; lia. }
  unfold startOutcome, busWirePair.
  replace (py (lineStart line) =? py (lineEnd line)) with false
    by (symmetry; apply Z.eqb_neq; exact Hy).
  replace (py busstart =? py busend) with true by (symmetry; apply Z.eqb_eq; exact Hb).
  replace (px (lineStart line) =? px (lineEnd line)) with true
    by (symmetry; apply Z.eqb_eq; exact Hx).
  cbn [andb].
  rewrite (verticalEnd_skip _ _ _ He).
  destruct (verticalStart_outcome st la line (lineStart line) (lineEnd line) Hf Hs)
    as [ (d & Hd & Hpr & Hent) | (Hp1 & Hp2 & Htr & Hg & Hin) ].
  - left; exists d; split; [ exact Hd | split; [ exact Hpr | ] ].
    open_acc (verticalStart' (st, (la, Some line)) (lineStart line) (lineEnd line))
             st1 w1 Hent.
    cbn [snd fst].
    rewrite freeStart_skip; [ rewrite freeEnd_skip; [ | exact He ] | ].
    + split; [ split; [ reflexivity | exact Hf1 ] | ].
      split; [ exact Hg1 | intros H0; discriminate H0 ].
    + cbn [lineStart SetStartPoint].
      destruct (hit' (off (lineStart line) 0 d)) eqn:E; [ | reflexivity ].
      apply (hit_horizontal _ _ _ Hb) in E; unfold off, vadd in E; simpl in E.
      destruct Hd; lia.
  - right; split; [ exact Hp1 | split; [ exact Hp2 | ] ].
    destruct (verticalStart' (st, (la, Some line)) (lineStart line) (lineEnd line))
      as [st1 w1].
    destruct Htr as [Hw1 Hf1]; cbn [fst snd] in Hw1, Hf1, Hg, Hin; subst w1.
    cbn [snd fst].
    rewrite (freeEnd_skip _ _ _ He).
    destruct (freeStart_fires st1 la line Hf1 Hs (or_introl Hx))
      as (dx & dy & Hdx & Hdy & Htr2 & Hg2).
    exists dx, dy; split; [ exact Hdx | split; [ exact Hdy | ] ].
    split; [ exact Htr2 | split ].
    + apply (grows_trans st st1 _ 0 1 1 0 Hg Hg2).
    + intros _; apply marker_survives_freeStart; auto.
Qed.

Lemma vertical_end (st : SheetState) (la : addr) (line : SCH_LINE) :
  findItem (screen st) la = Some (ItemLine line) ->
  px (lineStart line) = px (lineEnd line) ->
  py (lineStart line) <> py (lineEnd line) ->
  py busstart = py busend ->
  hit' (lineEnd line) = true ->
  (exists d, (d = 100 \/ d = -100)
             /\ (hit' (off (lineEnd line) (-100) 0) = true \/ hit' (off (lineEnd line) 100 0) = true)
             /\ endOutcome st la line (off (lineEnd line) 0 d) 0)
  \/ (hit' (off (lineEnd line) (-100) 0) = false
      /\ hit' (off (lineEnd line) 100 0) = false
      /\ exists dx dy, (dx = 100 \/ dx = -100) /\ (dy = 100 \/ dy = -100)
                       /\ endOutcome st la line (off (lineEnd line) dx dy) 1).
Proof.
  intros Hf Hx Hy Hb He.
  assert (Hey : py (lineEnd line) = py busstart) by (apply (hit_horizontal _ _ _ Hb He)).
  assert (Hs : hit' (lineStart line) = false).
  { destruct (hit' (lineStart line)) eqn:E; [ | reflexivity ].
    apply (hit_horizontal _ _ _ Hb) in E; lia. }
  unfold endOutcome, busWirePair.
  replace (py (lineStart line) =? py (lineEnd line)) with false
    by (symmetry; apply Z.eqb_neq; exact Hy).
  replace (py busstart =? py busend) with true by (symmetry; apply Z.eqb_eq; exact Hb).
  replace (px (lineStart line) =? px (lineEnd line)) with true
    by (symmetry; apply Z.eqb_eq; exact Hx).
  cbn [andb].
  rewrite (verticalStart_skip _ _ _ Hs).
  destruct (verticalEnd_outcome st la line (lineStart line) (lineEnd line) Hf He)
    as [ (d & Hd & Hpr & Hent) | (Hp1 & Hp2 & Htr & Hg & Hin) ].
  - left; exists d; split; [ exact Hd | split; [ exact Hpr | ] ].
    open_acc (verticalEnd' (st, (la, Some line)) (lineStart line) (lineEnd line))
             st1 w1 Hent.
    cbn [snd fst].
    rewrite freeStart_skip; [ rewrite freeEnd_skip | exact Hs ].
    + split; [ split; [ reflexivity | exact Hf1 ] | ].
      split; [ exact Hg1 | intros H0; discriminate H0 ].
    + cbn [lineEnd SetEndPoint].
      destruct (hit' (off (lineEnd line) 0 d)) eqn:E; [ | reflexivity ].
      apply (hit_horizontal _ _ _ Hb) in E; unfold off, vadd in E; simpl in E.
      destruct Hd; lia.
  - right; split; [ exact Hp1 | split; [ exact Hp2 | ] ].
    destruct (verticalEnd' (st, (la, Some line)) (lineStart line) (lineEnd line))
      as [st1 w1].
    destruct Htr as [Hw1 Hf1]; cbn [fst snd] in Hw1, Hf1, Hg, Hin; subst w1.
    cbn [snd fst].
    rewrite (freeStart_skip _ _ _ Hs).
    destruct (freeEnd_fires st1 la line (lineStart line) (lineEnd line) Hf1 He
                            (or_introl (eq_sym Hx)))
      as (dx & dy & Hdx & Hdy & Htr2 & Hg2).
    exists dx, dy; split; [ exact Hdx | split; [ exact Hdy | ] ].
    split; [ exact Htr2 | split ].
    + apply (grows_trans st st1 _ 0 1 1 0 Hg Hg2).
    + intros _; apply marker_survives_freeEnd; auto.
Qed.

(** *** The eight canonical orientations *)

(** Which end of the wire touches the bus. *)
Inductive TOUCH : Type := AtStart | AtEnd.

(** The direction of the wire; the bus is perpendicular to it. *)
Inductive WIRE_AXIS : Type := Horizontal | Vertical.

Definition endpoint (t : TOUCH) (l : SCH_LINE) : wxPoint :=
  match t with AtStart => lineStart l | AtEnd => lineEnd l end.

Definition otherEnd (t : TOUCH) (l : SCH_LINE) : wxPoint :=
  match t with AtStart => lineEnd l | AtEnd => lineStart l end.

(** The coordinate that measures the distance from the bus line: X for a
    horizontal wire on a vertical bus, Y for a vertical wire. *)
Definition across (o : WIRE_AXIS) (p : wxPoint) : Z :=
  match o with Horizontal => px p | Vertical => py p end.

(** An orthogonal wire of non-zero length and a bus perpendicular to it.
    The wire leaves the bus to either side. *)
Definition canonical (o : WIRE_AXIS) (line : SCH_LINE) : Prop :=
  match o with
  | Horizontal =>
      py (lineStart line) = py (lineEnd line)
      /\ px (lineStart line) <> px (lineEnd line) /\ px busstart = px busend
  | Vertical =>
      px (lineStart line) = px (lineEnd line)
      /\ py (lineStart line) <> py (lineEnd line) /\ py busstart = py busend
  end.

(** The two probe points, one increment to either side of the touch point
    along the bus. *)
Definition probes (o : WIRE_AXIS) (p : wxPoint) : wxPoint * wxPoint :=
  match o with
  | Horizontal => (off p 0 (-100), off p 0 100)
  | Vertical => (off p (-100) 0, off p 100 0)
  end.

(** The outcome of the pair body in all eight orientations: the touching
    end moves by [(dx, dy)], one bus entry is added, and a marker is added
    exactly when both probes miss. *)
Lemma orthogonal_outcome (o : WIRE_AXIS) (t : TOUCH) (st : SheetState) (la : addr)
    (line : SCH_LINE) :
  findItem (screen st) la = Some (ItemLine line) ->
  canonical o line ->
  hit' (endpoint t line) = true ->
  let r := busWirePair'' st la line in
  exists (line' : SCH_LINE) (dx dy : Z) (markers : nat),
    findItem (screen (fst r)) la = Some (ItemLine line')
    /\ grows st (fst r) 1 markers
    /\ otherEnd t line' = otherEnd t line
    /\ endpoint t line' = off (endpoint t line) dx dy
    /\ Z.abs (across o (mkPoint dx dy)) = 100
    /\ ((markers = 0%nat
         /\ (hit' (fst (probes o (endpoint t line))) = true
             \/ hit' (snd (probes o (endpoint t line))) = true))
        \/ (markers = 1%nat
            /\ hit' (fst (probes o (endpoint t line))) = false
            /\ hit' (snd (probes o (endpoint t line))) = false
            /\ In (ItemMarker bus_entry_needed (endpoint t line))
                  (map snd (screen (fst r))))).
Proof.
  intros Hf Hc Hh.
  destruct o; destruct Hc as (H1 & H2 & H3); destruct t; cbn [endpoint] in Hh;
    [ destruct (horizontal_start st la line Hf H1 H2 H3 Hh)
        as [ (d & Hd & Hpr & Htr & Hg & _)
           | (Hp1 & Hp2 & dx & dy & Hdx & Hdy & Htr & Hg & Hin) ]
    | destruct (horizontal_end st la line Hf H1 H2 H3 Hh)
        as [ (d & Hd & Hpr & Htr & Hg & _)
           | (Hp1 & Hp2 & dx & dy & Hdx & Hdy & Htr & Hg & Hin) ]
    | destruct (vertical_start st la line Hf H1 H2 H3 Hh)
        as [ (d & Hd & Hpr & Htr & Hg & _)
           | (Hp1 & Hp2 & dx & dy & Hdx & Hdy & Htr & Hg & Hin) ]
    | destruct (vertical_end st la line Hf H1 H2 H3 Hh)
        as [ (d & Hd & Hpr & Htr & Hg & _)
           | (Hp1 & Hp2 & dx & dy & Hdx & Hdy & Htr & Hg & Hin) ] ];
    destruct Htr as [_ Hfind]; cbn zeta;
    match goal with
    | Hfind : findItem _ _ = Some (ItemLine ?l) |- _ => exists l
    end;
    match goal with
    | Hfind : findItem _ _ = Some (ItemLine (_ _ (off _ ?a ?b))) |- _ => exists a, b
    end;
    [ exists 0%nat | exists 1%nat | exists 0%nat | exists 1%nat
    | exists 0%nat | exists 1%nat | exists 0%nat | exists 1%nat ];
    (split; [ exact Hfind | ]); (split; [ exact Hg | ]);
    (split; [ reflexivity | ]); (split; [ reflexivity | ]);
    (split; [ cbn [across px py]; lia | ]);
    cbn [probes fst snd endpoint];
    first [ left; split; [ reflexivity | exact Hpr ]
          | right; split; [ reflexivity | ];
            split; [ exact Hp1 | split; [ exact Hp2 | exact (Hin eq_refl) ] ] ].
Qed.

(** A wire end on a perpendicular bus, in any of the eight orthogonal
    orientations, for a wire that is compared with the bus.  The pair body
    adds exactly one bus entry; the touching end moves by one increment
    (100) away from the bus line and is no longer on the bus; the other end
    stays. *)
Theorem orthogonal_touch_one_entry (o : WIRE_AXIS) (t : TOUCH) (st : SheetState)
    (la : addr) (line : SCH_LINE) :
  findItem (screen st) la = Some (ItemLine line) ->
  canonical o line ->
  TestSegmentHit (endpoint t line) busstart busend 0 = true ->
  let st' := fst (busWirePair'' st la line) in
  exists line' : SCH_LINE,
    findItem (screen st') la = Some (ItemLine line')
    /\ countBusEntries (screen st') = S (countBusEntries (screen st))
    /\ otherEnd t line' = otherEnd t line
    /\ Z.abs (across o (endpoint t line') - across o (endpoint t line)) = 100
    /\ TestSegmentHit (endpoint t line') busstart busend 0 = false.
Proof.
  intros Hf Hc Hh.
  destruct (orthogonal_outcome o t st la line Hf Hc Hh)
    as (line' & dx & dy & markers & Hfind & [Hge _] & Hother & Hend & Habs & _).
  cbn zeta; exists line'.
  assert (Hd : Z.abs (across o (endpoint t line') - across o (endpoint t line)) = 100).
  { rewrite Hend; destruct o; cbn [across px py off vadd] in *; lia. }
  split; [ exact Hfind | split; [ rewrite Hge; lia | split; [ exact Hother | ] ] ].
  split; [ exact Hd | ].
  destruct (TestSegmentHit (endpoint t line') busstart busend 0) eqn:E; [ | reflexivity ].
  exfalso; destruct o; destruct Hc as (_ & _ & Hb); cbn [across] in Hd.
  - pose proof (hit_vertical _ _ _ Hb E); pose proof (hit_vertical _ _ _ Hb Hh); lia.
  - pose proof (hit_horizontal _ _ _ Hb E); pose proof (hit_horizontal _ _ _ Hb Hh); lia.
Qed.

(** C6, on the code: when both probes miss, the marker "Bus Entry needed"
    is added at the touch point, and then the block for free-angle wires
    runs as well: a bus entry is added and the touching end is moved. *)
Theorem marker_branch_also_adds_entry (o : WIRE_AXIS) (t : TOUCH) (st : SheetState)
    (la : addr) (line : SCH_LINE) :
  findItem (screen st) la = Some (ItemLine line) ->
  canonical o line ->
  TestSegmentHit (endpoint t line) busstart busend 0 = true ->
  TestSegmentHit (fst (probes o (endpoint t line))) busstart busend 0 = false ->
  TestSegmentHit (snd (probes o (endpoint t line))) busstart busend 0 = false ->
  let st' := fst (busWirePair'' st la line) in
  exists line' : SCH_LINE,
    findItem (screen st') la = Some (ItemLine line')
    /\ In (ItemMarker bus_entry_needed (endpoint t line)) (map snd (screen st'))
    /\ countMarkers (screen st') = S (countMarkers (screen st))
    /\ countBusEntries (screen st') = S (countBusEntries (screen st))
    /\ endpoint t line' <> endpoint t line.
Proof.
  intros Hf Hc Hh Hp1 Hp2.
  destruct (orthogonal_outcome o t st la line Hf Hc Hh)
    as (line' & dx & dy & markers & Hfind & [Hge Hgm] & Hother & Hend & Habs & Hcase).
  cbn zeta; exists line'.
  destruct Hcase as [ (_ & [ Hq | Hq ]) | (Hm & _ & _ & Hin) ].
  - unfold hit in Hq; congruence.
  - unfold hit in Hq; congruence.
  - subst markers.
    split; [ exact Hfind | split; [ exact Hin | ] ].
    split; [ rewrite Hgm; lia | split; [ rewrite Hge; lia | ] ].
    rewrite Hend; intros Heq.
    destruct (endpoint t line) as [x y]; unfold off, vadd in Heq; simpl in Heq.
    inversion Heq; destruct o; cbn [across px py] in Habs; lia.
Qed.

End Blocks.

End Facts.

(** The exact test satisfies the two properties of [TestSegmentHit] that
    the theorems above use. *)
Lemma exact_hit_vertical (p s e : wxPoint) :
  px s = px e -> TestSegmentHit_exact p s e 0 = true -> px p = px s.
Proof.
  unfold TestSegmentHit_exact; intros Hv H.
  rewrite !andb_true_iff, !Z.leb_le, Z.eqb_eq in H; lia.
Qed.

Lemma exact_hit_horizontal (p s e : wxPoint) :
  py s = py e -> TestSegmentHit_exact p s e 0 = true -> py p = py s.
Proof.
  unfold TestSegmentHit_exact; intros Hv H.
  rewrite !andb_true_iff, !Z.leb_le, Z.eqb_eq in H; lia.
Qed.

(** A vertical bus from (0,-200) to (0,200) and a wire from (0,0) to the
    left, on a screen with both. *)
Definition long_bus : SCH_LINE := mkLine LAYER_BUS (mkPoint 0 (-200)) (mkPoint 0 200) false.
Definition short_bus : SCH_LINE := mkLine LAYER_BUS (mkPoint 0 (-50)) (mkPoint 0 50) false.
Definition left_wire : SCH_LINE := mkLine LAYER_WIRE (mkPoint 0 0) (mkPoint (-300) 0) false.

Definition sheet_with (bus : SCH_LINE) : SheetState :=
  mkSheet [(0%nat, ItemLine bus); (1%nat, ItemLine left_wire)] 2%nat [] [] [] [].

Lemma orthogonal_touch_one_entry_witness :
  let st' := fst (busWirePair TestSegmentHit_exact (fun _ _ => true)
                              (lineStart long_bus) (lineEnd long_bus)
                              (sheet_with long_bus) 1%nat left_wire) in
  exists line' : SCH_LINE,
    findItem (screen st') 1%nat = Some (ItemLine line')
    /\ countBusEntries (screen st') = S (countBusEntries (screen (sheet_with long_bus)))
    /\ otherEnd AtStart line' = otherEnd AtStart left_wire
    /\ Z.abs (across Horizontal (endpoint AtStart line')
              - across Horizontal (endpoint AtStart left_wire)) = 100
    /\ TestSegmentHit_exact (endpoint AtStart line') (lineStart long_bus)
                            (lineEnd long_bus) 0 = false.
Proof.
  apply (orthogonal_touch_one_entry TestSegmentHit_exact (fun _ _ => true)
           (lineStart long_bus) (lineEnd long_bus) exact_hit_vertical exact_hit_horizontal
           Horizontal AtStart (sheet_with long_bus) 1%nat left_wire).
  - reflexivity.
  - simpl; repeat split; lia.
  - reflexivity.
Defined.

Lemma marker_branch_also_adds_entry_witness :
  let st' := fst (busWirePair TestSegmentHit_exact (fun _ _ => true)
                              (lineStart short_bus) (lineEnd short_bus)
                              (sheet_with short_bus) 1%nat left_wire) in
  exists line' : SCH_LINE,
    findItem (screen st') 1%nat = Some (ItemLine line')
    /\ In (ItemMarker bus_entry_needed (endpoint AtStart left_wire)) (map snd (screen st'))
    /\ countMarkers (screen st') = S (countMarkers (screen (sheet_with short_bus)))
    /\ countBusEntries (screen st') = S (countBusEntries (screen (sheet_with short_bus)))
    /\ endpoint AtStart line' <> endpoint AtStart left_wire.
Proof.
  apply (marker_branch_also_adds_entry TestSegmentHit_exact (fun _ _ => true)
           (lineStart short_bus) (lineEnd short_bus) exact_hit_vertical
           exact_hit_horizontal Horizontal AtStart (sheet_with short_bus) 1%nat left_wire).
  - reflexivity.
  - simpl; repeat split; lia.
  - reflexivity.
  - reflexivity.
  - reflexivity.
Defined.

(** The whole synthesizer on the short bus: the marker at (0,0), then a bus
    entry at (-100,100), and the wire now starts at (-100,100). *)
Example short_bus_screen :
  screen (addBusEntries TestSegmentHit_exact (fun _ _ => true) (sheet_with short_bus))
  = [ (0%nat, ItemLine short_bus);
      (1%nat, ItemLine (mkLine LAYER_WIRE (mkPoint (-100) 100) (mkPoint (-300) 0) false));
      (2%nat, ItemMarker bus_entry_needed (mkPoint 0 0));
      (3%nat, ItemBusEntry (mkPoint (-100) 100) true) ].
Proof. reflexivity. Qed.

End BusEntryFacts.

(** ** The order of the lines on the sheet *)

Module ItemOrderFacts.

Import Sheet BusEntries.

(** A sheet with two lines, stored in this order. *)
Definition twoLines (first second : SCH_LINE) : SheetState :=
  mkSheet [(0%nat, ItemLine first); (1%nat, ItemLine second)] 2%nat [] [] [] [].

(** No wire among the lines at [rest]. *)
Definition noWireAt (scr : SCH_SCREEN) (rest : list addr) : bool :=
  forallb (fun a => match findItem scr a with
                    | Some (ItemLine l) => negb (layer_eqb (lineLayer l) LAYER_WIRE)
                    | _ => true
                    end) rest.

(** No wire is visited after a bus. *)
Fixpoint wiresFirst (scr : SCH_SCREEN) (lines : list addr) : bool :=
  match lines with
  | [] => true
  | a :: rest =>
      match findItem scr a with
      | Some (ItemLine l) =>
          if layer_eqb (lineLayer l) LAYER_BUS then noWireAt scr rest else true
      | _ => true
      end
      && wiresFirst scr rest
  end.

Section Facts.

Variable TestSegmentHit : wxPoint -> wxPoint -> wxPoint -> Z -> bool.
Variable Overlapping : SCH_ITEM -> SCH_LINE -> bool.

Local Abbreviation addBusEntries' := (addBusEntries TestSegmentHit Overlapping).

Lemma wiresAfter_none (bus : SCH_LINE) (rest : list addr) (st : SheetState) :
  noWireAt (screen st) rest = true ->
  wiresAfter TestSegmentHit Overlapping bus rest st = st.
Proof.
  induction rest as [ | la rest IH ]; cbn [wiresAfter noWireAt forallb]; [ reflexivity | ].
  intros H; apply andb_true_iff in H; destruct H as [Hla Hrest].
  destruct (findItem (screen st) la) as [ [ line | | | | | ] | ]; try exact (IH Hrest).
  apply negb_true_iff in Hla; rewrite Hla; exact (IH Hrest).
Qed.

(** A sheet on which every wire is stored before every bus is left as it
    is, wherever its wires end. *)
Lemma wires_before_buses_quiet (st : SheetState) :
  wiresFirst (screen st) (lineAddrs (screen st)) = true ->
  addBusEntries' st = st.
Proof.
  unfold addBusEntries; generalize (lineAddrs (screen st)) as lines.
  induction lines as [ | ba rest IH ]; cbn [busLoop wiresFirst]; [ reflexivity | ].
  intros H; apply andb_true_iff in H; destruct H as [Hba Hrest].
  destruct (findItem (screen st) ba) as [ [ bus | | | | | ] | ]; try exact (IH Hrest).
  destruct (layer_eqb (lineLayer bus) LAYER_BUS); [ | exact (IH Hrest) ].
  rewrite (wiresAfter_none bus rest st Hba); exact (IH Hrest).
Qed.

Hypothesis hit_vertical :
  forall p s e : wxPoint, px s = px e -> TestSegmentHit p s e 0 = true -> px p = px s.
Hypothesis hit_horizontal :
  forall p s e : wxPoint, py s = py e -> TestSegmentHit p s e 0 = true -> py p = py s.

(** C3, on the code: whether a wire end on a bus gets its bus entry depends
    on the order in which the two lines are stored.  A bus and a wire in one
    of the eight orthogonal orientations, the wire end on the bus: when the
    wire is stored before the bus, [addBusEntries] returns the sheet as it
    is; when the bus is stored first, one bus entry is added and the
    touching end is moved by one increment, off the bus. *)
Theorem bus_entry_depends_on_item_order (o : BusEntryFacts.WIRE_AXIS)
    (t : BusEntryFacts.TOUCH) (bus wire : SCH_LINE) :
  lineLayer bus = LAYER_BUS ->
  lineLayer wire = LAYER_WIRE ->
  BusEntryFacts.canonical (lineStart bus) (lineEnd bus) o wire ->
  TestSegmentHit (BusEntryFacts.endpoint t wire) (lineStart bus) (lineEnd bus) 0 = true ->
  addBusEntries' (twoLines wire bus) = twoLines wire bus
  /\ let st' := addBusEntries' (twoLines bus wire) in
     exists wire' : SCH_LINE,
       findItem (screen st') 1%nat = Some (ItemLine wire')
       /\ countBusEntries (screen st') = 1%nat
       /\ BusEntryFacts.otherEnd t wire' = BusEntryFacts.otherEnd t wire
       /\ Z.abs (BusEntryFacts.across o (BusEntryFacts.endpoint t wire')
                 - BusEntryFacts.across o (BusEntryFacts.endpoint t wire)) = 100
       /\ TestSegmentHit (BusEntryFacts.endpoint t wire') (lineStart bus) (lineEnd bus) 0
          = false.
Proof.
  intros Hbus Hwire Hc Hh; split.
  - apply wires_before_buses_quiet.
    cbn [twoLines screen lineAddrs flat_map snd fst app wiresFirst noWireAt forallb findItem
         Nat.eqb].
    rewrite Hwire, Hbus; reflexivity.
  - cbv zeta.
    destruct (BusEntryFacts.orthogonal_touch_one_entry
                TestSegmentHit Overlapping (lineStart bus) (lineEnd bus)
                hit_vertical hit_horizontal o t (twoLines bus wire) 1%nat wire
                eq_refl Hc Hh) as (wire' & Hfind & Hcount & Hother & Hmove & Hoff).
    cbv zeta in Hfind, Hcount.
    assert (Hrun : addBusEntries' (twoLines bus wire)
                   = fst (busWirePair TestSegmentHit Overlapping (lineStart bus)
                                      (lineEnd bus) (twoLines bus wire) 1%nat wire)).
    { unfold addBusEntries.
      cbn [twoLines screen lineAddrs flat_map snd fst app busLoop findItem Nat.eqb
           wiresAfter].
      rewrite Hbus, Hwire; cbn [layer_eqb].
      change (mkSheet [(0%nat, ItemLine bus); (1%nat, ItemLine wire)] 2%nat [] [] [] [])
        with (twoLines bus wire).
      rewrite Hfind.
      destruct (layer_eqb (lineLayer wire') LAYER_BUS); reflexivity. }
    rewrite Hrun; exists wire'.
    split; [ exact Hfind | split; [ exact Hcount | ] ].
    split; [ exact Hother | split; [ exact Hmove | exact Hoff ] ].
Qed.

End Facts.

Definition rail_bus : SCH_LINE := mkLine LAYER_BUS (mkPoint 0 (-200)) (mkPoint 0 200) false.
Definition stub_wire : SCH_LINE := mkLine LAYER_WIRE (mkPoint 0 0) (mkPoint (-300) 0) false.

Lemma bus_entry_depends_on_item_order_witness :
  (BusEntryFacts.canonical (lineStart rail_bus) (lineEnd rail_bus)
                           BusEntryFacts.Horizontal stub_wire
   /\ TestSegmentHit_exact (lineStart stub_wire) (lineStart rail_bus) (lineEnd rail_bus) 0
      = true)
  /\ addBusEntries TestSegmentHit_exact (fun _ _ => true) (twoLines stub_wire rail_bus)
     = twoLines stub_wire rail_bus
  /\ exists wire' : SCH_LINE,
       findItem (screen (addBusEntries TestSegmentHit_exact (fun _ _ => true)
                                       (twoLines rail_bus stub_wire))) 1%nat
       = Some (ItemLine wire')
       /\ countBusEntries (screen (addBusEntries TestSegmentHit_exact (fun _ _ => true)
                                                 (twoLines rail_bus stub_wire))) = 1%nat
       /\ lineEnd wire' = lineEnd stub_wire
       /\ Z.abs (px (lineStart wire') - px (lineStart stub_wire)) = 100
       /\ TestSegmentHit_exact (lineStart wire') (lineStart rail_bus) (lineEnd rail_bus) 0
          = false.
Proof.
  assert (Hc : BusEntryFacts.canonical (lineStart rail_bus) (lineEnd rail_bus)
                                       BusEntryFacts.Horizontal stub_wire)
    by (cbn; repeat split; lia).
  split; [ split; [ exact Hc | reflexivity ] | ].
  exact (bus_entry_depends_on_item_order
           TestSegmentHit_exact (fun _ _ => true)
           BusEntryFacts.exact_hit_vertical BusEntryFacts.exact_hit_horizontal
           BusEntryFacts.Horizontal BusEntryFacts.AtStart rail_bus stub_wire
           eq_refl eq_refl Hc eq_refl).
Defined.

(** The two sheets after the synthesizer: the first as it was, the second
    with the bus entry at (-100,0) and the wire starting there. *)
Example both_orders :
  screen (addBusEntries TestSegmentHit_exact (fun _ _ => true) (twoLines stub_wire rail_bus))
  = [ (0%nat, ItemLine stub_wire); (1%nat, ItemLine rail_bus) ]
  /\ screen (addBusEntries TestSegmentHit_exact (fun _ _ => true)
                           (twoLines rail_bus stub_wire))
     = [ (0%nat, ItemLine rail_bus);
         (1%nat, ItemLine (mkLine LAYER_WIRE (mkPoint (-100) 0) (mkPoint (-300) 0) false));
         (2%nat, ItemBusEntry (mkPoint (-100) 0) true) ].
Proof. split; reflexivity. Qed.

End ItemOrderFacts.

(** ** Power symbols *)

Module PowerFacts.

Import Library.

Lemma fold_left_invariant {A B : Type} (P : A -> Prop) (f : A -> B -> A) (l : list B) :
  (forall a b, P a -> P (f a b)) -> forall a, P a -> P (fold_left f l a).
Proof.
  intros Hstep; induction l as [ | b l IH ]; simpl; auto.
Qed.

(** The pin nodes of a symbol node. *)
Definition pinNodes (l : list wxXmlNode) : list wxXmlNode :=
  filter (fun n => String.eqb (GetName n) "pin") l.

(** The pin's direction denotes a supply: it is "sup", in any case of
    letters. *)
Definition isSupply (n : wxXmlNode) : bool :=
  match ep_direction (EPIN_of n) with
  | Some d => String.eqb (Lower d) "sup"
  | None => false
  end.

(** The loop over [pinDirectionsMap] flags exactly the key "sup". *)
Lemma findDirection_sup (d : string) :
  match findDirection d pinDirectionsMap with
  | Some (_, sup) => sup
  | None => false
  end = String.eqb (Lower d) "sup".
Proof.
  unfold pinDirectionsMap, findDirection.
  repeat match goal with
         | |- context [String.eqb (Lower d) ?k] =>
             lazymatch k with
             | "sup"%string => fail
             | _ => destruct (String.eqb_spec (Lower d) k) as [ -> | _ ];
                    [ reflexivity | ]
             end
         end.
  destruct (String.eqb (Lower d) "sup"); reflexivity.
Qed.

Section Facts.

Variable ToSchUnits : Z -> Z.
Variable Mils2iu : Z -> Z.
Variable escapeName : string -> string.
Variable fixSymbolName : string -> string.
Variable wxSplit : string -> list string.
Variable formatInt : Z -> string.
Variable ConvertSize : ETEXT -> Z * Z.
Variable E : Alignment.ETEXT_ALIGN.
Variable ConvertArcCenter : wxPoint -> wxPoint -> Floating.double -> wxPoint.
Variable CalcRadiusAngles : LIB_ARC -> LIB_ARC.
Variable frameBorders : EFRAME -> Z -> Z -> Z -> Z -> list LIB_ITEM.

Local Abbreviation symbolStep' :=
  (symbolStep ToSchUnits Mils2iu escapeName wxSplit formatInt ConvertSize E
              ConvertArcCenter CalcRadiusAngles frameBorders).
Local Abbreviation symbolPin' := (symbolPin ToSchUnits Mils2iu escapeName wxSplit formatInt).
Local Abbreviation loadSymbol' :=
  (loadSymbol ToSchUnits Mils2iu escapeName wxSplit formatInt ConvertSize E
              ConvertArcCenter CalcRadiusAngles frameBorders).
Local Abbreviation gateStep' :=
  (gateStep ToSchUnits Mils2iu escapeName wxSplit formatInt ConvertSize E
            ConvertArcCenter CalcRadiusAngles frameBorders).
Local Abbreviation loadDevice' :=
  (loadDevice ToSchUnits Mils2iu escapeName fixSymbolName wxSplit formatInt ConvertSize E
              ConvertArcCenter CalcRadiusAngles frameBorders).

Lemma AddDrawItems_power (p : LIB_PART) (l : list LIB_ITEM) :
  partPower (AddDrawItems p l) = partPower p.
Proof.
  unfold AddDrawItems.
  apply (fold_left_invariant (fun q => partPower q = partPower p)); auto.
Qed.

(** What one pin node does to the locals. *)
Lemma symbolPin_effect (aDevice : EDEVICE) (g : Z) (name : string) (l : SYMBOL_LOOP)
    (n : wxXmlNode) :
  let r := symbolPin' aDevice g name l n in
  pincount r = pincount l + 1
  /\ ispower r = ispower l || isSupply n
  /\ partPower (aPart r) = partPower (aPart l).
Proof.
  unfold symbolPin, isSupply.
  pose proof (fun d => findDirection_sup d) as Hsup.
  destruct (ep_direction (EPIN_of n)) as [ d | ].
  - specialize (Hsup d).
    destruct (findDirection d pinDirectionsMap) as [ [t sup] | ]; cbn zeta;
      cbn [pincount ispower aPart]; rewrite AddDrawItems_power, <- Hsup;
      repeat split.
    + destruct sup, (ispower l); reflexivity.
    + now rewrite orb_false_r.
  - cbn zeta; cbn [pincount ispower aPart]; rewrite AddDrawItems_power.
    repeat split; now rewrite orb_false_r.
Qed.

(** The locals after the loop over a symbol's children. *)
Lemma symbol_loop_effect (aDevice : EDEVICE) (g : Z) (name : string)
    (children : list wxXmlNode) :
  forall l : SYMBOL_LOOP,
    let r := fold_left (symbolStep' aDevice g name) children l in
    pincount r = pincount l + Z.of_nat (List.length (pinNodes children))
    /\ ispower r = ispower l || existsb isSupply (pinNodes children)
    /\ partPower (aPart r) = partPower (aPart l).
Proof.
  induction children as [ | n children IH ]; intros l; cbn [fold_left].
  - simpl; rewrite Z.add_0_r, orb_false_r; auto.
  - cbn zeta in IH |- *.
    destruct (IH (symbolStep' aDevice g name l n)) as (Hc & Hp & Hw).
    rewrite Hc, Hp, Hw; clear IH Hc Hp Hw.
    unfold symbolStep, pinNodes; cbn [filter].
    destruct (String.eqb_spec (GetName n) "pin") as [ Hpin | Hpin ].
    + rewrite Hpin; cbn [String.eqb Ascii.eqb Bool.eqb].
      destruct (symbolPin_effect aDevice g name l n) as (Hc & Hp & Hw).
      cbn zeta in Hc, Hp, Hw; rewrite Hc, Hp, Hw.
      cbn [List.length existsb]; rewrite Nat2Z.inj_succ, orb_assoc.
      repeat split; lia.
    + assert (Hsame : forall q : LIB_PART,
                 partPower q = partPower (aPart l) ->
                 pincount (withPart l q) + Z.of_nat (List.length (pinNodes children))
                 = pincount l + Z.of_nat (List.length (pinNodes children))
                 /\ ispower (withPart l q) || existsb isSupply (pinNodes children)
                    = ispower l || existsb isSupply (pinNodes children)
                 /\ partPower (aPart (withPart l q)) = partPower (aPart l))
        by (intros q Hq; repeat split; exact Hq).
      fold (pinNodes children).
      repeat match goal with
             | |- context [String.eqb (GetName n) ?k] =>
                 destruct (String.eqb (GetName n) k)
             | |- context [String.eqb (Upper ?t) ?k] =>
                 destruct (String.eqb (Upper t) k)
             | |- context [loadSymbolWire ?a ?b ?c ?d ?e] =>
                 destruct (loadSymbolWire a b c d e)
             end;
        try (apply Hsame; try apply AddDrawItems_power; reflexivity);
        repeat split; reflexivity.
Qed.

(** [loadSymbol] answers "power unit" exactly for a symbol with a single
    pin that is a supply pin, and never changes the part's power flag. *)
Lemma loadSymbol_power (aSymbolNode : wxXmlNode) (part : LIB_PART) (aDevice : EDEVICE)
    (g : Z) (name : string) :
  fst (loadSymbol' aSymbolNode part aDevice g name)
  = match pinNodes (GetChildren aSymbolNode) with
    | [pin] => isSupply pin
    | _ => false
    end
  /\ partPower (snd (loadSymbol' aSymbolNode part aDevice g name)) = partPower part.
Proof.
  unfold loadSymbol.
  destruct (symbol_loop_effect aDevice g name (GetChildren aSymbolNode)
                               (mkLoop part false false false 0)) as (Hc & Hp & Hw).
  cbn zeta in Hc, Hp, Hw; cbn [pincount ispower aPart] in Hc, Hp, Hw.
  set (r := fold_left _ _ _) in *.
  split.
  - cbn [fst]; rewrite Hc, Hp.
    destruct (Z.eqb_spec (0 + Z.of_nat (List.length (pinNodes (GetChildren aSymbolNode))))
                         1) as [ Hone | Hmore ];
      destruct (pinNodes (GetChildren aSymbolNode)) as [ | p [ | q rest ] ];
      cbn [List.length existsb orb] in *; try lia; try reflexivity.
    now rewrite orb_false_r.
  - cbn [snd].
    destruct (foundName r), (foundValue r); simpl; exact Hw.
Qed.

(** The gate loop never sets the power flag of the part. *)
Lemma gate_loop_not_power (lib : EAGLE_LIBRARY) (ds : EDEVICE_SET) (dev : EDEVICE)
    (gates : list wxXmlNode) (acc : option GATE_LOOP) :
  match acc with Some g => partPower (kpart g) = false | None => True end ->
  match fold_left (gateStep' lib ds dev) gates acc with
  | Some g => partPower (kpart g) = false
  | None => True
  end.
Proof.
  apply (fold_left_invariant
           (fun a => match a with Some g => partPower (kpart g) = false | None => True end)).
  intros [ g | ] n Hg; unfold gateStep; [ | exact I ].
  destruct (assoc (eg_symbol (EGATE_of n)) (SymbolNodes lib)) as [ sym | ]; [ | exact I ].
  pose proof (loadSymbol_power sym (kpart g) dev (gateindex g) (eg_name (EGATE_of n)))
    as [_ Hp].
  destruct (loadSymbol' sym (kpart g) dev (gateindex g) (eg_name (EGATE_of n)))
    as [power part]; cbn [kpart snd] in *; congruence.
Qed.

Lemma countNamed_all (l : list wxXmlNode) (name : string) :
  Forall (fun n => GetName n = name) l -> countNamed l name = Z.of_nat (List.length l).
Proof.
  induction 1 as [ | n l Hn _ IH ]; [ reflexivity | ].
  cbn [countNamed List.length]; rewrite Hn, String.eqb_refl, IH; lia.
Qed.

(** The power flag of the symbol a device is translated to. *)
Lemma loadDevice_power (lib : EAGLE_LIBRARY) (devicesetNode deviceNode : wxXmlNode)
    (part : LIB_PART) (units : list (string * Z)) (pkg : option (string * string)) :
  let gates := getChildrenNodes devicesetNode "gates" in
  Forall (fun n => GetName n = "gate"%string) gates ->
  loadDevice' lib devicesetNode deviceNode = Some (part, units, pkg) ->
  partPower part
  = match gates with
    | [gateNode] =>
        match assoc (eg_symbol (EGATE_of gateNode)) (SymbolNodes lib) with
        | Some symbolNode =>
            match pinNodes (GetChildren symbolNode) with
            | [pin] => isSupply pin
            | _ => false
            end
        | None => false
        end
    | _ => false
    end.
Proof.
  cbn zeta; intros Hall; unfold loadDevice.
  rewrite (countNamed_all _ _ Hall).
  set (gates := getChildrenNodes devicesetNode "gates") in *.
  set (g0 := mkGates _ [] 1 false).
  assert (H0 : partPower (kpart g0) = false).
  { unfold g0; cbn [kpart].
    destruct (String.eqb _ EmptyString); reflexivity. }
  pose proof (gate_loop_not_power lib (EDEVICE_SET_of devicesetNode) (EDEVICE_of deviceNode)
                                  gates (Some g0) H0) as Hinv.
  destruct gates as [ | gateNode [ | g2 rest ] ].
  - cbn [fold_left List.length] in *.
    intros H; inversion H; subst; cbn; exact H0.
  - cbn [fold_left List.length] in *.
    unfold gateStep in *.
    destruct (assoc (eg_symbol (EGATE_of gateNode)) (SymbolNodes lib)) as [ sym | ];
      [ | discriminate ].
    pose proof (loadSymbol_power sym (kpart g0) (EDEVICE_of deviceNode) (gateindex g0)
                                 (eg_name (EGATE_of gateNode))) as [Hpow _].
    destruct (loadSymbol' sym (kpart g0) (EDEVICE_of deviceNode) (gateindex g0)
                          (eg_name (EGATE_of gateNode))) as [power p1].
    cbn [fst kpart gatePower] in *.
    intros H; inversion H as [[Hpart Hu Hk]]; clear H; cbn.
    rewrite <- Hpow; destruct power; [ reflexivity | exact Hinv ].
  - destruct (fold_left _ (gateNode :: g2 :: rest) (Some g0)) as [ g | ];
      [ | discriminate ].
    replace (Z.of_nat (List.length (gateNode :: g2 :: rest)) =? 1) with false
      by (symmetry; apply Z.eqb_neq; cbn [List.length]; lia).
    intros H; inversion H as [[Hpart Hu Hk]]; clear H.
    cbn [andb]; exact Hinv.
Qed.

(** C9: a translated device symbol is a power symbol if and only if the
    device set has exactly one gate and the symbol of that gate has exactly
    one pin, whose direction denotes a supply. *)
Theorem power_symbol_iff (lib : EAGLE_LIBRARY) (devicesetNode deviceNode : wxXmlNode)
    (part : LIB_PART) (units : list (string * Z)) (pkg : option (string * string)) :
  Forall (fun n => GetName n = "gate"%string) (getChildrenNodes devicesetNode "gates") ->
  loadDevice' lib devicesetNode deviceNode = Some (part, units, pkg) ->
  partPower part = true
  <-> exists gateNode symbolNode pin,
        getChildrenNodes devicesetNode "gates" = [gateNode]
        /\ assoc (eg_symbol (EGATE_of gateNode)) (SymbolNodes lib) = Some symbolNode
        /\ pinNodes (GetChildren symbolNode) = [pin]
        /\ isSupply pin = true.
Proof.
  intros Hall Hload.
  rewrite (loadDevice_power lib devicesetNode deviceNode part units pkg Hall Hload).
  split.
  - intros Hs.
    destruct (getChildrenNodes devicesetNode "gates") as [ | gateNode [ | ] ];
      try discriminate Hs.
    destruct (assoc (eg_symbol (EGATE_of gateNode)) (SymbolNodes lib)) as [ sym | ] eqn:Hsym;
      try discriminate Hs.
    destruct (pinNodes (GetChildren sym)) as [ | pin [ | ] ] eqn:Hpins;
      try discriminate Hs.
    exists gateNode, sym, pin; auto.
  - intros (gateNode & sym & pin & -> & -> & -> & Hs); exact Hs.
Qed.

End Facts.

(** A supply symbol: one gate, whose symbol has the single pin "GND" of
    direction "sup". *)
Definition gnd_symbol : wxXmlNode :=
  XmlNode "symbol" [("name", "GND")]%string EmptyString VNone
    [XmlNode "pin" [] EmptyString
       (VPin (mkEPin "GND" 0 0 None None (Some "sup"%string) None None)) []].

Definition gnd_deviceset : wxXmlNode :=
  XmlNode "deviceset" [] EmptyString (VDeviceSet (mkEDeviceSet "GND" None))
    [XmlNode "gates" [] EmptyString VNone
       [XmlNode "gate" [] EmptyString (VGate (mkEGate "G$1" "GND")) []];
     XmlNode "devices" [] EmptyString VNone
       [XmlNode "device" [] EmptyString (VDevice (mkEDevice EmptyString None [])) []]].

Definition gnd_device : wxXmlNode :=
  XmlNode "device" [] EmptyString (VDevice (mkEDevice EmptyString None [])) [].

Definition gnd_library : EAGLE_LIBRARY :=
  mkLibrary "supply1" [("GND"%string, gnd_symbol)] [] [] [].

(** Stand-ins for the two arc helpers; the GND symbol has no arc. *)
Definition no_center (b e : wxPoint) (angle : Floating.double) : wxPoint := b.
Definition keep_arc (a : LIB_ARC) : LIB_ARC := a.

Lemma power_symbol_iff_witness :
  exists part units pkg,
    loadDevice (fun c => c) (fun m => m) (fun s => s) (fun s => s) (fun s => [s])
               (fun _ => "1"%string) (fun _ => (0, 0)) Alignment.eagle_align no_center keep_arc
               (fun _ _ _ _ _ => []) gnd_library gnd_deviceset gnd_device
    = Some (part, units, pkg)
    /\ (partPower part = true
        <-> exists gateNode symbolNode pin,
              getChildrenNodes gnd_deviceset "gates" = [gateNode]
              /\ assoc (eg_symbol (EGATE_of gateNode)) (SymbolNodes gnd_library)
                 = Some symbolNode
              /\ pinNodes (GetChildren symbolNode) = [pin]
              /\ isSupply pin = true).
Proof.
  eexists; eexists; eexists; split.
  - reflexivity.
  - apply (power_symbol_iff (fun c => c) (fun m => m) (fun s => s) (fun s => s)
             (fun s => [s]) (fun _ => "1"%string) (fun _ => (0, 0)) Alignment.eagle_align
             no_center keep_arc (fun _ _ _ _ _ => []) gnd_library gnd_deviceset gnd_device _
             (assocSet "GNDG$1"%string 1 []) None).
    + repeat constructor.
    + reflexivity.
Defined.

(** The translated GND symbol is a power symbol. *)
Example gnd_is_power :
  match loadDevice (fun c => c) (fun m => m) (fun s => s) (fun s => s) (fun s => [s])
                   (fun _ => "1"%string) (fun _ => (0, 0)) Alignment.eagle_align no_center keep_arc
                   (fun _ _ _ _ _ => []) gnd_library gnd_deviceset gnd_device with
  | Some (part, _, _) => partPower part
  | None => false
  end = true.
Proof. reflexivity. Qed.

End PowerFacts.

(** ** Unresolved part instances *)

Module InstanceFacts.

Import Sheet Instances.

Section Facts.

Variable ToSchUnits : Z -> Z.
Variable fixSymbolName : string -> string.
Variable E : Alignment.ETEXT_ALIGN.
Variable getLibName : string.
Variable LoadSymbol : string -> option LIB_PART.
Variable TableLoadSymbol : string -> string -> option LIB_PART.
Variable GetPinPhysicalPosition : SCH_COMPONENT -> LIB_PIN -> wxPoint.
Variable sheetPath : string.
Variable m_partlist : list (string * EPART).
Variable m_eagleLibs : list (string * Library.EAGLE_LIBRARY).

Local Abbreviation loadInstance' :=
  (loadInstance ToSchUnits fixSymbolName E getLibName LoadSymbol TableLoadSymbol
                GetPinPhysicalPosition sheetPath m_partlist m_eagleLibs).

(** The part an instance names, looked up without regard to case. *)
Definition partOf (aInstanceNode : wxXmlNode) : option EPART :=
  assoc (Library.Upper (ei_part (EINSTANCE_of aInstanceNode))) m_partlist.

(** The name under which the part's symbol was saved in the library. *)
Definition symbolNameOf (epart : EPART) : string :=
  fixSymbolName (Library.removeStars (epart_deviceset epart ++ epart_device epart)).

(** The instance cannot be resolved: its part is not in the part list, or
    the symbol of its part cannot be loaded from the imported library. *)
Definition unresolved (aInstanceNode : wxXmlNode) : Prop :=
  partOf aInstanceNode = None
  \/ exists epart, partOf aInstanceNode = Some epart
                   /\ LoadSymbol (symbolNameOf epart) = None.

(** C7: for an unresolved instance [loadInstance] reports one error and
    returns; the screen, the connection-point map and everything else
    stay as they were. *)
Theorem unresolved_instance_is_skipped (st : SheetState) (aInstanceNode : wxXmlNode) :
  unresolved aInstanceNode ->
  exists msg : string,
    loadInstance' st aInstanceNode = Report st msg RPT_SEVERITY_ERROR
    /\ screen (loadInstance' st aInstanceNode) = screen st
    /\ m_connPoints (loadInstance' st aInstanceNode) = m_connPoints st
    /\ m_reports (loadInstance' st aInstanceNode)
       = m_reports st ++ [(msg, RPT_SEVERITY_ERROR)].
Proof.
  unfold unresolved, partOf, symbolNameOf, loadInstance.
  intros [ Hnone | (epart & Hsome & Hsym) ].
  - rewrite Hnone; eexists; repeat split.
  - rewrite Hsome, Hsym; eexists; repeat split.
Qed.

End Facts.

Definition orphan_instance : wxXmlNode :=
  XmlNode "instance" [] EmptyString
          (VInstance (mkEInstance "R1" "G$1" 100 200 None None)) [].

Definition busy_sheet : SheetState :=
  mkSheet [(0%nat, ItemJunction (mkPoint 0 0))] 1%nat [] []
          [(mkPoint 0 0, [WireRef 7%nat])] [].

Lemma unresolved_instance_is_skipped_witness :
  unresolved (fun s => s) (fun _ => None) [] orphan_instance
  /\ exists msg : string,
       loadInstance (fun c => c) (fun s => s) Alignment.eagle_align "eagle-import"
                    (fun _ => None) (fun _ _ => None) (fun _ p => pinPos p) "/" [] []
                    busy_sheet orphan_instance
       = Report busy_sheet msg RPT_SEVERITY_ERROR
       /\ screen (loadInstance (fun c => c) (fun s => s) Alignment.eagle_align
                               "eagle-import" (fun _ => None) (fun _ _ => None)
                               (fun _ p => pinPos p) "/" [] [] busy_sheet orphan_instance)
          = screen busy_sheet
       /\ m_connPoints (loadInstance (fun c => c) (fun s => s) Alignment.eagle_align
                                     "eagle-import" (fun _ => None) (fun _ _ => None)
                                     (fun _ p => pinPos p) "/" [] [] busy_sheet
                                     orphan_instance)
          = m_connPoints busy_sheet
       /\ m_reports (loadInstance (fun c => c) (fun s => s) Alignment.eagle_align
                                  "eagle-import" (fun _ => None) (fun _ _ => None)
                                  (fun _ p => pinPos p) "/" [] [] busy_sheet
                                  orphan_instance)
          = m_reports busy_sheet ++ [(msg, RPT_SEVERITY_ERROR)].
Proof.
  split.
  - left; reflexivity.
  - apply (unresolved_instance_is_skipped (fun c => c) (fun s => s) Alignment.eagle_align
             "eagle-import" (fun _ => None) (fun _ _ => None) (fun _ p => pinPos p) "/"
             [] [] busy_sheet orphan_instance).
    left; reflexivity.
Defined.

(** The diagnostic names the instance's part. *)
Example orphan_report :
  m_reports (loadInstance (fun c => c) (fun s => s) Alignment.eagle_align "eagle-import"
                          (fun _ => None) (fun _ _ => None) (fun _ p => pinPos p) "/"
                          [] [] busy_sheet orphan_instance)
  = [(msgNoPart "R1", RPT_SEVERITY_ERROR)].
Proof. reflexivity. Qed.

End InstanceFacts.

(** ** The Y axis: sheet items against symbol items *)

Module AxisFacts.

Import Sheet Instances Library.

Section Facts.

Variable ToSchUnits : Z -> Z.



Variable Mils2iu : Z -> Z.
Variable escapeName : string -> string.
Variable fixSymbolName : string -> string.
Variable labelTextSize : bool -> Z -> Z.
Variable labelSpinStyle : EROT -> LABEL_SPIN_STYLE.
Variable ConvertSize : ETEXT -> Z * Z.
Variable stripLines : string -> string.
Variable E : Alignment.ETEXT_ALIGN.
Variable ConvertArcCenter : wxPoint -> wxPoint -> Floating.double -> wxPoint.
Variable CalcRadiusAngles : LIB_ARC -> LIB_ARC.
Variable m_layerMap : list (Z * SCH_LAYER_ID).
Variable m_netCounts : NetCounts.NET_COUNTS.
Variable getLibName : string.
Variable sheetPath : string.

(** [CalcRadiusAngles] computes the radius and the angles of an arc; it
    leaves the two ends where they are. *)
Hypothesis CalcRadiusAngles_ends :
  forall a, arcStart (CalcRadiusAngles a) = arcStart a
            /\ arcEnd (CalcRadiusAngles a) = arcEnd a.

Local Abbreviation buildComponent' :=
  (buildComponent ToSchUnits E getLibName sheetPath).
Local Abbreviation loadSymbolWire' :=
  (loadSymbolWire ToSchUnits ConvertArcCenter CalcRadiusAngles).



Lemma addHiddenField_pos (c : SCH_COMPONENT) (n t : string) :
  cmpPos (addHiddenField c n t) = cmpPos c.
Proof. reflexivity. Qed.




End Facts.

(** [ConvertArcCenter] for a half circle: the centre is the middle of the
    chord, whatever the side the arc bends to. *)
Definition chordMiddle (aStart aEnd : wxPoint) (aAngle : Floating.double) : wxPoint :=
  vadd aStart (vdiv (vsub aEnd aStart) 2).

(** [CalcRadiusAngles] with the radius and the angles left out. *)
Definition endsOnly (a : LIB_ARC) : LIB_ARC := a.

Definition symbolWire (x1 y1 x2 y2 width : Z) (curve : option Z) : wxXmlNode :=
  XmlNode "wire" [] EmptyString
          (VWire (mkEWire x1 y1 x2 y2 width 94
                          (match curve with
                           | Some degrees => Some (Floating.double_of_int degrees)
                           | None => None
                           end))) [].

(** The two conventions differ: the same source point lands on opposite
    sides of the X axis. *)
Example wire_and_symbol_wire :
  let n := symbolWire 10 20 30 20 0 None in
  lineStart (snd (fst (loadWire (fun c => c) [] SegmentFacts.empty_sheet n)))
  = mkPoint 10 (-20)
  /\ loadSymbolWire (fun c => c) chordMiddle endsOnly n 1
     = Some (LibPolyline [mkPoint 10 20; mkPoint 30 20] 1 0 false).
Proof. split; reflexivity. Qed.



End AxisFacts.

(** ** Units that were never drawn *)

Module MissingUnitFacts.

Import Sheet MissingUnits.

(** No unit of the record is flagged as still to be instantiated. *)
Definition allProcessed (u : UNITS) : Prop := Forall (fun e => snd e = false) u.

Definition nothingMissing (m : MISSING_CMPS) : Prop :=
  Forall (fun e => allProcessed (units (snd e))) m.

Lemma unitsInsert_processed (u : UNITS) (k : Z) :
  allProcessed u -> allProcessed (unitsInsert u k false).
Proof.
  unfold allProcessed; induction u as [ | [k' v'] r IH ]; intros H; cbn [unitsInsert].
  - constructor; [ reflexivity | constructor ].
  - inversion H as [ | ? ? Hv Hr ]; subst.
    destruct (k <? k'); repeat constructor; auto.
Qed.

Lemma unitsEmplace_processed (u : UNITS) (k : Z) :
  allProcessed u -> allProcessed (unitsEmplace u k false).
Proof.
  intros H; unfold unitsEmplace; destruct (unitsFind u k);
    [ exact H | apply unitsInsert_processed; exact H ].
Qed.

Lemma unitsAssign_processed (u : UNITS) (k : Z) :
  allProcessed u -> allProcessed (unitsAssign u k false).
Proof.
  unfold allProcessed; induction u as [ | [k' v'] r IH ]; intros H; cbn [unitsAssign].
  - constructor; [ reflexivity | constructor ].
  - inversion H as [ | ? ? Hv Hr ]; subst.
    destruct (k =? k'); [ constructor; [ reflexivity | exact Hr ] | ].
    destruct (k <? k'); repeat constructor; auto.
Qed.

(** The guarded [emplace] of the last loop never inserts: it is reached only
    for a key that is present, and [emplace] leaves a present key alone. *)
Lemma addMissing_id (missingUnits : list Z) (u : UNITS) :
  addMissing u missingUnits = u.
Proof.
  unfold addMissing; revert u; induction missingUnits as [ | i r IH ]; intros u;
    cbn [fold_left]; [ reflexivity | ].
  unfold unitsEmplace; destruct (unitsFind u i); apply IH.
Qed.

Lemma missingFind_processed (m : MISSING_CMPS) (k : string) (e : EAGLE_MISSING_CMP) :
  nothingMissing m -> missingFind m k = Some e -> allProcessed (units e).
Proof.
  unfold nothingMissing; induction m as [ | [k' v] r IH ]; intros H Hf;
    cbn [missingFind] in Hf; [ discriminate | ].
  inversion H as [ | ? ? Hv Hr ]; subst.
  destruct (String.eqb k k'); [ inversion Hf; subst; exact Hv | exact (IH Hr Hf) ].
Qed.

Lemma missingSet_processed (m : MISSING_CMPS) (k : string) (e : EAGLE_MISSING_CMP) :
  nothingMissing m -> allProcessed (units e) -> nothingMissing (missingSet m k e).
Proof.
  unfold nothingMissing; induction m as [ | [k' v] r IH ]; intros H He; cbn [missingSet].
  - constructor; [ exact He | constructor ].
  - inversion H as [ | ? ? Hv Hr ]; subst.
    destruct (String.eqb k k'); [ constructor; [ exact He | exact Hr ] | ].
    destruct (String.ltb k k'); repeat constructor; auto.
Qed.

Lemma recordUnits_processed (m : MISSING_CMPS) (c : SCH_COMPONENT) (missingUnits : list Z) :
  nothingMissing m -> nothingMissing (recordUnits m c missingUnits).
Proof.
  intros H; unfold recordUnits.
  set (m1 := match missingFind m _ with Some _ => _ | None => _ end).
  assert (H1 : nothingMissing m1).
  { unfold m1; destruct (missingFind m _) as [ e | ] eqn:Hf.
    - apply missingSet_processed; [ exact H | ]; cbn [units].
      apply unitsAssign_processed; exact (missingFind_processed _ _ _ H Hf).
    - apply missingSet_processed; [ exact H | ]; cbn [units].
      apply unitsEmplace_processed; constructor. }
  destruct missingUnits as [ | i r ]; [ exact H1 | ].
  destruct (missingFind m1 _) as [ e | ] eqn:Hf;
    apply missingSet_processed; try exact H1; cbn [units]; rewrite addMissing_id.
  - exact (missingFind_processed _ _ _ H1 Hf).
  - constructor.
Qed.

Section Facts.

Variable Mils2iu : Z -> Z.
Variable GetPinPhysicalPosition : SCH_COMPONENT -> LIB_PIN -> wxPoint.
Variable GetBoundingBox : SCH_COMPONENT -> Z * Z.
Variable rootPath : string.

Local Abbreviation addImplicitConnections' :=
  (addImplicitConnections Mils2iu GetPinPhysicalPosition).
Local Abbreviation sheetImplicitConnections' :=
  (sheetImplicitConnections Mils2iu GetPinPhysicalPosition).
Local Abbreviation instantiateMissingUnits' :=
  (instantiateMissingUnits Mils2iu GetPinPhysicalPosition GetBoundingBox rootPath).

Lemma addImplicitConnections_processed (st : SheetState) (m : MISSING_CMPS)
    (c : SCH_COMPONENT) (aUpdateSet : bool) :
  nothingMissing m -> nothingMissing (snd (addImplicitConnections' st m c aUpdateSet)).
Proof.
  intros H; unfold addImplicitConnections.
  destruct (cmpPartRef c) as [ part | ]; [ | exact H ].
  destruct (partPower part); [ exact H | ].
  destruct (fold_left _ (allPins part) (st, [])) as [st1 missingUnits].
  destruct (aUpdateSet && (1 <? partUnitCount part)); cbn [snd];
    [ apply recordUnits_processed; exact H | exact H ].
Qed.

Lemma sheetImplicitConnections_processed (st : SheetState) (m : MISSING_CMPS) :
  nothingMissing m -> nothingMissing (snd (sheetImplicitConnections' st m)).
Proof.
  intros H; unfold sheetImplicitConnections.
  apply (PowerFacts.fold_left_invariant
           (fun acc : SheetState * MISSING_CMPS => nothingMissing (snd acc)));
    [ | exact H ].
  intros acc c Hacc; apply addImplicitConnections_processed; exact Hacc.
Qed.

(** The record of the units after the components of the sheets have been
    visited, sheet after sheet, from the empty record. *)
Definition visitSheets (sheets : list SheetState) : MISSING_CMPS :=
  fold_left (fun m st => snd (sheetImplicitConnections' st m)) sheets [].

Lemma visitSheets_processed (sheets : list SheetState) :
  nothingMissing (visitSheets sheets).
Proof.
  unfold visitSheets.
  apply (PowerFacts.fold_left_invariant nothingMissing); [ | constructor ].
  intros m st Hm; apply sheetImplicitConnections_processed; exact Hm.
Qed.

Lemma instantiateUnits_skip (pageWidth sheetLeft : Z) (origCmp : SCH_COMPONENT)
    (u : UNITS) (pl : PLACEMENT) :
  allProcessed u ->
  fold_left (instantiateUnit Mils2iu GetPinPhysicalPosition GetBoundingBox rootPath
                             pageWidth sheetLeft origCmp) u pl = pl.
Proof.
  unfold allProcessed; revert pl; induction u as [ | [k v] r IH ]; intros pl H;
    cbn [fold_left]; [ reflexivity | ].
  inversion H as [ | ? ? Hv Hr ]; subst; cbn [snd] in Hv; subst v.
  unfold instantiateUnit at 2; cbn [snd negb]; apply IH; exact Hr.
Qed.

Lemma instantiateMissingUnits_skip (rootSheet : SheetState) (m : MISSING_CMPS)
    (pageWidth sheetLeft sheetTop sheetBottom : Z) :
  nothingMissing m ->
  instantiateMissingUnits' rootSheet m pageWidth sheetLeft sheetTop sheetBottom = rootSheet.
Proof.
  intros H; unfold instantiateMissingUnits.
  assert (Hfold : forall pl,
             fold_left (fun pl e =>
                          fold_left (instantiateUnit Mils2iu GetPinPhysicalPosition
                                                     GetBoundingBox rootPath pageWidth
                                                     sheetLeft (cmp (snd e)))
                                    (units (snd e)) pl) m pl = pl).
  { unfold nothingMissing in H; induction m as [ | e r IH ]; intros pl;
      cbn [fold_left]; [ reflexivity | ].
    inversion H as [ | ? ? He Hr ]; subst.
    rewrite instantiateUnits_skip by exact He; apply IH; exact Hr. }
  rewrite Hfold; reflexivity.
Qed.

(** Whatever the sheets hold, the record built while they are visited flags
    no unit as missing, and the missing-unit loop leaves the root sheet as
    it finds it: no instance is synthesized. *)
Theorem no_missing_unit_is_instantiated (sheets : list SheetState) (rootSheet : SheetState)
    (pageWidth sheetLeft sheetTop sheetBottom : Z) :
  instantiateMissingUnits' rootSheet (visitSheets sheets)
                           pageWidth sheetLeft sheetTop sheetBottom
  = rootSheet.
Proof.
  apply instantiateMissingUnits_skip, visitSheets_processed.
Qed.

End Facts.

(** A symbol of three units, each with its own power input pin. *)
Definition supplyPin (name : string) (unit : Z) : LIB_PIN :=
  mkPin (mkPoint 0 (100 * unit)) name name unit "R" 100 None None PINSHAPE_LINE PT_POWER_IN.

Definition triple_part : LIB_PART :=
  mkPart "TRIPLE" 3 true false Library.default_LIB_FIELD Library.default_LIB_FIELD
         [LibPin (supplyPin "VCC" 1); LibPin (supplyPin "VDD" 2); LibPin (supplyPin "VEE" 3)].

(** Its unit 1, placed as U1. *)
Definition unit_one : SCH_COMPONENT :=
  mkComponent "lib" "TRIPLE" 1 (mkPoint 0 0) CMP_ORIENT_0 false EmptyString
              (Instances.fieldSetText (Instances.new_SCH_FIELD "Reference") "U1")
              (Instances.new_SCH_FIELD "Value") [] [] (Some triple_part).

(** The only sheet: U1's unit 1 and nothing else. *)
Definition only_sheet : SheetState :=
  mkSheet [(0%nat, ItemComponent unit_one)] 1%nat [] [] [] [].

Definition pinAt (c : SCH_COMPONENT) (p : LIB_PIN) : wxPoint := vadd (cmpPos c) (pinPos p).

Definition countComponents (scr : SCH_SCREEN) : nat := List.length (sheetComponents scr).

(** C4, at the failing input: a part with units 1, 2 and 3 of which only
    unit 1 is drawn.  Units 2 and 3 are seen (their power pins are those of
    another unit) and none of them is recorded: the record holds unit 1 only,
    flagged as processed, and the root sheet keeps its single component
    where two more were to be appended. *)
Example units_two_and_three_are_dropped :
  let visited := sheetImplicitConnections (fun c => c) pinAt only_sheet [] in
  let rootSheet := fst visited in
  let after := instantiateMissingUnits (fun c => c) pinAt (fun _ => (400, 400)) "/"
                                       rootSheet (snd visited) 11000 0 0 1000 in
  map (fun e => (fst e, units (snd e))) (snd visited) = [("U1"%string, [(1, false)])]
  /\ snd (fold_left (implicitPin (fun c => c) pinAt unit_one true)
                    (allPins triple_part) (only_sheet, []))
     = [2; 3]
  /\ after = rootSheet
  /\ countComponents (screen after) = 1%nat.
Proof. repeat split. Qed.

End MissingUnitFacts.

(** ** The displacement search on wires of non-zero length *)

Module SearchFacts.

Import Sheet.

Section Search.

Variable Contains : SEG -> VECTOR2I -> bool.
Variable vlt : VECTOR2I -> VECTOR2I -> bool.
Variable ws : list VECTOR2I.
Variable segAttached : SEG.
Variable origPos wireDirection : VECTOR2I.

Local Abbreviation displace' := (displace Contains vlt).
Local Abbreviation onIntersection' := (onIntersection vlt ws).

(** What holds of the flags and the position at the head of the loop. *)
Definition found (labelPos : VECTOR2I) (checkPositive checkNegative move : bool) : Prop :=
  move = true ->
  (checkPositive || checkNegative) = true /\ Contains segAttached labelPos = true.

(** A position the search settles on lies on the attached segment and off
    every recorded intersection. *)
Lemma displace_found (fuel : nat) :
  forall labelPos checkPositive checkNegative move trial pos,
    found labelPos checkPositive checkNegative move ->
    displace' fuel ws segAttached origPos wireDirection labelPos
              checkPositive checkNegative move trial = Some (pos, true) ->
    Contains segAttached pos = true /\ onIntersection' pos = false.
Proof.
  induction fuel as [ | fuel IH ]; intros labelPos cP cN move trial pos Hinv H;
    cbn [displace] in H;
    destruct ((negb move || onIntersection' labelPos) && (cP || cN)) eqn:Hc;
    try discriminate.
  - inversion H; subst.
    destruct (Hinv eq_refl) as [Hflags Hon]; split; [ exact Hon | ].
    rewrite Hflags in Hc; cbn [negb orb] in Hc.
    rewrite andb_true_r in Hc; exact Hc.
  - destruct (Z.rem trial 2 =? 1); apply IH in H; try exact H.
    + intros Hm; split; [ rewrite Hm; reflexivity | exact Hm ].
    + intros Hm; split; [ rewrite Hm; apply orb_true_r | exact Hm ].
  - inversion H; subst.
    destruct (Hinv eq_refl) as [Hflags Hon]; split; [ exact Hon | ].
    rewrite Hflags in Hc; cbn [negb orb] in Hc.
    rewrite andb_true_r in Hc; exact Hc.
Qed.

(** From some trial on, the positions tried lie off the attached segment on
    both of its sides. *)
Variable bound : Z.
Hypothesis beyond_positive :
  forall k, bound <= k ->
            Contains segAttached (vadd origPos (vdiv (vmul wireDirection k) 2)) = false.
Hypothesis beyond_negative :
  forall k, bound <= k ->
            Contains segAttached (vsub origPos (vdiv (vmul wireDirection k) 2)) = false.

(** The flag written by the previous trial is down once the bound is passed,
    and both are down one trial later. *)
Definition spent (checkPositive checkNegative : bool) (trial : Z) : Prop :=
  (bound < trial -> if Z.rem trial 2 =? 1 then checkNegative = false
                    else checkPositive = false)
  /\ (bound + 1 < trial -> checkPositive = false /\ checkNegative = false).

Lemma rem2_succ (trial : Z) :
  0 <= trial -> (Z.rem (trial + 1) 2 =? 1) = negb (Z.rem trial 2 =? 1).
Proof.
  intros H; rewrite !Z.rem_mod_nonneg by lia.
  destruct (Z.eqb_spec (trial mod 2) 1) as [ E | E ];
    destruct (Z.eqb_spec ((trial + 1) mod 2) 1) as [ F | F ]; try reflexivity; exfalso.
  - pose proof (Z.div_mod trial 2 ltac:(lia)); pose proof (Z.div_mod (trial + 1) 2 ltac:(lia)).
    lia.
  - pose proof (Z.mod_pos_bound trial 2 ltac:(lia)).
    pose proof (Z.mod_pos_bound (trial + 1) 2 ltac:(lia)).
    pose proof (Z.div_mod trial 2 ltac:(lia)); pose proof (Z.div_mod (trial + 1) 2 ltac:(lia)).
    lia.
Qed.

Lemma displace_ends (fuel : nat) :
  forall labelPos checkPositive checkNegative move trial,
    0 <= trial ->
    (Z.to_nat (bound + 2 - trial) <= fuel)%nat ->
    spent checkPositive checkNegative trial ->
    exists r, displace' fuel ws segAttached origPos wireDirection labelPos
                        checkPositive checkNegative move trial = Some r.
Proof.
  induction fuel as [ | fuel IH ]; intros labelPos cP cN move trial Ht Hfuel [Hlast Hboth].
  - assert (Hpast : bound + 1 < trial) by lia.
    destruct (Hboth Hpast) as [-> ->]; cbn [displace orb]; rewrite andb_false_r.
    eexists; reflexivity.
  - cbn [displace].
    destruct ((negb move || onIntersection' labelPos) && (cP || cN)) eqn:Hc;
      [ | eexists; reflexivity ].
    assert (Hnot : ~ bound + 1 < trial).
    { intros Hpast; destruct (Hboth Hpast) as [-> ->].
      rewrite andb_false_r in Hc; discriminate. }
    pose proof (rem2_succ trial Ht) as Hpar.
    destruct (Z.rem trial 2 =? 1) eqn:Hodd; apply IH; try lia;
      (split;
       [ intros Hb; rewrite Hpar; cbn [negb]
       | intros Hb; assert (Hb' : bound < trial) by lia; specialize (Hlast Hb');
         cbn beta iota in Hlast; split ]);
      try (apply beyond_positive; lia); try (apply beyond_negative; lia);
      try exact Hlast.
Qed.

(** The search ends when started as the corrector starts it. *)
Lemma displace_terminates (labelPos : VECTOR2I) :
  0 <= bound ->
  exists r, displace' (Z.to_nat (bound + 2)) ws segAttached origPos wireDirection labelPos
                      true true false 0 = Some r.
Proof.
  intros Hb; apply displace_ends; [ lia | lia | ].
  split; intros H; lia.
Qed.

End Search.

End SearchFacts.

(** ** A detached label on a group whose wires the search can leave *)

Module DetachedFacts.

Import Sheet.

Section Facts.

Variable Mils2iu : Z -> Z.
Variable Contains : SEG -> VECTOR2I -> bool.
Variable Resize : VECTOR2I -> Z -> VECTOR2I.
Variable vlt : VECTOR2I -> VECTOR2I -> bool.

Local Abbreviation adjustLabel' := (adjustLabel Mils2iu Contains Resize vlt).

(** The direction the search walks in along a segment. *)
Definition stride (seg : SEG) : VECTOR2I :=
  Resize (vsub (segB seg) (segA seg)) (Mils2iu 50).

(** A label that lies off every segment of its group is handled in a
    bounded number of trials whenever the walk along the nearest segment
    leaves that segment on both sides; it then either keeps its place or
    sits on that segment, off every recorded intersection. *)
Theorem detached_label_settles (ws : list VECTOR2I) (segDesc : SEG_DESC) (scr : SCH_SCREEN)
    (label : addr) (t : SCH_TEXT) (nearest : VECTOR2I) (seg : SEG) (bound : Z) :
  findItem scr label = Some (ItemText t) ->
  LabelAttached Contains (segs segDesc) (textPos t) = None ->
  findNearestLinePoint (textPos t) (segs segDesc) = (nearest, Some seg) ->
  0 <= bound ->
  (forall k, bound <= k ->
             Contains seg (vadd nearest (vdiv (vmul (stride seg) k) 2)) = false) ->
  (forall k, bound <= k ->
             Contains seg (vsub nearest (vdiv (vmul (stride seg) k) 2)) = false) ->
  exists scr',
    adjustLabel' (Z.to_nat (bound + 2)) ws segDesc scr label = Some scr'
    /\ (scr' = scr
        \/ exists pos,
             scr' = setItem scr label (ItemText (SetTextPosition t pos))
             /\ Contains seg pos = true
             /\ onIntersection vlt ws pos = false).
Proof.
  intros Hitem Hoff Hnear Hb Hpos Hneg.
  unfold adjustLabel; rewrite Hitem, Hoff, Hnear; unfold moveAlong; fold (stride seg).
  destruct (SearchFacts.displace_terminates Contains vlt ws seg nearest (stride seg)
              bound Hpos Hneg nearest Hb) as [[pos move] Hrun].
  rewrite Hrun; destruct move.
  - eexists; split; [ reflexivity | right ].
    exists pos; split; [ reflexivity | ].
    apply (SearchFacts.displace_found Contains vlt ws seg nearest (stride seg)
             (Z.to_nat (bound + 2)) nearest true true false 0 pos);
      [ intros H; discriminate H | exact Hrun ].
  - eexists; split; [ reflexivity | left; reflexivity ].
Qed.

End Facts.

(** One wire from (0,0) to (200,0); its label is drawn 500 above it. *)
Definition lone_wire : SEG := mkSeg (mkPoint 0 0) (mkPoint 200 0).

Definition far_label : SCH_TEXT :=
  mkSchText SCH_LABEL_T (mkPoint 100 500) "N$1" (40, 40) SPIN_RIGHT false default_EDA_TEXT.

(** From the ninth trial on the walk from the wire's end is off the wire. *)
Lemma lone_wire_left (k : Z) :
  9 <= k ->
  CorrectorFacts.Contains_exact lone_wire
    (vadd (mkPoint 200 0)
          (vdiv (vmul (stride (fun mils => mils) CorrectorFacts.Resize_scaled lone_wire) k) 2))
  = false
  /\ CorrectorFacts.Contains_exact lone_wire
       (vsub (mkPoint 200 0)
             (vdiv (vmul (stride (fun mils => mils) CorrectorFacts.Resize_scaled lone_wire) k)
                   2))
     = false.
Proof.
  intros Hk.
  change (stride (fun mils => mils) CorrectorFacts.Resize_scaled lone_wire)
    with (mkPoint 50 0).
  unfold CorrectorFacts.Contains_exact, BusEntries.TestSegmentHit_exact, lone_wire.
  cbn [segA segB px py vadd vsub vdiv vmul].
  assert (Hq : Z.quot (50 * k) 2 = 25 * k)
    by (replace (50 * k) with (25 * k * 2) by lia; apply Z.quot_mul; lia).
  rewrite Hq; split.
  - replace (200 + 25 * k <=? Z.max 0 200) with false
      by (symmetry; apply Z.leb_gt; change (Z.max 0 200) with 200; lia).
    rewrite andb_false_r; reflexivity.
  - replace (Z.min 0 200 <=? 200 - 25 * k) with false
      by (symmetry; apply Z.leb_gt; change (Z.min 0 200) with 0; lia).
    reflexivity.
Qed.

Lemma detached_label_settles_witness :
  let scr := [(0%nat, ItemText far_label)] in
  let segDesc := mkSegDesc [0%nat] [lone_wire] in
  (findItem scr 0%nat = Some (ItemText far_label)
   /\ LabelAttached CorrectorFacts.Contains_exact (segs segDesc) (textPos far_label) = None
   /\ findNearestLinePoint (textPos far_label) (segs segDesc)
      = (mkPoint 200 0, Some lone_wire))
  /\ exists scr',
       adjustLabel (fun mils => mils) CorrectorFacts.Contains_exact
                   CorrectorFacts.Resize_scaled CorrectorFacts.vlt_lex
                   (Z.to_nat (9 + 2)) [mkPoint 200 0] segDesc scr 0%nat = Some scr'
       /\ (scr' = scr
           \/ exists pos,
                scr' = setItem scr 0%nat (ItemText (SetTextPosition far_label pos))
                /\ CorrectorFacts.Contains_exact lone_wire pos = true
                /\ onIntersection CorrectorFacts.vlt_lex [mkPoint 200 0] pos = false).
Proof.
  split; [ repeat split | ].
  apply (detached_label_settles (fun mils => mils) CorrectorFacts.Contains_exact
           CorrectorFacts.Resize_scaled CorrectorFacts.vlt_lex [mkPoint 200 0]
           (mkSegDesc [0%nat] [lone_wire]) [(0%nat, ItemText far_label)] 0%nat far_label
           (mkPoint 200 0) lone_wire 9);
    try reflexivity; try lia.
  - intros k Hk; exact (proj1 (lone_wire_left k Hk)).
  - intros k Hk; exact (proj2 (lone_wire_left k Hk)).
Defined.

(** There the label ends 50 before the wire's end, which is an intersection. *)
Example far_label_moved :
  adjustLabel (fun mils => mils) CorrectorFacts.Contains_exact CorrectorFacts.Resize_scaled
              CorrectorFacts.vlt_lex 11 [mkPoint 200 0] (mkSegDesc [0%nat] [lone_wire])
              [(0%nat, ItemText far_label)] 0%nat
  = Some [(0%nat, ItemText (SetTextPosition far_label (mkPoint 150 0)))].
Proof. reflexivity. Qed.

End DetachedFacts.

(** ** String helpers: [EscapeString] and [UnescapeString] *)

Module EscapeFacts.

Import KicadString.

Lemma unescape_nil (fuel : nat) : unescape fuel [] = Some [].
Proof. destruct fuel; reflexivity. Qed.

(** More fuel does not change a result. *)
Lemma unescape_mono (fuel : nat) :
  forall s v, unescape fuel s = Some v ->
              forall fuel', (fuel <= fuel')%nat -> unescape fuel' s = Some v.
Proof.
  induction fuel as [ | f IH ]; intros s v H f' Hle.
  - destruct s; [ inversion H; apply unescape_nil | discriminate H ].
  - destruct f' as [ | f' ]; [ lia | ].
    assert (Hf : (f <= f')%nat) by lia.
    destruct s as [ | c r ]; [ exact H | ].
    cbn [unescape] in *.
    destruct (isReferenceMark c && opensBrace r).
    + destruct (copyReference (c :: r)) as [copied rest].
      destruct (unescape f rest) eqn:E; [ | discriminate ].
      rewrite (IH _ _ E f' Hf); exact H.
    + destruct (Ascii.eqb c "{").
      * destruct (scanToken 1 r) as [token rest].
        destruct (knownToken token).
        -- destruct (unescape f rest) eqn:E; [ | discriminate ].
           rewrite (IH _ _ E f' Hf); exact H.
        -- destruct (unescape f token) eqn:E1; [ | discriminate ].
           rewrite (IH _ _ E1 f' Hf).
           destruct (unescape f rest) eqn:E2; [ | discriminate ].
           rewrite (IH _ _ E2 f' Hf); exact H.
      * destruct (unescape f r) eqn:E; [ | discriminate ].
        rewrite (IH _ _ E f' Hf); exact H.
Qed.

Lemma copyReference_rest (s : list ascii) :
  (List.length (snd (copyReference s)) <= Nat.pred (List.length s))%nat.
Proof.
  induction s as [ | c r IH ]; cbn [copyReference]; [ simpl; lia | ].
  destruct (Ascii.eqb c "}"); [ simpl; lia | ].
  destruct (copyReference r) as [copied rest]; cbn [snd List.length Nat.pred] in *; lia.
Qed.

Lemma scanToken_lengths (s : list ascii) :
  forall depth,
    (List.length (fst (scanToken depth s)) <= List.length s)%nat
    /\ (List.length (snd (scanToken depth s)) <= List.length s)%nat.
Proof.
  induction s as [ | c r IH ]; intros depth; cbn [scanToken]; [ simpl; lia | ].
  match goal with |- context [if ?d <=? 0 then _ else _] => destruct (d <=? 0) end;
    [ simpl; lia | ].
  match goal with |- context [scanToken ?d r] => specialize (IH d); destruct (scanToken d r) end.
  cbn [fst snd List.length] in *; lia.
Qed.

(** [UnescapeString] returns on every text. *)
Lemma unescape_total (fuel : nat) :
  forall s, (List.length s <= fuel)%nat -> exists v, unescape fuel s = Some v.
Proof.
  induction fuel as [ | f IH ]; intros s Hlen.
  - destruct s; [ exists []; reflexivity | simpl in Hlen; lia ].
  - destruct s as [ | c r ]; [ exists []; reflexivity | ].
    cbn [List.length] in Hlen; cbn [unescape].
    destruct (isReferenceMark c && opensBrace r).
    + pose proof (copyReference_rest (c :: r)) as Hrest.
      destruct (copyReference (c :: r)) as [copied rest]; cbn [snd List.length Nat.pred] in Hrest.
      destruct (IH rest ltac:(lia)) as [tail ->]; eexists; reflexivity.
    + destruct (Ascii.eqb c "{").
      * pose proof (scanToken_lengths r 1) as [Htok Hrest].
        destruct (scanToken 1 r) as [token rest]; cbn [fst snd] in Htok, Hrest.
        destruct (IH rest ltac:(lia)) as [tail ->].
        destruct (knownToken token); [ eexists; reflexivity | ].
        destruct (IH token ltac:(lia)) as [inner ->]; eexists; reflexivity.
      * destruct (IH r ltac:(lia)) as [tail ->]; eexists; reflexivity.
Qed.

(** The characters whose escaped form [UnescapeString] gives back: a
    character that is dropped is lost, a '{' that is kept opens a token, and
    a carriage return that becomes [{return}] comes back as a line feed. *)
Definition faithful (aContext : ESCAPE_CONTEXT) (c : ascii) : bool :=
  match escapeChar aContext c with
  | [] => false
  | [kept] => negb (Ascii.eqb kept "{")
  | _ => negb (Ascii.eqb c CR)
  end.

(** The character is replaced by a token in braces. *)
Definition tokenized (aContext : ESCAPE_CONTEXT) (c : ascii) : bool :=
  opensBrace (escapeChar aContext c).

Definition headTokenized (aContext : ESCAPE_CONTEXT) (r : list ascii) : bool :=
  match r with
  | c :: _ => tokenized aContext c
  | [] => false
  end.

(** Every character is faithful, and none of '$', '^' and '_' stands right
    before a character that is replaced by a token (the two would read as
    the start of a reference, which [UnescapeString] copies as it is). *)
Fixpoint roundTrips (aContext : ESCAPE_CONTEXT) (s : list ascii) : bool :=
  match s with
  | [] => true
  | c :: r =>
      faithful aContext c
      && negb (isReferenceMark c && headTokenized aContext r)
      && roundTrips aContext r
  end.

Ltac split_chars c :=
  repeat match goal with
         | H : context [Ascii.eqb c ?k] |- _ =>
             destruct (Ascii.eqb_spec c k); [ subst c | ]; cbn [orb andb negb] in H
         | |- context [Ascii.eqb c ?k] =>
             destruct (Ascii.eqb_spec c k); [ subst c | ]; cbn [orb andb negb]
         end.

(** One escaped character is read back as that character. *)
Lemma unescape_escapeChar (aContext : ESCAPE_CONTEXT) (c : ascii) (rest tail : list ascii)
    (fuel : nat) :
  faithful aContext c = true ->
  isReferenceMark c && opensBrace rest = false ->
  unescape fuel rest = Some tail ->
  unescape (S fuel) (escapeChar aContext c ++ rest) = Some (c :: tail).
Proof.
  intros Hf Href Htail.
  assert (Hkept : Ascii.eqb c "{" = false ->
                  unescape (S fuel) ([c] ++ rest) = Some (c :: tail)).
  { intros Hc; cbn [app unescape]; rewrite Href, Hc, Htail; reflexivity. }
  destruct aContext; unfold faithful in Hf; unfold escapeChar in *;
    unfold LF, CR, TAB, DBLQUOTE, BACKSLASH in *;
    split_chars c; try discriminate Hf;
    try (apply Hkept; apply negb_true_iff; exact Hf);
    try (cbn; rewrite Htail; reflexivity).
Qed.

Lemma opensBrace_escape (aContext : ESCAPE_CONTEXT) (r : list ascii) :
  roundTrips aContext r = true ->
  opensBrace (EscapeString r aContext) = headTokenized aContext r.
Proof.
  destruct r as [ | c r ]; [ reflexivity | ].
  cbn [roundTrips headTokenized]; unfold tokenized, EscapeString; cbn [flat_map].
  intros H; apply andb_true_iff in H; destruct H as [H _].
  apply andb_true_iff in H; destruct H as [H _]; unfold faithful in H.
  destruct (escapeChar aContext c) as [ | k l ]; [ discriminate H | reflexivity ].
Qed.

Lemma faithful_nonempty (aContext : ESCAPE_CONTEXT) (c : ascii) :
  faithful aContext c = true -> escapeChar aContext c <> [].
Proof. unfold faithful; destruct (escapeChar aContext c); [ discriminate | discriminate ]. Qed.

(** [UnescapeString] undoes [EscapeString], in each of the five contexts,
    on a text for which [roundTrips] holds: no character that the context
    drops (a line feed or carriage return in [CTX_NETNAME] and
    [CTX_LIBID]), no '{' where the context keeps it as it is
    ([CTX_NETNAME], [CTX_QUOTED_STR], [CTX_LINE]), no carriage return where
    it becomes [{return}] ([CTX_LINE], [CTX_FILENAME]; it would come back as
    a line feed), and none of '$', '^' and '_' right before a character
    that the context replaces by a token. *)
Theorem unescape_escape_round_trip (aContext : ESCAPE_CONTEXT) (s : list ascii) :
  roundTrips aContext s = true ->
  UnescapeString (EscapeString s aContext) = Some s.
Proof.
  unfold UnescapeString; induction s as [ | c r IH ]; intros H; [ reflexivity | ].
  pose proof H as Hall.
  cbn [roundTrips] in H; apply andb_true_iff in H; destruct H as [H Hr].
  apply andb_true_iff in H; destruct H as [Hf Href].
  specialize (IH Hr).
  unfold EscapeString in *; cbn [flat_map]; rewrite length_app.
  pose proof (faithful_nonempty _ _ Hf) as Hne.
  destruct (List.length (escapeChar aContext c)) as [ | n ] eqn:Hlen;
    [ destruct (escapeChar aContext c); [ congruence | discriminate Hlen ] | ].
  cbn [Nat.add]; apply unescape_escapeChar; [ exact Hf | | ].
  - fold (EscapeString r aContext); rewrite (opensBrace_escape _ _ Hr).
    apply negb_true_iff in Href; exact Href.
  - apply (unescape_mono _ _ _ IH); lia.
Qed.

Lemma unescape_escape_round_trip_witness :
  roundTrips CTX_FILENAME (lit "lib/part:1 <A|B>{x}") = true
  /\ UnescapeString (EscapeString (lit "lib/part:1 <A|B>{x}") CTX_FILENAME)
     = Some (lit "lib/part:1 <A|B>{x}").
Proof.
  split; [ reflexivity | ].
  apply (unescape_escape_round_trip CTX_FILENAME (lit "lib/part:1 <A|B>{x}")); reflexivity.
Defined.

(** Outside that condition the round trip can fail: an underscore before a
    character that is escaped is read as the start of a reference. *)
Example underscore_before_token :
  EscapeString (lit "a_<b") CTX_FILENAME = lit "a_{lt}b"
  /\ UnescapeString (lit "a_{lt}b") = Some (lit "a_{lt}b").
Proof. split; reflexivity. Qed.

(** So can it for a brace that is kept and for a carriage return: the text
    [{slash}] of a net name comes back as a slash, and the carriage return
    of a line as a line feed. *)
Example brace_and_return_do_not_come_back :
  EscapeString (lit "{slash}") CTX_NETNAME = lit "{slash}"
  /\ UnescapeString (lit "{slash}") = Some (lit "/")
  /\ EscapeString [CR] CTX_LINE = lit "{return}"
  /\ UnescapeString (lit "{return}") = Some [LF].
Proof. repeat split. Qed.

(** A text without an opening brace is left as it is. *)
Theorem unescape_without_brace (s : list ascii) :
  existsb (fun c => Ascii.eqb c "{") s = false ->
  UnescapeString s = Some s.
Proof.
  unfold UnescapeString; induction s as [ | c r IH ]; intros H; [ reflexivity | ].
  cbn [existsb] in H; apply orb_false_iff in H; destruct H as [Hc Hr].
  cbn [List.length unescape]; rewrite Hc, (IH Hr).
  replace (opensBrace r) with false
    by (destruct r as [ | c2 r2 ]; [ reflexivity | ];
        cbn [existsb] in Hr; apply orb_false_iff in Hr; symmetry; exact (proj1 Hr)).
  rewrite andb_false_r; reflexivity.
Qed.

Lemma unescape_without_brace_witness :
  existsb (fun c => Ascii.eqb c "{") (lit "R$1_B}") = false
  /\ UnescapeString (lit "R$1_B}") = Some (lit "R$1_B}").
Proof.
  split; [ reflexivity | apply (unescape_without_brace (lit "R$1_B}")); reflexivity ].
Defined.

(** Escaped for a file name, a text holds none of the characters that are
    illegal in file names, and no tab, line feed or carriage return. *)
Theorem escaped_file_name_is_legal (s : list ascii) :
  forallb (fun c => negb (isIllegal c || Ascii.eqb c TAB || Ascii.eqb c LF || Ascii.eqb c CR))
          (EscapeString s CTX_FILENAME) = true.
Proof.
  unfold EscapeString; induction s as [ | c r IH ]; [ reflexivity | ].
  cbn [flat_map]; rewrite forallb_app, IH, andb_true_r.
  unfold escapeChar, isIllegal, illegalFileNameChars, LF, CR, TAB, DBLQUOTE, BACKSLASH.
  split_chars c; try reflexivity.
  cbn [forallb existsb].
  repeat match goal with
         | H : c <> ?k |- _ =>
             apply Ascii.eqb_neq in H; rewrite H; clear H
         end.
  reflexivity.
Qed.

End EscapeFacts.

(** ** String helpers: [EscapedUTF8] and [ReadDelimitedText] *)

Module QuotedFacts.

Import KicadString.

Definition noNUL (s : list ascii) : bool := forallb (fun c => negb (Ascii.eqb c NUL)) s.

Lemma replaceCRLF_noNUL (n : nat) :
  forall s, (List.length s <= n)%nat -> noNUL s = true -> noNUL (replaceCRLF s) = true.
Proof.
  unfold noNUL; induction n as [ | n IH ]; intros s Hlen H.
  - destruct s; [ reflexivity | simpl in Hlen; lia ].
  - destruct s as [ | c [ | c2 r2 ] ]; [ reflexivity | exact H | ].
    cbn [replaceCRLF]; cbn [forallb List.length] in *.
    apply andb_true_iff in H; destruct H as [Hc H].
    destruct (Ascii.eqb c CR && Ascii.eqb c2 LF).
    + cbn [forallb]; apply andb_true_iff in H; destruct H as [_ H].
      rewrite (IH r2) by (lia || exact H); reflexivity.
    + cbn [forallb]; rewrite Hc; apply (IH (c2 :: r2)); [ simpl; lia | exact H ].
Qed.

Lemma replaceLF_noNUL (s : list ascii) : noNUL s = true -> noNUL (replaceLF s) = true.
Proof.
  unfold noNUL, replaceLF; induction s as [ | c r IH ]; intros H; [ reflexivity | ].
  cbn [map forallb] in *; apply andb_true_iff in H; destruct H as [Hc H].
  rewrite (IH H), andb_true_r.
  destruct (Ascii.eqb c LF); [ reflexivity | exact Hc ].
Qed.

(** Inside the quotes, the escaped bytes are read back up to the closing
    quote. *)
Lemma readDelimited_escapeQuoted (utf8 rest : list ascii) :
  noNUL utf8 = true ->
  readDelimited true (escapeQuoted utf8 ++ DBLQUOTE :: rest)
  = (utf8, Z.of_nat (List.length (escapeQuoted utf8)) + 1).
Proof.
  unfold noNUL, escapeQuoted; induction utf8 as [ | c r IH ]; intros H; [ reflexivity | ].
  cbn [forallb] in H; apply andb_true_iff in H; destruct H as [Hc H].
  specialize (IH H); cbn [flat_map]; rewrite length_app, Nat2Z.inj_add.
  apply negb_true_iff in Hc.
  set (k := Z.of_nat (List.length (flat_map _ r))) in *.
  destruct (Ascii.eqb_spec c DBLQUOTE) as [ -> | Hq ].
  - change (Z.of_nat (List.length [BACKSLASH; DBLQUOTE])) with 2.
    cbn [app readDelimited].
    change (Ascii.eqb BACKSLASH NUL) with false; change (Ascii.eqb DBLQUOTE NUL) with false;
      change (Ascii.eqb BACKSLASH DBLQUOTE) with false;
      change (Ascii.eqb BACKSLASH BACKSLASH) with true;
      change (Ascii.eqb DBLQUOTE DBLQUOTE) with true; cbv iota; cbn [negb andb].
    rewrite IH; f_equal; lia.
  - destruct (Ascii.eqb_spec c BACKSLASH) as [ -> | Hb ].
    + change (Z.of_nat (List.length [BACKSLASH; BACKSLASH])) with 2.
      cbn [app readDelimited].
      change (Ascii.eqb BACKSLASH NUL) with false;
        change (Ascii.eqb BACKSLASH DBLQUOTE) with false;
        change (Ascii.eqb BACKSLASH BACKSLASH) with true; cbv iota; cbn [negb andb].
      rewrite IH; f_equal; lia.
    + apply Ascii.eqb_neq in Hq, Hb.
      change (Z.of_nat (List.length [c])) with 1.
      cbn [app readDelimited]; rewrite Hc, Hq, Hb, IH; f_equal; lia.
Qed.

(** What [EscapedUTF8] writes, [ReadDelimitedText] reads back: the text
    with its line ends turned into carriage returns, whatever follows the
    closing quote; the count returned is the length of the quoted text. *)
Theorem read_back_escaped (aString rest : list ascii) :
  noNUL aString = true ->
  ReadDelimitedText (EscapedUTF8 aString ++ rest)
  = (replaceLF (replaceCRLF aString), Z.of_nat (List.length (EscapedUTF8 aString))).
Proof.
  intros H; unfold ReadDelimitedText, EscapedUTF8.
  cbn [app readDelimited]; change (Ascii.eqb DBLQUOTE NUL) with false;
    change (Ascii.eqb DBLQUOTE DBLQUOTE) with true; cbv iota.
  rewrite <- app_assoc; cbn [app].
  rewrite readDelimited_escapeQuoted
    by (apply replaceLF_noNUL, (replaceCRLF_noNUL (List.length aString)); [ lia | exact H ]).
  f_equal; cbn [List.length]; rewrite length_app; cbn [List.length]; lia.
Qed.

Lemma read_back_escaped_witness :
  let s := [ "a"%char; DBLQUOTE; "b"%char; BACKSLASH; "n"%char; CR; LF; "c"%char ] in
  noNUL s = true
  /\ ReadDelimitedText (EscapedUTF8 s ++ lit " tail")
     = ([ "a"%char; DBLQUOTE; "b"%char; BACKSLASH; "n"%char; CR; "c"%char ], 11).
Proof.
  split; [ reflexivity | ].
  exact (read_back_escaped
           [ "a"%char; DBLQUOTE; "b"%char; BACKSLASH; "n"%char; CR; LF; "c"%char ]
           (lit " tail") eq_refl).
Defined.

Lemma readBounded_prefix (n : nat) :
  forall aSource, (List.length aSource <= n)%nat ->
  forall room inside,
    fst (readBounded room inside aSource) = firstn room (fst (readDelimited inside aSource)).
Proof.
  induction n as [ | n IH ]; intros s Hlen room inside.
  - destruct s; [ destruct room; reflexivity | simpl in Hlen; lia ].
  - destruct s as [ | cc r ]; [ destruct room; reflexivity | ].
    cbn [List.length] in Hlen.
    assert (IHr : forall room inside,
               fst (readBounded room inside r) = firstn room (fst (readDelimited inside r)))
      by (intros; apply IH; lia).
    cbn [readBounded readDelimited].
    destruct (Ascii.eqb cc NUL); [ destruct room; reflexivity | ].
    destruct room as [ | room' ]; [ rewrite firstn_O; reflexivity | ].
    destruct (Ascii.eqb cc DBLQUOTE).
    + destruct inside; [ reflexivity | ].
      specialize (IHr (S room') true).
      destruct (readBounded (S room') true r), (readDelimited true r); exact IHr.
    + destruct inside.
      * destruct (Ascii.eqb cc BACKSLASH).
        -- destruct r as [ | cc2 r2 ]; [ reflexivity | ].
           destruct (Ascii.eqb cc2 NUL); [ reflexivity | ].
           assert (IHr2 : forall room,
                      fst (readBounded room true r2)
                      = firstn room (fst (readDelimited true r2)))
             by (intros; apply IH; simpl in Hlen; lia).
           destruct (negb (Ascii.eqb cc2 DBLQUOTE) && negb (Ascii.eqb cc2 BACKSLASH)).
           ++ destruct room' as [ | room'' ].
              ** specialize (IHr2 O).
                 destruct (readBounded 0 true r2), (readDelimited true r2).
                 cbn [fst firstn] in *; rewrite IHr2; reflexivity.
              ** specialize (IHr2 room'').
                 destruct (readBounded room'' true r2), (readDelimited true r2).
                 cbn [fst firstn] in *; rewrite IHr2; reflexivity.
           ++ specialize (IHr2 room').
              destruct (readBounded room' true r2), (readDelimited true r2).
              cbn [fst firstn] in *; rewrite IHr2; reflexivity.
        -- specialize (IHr room' true).
           destruct (readBounded room' true r), (readDelimited true r).
           cbn [fst firstn] in *; rewrite IHr; reflexivity.
      * specialize (IHr (S room') false).
        destruct (readBounded (S room') false r), (readDelimited false r); exact IHr.
Qed.

(** The bounded [ReadDelimitedText] writes the first [aDestSize - 1]
    characters of what the unbounded one reads, and nothing when the size is
    not positive. *)
Theorem bounded_read_is_prefix (aSource : list ascii) (aDestSize : Z) :
  (aDestSize <= 0 -> ReadDelimitedTextInto aSource aDestSize = (None, 0))
  /\ (0 < aDestSize ->
      fst (ReadDelimitedTextInto aSource aDestSize)
      = Some (firstn (Z.to_nat (aDestSize - 1)) (fst (ReadDelimitedText aSource)))
      /\ forall dest, fst (ReadDelimitedTextInto aSource aDestSize) = Some dest ->
                      Z.of_nat (List.length dest) < aDestSize).
Proof.
  unfold ReadDelimitedTextInto, ReadDelimitedText; split; intros H.
  - destruct (Z.leb_spec aDestSize 0); [ reflexivity | lia ].
  - destruct (Z.leb_spec aDestSize 0); [ lia | ].
    pose proof (readBounded_prefix (List.length aSource) aSource (le_n _)
                  (Z.to_nat (aDestSize - 1)) false) as Hp.
    destruct (readBounded (Z.to_nat (aDestSize - 1)) false aSource) as [dest n].
    cbn [fst] in *; subst dest; split; [ reflexivity | ].
    intros dest Hd; inversion Hd; subst dest.
    pose proof (firstn_le_length (Z.to_nat (aDestSize - 1)) (fst (readDelimited false aSource))).
    lia.
Qed.

Lemma bounded_read_is_prefix_witness :
  ReadDelimitedTextInto (DBLQUOTE :: lit "abcdef" ++ [DBLQUOTE]) 0 = (None, 0)
  /\ fst (ReadDelimitedTextInto (DBLQUOTE :: lit "abcdef" ++ [DBLQUOTE]) 4)
     = Some (lit "abc").
Proof.
  destruct (bounded_read_is_prefix (DBLQUOTE :: lit "abcdef" ++ [DBLQUOTE]) 0) as [H0 _].
  destruct (bounded_read_is_prefix (DBLQUOTE :: lit "abcdef" ++ [DBLQUOTE]) 4) as [_ H4].
  split; [ apply H0; lia | ].
  destruct (H4 ltac:(lia)) as [Hp _]; exact Hp.
Defined.

End QuotedFacts.

(** ** String helpers: [ReplaceIllegalFileNameChars] and [wxStringSplit] *)

Module FileNameFacts.

Import KicadString.

(** What one byte becomes. *)
Definition replacement (aReplaceChar : Z) (c : ascii) : list ascii :=
  if strchrIllegal c then
    if negb (aReplaceChar =? 0) then [charOfInt aReplaceChar] else percentHex c
  else [c].

Lemma replace_loop (aReplaceChar : Z) (aName : list ascii) :
  forall changed result,
    fold_left (replaceStep aReplaceChar) aName (changed, result)
    = (changed || existsb strchrIllegal aName,
       result ++ flat_map (replacement aReplaceChar) aName).
Proof.
  induction aName as [ | c r IH ]; intros changed result.
  - cbn [fold_left existsb flat_map]; rewrite orb_false_r, app_nil_r; reflexivity.
  - cbn [fold_left existsb flat_map].
    assert (Hstep : replaceStep aReplaceChar (changed, result) c
                    = (changed || strchrIllegal c, result ++ replacement aReplaceChar c)).
    { unfold replaceStep, replacement; destruct (strchrIllegal c);
        [ rewrite orb_true_r | rewrite orb_false_r ]; reflexivity. }
    rewrite Hstep, IH, orb_assoc, app_assoc; reflexivity.
Qed.

Definition legal (c : ascii) : bool := negb (strchrIllegal c).

Lemma nth_legal (l : list ascii) (d : ascii) (k : nat) :
  forallb legal l = true -> legal d = true -> legal (nth k l d) = true.
Proof.
  revert k; induction l as [ | a l IH ]; intros k Hl Hd; [ destruct k; exact Hd | ].
  cbn [forallb] in Hl; apply andb_true_iff in Hl; destruct Hl as [Ha Hl].
  destruct k; [ exact Ha | apply IH; assumption ].
Qed.

Lemma percentHex_legal (c : ascii) : forallb legal (percentHex c) = true.
Proof.
  unfold percentHex, hexDigit; cbn [forallb].
  rewrite !nth_legal by reflexivity; reflexivity.
Qed.

Lemma unchanged_name (aReplaceChar : Z) (aName : list ascii) :
  existsb strchrIllegal aName = false -> flat_map (replacement aReplaceChar) aName = aName.
Proof.
  induction aName as [ | c r IH ]; intros H; [ reflexivity | ].
  cbn [existsb] in H; apply orb_false_iff in H; destruct H as [Hc Hr].
  cbn [flat_map]; unfold replacement at 1; rewrite Hc, (IH Hr); reflexivity.
Qed.

(** [ReplaceIllegalFileNameChars] returns whether the name held an illegal
    byte; a name without one is left as it is; with the hexadecimal form, or
    with a replacement that is legal itself, no illegal byte is left; and a
    replacement character keeps the length. *)
Theorem replace_illegal_chars (aName : list ascii) (aReplaceChar : Z) :
  let changed := fst (ReplaceIllegalFileNameChars aName aReplaceChar) in
  let name' := snd (ReplaceIllegalFileNameChars aName aReplaceChar) in
  changed = existsb strchrIllegal aName
  /\ (changed = false -> name' = aName)
  /\ (aReplaceChar = 0 \/ legal (charOfInt aReplaceChar) = true ->
      forallb legal name' = true)
  /\ (aReplaceChar <> 0 -> List.length name' = List.length aName).
Proof.
  unfold ReplaceIllegalFileNameChars; rewrite replace_loop; cbn [orb app fst snd].
  split; [ reflexivity | split; [ | split ] ].
  - intros H; rewrite H; reflexivity.
  - intros Hrc.
    destruct (existsb strchrIllegal aName) eqn:He.
    + clear He; induction aName as [ | c r IH ]; [ reflexivity | ].
      cbn [flat_map]; rewrite forallb_app, IH, andb_true_r; unfold replacement at 1.
      destruct (strchrIllegal c) eqn:Hc; [ | cbn [forallb]; unfold legal; rewrite Hc; reflexivity ].
      destruct (Z.eqb_spec aReplaceChar 0) as [ E | E ]; cbn [negb].
      * apply percentHex_legal.
      * destruct Hrc as [ Hrc | Hrc ]; [ contradiction | ].
        cbn [forallb]; rewrite Hrc; reflexivity.
    + clear Hrc; induction aName as [ | c r IH ]; [ reflexivity | ].
      cbn [existsb] in He; apply orb_false_iff in He; destruct He as [Hc Hr].
      cbn [forallb]; unfold legal at 1; rewrite Hc, (IH Hr); reflexivity.
  - intros Hrc; destruct (existsb strchrIllegal aName); [ | reflexivity ].
    induction aName as [ | c r IH ]; [ reflexivity | ].
    cbn [flat_map]; rewrite length_app, IH; unfold replacement at 1.
    destruct (strchrIllegal c); [ | reflexivity ].
    destruct (Z.eqb_spec aReplaceChar 0); [ contradiction | reflexivity ].
Qed.

Lemma replace_illegal_chars_witness :
  ReplaceIllegalFileNameChars (lit "a/b:c") 95 = (true, lit "a_b_c")
  /\ ReplaceIllegalFileNameChars (lit "a/b:c") 0 = (true, lit "a%2fb%3ac")
  /\ ReplaceIllegalFileNameChars (lit "abc") 95 = (false, lit "abc")
  /\ forallb legal (snd (ReplaceIllegalFileNameChars (lit "a/b:c") 95)) = true.
Proof.
  split; [ reflexivity | split; [ reflexivity | split; [ reflexivity | ] ] ].
  destruct (replace_illegal_chars (lit "a/b:c") 95) as (_ & _ & H & _).
  apply H; right; reflexivity.
Defined.

(** The pieces put together again, the splitter between them. *)
Fixpoint join (aSplitter : ascii) (pieces : list (list ascii)) : list ascii :=
  match pieces with
  | [] => []
  | p :: r => match r with
              | [] => p
              | _ => p ++ aSplitter :: join aSplitter r
              end
  end.

Fixpoint endsWith (aSplitter : ascii) (s : list ascii) : bool :=
  match s with
  | [] => false
  | c :: r => match r with
              | [] => Ascii.eqb c aSplitter
              | _ => endsWith aSplitter r
              end
  end.

Definition free (aSplitter : ascii) (p : list ascii) : bool :=
  negb (existsb (fun c => Ascii.eqb c aSplitter) p).

Lemma join_cons (aSplitter : ascii) (p : list ascii) (l : list (list ascii)) :
  l <> [] -> join aSplitter (p :: l) = p ++ aSplitter :: join aSplitter l.
Proof. destruct l; [ congruence | reflexivity ]. Qed.

Lemma endsWith_cons (aSplitter c : ascii) (r : list ascii) :
  r <> [] -> endsWith aSplitter (c :: r) = endsWith aSplitter r.
Proof. destruct r; [ congruence | reflexivity ]. Qed.

Lemma endsWith_app (aSplitter : ascii) (t r : list ascii) :
  r <> [] -> endsWith aSplitter (t ++ r) = endsWith aSplitter r.
Proof.
  intros Hr; induction t as [ | c t IH ]; [ reflexivity | ].
  cbn [app endsWith]; destruct (t ++ r) eqn:E; [ | exact IH ].
  destruct t; [ simpl in E; congruence | discriminate E ].
Qed.

Lemma endsWith_free (aSplitter : ascii) (t : list ascii) :
  free aSplitter t = true -> endsWith aSplitter t = false.
Proof.
  unfold free; induction t as [ | c t IH ]; intros H; [ reflexivity | ].
  cbn [existsb] in H; apply negb_true_iff, orb_false_iff in H; destruct H as [Hc Ht].
  cbn [endsWith]; destruct t; [ exact Hc | apply IH, negb_true_iff; exact Ht ].
Qed.

Lemma free_snoc (aSplitter c : ascii) (t : list ascii) :
  free aSplitter t = true -> Ascii.eqb c aSplitter = false ->
  free aSplitter (t ++ [c]) = true.
Proof.
  unfold free; intros Ht Hc; rewrite existsb_app; cbn [existsb].
  apply negb_true_iff in Ht; rewrite Ht, Hc; reflexivity.
Qed.

Lemma splitLoop_nonempty (aSplitter : ascii) (r : list ascii) :
  forall tmp, tmp <> [] -> splitLoop aSplitter tmp r <> [].
Proof.
  induction r as [ | c r IH ]; intros tmp Htmp; cbn [splitLoop].
  - destruct tmp; [ congruence | discriminate ].
  - destruct (Ascii.eqb c aSplitter); [ discriminate | ].
    apply IH; destruct tmp; discriminate.
Qed.

Lemma splitLoop_nil (aSplitter : ascii) (r : list ascii) :
  splitLoop aSplitter [] r = [] -> r = [].
Proof.
  destruct r as [ | c r ]; [ reflexivity | ].
  cbn [splitLoop]; destruct (Ascii.eqb c aSplitter); [ discriminate | ].
  intros H; exfalso; revert H; apply splitLoop_nonempty; discriminate.
Qed.

Lemma splitLoop_join (aSplitter : ascii) (aText : list ascii) :
  forall tmp,
    free aSplitter tmp = true ->
    join aSplitter (splitLoop aSplitter tmp aText)
      ++ (if endsWith aSplitter (tmp ++ aText) then [aSplitter] else [])
    = tmp ++ aText.
Proof.
  induction aText as [ | c r IH ]; intros tmp Htmp.
  - rewrite app_nil_r, (endsWith_free _ _ Htmp), app_nil_r.
    destruct tmp; reflexivity.
  - cbn [splitLoop]; destruct (Ascii.eqb_spec c aSplitter) as [ -> | Hc ].
    + specialize (IH [] eq_refl); cbn [app] in IH.
      rewrite endsWith_app by discriminate.
      destruct (splitLoop aSplitter [] r) as [ | p l ] eqn:E.
      * apply splitLoop_nil in E; subst r; cbn [join endsWith].
        rewrite Ascii.eqb_refl; reflexivity.
      * assert (Hr : r <> []) by (intros ->; discriminate E).
        rewrite (join_cons aSplitter tmp (p :: l)) by discriminate.
        rewrite (endsWith_cons aSplitter aSplitter r Hr).
        rewrite <- app_assoc; cbn [app]; rewrite IH; reflexivity.
    + apply Ascii.eqb_neq in Hc.
      specialize (IH (tmp ++ [c]) (free_snoc _ _ _ Htmp Hc)).
      rewrite <- app_assoc in IH; exact IH.
Qed.

Lemma splitLoop_free (aSplitter : ascii) (aText : list ascii) :
  forall tmp,
    free aSplitter tmp = true ->
    forallb (free aSplitter) (splitLoop aSplitter tmp aText) = true.
Proof.
  induction aText as [ | c r IH ]; intros tmp Htmp; cbn [splitLoop].
  - destruct tmp; [ reflexivity | cbn [forallb]; rewrite Htmp; reflexivity ].
  - destruct (Ascii.eqb c aSplitter) eqn:Hc.
    + cbn [forallb]; rewrite Htmp, (IH [] eq_refl); reflexivity.
    + apply IH, free_snoc; assumption.
Qed.

(** [wxStringSplit] keeps the strings it is given and adds the pieces of the
    text: no piece holds the splitter, and the pieces joined by the splitter
    give the text back, but for one splitter at the very end of the text,
    which leaves no piece. *)
Theorem split_then_join (aText : list ascii) (aStrings : list (list ascii))
    (aSplitter : ascii) :
  exists pieces,
    wxStringSplit aText aStrings aSplitter = aStrings ++ pieces
    /\ forallb (free aSplitter) pieces = true
    /\ join aSplitter pieces ++ (if endsWith aSplitter aText then [aSplitter] else [])
       = aText.
Proof.
  exists (splitLoop aSplitter [] aText); split; [ reflexivity | split ].
  - apply splitLoop_free; reflexivity.
  - exact (splitLoop_join aSplitter aText [] eq_refl).
Qed.

(** An empty piece in the middle is kept, one at the end is not. *)
Example split_edges :
  wxStringSplit (lit "a,,b,") [] ","%char = [lit "a"; []; lit "b"]
  /\ wxStringSplit (lit ",") [] ","%char = [[]]
  /\ wxStringSplit [] [] ","%char = [].
Proof. repeat split. Qed.

End FileNameFacts.

(** ** String helpers: [SplitString] *)

Module SplitFacts.

Import KicadString.

Lemma scanDown_cases (stop : ascii -> bool) (s : list ascii) (n : nat) :
  (scanDown stop s n = -1
   /\ forall i, (i < n)%nat -> stop (charAt s i) = false)
  \/ (exists k, scanDown stop s n = Z.of_nat k
                /\ (k < n)%nat
                /\ stop (charAt s k) = true
                /\ forall i, (k < i < n)%nat -> stop (charAt s i) = false).
Proof.
  induction n as [ | n IH ]; cbn [scanDown].
  - left; split; [ reflexivity | intros i Hi; lia ].
  - destruct (stop (charAt s n)) eqn:E.
    + right; exists n.
      split; [ reflexivity | split; [ lia | split; [ exact E | intros i Hi; lia ] ] ].
    + destruct IH as [ [H0 Hall] | (k & Hk & Hlt & Hs & Hall) ].
      * left; split; [ exact H0 | ].
        intros i Hi; destruct (Nat.eq_dec i n) as [ -> | ]; [ exact E | apply Hall; lia ].
      * right; exists k.
        split; [ exact Hk | split; [ lia | split; [ exact Hs | ] ] ].
        intros i Hi; destruct (Nat.eq_dec i n) as [ -> | ]; [ exact E | apply Hall; lia ].
Qed.

Lemma range_forallb (P : ascii -> bool) (s : list ascii) :
  forall k m,
    (forall i, (k <= i < k + m)%nat -> (i < List.length s)%nat -> P (charAt s i) = true) ->
    forallb P (firstn m (skipn k s)) = true.
Proof.
  unfold charAt; induction s as [ | a s IH ]; intros k m H.
  - rewrite skipn_nil, firstn_nil; reflexivity.
  - destruct k as [ | k ].
    + cbn [skipn]; destruct m as [ | m ]; [ reflexivity | ].
      pose proof (H 0%nat ltac:(lia) ltac:(simpl; lia)) as H0; cbn [nth] in H0.
      cbn [firstn forallb]; rewrite H0; cbn [andb].
      change s with (skipn 0 s) at 1; apply IH.
      intros i Hi Hlen; apply (H (S i)); simpl; lia.
    + cbn [skipn]; apply IH.
      intros i Hi Hlen; apply (H (S i)); simpl; lia.
Qed.

Lemma tail_forallb (P : ascii -> bool) (s : list ascii) (k : nat) :
  (forall i, (k <= i < List.length s)%nat -> P (charAt s i) = true) ->
  forallb P (skipn k s) = true.
Proof.
  intros H; rewrite <- (firstn_all2 (n := List.length s) (skipn k s))
    by (rewrite length_skipn; lia).
  apply range_forallb; intros i Hi Hlen; apply H; lia.
Qed.

Lemma none_stops (stop : ascii -> bool) (s : list ascii) :
  (forall i, (i < List.length s)%nat -> stop (charAt s i) = false) ->
  existsb stop s = false.
Proof.
  unfold charAt; induction s as [ | a s IH ]; intros H; [ reflexivity | ].
  pose proof (H 0%nat ltac:(simpl; lia)) as H0; cbn [nth] in H0.
  cbn [existsb]; rewrite H0; cbn [orb].
  apply IH; intros i Hi; apply (H (S i)); simpl; lia.
Qed.

Lemma one_stops (stop : ascii -> bool) (s : list ascii) (k : nat) :
  (k < List.length s)%nat -> stop (charAt s k) = true -> existsb stop s = true.
Proof.
  intros Hk Hs; apply existsb_exists; exists (charAt s k); split; [ | exact Hs ].
  apply nth_In; exact Hk.
Qed.

Lemma three_parts (s : list ascii) (a b : nat) :
  firstn a s ++ firstn b (skipn a s) ++ skipn (a + b) s = s.
Proof.
  rewrite (Nat.add_comm a b), <- skipn_skipn, firstn_skipn, firstn_skipn; reflexivity.
Qed.

Definition numeric (c : ascii) : bool := isdigit c || isSeparator c.

(** [SplitString] cuts the text in three parts that follow one another: the
    end holds no digit, the middle holds digits and separators only, and
    the middle is empty exactly when the text holds no digit, in which case
    the whole text is the beginning. *)
Theorem split_string_parts (strToSplit : list ascii) :
  let strBeginning := fst (fst (SplitString strToSplit)) in
  let strDigits := snd (fst (SplitString strToSplit)) in
  let strEnd := snd (SplitString strToSplit) in
  strBeginning ++ strDigits ++ strEnd = strToSplit
  /\ forallb (fun c => negb (isdigit c)) strEnd = true
  /\ forallb numeric strDigits = true
  /\ (existsb isdigit strToSplit = false ->
      strBeginning = strToSplit /\ strDigits = [] /\ strEnd = [])
  /\ (existsb isdigit strToSplit = true -> strDigits <> []).
Proof.
  unfold SplitString; destruct strToSplit as [ | c0 r0 ] eqn:Es;
    [ cbn; repeat split; try reflexivity; discriminate | ].
  rewrite <- Es; clear Es c0 r0; set (s := strToSplit).
  destruct (scanDown_cases isdigit s (List.length s))
    as [ [H0 Hall] | (k1 & Hk1 & Hlt1 & Hd1 & Hafter) ].
  - rewrite H0; cbn [Z.ltb Z.compare fst snd app].
    rewrite app_nil_r; repeat split; try reflexivity.
    intros He; rewrite (none_stops isdigit s Hall) in He; discriminate.
  - rewrite Hk1.
    replace (Z.of_nat k1 <? 0) with false by (symmetry; apply Z.ltb_ge; lia).
    replace (Z.to_nat (Z.of_nat k1 + 1)) with (S k1) by lia.
    assert (Hend : forallb (fun c => negb (isdigit c)) (substrFrom s (S k1)) = true).
    { apply tail_forallb; intros i Hi; rewrite Hafter by lia; reflexivity. }
    assert (Hsome : existsb isdigit s = true) by (apply (one_stops isdigit s k1); assumption).
    destruct (scanDown_cases (fun c => negb (isdigit c) && negb (isSeparator c)) s (S k1))
      as [ [H2 Hall2] | (k2 & Hk2 & Hlt2 & Hs2 & Hbetween) ].
    + rewrite H2; cbn [Z.ltb Z.compare fst snd app]; unfold substr, substrFrom in *.
      cbn [skipn]; split; [ apply firstn_skipn | split; [ exact Hend | split; [ | split ] ] ].
      * change s with (skipn 0 s) at 1; apply range_forallb; intros i Hi Hlen.
        specialize (Hall2 i ltac:(lia)); unfold numeric.
        destruct (isdigit (charAt s i)), (isSeparator (charAt s i)); try reflexivity;
          discriminate Hall2.
      * intros He; rewrite Hsome in He; discriminate.
      * intros _ Hnil; apply (f_equal (@List.length ascii)) in Hnil.
        rewrite length_firstn in Hnil; cbn [List.length] in Hnil; lia.
    + rewrite Hk2.
      replace (Z.of_nat k2 <? 0) with false by (symmetry; apply Z.ltb_ge; lia).
      assert (Hne : k2 <> k1).
      { intros ->; rewrite Hd1 in Hs2; discriminate Hs2. }
      replace (Z.to_nat (Z.of_nat k2 + 1)) with (S k2) by lia.
      replace (Z.to_nat (Z.of_nat k1 + 1 - Z.of_nat k2 - 1)) with (k1 - k2)%nat by lia.
      cbn [fst snd]; unfold substr, substrFrom in *; change (skipn 0 s) with s.
      split; [ | split; [ exact Hend | split; [ | split ] ] ].
      * replace (S k1) with (S k2 + (k1 - k2))%nat by lia.
        apply three_parts.
      * apply range_forallb; intros i Hi Hlen.
        specialize (Hbetween i ltac:(lia)); unfold numeric.
        destruct (isdigit (charAt s i)), (isSeparator (charAt s i)); try reflexivity;
          discriminate Hbetween.
      * intros He; rewrite Hsome in He; discriminate.
      * intros _ Hnil; apply (f_equal (@List.length ascii)) in Hnil.
        rewrite length_firstn, length_skipn in Hnil; cbn [List.length] in Hnil; lia.
Qed.

Lemma split_string_parts_witness :
  SplitString (lit "R12.5k") = (lit "R", lit "12.5", lit "k")
  /\ SplitString (lit "abc") = (lit "abc", [], [])
  /\ (existsb isdigit (lit "abc") = false ->
      fst (fst (SplitString (lit "abc"))) = lit "abc"
      /\ snd (fst (SplitString (lit "abc"))) = []
      /\ snd (SplitString (lit "abc")) = []).
Proof.
  split; [ reflexivity | split; [ reflexivity | ] ].
  destruct (split_string_parts (lit "abc")) as (_ & _ & _ & H & _); exact H.
Defined.

End SplitFacts.

(** ** String helpers: [GetTrailingInt] and [EscapeHTML] *)

Module TrailingFacts.

Import KicadString.

(** The number a run of decimal digits denotes. *)
Definition decimal (ds : list ascii) : Z :=
  fold_left (fun a d => 10 * a + digitValue d) ds 0.

Lemma decimal_snoc (ds : list ascii) (d : ascii) :
  decimal (ds ++ [d]) = 10 * decimal ds + digitValue d.
Proof. unfold decimal; rewrite fold_left_app; reflexivity. Qed.

Lemma digitValue_range (d : ascii) : isdigit d = true -> 0 <= digitValue d <= 9.
Proof.
  unfold isdigit, digitValue; intros H; apply andb_true_iff in H; destruct H as [Hl Hu].
  apply N.leb_le in Hl, Hu; lia.
Qed.

Lemma wrap32_small (z : Z) : 0 <= z < 2 ^ 31 -> wrap32 z = z.
Proof. intros H; unfold wrap32; rewrite Z.mod_small; lia. Qed.

Lemma charAt_middle (p ds suffix : list ascii) (d : ascii) :
  charAt (p ++ ds ++ d :: suffix) (List.length p + List.length ds) = d.
Proof.
  unfold charAt; rewrite app_nth2_plus.
  replace (List.length ds) with (List.length ds + 0)%nat by lia.
  rewrite app_nth2_plus; reflexivity.
Qed.

(** The loop over a run of digits that does not overflow. *)
Lemma trailingLoop_digits (p : list ascii) (ds : list ascii) :
  forall suffix number base,
    forallb isdigit ds = true ->
    0 <= number < base ->
    base * 10 ^ Z.of_nat (List.length ds) < 2 ^ 31 ->
    trailingLoop (p ++ ds ++ suffix) (List.length p + List.length ds) number base
    = trailingLoop (p ++ ds ++ suffix) (List.length p)
                   (number + decimal ds * base)
                   (base * 10 ^ Z.of_nat (List.length ds)).
Proof.
  induction ds as [ | d ds IH ] using rev_ind; intros suffix number base Hd Hn Hb.
  - cbn [List.length app]; rewrite Nat.add_0_r; f_equal; unfold decimal; simpl; lia.
  - rewrite forallb_app in Hd; apply andb_true_iff in Hd; destruct Hd as [Hds Hd1].
    cbn [forallb] in Hd1; rewrite andb_true_r in Hd1.
    pose proof (digitValue_range d Hd1) as Hv.
    rewrite length_app in *; cbn [List.length] in *.
    replace (Z.of_nat (List.length ds + 1)) with (Z.of_nat (List.length ds) + 1) in * by lia.
    rewrite Z.pow_add_r in * by lia; change (10 ^ 1) with 10 in *.
    assert (Hpow : 1 <= 10 ^ Z.of_nat (List.length ds))
      by (pose proof (Z.pow_pos_nonneg 10 (Z.of_nat (List.length ds))); lia).
    rewrite <- app_assoc; cbn [app].
    replace (List.length p + (List.length ds + 1))%nat
      with (S (List.length p + List.length ds)) by lia.
    cbn [trailingLoop]; rewrite charAt_middle, Hd1; cbn [negb].
    set (P := 10 ^ Z.of_nat (List.length ds)) in *.
    change (2 ^ 31) with 2147483648 in *.
    assert (H10 : base * 10 <= base * (P * 10)) by nia.
    assert (Hvb : 0 <= digitValue d * base <= 9 * base) by nia.
    rewrite (wrap32_small (digitValue d * base)) by (change (2 ^ 31) with 2147483648; lia).
    rewrite (wrap32_small (number + digitValue d * base))
      by (change (2 ^ 31) with 2147483648; lia).
    rewrite (wrap32_small (base * 10)) by (change (2 ^ 31) with 2147483648; lia).
    rewrite IH by (try assumption; change (2 ^ 31) with 2147483648; fold P; lia).
    fold P; f_equal; rewrite ?decimal_snoc; ring.
Qed.

Lemma decimal_bound (ds : list ascii) :
  forallb isdigit ds = true -> 0 <= decimal ds < 10 ^ Z.of_nat (List.length ds).
Proof.
  induction ds as [ | d ds IH ] using rev_ind; intros H; [ simpl; unfold decimal; simpl; lia | ].
  rewrite forallb_app in H; apply andb_true_iff in H; destruct H as [Hds Hd].
  cbn [forallb] in Hd; rewrite andb_true_r in Hd.
  pose proof (digitValue_range d Hd); specialize (IH Hds).
  rewrite decimal_snoc, length_app; cbn [List.length].
  replace (Z.of_nat (List.length ds + 1)) with (Z.of_nat (List.length ds) + 1) by lia.
  rewrite Z.pow_add_r by lia; change (10 ^ 1) with 10; lia.
Qed.

(** [GetTrailingInt] returns the number written by the digits at the end
    of the text, for a run of at most nine digits (a longer one overflows
    [int]); it is 0 when the text does not end with a digit. *)
Theorem trailing_int_is_decimal (prefix digits : list ascii) :
  isdigit (charAt prefix (Nat.pred (List.length prefix))) = false ->
  forallb isdigit digits = true ->
  (List.length digits <= 9)%nat ->
  GetTrailingInt (prefix ++ digits) = decimal digits.
Proof.
  intros Hp Hd Hlen; unfold GetTrailingInt.
  rewrite <- (app_nil_r digits) at 1 2; rewrite length_app, length_app; cbn [List.length].
  rewrite Nat.add_0_r, trailingLoop_digits; try assumption; try lia.
  - rewrite app_nil_r.
    destruct (List.length prefix) as [ | n ] eqn:E; cbn [trailingLoop]; [ lia | ].
    replace (charAt (prefix ++ digits) n) with (charAt prefix n).
    + cbn [Nat.pred] in Hp; rewrite Hp; cbn [negb]; lia.
    + unfold charAt; rewrite app_nth1 by lia; reflexivity.
  - assert (10 ^ Z.of_nat (List.length digits) <= 10 ^ 9)
      by (apply Z.pow_le_mono_r; lia).
    change (10 ^ 9) with 1000000000 in *; change (2 ^ 31) with 2147483648; lia.
Qed.

Lemma trailing_int_is_decimal_witness :
  isdigit (charAt (lit "R") 0) = false
  /\ GetTrailingInt (lit "R" ++ lit "0470") = 470
  /\ GetTrailingInt (lit "GND" ++ []) = 0.
Proof.
  split; [ reflexivity | split ].
  - exact (trailing_int_is_decimal (lit "R") (lit "0470") eq_refl eq_refl ltac:(simpl; lia)).
  - exact (trailing_int_is_decimal (lit "GND") [] eq_refl eq_refl ltac:(simpl; lia)).
Defined.

Definition isMarkup (c : ascii) : bool :=
  Ascii.eqb c DBLQUOTE || Ascii.eqb c "'" || Ascii.eqb c "<" || Ascii.eqb c ">".

(** What [EscapeHTML] returns holds no quote, apostrophe or angle bracket,
    and a text without these and without an ampersand is returned as it
    is. *)
Theorem escaped_html_has_no_markup (aString : list ascii) :
  forallb (fun c => negb (isMarkup c)) (EscapeHTML aString) = true
  /\ (existsb (fun c => isMarkup c || Ascii.eqb c "&") aString = false ->
      EscapeHTML aString = aString).
Proof.
  unfold EscapeHTML, isMarkup, DBLQUOTE; split.
  - induction aString as [ | c r IH ]; [ reflexivity | ].
    cbn [flat_map]; rewrite forallb_app, IH, andb_true_r.
    EscapeFacts.split_chars c; try reflexivity.
    cbn [forallb].
    repeat match goal with
           | H : c <> ?k |- _ => apply Ascii.eqb_neq in H; rewrite ?H; clear H
           end.
    reflexivity.
  - induction aString as [ | c r IH ]; intros H; [ reflexivity | ].
    cbn [existsb] in H; apply orb_false_iff in H; destruct H as [Hc Hr].
    cbn [flat_map]; rewrite (IH Hr).
    repeat (apply orb_false_iff in Hc; destruct Hc as [Hc ?]).
    repeat match goal with H : Ascii.eqb c _ = false |- _ => rewrite H; clear H end.
    reflexivity.
Qed.

Lemma escaped_html_has_no_markup_witness :
  existsb (fun c => isMarkup c || Ascii.eqb c "&") (lit "R1 = 10k") = false
  /\ EscapeHTML (lit "R1 = 10k") = lit "R1 = 10k"
  /\ forallb (fun c => negb (isMarkup c)) (EscapeHTML (lit "<b>R&D</b>")) = true.
Proof.
  split; [ reflexivity | split ].
  - apply (proj2 (escaped_html_has_no_markup (lit "R1 = 10k"))); reflexivity.
  - exact (proj1 (escaped_html_has_no_markup (lit "<b>R&D</b>"))).
Defined.

End TrailingFacts.

(** ** String helpers: [StripTrailingZeros] and [StrPurge] *)

Module TrimFacts.

Import KicadString.

Definition isZero (c : ascii) : bool := Ascii.eqb c "0".

(** The loop removes zeros only, stops at [min_len] characters and removes
    every zero it may. *)
Lemma stripZeros_spec (min_len : Z) (reversed : list ascii) :
  0 <= min_len ->
  exists zeros,
    reversed = zeros ++ stripZeros min_len reversed
    /\ forallb isZero zeros = true
    /\ Z.min (Z.of_nat (List.length reversed)) min_len
       <= Z.of_nat (List.length (stripZeros min_len reversed))
    /\ (Z.of_nat (List.length (stripZeros min_len reversed)) <= min_len
        \/ exists c t, stripZeros min_len reversed = c :: t /\ isZero c = false).
Proof.
  intros Hmin0; induction reversed as [ | c r IH ].
  - exists []; cbn [stripZeros List.length app forallb].
    split; [ reflexivity | split; [ reflexivity | split; [ lia | left; lia ] ] ].
  - cbn [stripZeros].
    destruct (Z.gtb_spec (Z.of_nat (List.length (c :: r))) min_len) as [ Hgt | Hle ].
    + destruct (Ascii.eqb c "0") eqn:Hc.
      * destruct IH as (zeros & Heq & Hz & Hmin & Hmax).
        exists (c :: zeros); cbn [app forallb]; unfold isZero at 1; rewrite Hc.
        split; [ f_equal; exact Heq | split; [ exact Hz | split; [ | exact Hmax ] ] ].
        cbn [List.length] in *; lia.
      * exists []; cbn [app forallb].
        split; [ reflexivity | split; [ reflexivity | split; [ lia | ] ] ].
        right; exists c, r; split; [ reflexivity | exact Hc ].
    + exists []; cbn [app forallb].
      split; [ reflexivity | split; [ reflexivity | split; [ lia | left; lia ] ] ].
Qed.

Lemma forallb_rev (P : ascii -> bool) (l : list ascii) :
  forallb P l = true -> forallb P (rev l) = true.
Proof.
  intros H; apply forallb_forall; intros x Hx; apply in_rev in Hx.
  rewrite forallb_forall in H; exact (H x Hx).
Qed.

Lemma findFrom_range (sep : ascii) (s : list ascii) :
  forall i, findFrom sep s i = -1 \/ i <= findFrom sep s i < i + Z.of_nat (List.length s).
Proof.
  induction s as [ | c r IH ]; intros i; cbn [findFrom List.length]; [ left; reflexivity | ].
  destruct (Ascii.eqb c sep); [ right; lia | ].
  destruct (IH (i + 1)) as [ H | H ]; [ left; exact H | right; lia ].
Qed.

(** The number of leading characters [StripTrailingZeros] protects: the
    separator and the digits allowed after it when the separator is found
    past the first character; everything when the text starts with the
    separator; and, when there is no separator, only as many characters as
    digits are allowed (the position [wxNOT_FOUND] wraps around as an
    [unsigned]). *)
Definition kept (sep : ascii) (aStringValue : list ascii) (aTrailingZeroAllowed : Z) : Z :=
  let pos := Find aStringValue sep in
  if pos =? 0 then Z.of_nat (List.length aStringValue)
  else if pos <? 0 then aTrailingZeroAllowed
  else pos + aTrailingZeroAllowed + 1.

(** [StripTrailingZeros] removes zeros from the end of the text, as many as
    it can without touching the protected characters. *)
Theorem strip_trailing_zeros (sep : ascii) (aStringValue : list ascii)
    (aTrailingZeroAllowed : Z) :
  0 <= aTrailingZeroAllowed ->
  Z.of_nat (List.length aStringValue) + aTrailingZeroAllowed + 1 < 2 ^ 32 ->
  let result := StripTrailingZeros sep aStringValue aTrailingZeroAllowed in
  let keep := kept sep aStringValue aTrailingZeroAllowed in
  exists zeros,
    aStringValue = result ++ zeros
    /\ forallb isZero zeros = true
    /\ Z.min (Z.of_nat (List.length aStringValue)) keep <= Z.of_nat (List.length result)
    /\ (Z.of_nat (List.length result) <= keep
        \/ exists body c, result = body ++ [c] /\ isZero c = false).
Proof.
  intros Hallowed Hsmall; unfold StripTrailingZeros, kept, Find, wrapU32 in *.
  change (2 ^ 32) with 4294967296 in *.
  destruct (findFrom_range sep aStringValue 0) as [ Hnone | Hpos ].
  - rewrite Hnone; change (-1 mod 4294967296) with 4294967295.
    cbn [Z.gtb Z.compare Z.eqb Z.ltb].
    replace ((4294967295 + aTrailingZeroAllowed + 1) mod 4294967296)
      with aTrailingZeroAllowed
      by (replace (4294967295 + aTrailingZeroAllowed + 1)
            with (aTrailingZeroAllowed + 1 * 4294967296) by lia;
          rewrite Z.mod_add, Z.mod_small; lia).
    destruct (stripZeros_spec aTrailingZeroAllowed (rev aStringValue) Hallowed)
      as (zeros & Heq & Hz & Hmin & Hmax).
    exists (rev zeros); rewrite length_rev in *.
    split; [ rewrite <- rev_app_distr, <- Heq, rev_involutive; reflexivity | ].
    split; [ apply forallb_rev; exact Hz | split; [ exact Hmin | ] ].
    destruct Hmax as [ Hmax | (c & t & Hc & Hnz) ]; [ left; exact Hmax | right ].
    exists (rev t), c; rewrite Hc; split; [ reflexivity | exact Hnz ].
  - set (pos := findFrom sep aStringValue 0) in *.
    rewrite (Z.mod_small pos) by lia.
    destruct (Z.eqb_spec pos 0) as [ E | E ].
    + rewrite E; cbn [Z.gtb Z.compare].
      exists []; rewrite app_nil_r; repeat split; try lia.
    + replace (pos >? 0) with true by (symmetry; apply Z.gtb_lt; lia).
      replace (pos <? 0) with false by (symmetry; apply Z.ltb_ge; lia).
      rewrite (Z.mod_small (pos + aTrailingZeroAllowed + 1)) by lia.
      destruct (stripZeros_spec (pos + aTrailingZeroAllowed + 1) (rev aStringValue)
                                ltac:(lia))
        as (zeros & Heq & Hz & Hmin & Hmax).
      exists (rev zeros); rewrite length_rev in *.
      split; [ rewrite <- rev_app_distr, <- Heq, rev_involutive; reflexivity | ].
      split; [ apply forallb_rev; exact Hz | split; [ exact Hmin | ] ].
      destruct Hmax as [ Hmax | (c & t & Hc & Hnz) ]; [ left; exact Hmax | right ].
      exists (rev t), c; rewrite Hc; split; [ reflexivity | exact Hnz ].
Qed.

Lemma strip_trailing_zeros_witness :
  StripTrailingZeros "."%char (lit "12.000") 1 = lit "12.0"
  /\ StripTrailingZeros "."%char (lit "100") 1 = lit "1"
  /\ StripTrailingZeros "."%char (lit ".500") 1 = lit ".500"
  /\ exists zeros,
       lit "100" = StripTrailingZeros "."%char (lit "100") 1 ++ zeros
       /\ forallb isZero zeros = true.
Proof.
  split; [ reflexivity | split; [ reflexivity | split; [ reflexivity | ] ] ].
  destruct (strip_trailing_zeros "."%char (lit "100") 1 ltac:(lia) ltac:(simpl; lia))
    as (zeros & Heq & Hz & _).
  exists zeros; split; assumption.
Defined.

Lemma skipWhitespace_spec (text : list ascii) :
  exists lead,
    text = lead ++ skipWhitespace text
    /\ forallb isWhitespace lead = true
    /\ match skipWhitespace text with
       | c :: _ => isWhitespace c = false
       | [] => True
       end.
Proof.
  induction text as [ | c r IH ]; [ exists []; repeat split | ].
  cbn [skipWhitespace]; destruct (isWhitespace c) eqn:Hc.
  - destruct IH as (lead & Heq & Hl & Hhead).
    exists (c :: lead); cbn [app forallb]; rewrite Hc, Hl.
    split; [ f_equal; exact Heq | split; [ reflexivity | exact Hhead ] ].
  - exists []; split; [ reflexivity | split; [ reflexivity | exact Hc ] ].
Qed.

Lemma skipWhitespace_id (text : list ascii) :
  match text with c :: _ => isWhitespace c = false | [] => True end ->
  skipWhitespace text = text.
Proof. destruct text as [ | c r ]; [ reflexivity | ]; cbn [skipWhitespace]; intros ->; reflexivity. Qed.

(** The first character, if any, is not whitespace. *)
Definition startsClean (text : list ascii) : Prop :=
  match text with
  | c :: _ => isWhitespace c = false
  | [] => True
  end.

(** [StrPurge] returns the text without the whitespace at its two ends, and
    the null pointer for the null pointer: the text is the result between
    two runs of whitespace, and the result neither starts nor ends with
    whitespace. *)
Theorem purge_trims_both_ends (text : list ascii) :
  StrPurge None = None
  /\ exists lead purged trail,
       StrPurge (Some text) = Some purged
       /\ text = lead ++ purged ++ trail
       /\ forallb isWhitespace lead = true
       /\ forallb isWhitespace trail = true
       /\ startsClean purged
       /\ startsClean (rev purged)
       /\ StrPurge (Some purged) = Some purged.
Proof.
  split; [ reflexivity | ]; unfold StrPurge.
  destruct (skipWhitespace_spec text) as (lead & Hlead & Hl & Hhead).
  set (u := skipWhitespace text) in *.
  destruct (skipWhitespace_spec (rev u)) as (trail & Htrail & Ht & Hlast).
  set (v := skipWhitespace (rev u)) in *.
  assert (Hu : u = rev v ++ rev trail)
    by (rewrite <- rev_app_distr, <- Htrail, rev_involutive; reflexivity).
  assert (Hclean : startsClean (rev v)).
  { unfold startsClean; destruct (rev v) as [ | c r ] eqn:E; [ exact I | ].
    rewrite Hu in Hhead; cbn [app] in Hhead; exact Hhead. }
  exists lead, (rev v), (rev trail).
  split; [ reflexivity | split; [ rewrite <- Hu; exact Hlead | ] ].
  split; [ exact Hl | split; [ apply TrimFacts.forallb_rev; exact Ht | ] ].
  split; [ exact Hclean | ].
  rewrite rev_involutive; split; [ exact Hlast | ].
  rewrite (skipWhitespace_id (rev v) Hclean), rev_involutive.
  rewrite (skipWhitespace_id v Hlast); reflexivity.
Qed.

Example purge_edges :
  StrPurge (Some (lit "  a b  ")) = Some (lit "a b")
  /\ StrPurge (Some (lit "   ")) = Some []
  /\ StrPurge (Some []) = Some [].
Proof. repeat split. Qed.

End TrimFacts.

(** ** String helpers: [StrNumCmp] *)

Module CompareFacts.

Import KicadString.

Lemma compareChars_antisym (aIgnoreCase : bool) (c1 c2 : ascii) :
  compareChars aIgnoreCase c2 c1 = CompOpp (compareChars aIgnoreCase c1 c2).
Proof. unfold compareChars; destruct aIgnoreCase; apply Z.compare_antisym. Qed.

Lemma compareChars_refl (aIgnoreCase : bool) (c : ascii) :
  compareChars aIgnoreCase c c = Eq.
Proof. unfold compareChars; destruct aIgnoreCase; apply Z.compare_refl. Qed.

(** Swapping the two texts changes the sign of the result. *)
Lemma cmpLoop_antisym (aIgnoreCase : bool) (fuel : nat) :
  forall str1 str2 r,
    cmpLoop fuel aIgnoreCase str1 str2 = Some r ->
    cmpLoop fuel aIgnoreCase str2 str1 = Some (- r).
Proof.
  induction fuel as [ | f IH ]; intros [ | c1 r1 ] [ | c2 r2 ] r H; cbn [cmpLoop] in *;
    try discriminate H; try (inversion H; reflexivity).
  rewrite (andb_comm (isdigit c2)).
  destruct (isdigit c1 && isdigit c2).
  - destruct (readNumber (c1 :: r1)) as [nb1 t1], (readNumber (c2 :: r2)) as [nb2 t2].
    destruct (Z.ltb_spec nb1 nb2) as [ Hlt | Hge ].
    + inversion H; subst r.
      destruct (Z.ltb_spec nb2 nb1); [ lia | ].
      destruct (Z.gtb_spec nb2 nb1); [ reflexivity | lia ].
    + destruct (Z.gtb_spec nb1 nb2) as [ Hgt | Hle ].
      * inversion H; subst r; destruct (Z.ltb_spec nb2 nb1); [ reflexivity | lia ].
      * destruct (Z.ltb_spec nb2 nb1); [ lia | ].
        destruct (Z.gtb_spec nb2 nb1); [ lia | ].
        rewrite (compareChars_antisym aIgnoreCase (current t1) (current t2)).
        destruct (compareChars aIgnoreCase (current t1) (current t2)); cbn [CompOpp];
          try (inversion H; reflexivity).
        apply IH; exact H.
  - rewrite (compareChars_antisym aIgnoreCase c1 c2).
    destruct (compareChars aIgnoreCase c1 c2); cbn [CompOpp];
      try (inversion H; reflexivity).
    apply IH; exact H.
Qed.

Lemma digitsLoop_length (s : list ascii) :
  forall nb, (List.length (snd (digitsLoop nb s)) <= List.length s)%nat.
Proof.
  induction s as [ | c r IH ]; intros nb; cbn [digitsLoop]; [ simpl; lia | ].
  destruct (isdigit c); [ specialize (IH (addDigit nb c)); simpl; lia | simpl; lia ].
Qed.

Lemma tl_length (s : list ascii) : (List.length (tl s) <= List.length s)%nat.
Proof. destruct s; simpl; lia. Qed.

(** The loop ends with -1, 0 or 1 once the fuel covers the shorter text. *)
Lemma cmpLoop_total (aIgnoreCase : bool) (fuel : nat) :
  forall str1 str2,
    (Nat.min (List.length str1) (List.length str2) <= fuel)%nat ->
    exists r, cmpLoop fuel aIgnoreCase str1 str2 = Some r /\ (r = -1 \/ r = 0 \/ r = 1).
Proof.
  induction fuel as [ | f IH ]; intros [ | c1 r1 ] [ | c2 r2 ] Hlen; cbn [cmpLoop];
    try (eexists; split; [ reflexivity | lia ]);
    cbn [List.length] in Hlen; try lia.
  destruct (isdigit c1 && isdigit c2).
  - cbn [readNumber].
    pose proof (digitsLoop_length r1 (addDigit 0 c1)) as H1.
    pose proof (digitsLoop_length r2 (addDigit 0 c2)) as H2.
    destruct (digitsLoop (addDigit 0 c1) r1) as [nb1 t1].
    destruct (digitsLoop (addDigit 0 c2) r2) as [nb2 t2]; cbn [snd] in H1, H2.
    destruct (nb1 <? nb2); [ eexists; split; [ reflexivity | lia ] | ].
    destruct (nb1 >? nb2); [ eexists; split; [ reflexivity | lia ] | ].
    destruct (compareChars aIgnoreCase (current t1) (current t2));
      try (eexists; split; [ reflexivity | lia ]).
    apply IH; pose proof (tl_length t1); pose proof (tl_length t2); lia.
  - destruct (compareChars aIgnoreCase c1 c2);
      try (eexists; split; [ reflexivity | lia ]).
    apply IH; lia.
Qed.

(** [StrNumCmp] returns -1, 0 or 1; swapping its arguments changes the sign
    of the result; and a text is equal to itself. *)
Theorem str_num_cmp_antisymmetric (aString1 aString2 : list ascii) (aIgnoreCase : bool) :
  exists r,
    StrNumCmp aString1 aString2 aIgnoreCase = Some r
    /\ (r = -1 \/ r = 0 \/ r = 1)
    /\ StrNumCmp aString2 aString1 aIgnoreCase = Some (- r)
    /\ StrNumCmp aString1 aString1 aIgnoreCase = Some 0.
Proof.
  unfold StrNumCmp.
  destruct (cmpLoop_total aIgnoreCase (List.length aString1 + List.length aString2)
              aString1 aString2 ltac:(lia)) as (r & Hr & Hrange).
  exists r; split; [ exact Hr | split; [ exact Hrange | split ] ].
  - rewrite Nat.add_comm; apply cmpLoop_antisym; exact Hr.
  - destruct (cmpLoop_total aIgnoreCase (List.length aString1 + List.length aString1)
                aString1 aString1 ltac:(lia)) as (r0 & Hr0 & _).
    pose proof (cmpLoop_antisym _ _ _ _ _ Hr0) as Hopp.
    rewrite Hr0 in Hopp; inversion Hopp; rewrite Hr0; f_equal; lia.
Qed.

Definition decimalFrom (nb : Z) (ds : list ascii) : Z :=
  fold_left (fun a d => 10 * a + digitValue d) ds nb.

Lemma addDigit_exact (nb : Z) (c : ascii) :
  isdigit c = true -> 0 <= nb -> (nb + 1) * 10 <= 1000000000 ->
  addDigit nb c = 10 * nb + digitValue c.
Proof.
  intros Hc Hnb Hb; pose proof (TrailingFacts.digitValue_range c Hc) as Hv.
  unfold addDigit, digitValue, code in *.
  rewrite (TrailingFacts.wrap32_small (nb * 10)) by (change (2 ^ 31) with 2147483648; lia).
  rewrite (TrailingFacts.wrap32_small (nb * 10 + _))
    by (change (2 ^ 31) with 2147483648; lia).
  rewrite TrailingFacts.wrap32_small by (change (2 ^ 31) with 2147483648; lia).
  lia.
Qed.

(** A run of digits that does not overflow is read as the number it
    writes, up to the first character that is not a digit. *)
Lemma digitsLoop_decimal (ds : list ascii) :
  forall nb rest,
    forallb isdigit ds = true ->
    isdigit (current rest) = false ->
    0 <= nb ->
    (nb + 1) * 10 ^ Z.of_nat (List.length ds) <= 1000000000 ->
    digitsLoop nb (ds ++ rest) = (decimalFrom nb ds, rest).
Proof.
  induction ds as [ | d ds IH ]; intros nb rest Hds Hrest Hnb Hb.
  - cbn [app decimalFrom fold_left]; destruct rest as [ | c r ]; [ reflexivity | ].
    cbn [digitsLoop current] in *; rewrite Hrest; reflexivity.
  - cbn [forallb] in Hds; apply andb_true_iff in Hds; destruct Hds as [Hd Hds].
    cbn [List.length] in Hb; rewrite Nat2Z.inj_succ, Z.pow_succ_r in Hb by lia.
    pose proof (Z.pow_pos_nonneg 10 (Z.of_nat (List.length ds)) ltac:(lia) ltac:(lia)) as Hp.
    pose proof (TrailingFacts.digitValue_range d Hd) as Hv.
    assert (Hstep : addDigit nb d = 10 * nb + digitValue d)
      by (apply addDigit_exact; [ exact Hd | exact Hnb | nia ]).
    cbn [app digitsLoop]; rewrite Hd, Hstep.
    rewrite IH; [ reflexivity | exact Hds | exact Hrest | lia | nia ].
Qed.

Lemma readNumber_decimal (ds rest : list ascii) :
  ds <> [] ->
  forallb isdigit ds = true ->
  isdigit (current rest) = false ->
  (List.length ds <= 9)%nat ->
  readNumber (ds ++ rest) = (TrailingFacts.decimal ds, rest).
Proof.
  intros Hne Hds Hrest Hlen; destruct ds as [ | d ds ]; [ congruence | ].
  cbn [forallb] in Hds; apply andb_true_iff in Hds; destruct Hds as [Hd Hds].
  pose proof (TrailingFacts.digitValue_range d Hd) as Hv.
  cbn [app readNumber]; rewrite (addDigit_exact 0 d Hd) by lia.
  cbn [List.length] in Hlen.
  assert (Hpow : 10 ^ Z.of_nat (List.length ds) <= 10 ^ 8) by (apply Z.pow_le_mono_r; lia).
  change (10 ^ 8) with 100000000 in Hpow.
  rewrite digitsLoop_decimal; [ reflexivity | exact Hds | exact Hrest | lia | nia ].
Qed.

(** Two texts that start alike, without digits, and go on with two numbers:
    [StrNumCmp] orders them as the numbers, whatever follows. *)
Theorem numbers_compare_by_value (prefix digits1 rest1 digits2 rest2 : list ascii)
    (aIgnoreCase : bool) :
  forallb (fun c => negb (isdigit c)) prefix = true ->
  digits1 <> [] -> forallb isdigit digits1 = true -> (List.length digits1 <= 9)%nat ->
  digits2 <> [] -> forallb isdigit digits2 = true -> (List.length digits2 <= 9)%nat ->
  isdigit (current rest1) = false ->
  isdigit (current rest2) = false ->
  TrailingFacts.decimal digits1 <> TrailingFacts.decimal digits2 ->
  StrNumCmp (prefix ++ digits1 ++ rest1) (prefix ++ digits2 ++ rest2) aIgnoreCase
  = Some (if TrailingFacts.decimal digits1 <? TrailingFacts.decimal digits2 then -1 else 1).
Proof.
  intros Hp Hne1 Hd1 Hl1 Hne2 Hd2 Hl2 Hr1 Hr2 Hneq; unfold StrNumCmp.
  rewrite !length_app.
  set (extra := (List.length digits1 + List.length rest1
                 + (List.length prefix + (List.length digits2 + List.length rest2)))%nat).
  replace (List.length prefix + (List.length digits1 + List.length rest1)
           + (List.length prefix + (List.length digits2 + List.length rest2)))%nat
    with (List.length prefix + extra)%nat by (unfold extra; lia).
  assert (Hextra : (1 <= extra)%nat)
    by (unfold extra; destruct digits1; [ congruence | simpl; lia ]).
  clearbody extra.
  induction prefix as [ | c p IH ].
  - cbn [app List.length Nat.add].
    destruct extra as [ | fuel ]; [ lia | ].
    destruct digits1 as [ | a1 t1 ] eqn:E1; [ congruence | ].
    destruct digits2 as [ | a2 t2 ] eqn:E2; [ congruence | ].
    rewrite <- E1, <- E2 in *.
    assert (Ha1 : isdigit a1 = true)
      by (rewrite E1 in Hd1; cbn [forallb] in Hd1; apply andb_true_iff in Hd1; tauto).
    assert (Ha2 : isdigit a2 = true)
      by (rewrite E2 in Hd2; cbn [forallb] in Hd2; apply andb_true_iff in Hd2; tauto).
    rewrite E1 at 1; rewrite E2 at 1; cbn [app cmpLoop]; rewrite Ha1, Ha2; cbn [andb].
    change (a1 :: t1 ++ rest1) with ((a1 :: t1) ++ rest1).
    change (a2 :: t2 ++ rest2) with ((a2 :: t2) ++ rest2).
    rewrite <- E1, <- E2.
    rewrite (readNumber_decimal digits1 rest1), (readNumber_decimal digits2 rest2)
      by assumption.
    destruct (Z.ltb_spec (TrailingFacts.decimal digits1) (TrailingFacts.decimal digits2));
      [ reflexivity | ].
    destruct (Z.gtb_spec (TrailingFacts.decimal digits1) (TrailingFacts.decimal digits2));
      [ reflexivity | lia ].
  - cbn [forallb] in Hp; apply andb_true_iff in Hp; destruct Hp as [Hc Hp].
    apply negb_true_iff in Hc.
    cbn [app List.length Nat.add cmpLoop]; rewrite Hc; cbn [andb].
    rewrite compareChars_refl; apply IH; exact Hp.
Qed.

Lemma numbers_compare_by_value_witness :
  StrNumCmp (lit "R" ++ lit "2" ++ lit "a") (lit "R" ++ lit "10" ++ lit "b") false
  = Some (-1)
  /\ StrNumCmp (lit "R10b") (lit "R2a") false = Some 1.
Proof.
  split; [ | reflexivity ].
  apply (numbers_compare_by_value (lit "R") (lit "2") (lit "a") (lit "10") (lit "b") false);
    try reflexivity; try discriminate; simpl; lia.
Defined.

End CompareFacts.

(** ** String helpers: [WildCompareString] and [ApplyModifier] *)

Module PatternFacts.

Import KicadString.

(** A pattern without wildcard. *)
Definition literal (p : list ascii) : bool :=
  forallb (fun c => negb (Ascii.eqb c "*" || Ascii.eqb c "?")) p.

(** [p] is the start of [s]. *)
Definition startsWith (s p : list ascii) : bool := text_eqb p (firstn (List.length p) s).

Definition afterPrefix (fuel : nat) (r : (list ascii * list ascii) + bool) : option bool :=
  match r with
  | inr b => Some b
  | inl (wild, str) => wildSearch fuel wild str None None
  end.

Lemma literal_cons (w : ascii) (p : list ascii) :
  literal (w :: p) = true ->
  Ascii.eqb w "*" = false /\ Ascii.eqb w "?" = false /\ literal p = true.
Proof.
  unfold literal; cbn [forallb]; intros H; apply andb_true_iff in H; destruct H as [Hw Hp].
  apply negb_true_iff, orb_false_iff in Hw; tauto.
Qed.

Lemma wildSearch_end (fuel : nat) (wild : list ascii) (mp cp : option (list ascii)) :
  wildSearch fuel wild [] mp cp = Some (wildTail wild).
Proof. destruct fuel; reflexivity. Qed.

Lemma exact_match (p : list ascii) :
  forall s fuel,
    literal p = true ->
    afterPrefix fuel (wildPrefix p s) = Some (text_eqb p s).
Proof.
  induction p as [ | w p IH ]; intros [ | c s ] fuel Hp;
    cbn [wildPrefix afterPrefix]; rewrite ?wildSearch_end; try reflexivity.
  - destruct (literal_cons _ _ Hp) as (Hstar & _ & _).
    cbn [wildTail text_eqb]; rewrite Hstar; reflexivity.
  - destruct (literal_cons _ _ Hp) as (Hstar & Hq & Hp').
    cbn [wildPrefix text_eqb]; rewrite Hstar, Hq, andb_true_r.
    destruct (Ascii.eqb w c); cbn [negb andb]; [ apply IH; exact Hp' | reflexivity ].
Qed.

Lemma prefix_match (p : list ascii) :
  forall s fuel,
    literal p = true ->
    afterPrefix (S fuel) (wildPrefix (p ++ lit "*") s) = Some (startsWith s p).
Proof.
  unfold startsWith; induction p as [ | w p IH ]; intros [ | c s ] fuel Hp;
    try reflexivity.
  - destruct (literal_cons _ _ Hp) as (Hstar & _ & _).
    cbn [app wildPrefix afterPrefix]; rewrite wildSearch_end.
    cbn [wildTail List.length firstn text_eqb]; rewrite Hstar; reflexivity.
  - destruct (literal_cons _ _ Hp) as (Hstar & Hq & Hp').
    cbn [app wildPrefix List.length firstn text_eqb]; rewrite Hstar, Hq, andb_true_r.
    destruct (Ascii.eqb w c); cbn [negb andb]; [ apply IH; exact Hp' | reflexivity ].
Qed.

Lemma cstr_whole (s : list ascii) :
  existsb (fun c => Ascii.eqb c NUL) s = false -> cstr s = s.
Proof.
  induction s as [ | c r IH ]; intros H; [ reflexivity | ].
  cbn [existsb] in H; apply orb_false_iff in H; destruct H as [Hc Hr].
  cbn [cstr]; rewrite Hc, (IH Hr); reflexivity.
Qed.

(** With the case respected, a pattern without wildcard and without NUL
    matches the text that is equal to it up to the text's first NUL and no
    other, and such a pattern followed by one star matches exactly the
    texts that start with it. *)
Theorem wildcard_free_patterns (pattern string_to_tst : list ascii) :
  literal pattern = true ->
  existsb (fun c => Ascii.eqb c NUL) pattern = false ->
  WildCompareString pattern string_to_tst true
  = Some (text_eqb pattern (cstr string_to_tst))
  /\ WildCompareString (pattern ++ lit "*") string_to_tst true
     = Some (startsWith (cstr string_to_tst) pattern).
Proof.
  intros Hp Hnul; unfold WildCompareString; split.
  - rewrite (cstr_whole pattern Hnul).
    pose proof (exact_match pattern (cstr string_to_tst)
                  (S (List.length pattern) * S (List.length string_to_tst)) Hp) as H.
    unfold afterPrefix in H; exact H.
  - rewrite (cstr_whole (pattern ++ lit "*"))
      by (rewrite existsb_app, Hnul; reflexivity).
    pose proof (prefix_match pattern (cstr string_to_tst)
                  (List.length string_to_tst
                   + List.length (pattern ++ lit "*") * S (List.length string_to_tst)) Hp)
      as H.
    unfold afterPrefix in H; exact H.
Qed.

Lemma wildcard_free_patterns_witness :
  (literal (lit "R1") = true /\ existsb (fun c => Ascii.eqb c NUL) (lit "R1") = false)
  /\ WildCompareString (lit "R1") (lit "R1") true = Some true
  /\ WildCompareString (lit "R1") (lit "R10") true = Some false
  /\ WildCompareString (lit "R1" ++ lit "*") (lit "R10") true = Some true
  /\ WildCompareString (lit "R1") (lit "R1" ++ NUL :: lit "0") true = Some true.
Proof.
  split; [ split; reflexivity | ].
  destruct (wildcard_free_patterns (lit "R1") (lit "R1") eq_refl eq_refl) as [H1 _].
  destruct (wildcard_free_patterns (lit "R1") (lit "R10") eq_refl eq_refl) as [H2 H3].
  destruct (wildcard_free_patterns (lit "R1") (lit "R1" ++ NUL :: lit "0") eq_refl eq_refl)
    as [H4 _].
  split; [ exact H1 | split; [ exact H2 | split; [ exact H3 | exact H4 ] ] ].
Defined.

(** A star in the middle makes the search go back over the text. *)
Example star_in_the_middle :
  WildCompareString (lit "a*bc") (lit "abbc") true = Some true
  /\ WildCompareString (lit "a*bc") (lit "abcb") true = Some false
  /\ WildCompareString (lit "A?c*") (lit "abcd") false = Some true.
Proof. repeat split. Qed.

Lemma CmpNoCase_length (a : list ascii) :
  forall b, CmpNoCase a b = 0 -> List.length a = List.length b.
Proof.
  induction a as [ | x a IH ]; intros [ | y b ] H; cbn [CmpNoCase] in H;
    try reflexivity; try discriminate H.
  destruct (code (Library.lowerAscii x) ?= code (Library.lowerAscii y));
    try discriminate H.
  cbn [List.length]; f_equal; apply IH; exact H.
Qed.

Section Modifier.

Variable double : Type.
Variable scale : double -> Z -> double.

Local Abbreviation ApplyModifier' := (ApplyModifier double scale).

(** [ApplyModifier] refuses the empty text and nothing else: the test on
    the units asks for a text equal to "F" and to "hz" at once.  A first
    character outside "pnumkKM", 'G' included, leaves the value as it
    is. *)
Theorem apply_modifier_accepts (value : double) (aString : list ascii) :
  (aString = [] -> ApplyModifier' value aString = (false, value))
  /\ (aString <> [] -> fst (ApplyModifier' value aString) = true)
  /\ (forall first after,
         aString = first :: after ->
         existsb (Ascii.eqb first) (lit "pnumkKM") = false ->
         ApplyModifier' value aString = (true, value)).
Proof.
  assert (Hunits : forall units,
             (CmpNoCase units (lit "F") =? 0) && (CmpNoCase units (lit "hz") =? 0) = false).
  { intros units.
    destruct (Z.eqb_spec (CmpNoCase units (lit "F")) 0) as [ HF | ]; [ | reflexivity ].
    destruct (Z.eqb_spec (CmpNoCase units (lit "hz")) 0) as [ Hhz | ]; [ | reflexivity ].
    apply CmpNoCase_length in HF, Hhz; rewrite HF in Hhz; discriminate Hhz. }
  assert (Htest : forall units,
             negb (Nat.eqb (List.length units) 0)
             && (CmpNoCase units (lit "F") =? 0)
             && (CmpNoCase units (lit "hz") =? 0)
             && (CmpNoCase units (lit "W") =? 0)
             && (CmpNoCase units (lit "V") =? 0)
             && (CmpNoCase units (lit "H") =? 0) = false).
  { intros units; rewrite <- (andb_assoc (negb _)), Hunits, andb_false_r; reflexivity. }
  split; [ intros ->; reflexivity | split ].
  - intros Hne; destruct aString as [ | first after ]; [ congruence | ].
    unfold ApplyModifier; rewrite Htest; reflexivity.
  - intros first after -> Hknown; unfold ApplyModifier; rewrite Hknown, Htest.
    reflexivity.
Qed.

End Modifier.

Lemma apply_modifier_accepts_witness :
  ApplyModifier Z (fun v e => v * 10 ^ (e + 12)) 1 [] = (false, 1)
  /\ fst (ApplyModifier Z (fun v e => v * 10 ^ (e + 12)) 1 (lit "kX")) = true
  /\ ApplyModifier Z (fun v e => v * 10 ^ (e + 12)) 1 (lit "GHz") = (true, 1).
Proof.
  destruct (apply_modifier_accepts Z (fun v e => v * 10 ^ (e + 12)) 1 []) as (H0 & _ & _).
  destruct (apply_modifier_accepts Z (fun v e => v * 10 ^ (e + 12)) 1 (lit "kX"))
    as (_ & H1 & _).
  destruct (apply_modifier_accepts Z (fun v e => v * 10 ^ (e + 12)) 1 (lit "GHz"))
    as (_ & _ & H2).
  split; [ apply H0; reflexivity | split; [ apply H1; discriminate | ] ].
  apply (H2 "G"%char (lit "Hz")); reflexivity.
Defined.

End PatternFacts.

(** ** Net counts, the nearest point and sheets without bus *)

Module ImportFacts.

Import Sheet.

Lemma assoc_setCount (m : NetCounts.NET_COUNTS) (k k' : string) (n : Z) :
  assoc k (NetCounts.setCount m k' n) = if String.eqb k k' then Some n else assoc k m.
Proof.
  induction m as [ | [k0 v] r IH ]; cbn [NetCounts.setCount assoc].
  - destruct (String.eqb k k'); reflexivity.
  - destruct (String.eqb_spec k' k0) as [ -> | Hne ]; cbn [assoc].
    + destruct (String.eqb k k0); reflexivity.
    + rewrite IH; destruct (String.eqb_spec k k0) as [ -> | ]; [ | reflexivity ].
      destruct (String.eqb_spec k0 k'); [ congruence | reflexivity ].
Qed.

(** The net nodes [countNets] visits: those of the [nets] of every sheet. *)
Definition allNets (aSchematicNode : wxXmlNode) : list wxXmlNode :=
  flat_map (fun sheetNode => getChildrenNodes sheetNode "nets")
           (getChildrenNodes aSchematicNode "sheets").

Definition named (netName : string) (netNode : wxXmlNode) : bool :=
  String.eqb (GetAttribute netNode "name") netName.

Lemma countNet_count (m : NetCounts.NET_COUNTS) (netNode : wxXmlNode) (netName : string) :
  NetCounts.netCount (NetCounts.countNet m netNode) netName
  = NetCounts.netCount m netName + (if named netName netNode then 1 else 0).
Proof.
  unfold NetCounts.countNet, NetCounts.netCount, named.
  destruct (assoc (GetAttribute netNode "name") m) as [ n | ] eqn:E;
    rewrite assoc_setCount, (String.eqb_sym netName);
    destruct (String.eqb_spec (GetAttribute netNode "name") netName) as [ <- | ];
    try rewrite E; lia.
Qed.

Lemma count_nodes (nets : list wxXmlNode) (netName : string) :
  forall m,
    NetCounts.netCount (fold_left NetCounts.countNet nets m) netName
    = NetCounts.netCount m netName
      + Z.of_nat (List.length (filter (named netName) nets)).
Proof.
  induction nets as [ | n r IH ]; intros m; cbn [fold_left filter]; [ simpl; lia | ].
  rewrite IH, countNet_count; destruct (named netName n); cbn [List.length]; lia.
Qed.

(** After [countNets] the count of a net name is its count before plus the
    number of net elements of that name on all the sheets (a name never
    seen counts 0). *)
Theorem net_count_is_number_of_nets (m : NetCounts.NET_COUNTS) (aSchematicNode : wxXmlNode)
    (netName : string) :
  NetCounts.netCount (NetCounts.countNets m aSchematicNode) netName
  = NetCounts.netCount m netName
    + Z.of_nat (List.length (filter (named netName) (allNets aSchematicNode))).
Proof.
  unfold NetCounts.countNets, allNets.
  generalize (getChildrenNodes aSchematicNode "sheets"); intros sheets; revert m.
  induction sheets as [ | s r IH ]; intros m; cbn [fold_left flat_map]; [ simpl; lia | ].
  rewrite IH; unfold NetCounts.countSheet at 1.
  rewrite count_nodes, filter_app, length_app; lia.
Qed.

(** The value [findNearestLinePoint] compares for a point: the [float] [d]. *)
Definition measure (aPoint testpoint : VECTOR2I) : Floating.float :=
  distance aPoint testpoint.

(** No point of [points] has a value below that of [p]. *)
Definition lowest (aPoint : wxPoint) (p : VECTOR2I) (points : list VECTOR2I) : Prop :=
  forall q, In q points -> Floating.flt (measure aPoint q) (measure aPoint p) = false.

(** What holds of the three locals after some lines have been visited. *)
Definition nearestOf (aPoint : wxPoint) (seen : list SEG) (n : NEAREST) : Prop :=
  match nearestLine n with
  | None => seen = [] /\ nearestPoint n = mkPoint 0 0 /\ mindistance n = None
  | Some line =>
      In line seen
      /\ In (nearestPoint n) [segA line; Center line; segB line]
      /\ mindistance n = Some (measure aPoint (nearestPoint n))
      /\ lowest aPoint (nearestPoint n) (NearestFacts.candidates seen)
  end.

(** The same, while a line is being visited: [tried] are the points of
    that line compared so far. *)
Definition nearestDuring (aPoint : wxPoint) (seen : list SEG) (line : SEG)
    (tried : list VECTOR2I) (n : NEAREST) : Prop :=
  match nearestLine n with
  | None => seen = [] /\ tried = [] /\ nearestPoint n = mkPoint 0 0 /\ mindistance n = None
  | Some l =>
      (In l seen \/ (l = line /\ In (nearestPoint n) tried))
      /\ In (nearestPoint n) [segA l; Center l; segB l]
      /\ mindistance n = Some (measure aPoint (nearestPoint n))
      /\ lowest aPoint (nearestPoint n) (NearestFacts.candidates seen ++ tried)
  end.

Lemma tryPoint_during (aPoint : wxPoint) (seen : list SEG) (line : SEG)
    (tried : list VECTOR2I) (n : NEAREST) (testpoint : VECTOR2I) :
  In testpoint [segA line; Center line; segB line] ->
  (forall q, In q tried -> In q [segA line; Center line; segB line]) ->
  nearestDuring aPoint seen line tried n ->
  nearestDuring aPoint seen line (tried ++ [testpoint]) (tryPoint aPoint line n testpoint).
Proof.
  intros Hin Htried H; unfold nearestDuring, tryPoint, lowest, measure in *.
  destruct (nearestLine n) as [ l | ] eqn:El.
  - destruct H as (Hl & Hp & Hm & Hmin); rewrite Hm.
    destruct (Floating.flt (distance aPoint testpoint) (distance aPoint (nearestPoint n)))
      eqn:Hlt; cbn [nearestLine nearestPoint mindistance]; [ | rewrite El ].
    + split; [ right; split; [ reflexivity | apply in_or_app; right; left; reflexivity ] | ].
      split; [ exact Hin | split; [ reflexivity | ] ].
      intros q Hq; rewrite app_assoc in Hq; apply in_app_or in Hq.
      destruct Hq as [ Hq | [ <- | [] ] ]; [ | apply FloatFacts.flt_irrefl ].
      destruct (Floating.flt (distance aPoint q) (distance aPoint testpoint)) eqn:Hq';
        [ | reflexivity ].
      specialize (Hmin q Hq).
      rewrite (FloatFacts.flt_trans _ _ _ Hq' Hlt) in Hmin; discriminate Hmin.
    + split; [ destruct Hl as [ Hl | [Hl1 Hl2] ];
               [ left; exact Hl | right; split; [ exact Hl1 | apply in_or_app; left; exact Hl2 ] ]
             | ].
      split; [ exact Hp | split; [ exact Hm | ] ].
      intros q Hq; rewrite app_assoc in Hq; apply in_app_or in Hq.
      destruct Hq as [ Hq | [ <- | [] ] ]; [ exact (Hmin q Hq) | exact Hlt ].
  - destruct H as (Hs & Ht & Hp & Hm); rewrite Hm.
    cbn [nearestLine nearestPoint mindistance]; subst seen tried.
    split; [ right; split; [ reflexivity | left; reflexivity ] | ].
    split; [ exact Hin | split; [ reflexivity | ] ].
    intros q [ <- | [] ]; apply FloatFacts.flt_irrefl.
Qed.

Lemma nearestStep_of (aPoint : wxPoint) (seen : list SEG) (line : SEG) (n : NEAREST) :
  nearestOf aPoint seen n ->
  nearestOf aPoint (seen ++ [line]) (nearestStep aPoint n line).
Proof.
  intros H; unfold nearestStep.
  assert (H0 : nearestDuring aPoint seen line [] n).
  { unfold nearestOf, nearestDuring in *; destruct (nearestLine n) as [ l | ].
    - destruct H as (Hl & Hp & Hm & Hmin).
      split; [ left; exact Hl | split; [ exact Hp | split; [ exact Hm | ] ] ].
      intros q Hq; rewrite app_nil_r in Hq; exact (Hmin q Hq).
    - destruct H as (Hs & Hp & Hm); repeat split; assumption. }
  apply (tryPoint_during aPoint seen line [] n (segA line)) in H0;
    [ | simpl; tauto | intros q [] ].
  apply (tryPoint_during aPoint seen line _ _ (Center line)) in H0;
    [ | simpl; tauto | cbn [app]; intros q [ <- | [] ]; simpl; tauto ].
  apply (tryPoint_during aPoint seen line _ _ (segB line)) in H0;
    [ | simpl; tauto | cbn [app]; intros q [ <- | [ <- | [] ] ]; simpl; tauto ].
  cbn [app] in H0; unfold nearestDuring, nearestOf in *.
  destruct (nearestLine (tryPoint aPoint line _ (segB line))) as [ l | ].
  - destruct H0 as (Hl & Hp & Hm & Hmin).
    split; [ apply in_or_app; destruct Hl as [ Hl | [-> _] ];
             [ left; exact Hl | right; left; reflexivity ] | ].
    split; [ exact Hp | split; [ exact Hm | ] ].
    intros q Hq; apply Hmin; unfold NearestFacts.candidates in *.
    rewrite flat_map_app in Hq; cbn [flat_map] in Hq; rewrite app_nil_r in Hq; exact Hq.
  - destruct H0 as (_ & Ht & _); discriminate Ht.
Qed.

Lemma nearest_loop (aPoint : wxPoint) (aLines : list SEG) :
  forall seen n,
    nearestOf aPoint seen n ->
    nearestOf aPoint (seen ++ aLines) (fold_left (nearestStep aPoint) aLines n).
Proof.
  induction aLines as [ | line r IH ]; intros seen n H; cbn [fold_left].
  - rewrite app_nil_r; exact H.
  - replace (seen ++ line :: r) with ((seen ++ [line]) ++ r)
      by (rewrite <- app_assoc; reflexivity).
    apply IH, nearestStep_of; exact H.
Qed.

(** [findNearestLinePoint] returns no line exactly for the empty list, with
    the point (0,0); otherwise it returns a line of the list and the start,
    the centre or the end of that very line, and no candidate has a value
    of [d] below that of the point returned.  [d] is the [float] the
    function compares: the square root, taken in [double] and stored in a
    [float], of the exclusive-or expression (not the distance). *)
Theorem nearest_point_is_a_candidate (aPoint : wxPoint) (aLines : list SEG) :
  match findNearestLinePoint aPoint aLines with
  | (p, None) => aLines = [] /\ p = mkPoint 0 0
  | (p, Some line) =>
      In line aLines
      /\ In p [segA line; Center line; segB line]
      /\ forall q, In q (NearestFacts.candidates aLines) ->
                   Floating.flt (measure aPoint q) (measure aPoint p) = false
  end.
Proof.
  unfold findNearestLinePoint.
  pose proof (nearest_loop aPoint aLines [] (mkNearest (mkPoint 0 0) None None)) as H.
  cbn [app] in H; unfold nearestOf in H at 2.
  specialize (H ltac:(cbn; repeat split)).
  destruct (nearestLine (fold_left _ aLines _)) as [ line | ].
  - destruct H as (Hl & Hp & _ & Hmin); repeat split; assumption.
  - destruct H as (Hs & Hp & _); split; assumption.
Qed.

(** Two arguments of the square root that differ by one give the same
    [float] from about 2^22 on: the later candidate does not replace the
    earlier one although its argument is smaller. *)
Example equal_floats_keep_the_first :
  radicand (mkPoint 4197203 2) (mkPoint 0 0) = 4197201
  /\ radicand (mkPoint 4197203 2) (mkPoint 1 0) = 4197200
  /\ measure (mkPoint 4197203 2) (mkPoint 0 0) = measure (mkPoint 4197203 2) (mkPoint 1 0)
  /\ findNearestLinePoint (mkPoint 4197203 2) [mkSeg (mkPoint 0 0) (mkPoint 1 0)]
     = (mkPoint 0 0, Some (mkSeg (mkPoint 0 0) (mkPoint 1 0))).
Proof. repeat split; vm_compute; reflexivity. Qed.

End ImportFacts.

(** ** Sheets without a bus or without a wire *)

Module QuietSheetFacts.

Import Sheet BusEntries.

Lemma findItem_In (scr : SCH_SCREEN) (a : addr) (i : SCH_ITEM) :
  findItem scr a = Some i -> In (a, i) scr.
Proof.
  induction scr as [ | [a' i'] scr IH ]; cbn [findItem]; [ discriminate | ].
  destruct (Nat.eqb_spec a a') as [ -> | ]; intros H;
    [ inversion H; left; reflexivity | right; apply IH; exact H ].
Qed.

(** No line of the screen is on the given layer. *)
Definition noLineOn (layer : SCH_LAYER_ID) (scr : SCH_SCREEN) : bool :=
  forallb (fun e => match snd e with
                    | ItemLine l => negb (layer_eqb (lineLayer l) layer)
                    | _ => true
                    end) scr.

Lemma noLineOn_find (layer : SCH_LAYER_ID) (scr : SCH_SCREEN) (a : addr) (l : SCH_LINE) :
  noLineOn layer scr = true -> findItem scr a = Some (ItemLine l) ->
  layer_eqb (lineLayer l) layer = false.
Proof.
  intros Hno Hfind; apply findItem_In in Hfind.
  unfold noLineOn in Hno; rewrite forallb_forall in Hno.
  specialize (Hno _ Hfind); cbn [snd] in Hno; apply negb_true_iff; exact Hno.
Qed.

Section Facts.

Variable TestSegmentHit : wxPoint -> wxPoint -> wxPoint -> Z -> bool.
Variable Overlapping : SCH_ITEM -> SCH_LINE -> bool.

Local Abbreviation addBusEntries' := (addBusEntries TestSegmentHit Overlapping).

Lemma wiresAfter_quiet (bus : SCH_LINE) (rest : list addr) (st : SheetState) :
  noLineOn LAYER_WIRE (screen st) = true ->
  wiresAfter TestSegmentHit Overlapping bus rest st = st.
Proof.
  intros Hno; induction rest as [ | la rest IH ]; cbn [wiresAfter]; [ reflexivity | ].
  destruct (findItem (screen st) la) as [ [ line | | | | | ] | ] eqn:E; try exact IH.
  rewrite (noLineOn_find _ _ _ _ Hno E); exact IH.
Qed.

Lemma busLoop_quiet (lines : list addr) (st : SheetState) :
  noLineOn LAYER_BUS (screen st) = true \/ noLineOn LAYER_WIRE (screen st) = true ->
  busLoop TestSegmentHit Overlapping lines st = st.
Proof.
  intros Hno; induction lines as [ | ba rest IH ]; cbn [busLoop]; [ reflexivity | ].
  destruct (findItem (screen st) ba) as [ [ bus | | | | | ] | ] eqn:E; try exact IH.
  destruct Hno as [ Hbus | Hwire ].
  - rewrite (noLineOn_find _ _ _ _ Hbus E); exact IH.
  - destruct (layer_eqb (lineLayer bus) LAYER_BUS); [ | exact IH ].
    rewrite (wiresAfter_quiet bus rest st Hwire); exact IH.
Qed.

(** [addBusEntries] leaves a sheet as it is when the sheet holds no bus
    line, and when it holds no wire. *)
Theorem sheet_without_bus_is_untouched (st : SheetState) :
  noLineOn LAYER_BUS (screen st) = true \/ noLineOn LAYER_WIRE (screen st) = true ->
  addBusEntries' st = st.
Proof. intros H; unfold addBusEntries; apply busLoop_quiet; exact H. Qed.

End Facts.

Lemma sheet_without_bus_is_untouched_witness :
  let st := mkSheet [ (0%nat, ItemLine (mkLine LAYER_WIRE (mkPoint 0 0) (mkPoint 300 0) false));
                      (1%nat, ItemJunction (mkPoint 0 0)) ] 2%nat [] [] [] [] in
  noLineOn LAYER_BUS (screen st) = true
  /\ addBusEntries TestSegmentHit_exact (fun _ _ => true) st = st.
Proof.
  split; [ reflexivity | ].
  apply (sheet_without_bus_is_untouched TestSegmentHit_exact (fun _ _ => true));
    left; reflexivity.
Defined.

End QuietSheetFacts.

(** ** What the bus-entry synthesizer leaves alone *)

Module FrameFacts.

Import Sheet BusEntries.

(** The items the synthesizer has no business with: every item but the
    wires and the net labels. *)
Definition protected (i : SCH_ITEM) : bool :=
  match i with
  | ItemLine l => negb (layer_eqb (lineLayer l) LAYER_WIRE)
  | ItemText t => negb (isLabel t)
  | _ => true
  end.

(** Every protected item of [st] is found unchanged at its address in
    [st'], and the connection points and reports are the same. *)
Definition keeps (st st' : SheetState) : Prop :=
  (forall a i, findItem (screen st) a = Some i -> protected i = true ->
               findItem (screen st') a = Some i)
  /\ m_connPoints st' = m_connPoints st
  /\ m_reports st' = m_reports st.

Lemma keeps_refl (st : SheetState) : keeps st st.
Proof. repeat split; auto. Qed.

Lemma keeps_trans (a b c : SheetState) : keeps a b -> keeps b c -> keeps a c.
Proof.
  intros (H1 & H2 & H3) (H4 & H5 & H6); repeat split; try congruence.
  intros x i Hx Hp; apply H4; [ apply H1; assumption | exact Hp ].
Qed.

Lemma findItem_setItem_other (scr : SCH_SCREEN) (a la : addr) (x : SCH_ITEM) :
  Nat.eqb a la = false -> findItem (setItem scr la x) a = findItem scr a.
Proof.
  intros Hne; induction scr as [ | [a' i'] scr IH ]; cbn [setItem findItem]; [ reflexivity | ].
  destruct (Nat.eqb_spec la a') as [ <- | ]; cbn [findItem].
  - rewrite Hne; reflexivity.
  - rewrite IH; reflexivity.
Qed.

Lemma findItem_DeleteItem_other (scr : SCH_SCREEN) (a la : addr) :
  Nat.eqb a la = false -> findItem (DeleteItem scr la) a = findItem scr a.
Proof.
  intros Hne; induction scr as [ | [a' i'] scr IH ]; cbn [DeleteItem findItem];
    [ reflexivity | ].
  destruct (Nat.eqb_spec la a') as [ <- | ]; cbn [findItem].
  - rewrite Hne; reflexivity.
  - rewrite IH; reflexivity.
Qed.

Section Facts.

Variable TestSegmentHit : wxPoint -> wxPoint -> wxPoint -> Z -> bool.
Variable Overlapping : SCH_ITEM -> SCH_LINE -> bool.

Local Abbreviation moveLabels' := (moveLabels TestSegmentHit Overlapping).

Lemma findItem_moveLabels_any (scr : SCH_SCREEN) (w : SCH_LINE) (p : wxPoint) (a : addr)
    (i : SCH_ITEM) :
  findItem scr a = Some i ->
  match i with ItemText t => isLabel t = false | _ => True end ->
  findItem (moveLabels' scr w p) a = Some i.
Proof.
  unfold moveLabels; induction scr as [ | [a' i'] scr IH ]; cbn [map findItem];
    [ discriminate | ].
  intros Hf Hp; unfold moveLabel at 1; cbn [snd fst].
  destruct (Nat.eqb a a') eqn:Ha.
  - inversion Hf; subst i'; destruct i as [ | | t | | | ]; cbn [findItem fst];
      try (rewrite Ha; reflexivity).
    rewrite Hp, andb_false_r; cbn [andb findItem]; rewrite Ha; reflexivity.
  - destruct i'; cbn [findItem fst]; try (rewrite Ha; apply IH; assumption).
    destruct (_ && _); cbn [findItem]; rewrite Ha; apply IH; assumption.
Qed.

Lemma protected_moveLabels (scr : SCH_SCREEN) (w : SCH_LINE) (p : wxPoint) (a : addr)
    (i : SCH_ITEM) :
  findItem scr a = Some i -> protected i = true ->
  findItem (moveLabels' scr w p) a = Some i.
Proof.
  intros Hf Hp; apply findItem_moveLabels_any; [ exact Hf | ].
  destruct i; try exact I; apply negb_true_iff; exact Hp.
Qed.

(** The wire under test, while it exists, is a wire of the screen. *)
Definition wired (acc : SheetState * WIRE) : Prop :=
  match snd (snd acc) with
  | Some line =>
      findItem (screen (fst acc)) (fst (snd acc)) = Some (ItemLine line)
      /\ layer_eqb (lineLayer line) LAYER_WIRE = true
  | None => True
  end.

(** An action keeps the protected items and its wire. *)
Definition sound (acc acc' : SheetState * WIRE) : Prop :=
  keeps (fst acc) (fst acc') /\ wired acc'.

Lemma not_the_wire (scr : SCH_SCREEN) (a la : addr) (i : SCH_ITEM) (line : SCH_LINE) :
  findItem scr la = Some (ItemLine line) ->
  layer_eqb (lineLayer line) LAYER_WIRE = true ->
  findItem scr a = Some i -> protected i = true ->
  Nat.eqb a la = false.
Proof.
  intros Hl Hw Hi Hp; destruct (Nat.eqb_spec a la) as [ -> | ]; [ | reflexivity ].
  rewrite Hl in Hi; inversion Hi; subst i; cbn [protected] in Hp.
  rewrite Hw in Hp; discriminate Hp.
Qed.

(** Append an item, move the labels of the wire, then replace the wire or
    delete it: the steps every branch is made of. *)
Lemma replace_sound (st : SheetState) (la : addr) (line line' : SCH_LINE) (x : SCH_ITEM)
    (p : wxPoint) :
  wired (st, (la, Some line)) ->
  lineLayer line' = lineLayer line ->
  let st1 := appendNew st x in
  let st2 := withScreen st1 (moveLabels' (screen st1) line p) in
  sound (st, (la, Some line))
        (withScreen st2 (setItem (screen st2) la (ItemLine line')), (la, Some line')).
Proof.
  intros [Hf Hw] Hlayer; cbn [fst snd] in Hf.
  unfold sound, keeps, wired, appendNew, alloc, appendItem, withScreen;
    cbn [fst snd screen heapNext m_connPoints m_reports].
  assert (H1 : findItem (moveLabels' (Append (screen st) (heapNext st) x) line p) la
               = Some (ItemLine line))
    by (apply BusEntryFacts.findItem_moveLabels, BusEntryFacts.findItem_Append, Hf).
  split; [ split; [ | split; reflexivity ] | ].
  - intros a i Hi Hp.
    rewrite findItem_setItem_other by exact (not_the_wire _ _ _ _ _ Hf Hw Hi Hp).
    apply protected_moveLabels; [ apply BusEntryFacts.findItem_Append; exact Hi | exact Hp ].
  - split; [ eapply BusEntryFacts.findItem_setItem; exact H1 | rewrite Hlayer; exact Hw ].
Qed.

Lemma delete_sound (st : SheetState) (la : addr) (line : SCH_LINE) (x : SCH_ITEM)
    (p : wxPoint) :
  wired (st, (la, Some line)) ->
  let st1 := appendNew st x in
  let st2 := withScreen st1 (moveLabels' (screen st1) line p) in
  sound (st, (la, Some line))
        (withScreen st2 (DeleteItem (screen st2) la), (la, @None SCH_LINE)).
Proof.
  intros [Hf Hw]; cbn [fst snd] in Hf.
  unfold sound, keeps, wired, appendNew, alloc, appendItem, withScreen;
    cbn [fst snd screen heapNext m_connPoints m_reports].
  split; [ split; [ | split; reflexivity ] | exact I ].
  intros a i Hi Hp.
  rewrite findItem_DeleteItem_other by exact (not_the_wire _ _ _ _ _ Hf Hw Hi Hp).
  apply protected_moveLabels; [ apply BusEntryFacts.findItem_Append; exact Hi | exact Hp ].
Qed.

Lemma entryAtStart_sound st w e f n :
  wired (st, w) -> sound (st, w) (entryAtStart TestSegmentHit Overlapping st w e f n).
Proof.
  destruct w as [la [ line | ]]; intros H; unfold entryAtStart; cbn [snd fst].
  - apply replace_sound; [ exact H | reflexivity ].
  - split; [ apply keeps_refl | exact I ].
Qed.

Lemma entryAtEnd_sound st w e f n :
  wired (st, w) -> sound (st, w) (entryAtEnd TestSegmentHit Overlapping st w e f n).
Proof.
  destruct w as [la [ line | ]]; intros H; unfold entryAtEnd; cbn [snd fst].
  - apply replace_sound; [ exact H | reflexivity ].
  - split; [ apply keeps_refl | exact I ].
Qed.

Lemma diagonalAtStart_sound st w e f t o :
  wired (st, w) -> sound (st, w) (diagonalAtStart TestSegmentHit Overlapping st w e f t o).
Proof.
  destruct w as [la [ line | ]]; intros H; unfold diagonalAtStart; cbn [snd fst].
  - destruct (point_eqb t o);
      [ apply delete_sound; exact H | apply replace_sound; [ exact H | reflexivity ] ].
  - split; [ apply keeps_refl | exact I ].
Qed.

Lemma diagonalAtEnd_sound st w e f t o :
  wired (st, w) -> sound (st, w) (diagonalAtEnd TestSegmentHit Overlapping st w e f t o).
Proof.
  destruct w as [la [ line | ]]; intros H; unfold diagonalAtEnd; cbn [snd fst].
  - destruct (point_eqb t o);
      [ apply delete_sound; exact H | apply replace_sound; [ exact H | reflexivity ] ].
  - split; [ apply keeps_refl | exact I ].
Qed.

Lemma needMarker_sound st w p : wired (st, w) -> sound (st, w) (needMarker st w p).
Proof.
  intros H; unfold needMarker, sound, keeps, wired in *.
  unfold appendNew, alloc, appendItem, withScreen;
    cbn [fst snd screen heapNext m_connPoints m_reports] in *.
  split; [ split; [ | split; reflexivity ] | ].
  - intros a i Hi _; apply BusEntryFacts.findItem_Append; exact Hi.
  - destruct (snd w); [ | exact I ].
    destruct H as [Hf Hw]; split; [ apply BusEntryFacts.findItem_Append; exact Hf | exact Hw ].
Qed.

Lemma sound_refl acc : wired acc -> sound acc acc.
Proof. intros H; split; [ apply keeps_refl | exact H ]. Qed.

Lemma sound_trans a b c : sound a b -> (wired b -> sound b c) -> sound a c.
Proof.
  intros [H1 H2] H; destruct (H H2) as [H3 H4].
  split; [ exact (keeps_trans _ _ _ H1 H3) | exact H4 ].
Qed.

Section Blocks.

Variables busstart busend : wxPoint.

Ltac case_block :=
  cbv zeta;
  repeat match goal with
         | |- context [if ?b then _ else _] => destruct b
         end;
  first [ apply entryAtStart_sound | apply entryAtEnd_sound
        | apply diagonalAtStart_sound | apply diagonalAtEnd_sound
        | apply needMarker_sound | apply sound_refl ];
  assumption.

Lemma horizontalStart_sound acc ls le :
  wired acc ->
  sound acc (horizontalStart TestSegmentHit Overlapping busstart busend acc ls le).
Proof. destruct acc as [st w]; intros H; unfold horizontalStart; case_block. Qed.

Lemma horizontalEnd_sound acc ls le :
  wired acc ->
  sound acc (horizontalEnd TestSegmentHit Overlapping busstart busend acc ls le).
Proof. destruct acc as [st w]; intros H; unfold horizontalEnd; case_block. Qed.

Lemma verticalStart_sound acc ls le :
  wired acc ->
  sound acc (verticalStart TestSegmentHit Overlapping busstart busend acc ls le).
Proof. destruct acc as [st w]; intros H; unfold verticalStart; case_block. Qed.

Lemma verticalEnd_sound acc ls le :
  wired acc ->
  sound acc (verticalEnd TestSegmentHit Overlapping busstart busend acc ls le).
Proof. destruct acc as [st w]; intros H; unfold verticalEnd; case_block. Qed.

Lemma freeStart_sound acc ls le :
  wired acc ->
  sound acc (freeStart TestSegmentHit Overlapping busstart busend acc ls le).
Proof. destruct acc as [st w]; intros H; unfold freeStart; case_block. Qed.

Lemma freeEnd_sound acc ls le :
  wired acc ->
  sound acc (freeEnd TestSegmentHit Overlapping busstart busend acc ls le).
Proof.
  destruct acc as [st w]; intros H; unfold freeEnd.
  destruct (snd w) eqn:E; [ case_block | apply sound_refl; exact H ].
Qed.

Lemma busWirePair_keeps (st : SheetState) (la : addr) (line : SCH_LINE) :
  findItem (screen st) la = Some (ItemLine line) ->
  layer_eqb (lineLayer line) LAYER_WIRE = true ->
  keeps st (fst (busWirePair TestSegmentHit Overlapping busstart busend st la line)).
Proof.
  intros Hf Hw.
  pose (acc0 := (st, (la, Some line)) : SheetState * WIRE).
  pose (acc1 := if (py (lineStart line) =? py (lineEnd line)) && (px busstart =? px busend)
                then horizontalEnd TestSegmentHit Overlapping busstart busend
                       (horizontalStart TestSegmentHit Overlapping busstart busend acc0
                                        (lineStart line) (lineEnd line))
                       (lineStart line) (lineEnd line)
                else acc0).
  pose (acc2 := if (px (lineStart line) =? px (lineEnd line)) && (py busstart =? py busend)
                then verticalEnd TestSegmentHit Overlapping busstart busend
                       (verticalStart TestSegmentHit Overlapping busstart busend acc1
                                      (lineStart line) (lineEnd line))
                       (lineStart line) (lineEnd line)
                else acc1).
  pose (acc3 := match snd (snd acc2) with
                | Some line' =>
                    freeEnd TestSegmentHit Overlapping busstart busend
                            (freeStart TestSegmentHit Overlapping busstart busend
                                       acc2 (lineStart line') (lineEnd line'))
                            (lineStart line') (lineEnd line')
                | None => acc2
                end).
  change (keeps (fst acc0) (fst acc3)).
  assert (H0 : sound acc0 acc0) by (apply sound_refl; split; assumption).
  assert (H1 : sound acc0 acc1).
  { unfold acc1.
    generalize ((py (lineStart line) =? py (lineEnd line)) && (px busstart =? px busend)).
    intros [ | ]; [ | exact H0 ].
    eapply sound_trans; [ apply horizontalStart_sound; apply H0 | ].
    apply horizontalEnd_sound. }
  clearbody acc1.
  assert (H2 : sound acc0 acc2).
  { unfold acc2.
    generalize ((px (lineStart line) =? px (lineEnd line)) && (py busstart =? py busend)).
    intros [ | ]; [ | exact H1 ].
    eapply sound_trans; [ exact H1 | intros Hw1 ].
    eapply sound_trans; [ apply verticalStart_sound; exact Hw1 | ].
    apply verticalEnd_sound. }
  clearbody acc2.
  assert (H3 : sound acc0 acc3).
  { unfold acc3; destruct (snd (snd acc2)) as [ line' | ]; [ | exact H2 ].
    eapply sound_trans; [ exact H2 | intros Hw2 ].
    eapply sound_trans; [ apply freeStart_sound; exact Hw2 | ].
    apply freeEnd_sound. }
  exact (proj1 H3).
Qed.

End Blocks.

Lemma wiresAfter_keeps (bus : SCH_LINE) (rest : list addr) :
  forall st, keeps st (wiresAfter TestSegmentHit Overlapping bus rest st).
Proof.
  induction rest as [ | la rest IH ]; intros st; cbn [wiresAfter]; [ apply keeps_refl | ].
  destruct (findItem (screen st) la) as [ [ line | | | | | ] | ] eqn:E; try apply IH.
  destruct (layer_eqb (lineLayer line) LAYER_WIRE) eqn:Hw; [ | apply IH ].
  eapply keeps_trans; [ apply busWirePair_keeps; eassumption | apply IH ].
Qed.

Lemma busLoop_keeps (lines : list addr) :
  forall st, keeps st (busLoop TestSegmentHit Overlapping lines st).
Proof.
  induction lines as [ | ba rest IH ]; intros st; cbn [busLoop]; [ apply keeps_refl | ].
  destruct (findItem (screen st) ba) as [ [ bus | | | | | ] | ]; try apply IH.
  destruct (layer_eqb (lineLayer bus) LAYER_BUS); [ | apply IH ].
  eapply keeps_trans; [ apply wiresAfter_keeps | apply IH ].
Qed.

(** [addBusEntries] changes wires and net labels only: a bus, a line of a
    frame, a junction, a plain text, a component, a bus entry or a marker
    that is on the sheet before is found unchanged at its address after,
    and the connection points and the reports stay as they were. *)
Theorem bus_entries_touch_wires_and_labels_only (st : SheetState) (a : addr)
    (i : SCH_ITEM) :
  findItem (screen st) a = Some i ->
  protected i = true ->
  findItem (screen (addBusEntries TestSegmentHit Overlapping st)) a = Some i
  /\ m_connPoints (addBusEntries TestSegmentHit Overlapping st) = m_connPoints st
  /\ m_reports (addBusEntries TestSegmentHit Overlapping st) = m_reports st.
Proof.
  intros Hf Hp; destruct (busLoop_keeps (lineAddrs (screen st)) st) as (Hk & Hc & Hr).
  unfold addBusEntries; split; [ apply Hk; assumption | split; assumption ].
Qed.

End Facts.

Lemma bus_entries_touch_wires_and_labels_only_witness :
  let st := BusEntryFacts.sheet_with BusEntryFacts.short_bus in
  findItem (screen st) 0%nat = Some (ItemLine BusEntryFacts.short_bus)
  /\ protected (ItemLine BusEntryFacts.short_bus) = true
  /\ findItem (screen (addBusEntries TestSegmentHit_exact (fun _ _ => true) st)) 0%nat
     = Some (ItemLine BusEntryFacts.short_bus).
Proof.
  split; [ reflexivity | split; [ reflexivity | ] ].
  apply (bus_entries_touch_wires_and_labels_only TestSegmentHit_exact (fun _ _ => true)
           (BusEntryFacts.sheet_with BusEntryFacts.short_bus) 0%nat
           (ItemLine BusEntryFacts.short_bus)); reflexivity.
Defined.

End FrameFacts.

(** ** What the label corrector leaves alone *)

Module CorrectorFrameFacts.

Import Sheet.

(** The same item, but for the position of a text. *)
Definition sameButPosition (i i' : SCH_ITEM) : Prop :=
  match i with
  | ItemText t => exists pos, i' = ItemText (SetTextPosition t pos)
  | _ => i' = i
  end.

(** The same addresses in the same order, and at each address the same
    item but for the position of a text. *)
Definition onlyMoves (scr scr' : SCH_SCREEN) : Prop :=
  map fst scr' = map fst scr
  /\ forall a i, findItem scr a = Some i ->
                 exists i', findItem scr' a = Some i' /\ sameButPosition i i'.

Lemma sameButPosition_refl (i : SCH_ITEM) : sameButPosition i i.
Proof.
  destruct i as [ | | t | | | ]; cbn [sameButPosition]; try reflexivity.
  exists (textPos t); destruct t; reflexivity.
Qed.

Lemma sameButPosition_trans (i j k : SCH_ITEM) :
  sameButPosition i j -> sameButPosition j k -> sameButPosition i k.
Proof.
  destruct i as [ | | t | | | ]; cbn [sameButPosition]; try (intros -> H; exact H).
  intros [p ->] [q ->]; exists q; reflexivity.
Qed.

Lemma onlyMoves_refl (scr : SCH_SCREEN) : onlyMoves scr scr.
Proof.
  split; [ reflexivity | ].
  intros a i H; exists i; split; [ exact H | apply sameButPosition_refl ].
Qed.

Lemma onlyMoves_trans (a b c : SCH_SCREEN) : onlyMoves a b -> onlyMoves b c -> onlyMoves a c.
Proof.
  intros [H1 H2] [H3 H4]; split; [ congruence | ].
  intros x i Hx; destruct (H2 x i Hx) as (j & Hj & Hij).
  destruct (H4 x j Hj) as (k & Hk & Hjk).
  exists k; split; [ exact Hk | exact (sameButPosition_trans _ _ _ Hij Hjk) ].
Qed.

Lemma setItem_addresses (scr : SCH_SCREEN) (a : addr) (x : SCH_ITEM) :
  map fst (setItem scr a x) = map fst scr.
Proof.
  induction scr as [ | [a' i'] scr IH ]; cbn [setItem map]; [ reflexivity | ].
  destruct (Nat.eqb a a'); cbn [map fst]; [ reflexivity | rewrite IH; reflexivity ].
Qed.

Lemma move_text (scr : SCH_SCREEN) (label : addr) (t : SCH_TEXT) (pos : VECTOR2I) :
  findItem scr label = Some (ItemText t) ->
  onlyMoves scr (setItem scr label (ItemText (SetTextPosition t pos))).
Proof.
  intros Hf; split; [ apply setItem_addresses | ].
  intros a i Hi; destruct (Nat.eqb a label) eqn:E.
  - apply Nat.eqb_eq in E; subst a; rewrite Hf in Hi; inversion Hi; subst i.
    exists (ItemText (SetTextPosition t pos)).
    split; [ eapply BusEntryFacts.findItem_setItem; exact Hf | exists pos; reflexivity ].
  - exists i; rewrite FrameFacts.findItem_setItem_other by exact E.
    split; [ exact Hi | apply sameButPosition_refl ].
Qed.

Section Facts.

Variable Mils2iu : Z -> Z.
Variable Contains : SEG -> VECTOR2I -> bool.
Variable Resize : VECTOR2I -> Z -> VECTOR2I.
Variable vlt : VECTOR2I -> VECTOR2I -> bool.

Lemma moveAlong_moves fuel ws scr label t labelPos segAttached scr' :
  findItem scr label = Some (ItemText t) ->
  moveAlong Mils2iu Contains Resize vlt fuel ws scr label t labelPos segAttached = Some scr' ->
  onlyMoves scr scr'.
Proof.
  intros Hf; unfold moveAlong.
  destruct (displace _ _ _ _ _ _ _ _ _ _ _ _) as [ [pos [ | ]] | ]; intros H;
    inversion H; subst scr'; [ apply move_text; exact Hf | apply onlyMoves_refl ].
Qed.

Lemma adjustLabel_moves fuel ws segDesc scr label scr' :
  adjustLabel Mils2iu Contains Resize vlt fuel ws segDesc scr label = Some scr' ->
  onlyMoves scr scr'.
Proof.
  unfold adjustLabel.
  destruct (findItem scr label) as [ [ | | t | | | ] | ] eqn:Hf; intros H;
    try (inversion H; apply onlyMoves_refl).
  destruct (LabelAttached Contains (segs segDesc) (textPos t)) as [ seg | ].
  - destruct (negb (onIntersection vlt ws (textPos t)));
      [ inversion H; apply onlyMoves_refl | eapply moveAlong_moves; eassumption ].
  - destruct (findNearestLinePoint (textPos t) (segs segDesc)) as [nearest [ seg | ]];
      [ eapply moveAlong_moves; eassumption | inversion H; apply onlyMoves_refl ].
Qed.

Lemma adjustLabels_moves fuel ws segDesc (l : list addr) :
  forall scr scr',
    adjustLabels Mils2iu Contains Resize vlt fuel ws segDesc scr l = Some scr' ->
    onlyMoves scr scr'.
Proof.
  induction l as [ | label r IH ]; intros scr scr' H; cbn [adjustLabels] in H.
  - inversion H; apply onlyMoves_refl.
  - destruct (adjustLabel _ _ _ _ _ _ _ _ _) as [ scr1 | ] eqn:E; [ | discriminate H ].
    exact (onlyMoves_trans _ _ _ (adjustLabel_moves _ _ _ _ _ _ E) (IH _ _ H)).
Qed.

Lemma adjustGroups_moves fuel ws (descs : list SEG_DESC) :
  forall scr scr',
    adjustGroups Mils2iu Contains Resize vlt fuel ws scr descs = Some scr' ->
    onlyMoves scr scr'.
Proof.
  induction descs as [ | d r IH ]; intros scr scr' H; cbn [adjustGroups] in H.
  - inversion H; apply onlyMoves_refl.
  - destruct (adjustLabels _ _ _ _ _ _ _ _ _) as [ scr1 | ] eqn:E; [ | discriminate H ].
    exact (onlyMoves_trans _ _ _ (adjustLabels_moves _ _ _ _ _ _ E) (IH _ _ H)).
Qed.

(** When [adjustNetLabels] returns, the sheet holds the same items at the
    same addresses, texts possibly at another position and nothing else
    changed; the lists of segment groups and of wire intersections are
    empty, and the connection points and reports are as before. *)
Theorem corrector_only_moves_labels (fuel : nat) (st st' : SheetState) :
  adjustNetLabels Mils2iu Contains Resize vlt fuel st = Some st' ->
  onlyMoves (screen st) (screen st')
  /\ m_segments st' = [] /\ m_wireIntersections st' = []
  /\ m_connPoints st' = m_connPoints st /\ m_reports st' = m_reports st.
Proof.
  unfold adjustNetLabels.
  destruct (adjustGroups _ _ _ _ _ _ _ _) as [ scr | ] eqn:E; intros H; inversion H.
  cbn; repeat split; try reflexivity.
  - destruct (adjustGroups_moves _ _ _ _ _ E) as [Ha _]; exact Ha.
  - destruct (adjustGroups_moves _ _ _ _ _ E) as [_ Hi]; exact Hi.
Qed.

End Facts.

Definition labelled_sheet : SheetState :=
  mkSheet [ (0%nat, ItemText DetachedFacts.far_label);
            (1%nat, ItemJunction (mkPoint 200 0)) ] 2%nat
          [mkSegDesc [0%nat] [DetachedFacts.lone_wire]] [mkPoint 200 0] [] [].

Lemma corrector_only_moves_labels_witness :
  exists st',
    adjustNetLabels (fun mils => mils) CorrectorFacts.Contains_exact
                    CorrectorFacts.Resize_scaled CorrectorFacts.vlt_lex 11 labelled_sheet
    = Some st'
    /\ onlyMoves (screen labelled_sheet) (screen st')
    /\ findItem (screen st') 0%nat
       = Some (ItemText (SetTextPosition DetachedFacts.far_label (mkPoint 150 0))).
Proof.
  eexists; split; [ reflexivity | split; [ | reflexivity ] ].
  apply (corrector_only_moves_labels (fun mils => mils) CorrectorFacts.Contains_exact
           CorrectorFacts.Resize_scaled CorrectorFacts.vlt_lex 11 labelled_sheet).
  reflexivity.
Defined.

End CorrectorFrameFacts.

(** ** An instance that is resolved *)

Module PlacedFacts.

Import Sheet Instances.

Lemma connFind_emplace_same (m : CONN_POINTS) (p : wxPoint) (r : EDA_ITEM_REF) :
  exists refs, connFind (connEmplace m p r) p = Some refs /\ In r refs.
Proof.
  induction m as [ | [q s] m IH ]; cbn [connEmplace connFind].
  - rewrite point_eqb_refl; exists [r]; split; [ reflexivity | left; reflexivity ].
  - destruct (point_eqb p q) eqn:E; cbn [connFind]; rewrite E; [ | exact IH ].
    exists (setInsert s r); split; [ reflexivity | ].
    unfold setInsert; destruct (existsb (ref_eqb r) s) eqn:Ex.
    + apply existsb_exists in Ex; destruct Ex as (x & Hx & Hrx).
      replace r with x; [ exact Hx | ].
      destruct r, x; cbn [ref_eqb] in Hrx; try discriminate Hrx.
      * apply Nat.eqb_eq in Hrx; congruence.
      * apply andb_true_iff in Hrx; destruct Hrx as [H1 H2].
        apply Nat.eqb_eq in H1, H2; congruence.
    + apply in_or_app; right; left; reflexivity.
Qed.

Lemma connFind_emplace_kept (m : CONN_POINTS) (p q : wxPoint) (r x : EDA_ITEM_REF)
    (refs : list EDA_ITEM_REF) :
  connFind m q = Some refs -> In x refs ->
  exists refs', connFind (connEmplace m p r) q = Some refs' /\ In x refs'.
Proof.
  induction m as [ | [q0 s] m IH ]; cbn [connEmplace connFind]; [ discriminate | ].
  intros Hf Hx; destruct (point_eqb p q0) eqn:Ep; cbn [connFind].
  - destruct (point_eqb q q0); [ | exists refs; split; assumption ].
    inversion Hf; subst s; exists (setInsert refs r); split; [ reflexivity | ].
    unfold setInsert; destruct (existsb _ refs); [ exact Hx | apply in_or_app; left; exact Hx ].
  - destruct (point_eqb q q0); [ exists refs; split; assumption | apply IH; assumption ].
Qed.

Section Facts.

Variable ToSchUnits : Z -> Z.
Variable fixSymbolName : string -> string.
Variable E : Alignment.ETEXT_ALIGN.
Variable getLibName : string.
Variable LoadSymbol : string -> option LIB_PART.
Variable TableLoadSymbol : string -> string -> option LIB_PART.
Variable GetPinPhysicalPosition : SCH_COMPONENT -> LIB_PIN -> wxPoint.
Variable sheetPath : string.
Variable m_partlist : list (string * EPART).
Variable m_eagleLibs : list (string * Library.EAGLE_LIBRARY).

Local Abbreviation loadInstance' :=
  (loadInstance ToSchUnits fixSymbolName E getLibName LoadSymbol TableLoadSymbol
                GetPinPhysicalPosition sheetPath m_partlist m_eagleLibs).
Local Abbreviation buildComponent' := (buildComponent ToSchUnits E getLibName sheetPath).
Local Abbreviation savePins' := (savePins GetPinPhysicalPosition).

(** The library, the symbol and the unit a component stands for. *)
Definition identity (c : SCH_COMPONENT) : string * string * Z :=
  (cmpLibName c, cmpSymbolName c, cmpUnit c).

Lemma instanceChild_identity (einstance : EINSTANCE) (acc : SCH_COMPONENT * bool * bool)
    (n : wxXmlNode) :
  identity (fst (fst (instanceChild ToSchUnits E einstance acc n)))
  = identity (fst (fst acc)).
Proof.
  destruct acc as [[c v] r]; unfold instanceChild, instanceAttribute.
  destruct n as [name attrs content view children]; cbn [GetName fst].
  repeat match goal with
         | |- context [if ?b then _ else _] => destruct b
         | |- context [match assoc ?k ?l with _ => _ end] => destruct (assoc k l)
         end; reflexivity.
Qed.

Lemma buildComponent_identity (aInstanceNode : wxXmlNode) (einstance : EINSTANCE)
    (epart : EPART) (part : LIB_PART) (kisymbolname package_ : string) (unit : Z) :
  identity (buildComponent' aInstanceNode einstance epart part kisymbolname package_ unit)
  = (getLibName, kisymbolname, unit).
Proof.
  unfold buildComponent.
  set (c0 := match ei_rot einstance with Some _ => _ | None => _ end).
  assert (H0 : identity c0 = (getLibName, kisymbolname, unit)).
  { unfold c0; destruct (ei_rot einstance) as [ r | ]; [ | reflexivity ].
    destruct (rot_mirror r); reflexivity. }
  set (c1 := fold_left _ (epart_variant epart) _).
  assert (H1 : identity c1 = (getLibName, kisymbolname, unit)).
  { unfold c1.
    apply (PowerFacts.fold_left_invariant
             (fun c => identity c = (getLibName, kisymbolname, unit)));
      [ intros a b Ha; exact Ha | ].
    apply (PowerFacts.fold_left_invariant
             (fun c => identity c = (getLibName, kisymbolname, unit)));
      [ intros a b Ha; exact Ha | ].
    destruct (allDigits _); exact H0. }
  pose proof (PowerFacts.fold_left_invariant
                (fun acc : SCH_COMPONENT * bool * bool =>
                   identity (fst (fst acc)) = (getLibName, kisymbolname, unit))
                (instanceChild ToSchUnits E einstance) (GetChildren aInstanceNode)
                (fun a b Ha => eq_trans (instanceChild_identity einstance a b) Ha)
                (c1, false, false) H1) as H2.
  destruct (fold_left _ (GetChildren aInstanceNode) (c1, false, false)) as [[c v] n].
  cbn [fst] in H2.
  destruct (ei_smashed einstance) as [ [ | ] | ]; try exact H2.
  destruct v, n; exact H2.
Qed.

(** Every pin the loop visits is recorded at its position. *)
Lemma savePins_records (component : SCH_COMPONENT) (a : addr) (pins : list LIB_PIN) :
  forall cp i pin,
    In pin pins ->
    exists refs k,
      connFind (savePins' cp component a pins i) (GetPinPhysicalPosition component pin)
      = Some refs
      /\ In (PinRef a k) refs.
Proof.
  assert (Hkept : forall pins cp i q refs x,
             connFind cp q = Some refs -> In x refs ->
             exists refs', connFind (savePins' cp component a pins i) q = Some refs'
                           /\ In x refs').
  { clear pins; induction pins as [ | p r IH ]; intros cp i q refs x Hf Hx;
      cbn [savePins]; [ exists refs; split; assumption | ].
    destruct (connFind_emplace_kept cp (GetPinPhysicalPosition component p) q
                (PinRef a i) x refs Hf Hx) as (refs' & Hf' & Hx').
    exact (IH _ _ _ _ _ Hf' Hx'). }
  induction pins as [ | p r IH ]; intros cp i pin Hin; [ destruct Hin | ].
  cbn [savePins]; destruct Hin as [ -> | Hin ]; [ | apply IH; exact Hin ].
  destruct (connFind_emplace_same cp (GetPinPhysicalPosition component pin) (PinRef a i))
    as (refs & Hf & Hx).
  destruct (Hkept r _ (S i) _ _ _ Hf Hx) as (refs' & Hf' & Hx').
  exists refs', i; split; assumption.
Qed.

(** An instance whose part is listed and whose symbol is found in the
    imported library and in the library table adds one item to the sheet,
    the component of that symbol and of the unit of its gate, at a new
    address; no report is made; and every pin of that unit is recorded at
    its position among the connection points. *)
Theorem resolved_instance_is_placed (st : SheetState) (aInstanceNode : wxXmlNode)
    (epart : EPART) (part libSymbol : LIB_PART) :
  let einstance := EINSTANCE_of aInstanceNode in
  let kisymbolname :=
    fixSymbolName (Library.removeStars (epart_deviceset epart ++ epart_device epart)) in
  let unit :=
    gateUnitOf m_eagleLibs (epart_library epart)
               (epart_deviceset epart ++ epart_device epart ++ ei_gate einstance) in
  assoc (Library.Upper (ei_part einstance)) m_partlist = Some epart ->
  LoadSymbol kisymbolname = Some part ->
  TableLoadSymbol getLibName kisymbolname = Some libSymbol ->
  exists component,
    screen (loadInstance' st aInstanceNode)
    = screen st ++ [(heapNext st, ItemComponent component)]
    /\ identity component = (getLibName, kisymbolname, unit)
    /\ cmpPartRef component = Some libSymbol
    /\ m_reports (loadInstance' st aInstanceNode) = m_reports st
    /\ forall pin,
         In pin (pinsOf libSymbol unit) ->
         exists refs k,
           connFind (m_connPoints (loadInstance' st aInstanceNode))
                    (GetPinPhysicalPosition component pin) = Some refs
           /\ In (PinRef (heapNext st) k) refs.
Proof.
  intros einstance kisymbolname unit Hpart Hsym Htable; unfold loadInstance.
  fold einstance; rewrite Hpart; fold kisymbolname; rewrite Hsym; fold unit.
  set (built := buildComponent' aInstanceNode einstance epart part kisymbolname _ unit).
  pose proof (buildComponent_identity aInstanceNode einstance epart part kisymbolname
                (packageOf m_eagleLibs (epart_library epart) kisymbolname) unit) as Hid.
  fold built in Hid; unfold identity in Hid; inversion Hid as [[Hlib Hname Hunit]].
  rewrite Hlib, Hname, Htable.
  exists (withPartRef built (Some libSymbol)).
  unfold alloc, appendItem, withConnPoints, withScreen, Append;
    cbn [screen heapNext m_connPoints m_reports fst snd].
  split; [ reflexivity | split; [ | split; [ reflexivity | split ] ] ];
    [ | reflexivity | ].
  - unfold identity; cbn [withPartRef cmpLibName cmpSymbolName cmpUnit]; congruence.
  - intros pin Hin; apply savePins_records.
    cbn [withPartRef cmpUnit]; congruence.
Qed.

End Facts.

Definition lead (name : string) (x : Z) : LIB_PIN :=
  mkPin (mkPoint x 0) name name 1 "R" 100 None None PINSHAPE_LINE PT_PASSIVE.

Definition resistor : LIB_PART :=
  mkPart "R-EU_0204" 1 false false Library.default_LIB_FIELD Library.default_LIB_FIELD
         [LibPin (lead "1" (-200)); LibPin (lead "2" 200)].

Definition resistor_part : EPART := mkEPart "R1" "rcl" "R-EU" "_0204" None [] [].

Definition rcl : Library.EAGLE_LIBRARY :=
  Library.mkLibrary "rcl" [] [("R-EU_0204G$1"%string, 1)] [("R-EU_0204"%string, "0204/7"%string)]
                    [("R-EU_0204"%string, resistor)].

Definition resistor_instance : wxXmlNode :=
  XmlNode "instance" [] EmptyString
          (VInstance (mkEInstance "r1" "G$1" 100 200 None None)) [].

Definition wired_sheet : SheetState :=
  mkSheet [(0%nat, ItemJunction (mkPoint 0 0))] 1%nat [] []
          [(mkPoint 200 0, [WireRef 7%nat])] [].

Definition resistor_placed : SheetState :=
  loadInstance (fun c => c) (fun s => s) Alignment.eagle_align "eagle-import"
               (fun _ => Some resistor) (fun _ _ => Some resistor) (fun _ p => pinPos p)
               "/" [("R1"%string, resistor_part)] [("rcl"%string, rcl)] wired_sheet resistor_instance.

Lemma resolved_instance_is_placed_witness :
  assoc (Library.Upper (ei_part (EINSTANCE_of resistor_instance))) [("R1"%string, resistor_part)]
  = Some resistor_part
  /\ exists component,
       screen resistor_placed
       = screen wired_sheet ++ [(heapNext wired_sheet, ItemComponent component)]
       /\ identity component = ("eagle-import"%string, "R-EU_0204"%string, 1)
       /\ cmpPartRef component = Some resistor
       /\ m_reports resistor_placed = m_reports wired_sheet
       /\ forall pin,
            In pin (pinsOf resistor 1) ->
            exists refs k,
              connFind (m_connPoints resistor_placed) (pinPos pin) = Some refs
              /\ In (PinRef (heapNext wired_sheet) k) refs.
Proof.
  split; [ reflexivity | ].
  exact (resolved_instance_is_placed
           (fun c => c) (fun s => s) Alignment.eagle_align "eagle-import"
           (fun _ => Some resistor) (fun _ _ => Some resistor) (fun _ p => pinPos p)
           "/" [("R1"%string, resistor_part)] [("rcl"%string, rcl)] wired_sheet resistor_instance
           resistor_part resistor resistor eq_refl eq_refl eq_refl).
Defined.

(** The second lead lands on the point where a wire already ends. *)
Example lead_meets_wire :
  connFind (m_connPoints resistor_placed) (mkPoint 200 0)
  = Some [WireRef 7%nat; PinRef 1%nat 1%nat].
Proof. reflexivity. Qed.

End PlacedFacts.

(** ** Labels for power inputs left open *)

Module ImplicitFacts.

Import Sheet MissingUnits.

Section Facts.

Variable Mils2iu : Z -> Z.
Variable GetPinPhysicalPosition : SCH_COMPONENT -> LIB_PIN -> wxPoint.

Local Abbreviation addImplicitConnections' :=
  (addImplicitConnections Mils2iu GetPinPhysicalPosition).
Local Abbreviation implicitPin' := (implicitPin Mils2iu GetPinPhysicalPosition).

(** A power input of the component's unit with nothing else attached at its
    position, judged on the connection points [cp]. *)
Definition leftOpen (cp : CONN_POINTS) (aComponent : SCH_COMPONENT) (pin : LIB_PIN) : bool :=
  match pinType pin with
  | PT_POWER_IN =>
      ((cmpUnit aComponent =? 0) || (pinUnit pin =? cmpUnit aComponent))
      && negb (checkConnections GetPinPhysicalPosition cp aComponent pin)
  | _ => false
  end.

(** The global label that names the net of a pin. *)
Definition netLabelOf (aComponent : SCH_COMPONENT) (pin : LIB_PIN) : SCH_ITEM :=
  ItemText (mkSchText SCH_GLOBAL_LABEL_T (GetPinPhysicalPosition aComponent pin)
                      (extractNetName (pinName pin)) (Mils2iu 40, Mils2iu 40) SPIN_LEFT
                      false default_EDA_TEXT).

Lemma implicitPin_step (aComponent : SCH_COMPONENT) (aUpdateSet : bool)
    (st : SheetState) (missing : list Z) (pin : LIB_PIN) :
  exists missing',
    implicitPin' aComponent aUpdateSet (st, missing) pin
    = (if leftOpen (m_connPoints st) aComponent pin
       then appendNew st (netLabelOf aComponent pin) else st, missing').
Proof.
  unfold implicitPin, leftOpen.
  destruct (pinType pin); try (exists missing; reflexivity).
  destruct ((cmpUnit aComponent =? 0) || (pinUnit pin =? cmpUnit aComponent));
    cbn [andb].
  - destruct (checkConnections GetPinPhysicalPosition (m_connPoints st) aComponent pin);
      exists missing; reflexivity.
  - destruct aUpdateSet; eexists; reflexivity.
Qed.

Lemma implicitPin_loop (aComponent : SCH_COMPONENT) (aUpdateSet : bool)
    (pins : list LIB_PIN) :
  forall (st : SheetState) (missing : list Z),
    let st' := fst (fold_left (implicitPin' aComponent aUpdateSet) pins (st, missing)) in
    map snd (screen st')
    = map snd (screen st)
      ++ map (netLabelOf aComponent) (filter (leftOpen (m_connPoints st) aComponent) pins)
    /\ m_connPoints st' = m_connPoints st
    /\ m_reports st' = m_reports st.
Proof.
  induction pins as [ | pin r IH ]; intros st missing; cbn [fold_left filter map].
  - rewrite app_nil_r; repeat split.
  - cbv zeta in IH |- *.
    destruct (implicitPin_step aComponent aUpdateSet st missing pin) as (missing' & ->).
    destruct (leftOpen (m_connPoints st) aComponent pin); [ | exact (IH st missing') ].
    specialize (IH (appendNew st (netLabelOf aComponent pin)) missing').
    destruct IH as (Hs & Hc & Hr); split; [ | split; assumption ].
    rewrite Hs; unfold appendNew, alloc, appendItem, withScreen, Append;
      cbn [screen m_connPoints m_reports heapNext map].
    rewrite map_app, <- app_assoc; reflexivity.
Qed.

(** For a component of a part that is not a power part,
    [addImplicitConnections] appends to the sheet one global label per power
    input pin of the component's unit that has nothing else attached, in the
    order of the pins, placed on the pin and named by the pin name up to its
    first '@'.  A label added for one pin does not count as a connection of
    a later pin; connection points and reports are not changed. *)
Theorem open_power_inputs_get_labels (st : SheetState) (m : MISSING_CMPS)
    (aComponent : SCH_COMPONENT) (part : LIB_PART) (aUpdateSet : bool) :
  cmpPartRef aComponent = Some part ->
  partPower part = false ->
  let st' := fst (addImplicitConnections' st m aComponent aUpdateSet) in
  map snd (screen st')
  = map snd (screen st)
    ++ map (netLabelOf aComponent)
           (filter (leftOpen (m_connPoints st) aComponent) (allPins part))
  /\ m_connPoints st' = m_connPoints st
  /\ m_reports st' = m_reports st.
Proof.
  intros Hpart Hpower; unfold addImplicitConnections; rewrite Hpart, Hpower.
  pose proof (implicitPin_loop aComponent aUpdateSet (allPins part) st []) as H.
  cbv zeta in H |- *.
  destruct (fold_left _ (allPins part) (st, [])) as [st1 missing]; cbn [fst] in H.
  destruct (aUpdateSet && (1 <? partUnitCount part)); exact H.
Qed.

End Facts.

Definition rail (name : string) (unit : Z) (y : Z) : LIB_PIN :=
  mkPin (mkPoint 0 y) name name unit "R" 100 None None PINSHAPE_LINE PT_POWER_IN.

Definition amplifier : LIB_PART :=
  mkPart "AMP" 2 true false Library.default_LIB_FIELD Library.default_LIB_FIELD
         [LibPin (rail "V+@1" 1 100); LibPin (rail "V-" 1 (-100)); LibPin (rail "GND" 2 0)].

Definition amplifier_unit : SCH_COMPONENT :=
  mkComponent "lib" "AMP" 1 (mkPoint 0 0) CMP_ORIENT_0 false EmptyString
              (Instances.fieldSetText (Instances.new_SCH_FIELD "Reference") "U1")
              (Instances.new_SCH_FIELD "Value") [] [] (Some amplifier).

(** The negative rail already meets a wire; the positive rail is open. *)
Definition amplifier_sheet : SheetState :=
  mkSheet [(0%nat, ItemComponent amplifier_unit)] 1%nat [] []
          [(mkPoint 0 100, [PinRef 0%nat 0%nat]);
           (mkPoint 0 (-100), [PinRef 0%nat 1%nat; WireRef 5%nat])] [].

Lemma open_power_inputs_get_labels_witness :
  let st' := fst (addImplicitConnections (fun m => m) (fun _ p => pinPos p)
                    amplifier_sheet [] amplifier_unit true) in
  map snd (screen st')
  = [ItemComponent amplifier_unit;
     ItemText (mkSchText SCH_GLOBAL_LABEL_T (mkPoint 0 100) "V+" (40, 40) SPIN_LEFT false
                         default_EDA_TEXT)]
  /\ m_connPoints st' = m_connPoints amplifier_sheet
  /\ m_reports st' = m_reports amplifier_sheet.
Proof.
  exact (open_power_inputs_get_labels (fun m => m) (fun _ p => pinPos p) amplifier_sheet []
           amplifier_unit amplifier true eq_refl eq_refl).
Defined.

End ImplicitFacts.

(** ** The layer of an imported line *)

Module LayerFacts.

Import Sheet Layers.

Lemma layerFind_layerAssign (m : list (Z * SCH_LAYER_ID)) (k j : Z) (v : SCH_LAYER_ID) :
  layerFind (layerAssign m k v) j = if j =? k then Some v else layerFind m j.
Proof.
  induction m as [ | [k' v'] r IH ]; cbn [layerAssign layerFind]; [ reflexivity | ].
  destruct (k =? k') eqn:E1; [ apply Z.eqb_eq in E1; subst k' | ].
  - cbn [layerFind]; destruct (j =? k); reflexivity.
  - destruct (k <? k'); cbn [layerFind]; [ reflexivity | ].
    rewrite IH; destruct (j =? k') eqn:E2; [ | reflexivity ].
    apply Z.eqb_eq in E2; subst k'; rewrite Z.eqb_sym, E1; reflexivity.
Qed.

(** What a layer name stands for, for the names that stand for something. *)
Definition meaning (name : string) : option SCH_LAYER_ID :=
  if String.eqb name "Nets" then Some LAYER_WIRE
  else if String.eqb name "Info" then Some LAYER_NOTES
  else if String.eqb name "Guide" then Some LAYER_NOTES
  else if String.eqb name "Busses" then Some LAYER_BUS
  else None.

(** The definition that decides layer [n]: the last one of that number whose
    name stands for something. *)
Definition deciding (layers : list ELAYER) (n : Z) : option ELAYER :=
  find (fun l => (el_number l =? n)
                 && match meaning (el_name l) with Some _ => true | None => false end)
       (rev layers).

Lemma find_snoc {A : Type} (p : A -> bool) (l : list A) (x : A) :
  find p (l ++ [x])
  = match find p l with Some y => Some y | None => if p x then Some x else None end.
Proof.
  induction l as [ | a r IH ]; cbn [app find]; [ reflexivity | ].
  destruct (p a); [ reflexivity | exact IH ].
Qed.

Lemma kiCadLayer_layerStep (m : list (Z * SCH_LAYER_ID)) (l : ELAYER) (n : Z) :
  kiCadLayer (layerStep m l) n
  = if el_number l =? n
    then match meaning (el_name l) with Some x => x | None => kiCadLayer m n end
    else kiCadLayer m n.
Proof.
  unfold layerStep, meaning, kiCadLayer.
  destruct (String.eqb (el_name l) "Nets");
    [ rewrite layerFind_layerAssign, (Z.eqb_sym n);
      destruct (el_number l =? n); reflexivity | ].
  destruct (String.eqb (el_name l) "Info"); cbn [orb];
    [ rewrite layerFind_layerAssign, (Z.eqb_sym n);
      destruct (el_number l =? n); reflexivity | ].
  destruct (String.eqb (el_name l) "Guide");
    [ rewrite layerFind_layerAssign, (Z.eqb_sym n);
      destruct (el_number l =? n); reflexivity | ].
  destruct (String.eqb (el_name l) "Busses");
    [ rewrite layerFind_layerAssign, (Z.eqb_sym n);
      destruct (el_number l =? n); reflexivity | ].
  destruct (el_number l =? n); reflexivity.
Qed.

(** After [loadLayerDefs], an Eagle layer number maps to the KiCad layer of
    the last definition of that number named Nets, Busses, Info or Guide:
    wire, bus, notes, notes.  Definitions under any other name are passed
    over, also when they come later; a number that no such definition
    decides keeps what it had before the call, which is notes when it had
    nothing. *)
Theorem layer_of_last_known_definition (ELAYER_of : wxXmlNode -> ELAYER)
    (m : list (Z * SCH_LAYER_ID)) (aLayers : wxXmlNode) (n : Z) :
  kiCadLayer (loadLayerDefs ELAYER_of m aLayers) n
  = match deciding (eagleLayersOf ELAYER_of aLayers) n with
    | Some l => match meaning (el_name l) with Some x => x | None => LAYER_NOTES end
    | None => kiCadLayer m n
    end.
Proof.
  unfold loadLayerDefs, deciding; generalize (eagleLayersOf ELAYER_of aLayers) as layers.
  intros layers; revert m; induction layers as [ | l r IH ]; intros m;
    cbn [fold_left rev find]; [ reflexivity | ].
  rewrite IH, find_snoc; clear IH.
  destruct (find _ (rev r)) as [ y | ]; [ reflexivity | ].
  rewrite kiCadLayer_layerStep; cbv beta.
  destruct (el_number l =? n); cbn [andb]; [ | reflexivity ].
  destruct (meaning (el_name l)) eqn:Em; [ rewrite Em | ]; reflexivity.
Qed.

Definition layerNode (number name : string) : wxXmlNode :=
  XmlNode "layer" [("number"%string, number); ("name"%string, name)] EmptyString VNone [].

Definition readLayer (node : wxXmlNode) : ELAYER :=
  mkELayer (if String.eqb (GetAttribute node "number") "91" then 91
            else if String.eqb (GetAttribute node "number") "92" then 92
            else 94)
           (GetAttribute node "name").

(** Layer 91 is defined as Nets and then again as Symbols: it stays a wire
    layer.  Layer 94 is only ever Symbols: its lines are notes. *)
Example redefined_layer :
  let layers := XmlNode "layers" [] EmptyString VNone
                        [layerNode "91" "Nets"; layerNode "92" "Busses";
                         layerNode "91" "Symbols"; layerNode "94" "Symbols"] in
  map (kiCadLayer (loadLayerDefs readLayer [] layers)) [91; 92; 94]
  = [LAYER_WIRE; LAYER_BUS; LAYER_NOTES].
Proof. reflexivity. Qed.

End LayerFacts.
